(* ===== verification/_CoqProject ===== *)
-Q . S2P
Prelude.v
PosixTime.v
Internal.v
Alloc.v
Cbs.v
CbsFacts.v
Der.v
Cbb.v
CbbFacts.v
CbbAsn1.v
Oid.v
Builder.v
Unicode.v
Ber.v
Base64.v
Stack.v
StackFacts.v
ByteString.v
LHash.v
LHashFacts.v
SslVersions.v
SslBuffer.v
SslBufferFacts.v
SslExtensions.v
SslHello.v
Buf.v
Straightline.v
Fiat25519.v
Fiat25519Facts.v
X25519.v
X25519Facts.v
FfiAbi.v
FfiHost.v
FfiStep.v
FfiFacts.v
FfiLifecycle.v
FfiCore.v
FfiContract.v
FfiStart.v
FfiShutdown.v
FfiErrors.v
FfiPackets.v
FfiRun.v
FfiExamples.v
RustStr.v
IpText.v
IpTextFacts.v
Target.v
Vless.v
Xudp.v
XudpFacts.v
XudpMux.v
XudpStream.v
VisionTls.v
VisionTlsFacts.v
Vision.v
VisionRead.v
VisionDecode.v
VisionWrite.v
RecordBounded.v
WebSocket.v
WebSocketFacts.v
Rules.v
RulesFacts.v
FakeIp.v
FakeIpFacts.v
Policy.v
PolicyFacts.v
UrlTest.v
PolicyExamples.v
FfiPolicy.v
Ipv6Frag.v
Ipv6FragFacts.v
Ipv6FragRoundtrip.v
DnsCache.v
Sniff.v
SniffFacts.v
Grpc.v
GrpcFacts.v
GrpcPool.v
