(* ===== verification/Prelude.v ===== *)
(** * Verification of meta-rust

    meta-rust is a proxy core.  Mobile and desktop hosts embed it through a C
    interface (src/crates/ffi); behind it, src/crates/core routes connections
    according to the rules and groups of a configuration (src/crates/config);
    the protocol crates speak TLS and REALITY through a vendored, locally patched
    copy of BoringSSL (src/third-party/boring-sys/deps/boringssl).  The patch
    gives the proxy control over the ClientHello: the order of the extensions,
    delegated credentials, the record size limit.  This library models the C
    interface, the policy of the core, the streams and frames of its protocols,
    and the C++ code a ClientHello goes through, from the word primitives and
    X25519 up to the bytes handed to the transport.

    ** The C interface (src/crates/ffi: meta_rust.h, lib.rs, host.rs)

    - FfiAbi: the types and constants of the header, the calls ([call]), the
      buffers a caller owns, [outcome] for Result and panics, [boundary],
      [input] and [output].
    - FfiHost: the state of the library in a process ([world]: registry,
      handles, thread-local error texts, callbacks) and every exported function
      up to the point where it returns or waits ([exec]).  The core behind a
      handle is the class [CoreOps].
    - FfiStep: the step relation that interleaves the threads of the host, the
      worker thread of every handle, the tasks of its runtime and the callbacks.
      A call is atomic up to the point where it waits, because it holds the lock
      of what it reads and writes; time-outs, panics and the answers of the
      operating system may occur whenever the thread is at the point concerned.
    - FfiFacts, FfiLifecycle: what calls do, the invariant, and how handles
      change; FfiContract, FfiStart, FfiShutdown, FfiErrors, FfiPackets: the
      promises of the header; FfiRun: an interpreter of the relation;
      FfiExamples: a session and the theorems at its states.
    - FfiCore: the cores behind the handles change by the operations of
      [CoreOps] only, so that a property the core promises ([CoreLaws]) holds
      for every handle.

    ** The policy of the core (src/crates/config, src/crates/core)

    - RustStr: the methods of [str] the crates use, on lists of characters.
    - Rules, RulesFacts (config/src/rule.rs): conditions, their parser and
      three-valued evaluation, sets of domains and of addresses.  The crates
      regex and ipnet are the class [RuleLibs], with the documented meaning of a
      network in [RuleLaws].
    - Policy, PolicyFacts (config/src/lib.rs, core/src/lib.rs, profile.rs,
      resources.rs): the validation of names, groups and rules; the policy of a
      running core with every operation that changes it; the routing decision.
      The policy at the start of a decision and the one at its end are separate
      arguments, as the code waits for DNS in between.
    - UrlTest: the rounds of probes of a group, which interleave with the other
      tasks of the core at every probe.  PolicyExamples: a configuration.
    - FfiPolicy: this core as the [CoreOps] of the C interface, and a session.

    - FakeIp, FakeIpFacts (core/src/dns.rs, [restore_target] of
      core/src/lib.rs): the map of names and fake addresses, as a state machine
      of queries and profile loads.  The parser of names of the crate hickory is
      a parameter.
    - DnsCache ([cached_exchange] and [clear_cache] of core/src/dns.rs): the
      cache of the resolver.  An exchange waits between the look-up and the
      update, so these are two operations; the theorems are about every sequence
      of updates and clearings under a clock that does not go back.
    - Sniff, SniffFacts (core/src/sniff.rs, the port ranges of
      config/src/compat.rs): the host of a connection from its first bytes.  The
      crate httparse is the class [HttpParser]; a read gives bytes, the end, an
      error, or is cut off by the time-out.
    - Ipv6Frag, Ipv6FragFacts, Ipv6FragRoundtrip (core/src/packet_ipv6.rs): fragmentation and the reassembly queue.  The
      crate smoltcp is the class [Smoltcp] with the layout of RFC 8200 and the
      meaning of a range assembler in [SmoltcpLaws], which Ipv6FragRoundtrip
      instantiates.

    ** The protocols (src/crates/protocol)

    - IpText, IpTextFacts: the text of IP addresses, as the Rust library parses
      and prints it.  Target (lib.rs): destinations.
    - Vless (vless.rs): requests and addresses on the wire.
    - Xudp, XudpFacts, XudpMux, XudpStream (xudp.rs): frames; the multiplexer as
      a state machine whose steps are its operations, the frames of the peer and
      the end of the stream; its reader on a stream that arrives in pieces.
      Sessions have keys of their own, because a route knows only the 16-bit
      identifier on the wire.
    - VisionTls, VisionTlsFacts (vision.rs): the parser that recognises the TLS
      handshake inside the stream.
    - Vision (vision.rs, vless.rs, record.rs): [VisionStream] over
      [ResponseStream] over [RecordStream], poll by poll.  The transport is a
      list of pieces, where an empty piece is a poll that is not ready; TLS is a
      pair of byte streams, one inside it and one under it.
    - VisionRead: the class [Reader], what every layer promises to the one above
      ([ReaderLaws]): it delivers exactly what it has left, and polling makes
      progress.  The transport, [RecordStream], [ResponseStream] and, in
      VisionDecode, [VisionStream] are its instances; VisionDecode defines the
      framing as a function of all the bytes.  VisionWrite: the writer.
    - RecordBounded (record.rs): the stream the TLS library reads from.
    - WebSocket, WebSocketFacts (websocket.rs): the frames and
      the stream after the upgrade, again an instance of [Reader].
    - Grpc, GrpcFacts (grpc.rs): Gun messages and [GrpcStream] over what the polls
      of the crate h2 answer, another instance of [Reader].
    - GrpcPool (grpc.rs): the connections that streams share.  The
      tasks that call [connect] interleave at its awaits, where they may also fail
      or be dropped; the counters of a connection may change between two reads.
      The limits belong to the calls, as the key of a pool leaves them out.

    ** BoringSSL (src/third-party/boring-sys/deps/boringssl)

    - Prelude: machine words as [Z] with explicit wrap-around ([wrap], [u8] to
      [u64]), byte strings, big- and little-endian values, memory writes, the
      monad of fallible stateful operations ([fallible], [let*], [check]) and
      the tactics and hint databases of the library.
    - PosixTime (crypto/asn1/posix_time.cc): civil time and seconds.
    - Internal (crypto/internal.h, crypto/mem.cc): constant-time masks, loads
      and stores, rotations, carry chains, character classes.
    - Alloc (crypto/mem.cc): the allocator, as the class [Malloc]: any call may
      fail, a successful one returns a block of the requested size with
      arbitrary contents.
    - Cbs, CbsFacts, Der (crypto/bytestring/cbs.cc): the reader.  A [CBS] is
      its remaining window; an operation is a parser that returns the value and
      the new window.  Der describes the encodings the readers accept.
    - Cbb, CbbFacts, CbbAsn1 (crypto/bytestring/cbb.cc): the builder.  A [CBB]
      is the buffer with the chain of pending children; a [handle] names the
      object an operation is called on, so that calls on closed or foreign
      children are part of the model.  CbbFacts relates a builder to the stack
      of byte strings it stands for ([rep], [refines]).
    - Builder: programs over the builder (any sequence of calls) and their
      output, against the two kinds of buffers.
    - Oid, ByteString (crypto/bytestring/cbs.cc, cbb.cc): object
      identifiers as text, RFC 5280 times, and the theorems that connect
      readers and writers.
    - Unicode (crypto/bytestring/unicode.cc) and Ber (crypto/bytestring/ber.cc).
    - Base64 (crypto/base64/base64.cc): block and streaming coders.
    - Stack, StackFacts (crypto/stack/stack.cc): std::sort is the class
      [StdSort].  LHash, LHashFacts (crypto/lhash/lhash.cc): chains of nodes
      with addresses, so that an iteration whose callback deletes nodes can be
      checked for dangling pointers.
    - SslVersions (ssl/ssl_versions.cc): version ranges and negotiation.
    - SslBuffer, SslBufferFacts (ssl/ssl_buffer.cc, class SSLBuffer of
      ssl/internal.h): the transport buffers over the class [Bio].
    - SslExtensions, SslHello (ssl/extensions.cc): the extension table, the
      order and permutation of the extensions, padding, the pre_shared_key
      extension and [ssl_add_clienthello_tlsext]; the callbacks of the table are
      described by the class [ExtensionCallbacks], which two patched callbacks
      instantiate; [tls13_psk_binder] and the writer of a ClientHelloInner are
      parameters.
    - Buf (crypto/buf/buf.cc, crypto/bytestring/asn1_compat.cc).
    - Straightline, Fiat25519, Fiat25519Facts (third_party/fiat/curve25519_64.h)
      and X25519, X25519Facts (crypto/curve25519/curve25519.cc): the field
      arithmetic assignment by assignment at the width of its C types, with the
      interval arithmetic that shows that nothing wraps, the Montgomery ladder
      and the X25519 entry points, against the definitions of RFC 7748.  The
      routines in assembly language are parameters of the build
      ([x25519_build]).

    Errors are values: a fallible operation of the C++ code returns [None] with
    the state it leaves behind, alerts are the right summand of a sum, a Rust
    function returns an [outcome].  Pointers that a function may be given or
    return as null are options.  Where the C++ code asserts or reads out of
    bounds the model fails ([None]).

    ** What the theorems show

    - The C interface: the invariant of every reachable state, in which a call
      that waits is known to its worker (C1); a core is
      started at most once (C2); after stop or destroy nothing runs (C3), and
      they return (C4); handles are never reused (C5, C9); packets keep their
      order and none is lost by a small buffer (C6, C11); every failure has its
      text and panics are contained (C7); callbacks cannot reenter (C8); the
      protocol of output buffers (C10).
    - Routing: in every state hosts can bring the library to, every connection
      is given a proxy of the configuration after at most one DNS lookup (C12);
      the lazy evaluation of rules decides as the eager one (C13); selections
      stay inside the groups (C14); the search for cycles ends (C15); the sets of
      addresses are the unions they stand for (C16).
    - Group tests: after a round the selected member is within the tolerance of
      the fastest, whatever other tasks do in between (C17).
    - Vision: a stream read in any way delivers exactly the content of its
      frames and then the plain or direct bytes, and ends (C18); what one end
      writes the other end reads (C19); TLS 1.3 inside is recognised however the
      handshake is cut and whatever the client sends (C20); the TLS library never reads into the next record
      (C21).
    - WebSocket: what one end writes in non-empty pieces the other end reads,
      however it is cut (C22); a control frame hides the data that follows it until the peer sends
      more (C23).
    - XUDP: the packets of the peer reach their sessions, in order and complete
      up to the queue (C24); a frame changes the session of its
      identifier only, and that exactly as it says (C25); a session
      the peer has ended can close another one that has its identifier (C26).
    - gRPC: what one end writes the other end reads (C27); the limits on
      connections and streams hold in every interleaving, also of calls with
      different limits (C28).
    - IPv6 fragments: the fragments of a packet, in any order and among others,
      are put together to the packet (C29); nothing but the chain of fragments of
      one packet ever is, and the queue does not panic (C30).
    - Sniffing: the server name is found exactly when the ClientHello is complete,
      up to 32768 bytes (C31); no byte of the connection is lost, and the first
      name found replaces the host, which alone changes (C32).
    - DNS cache: what it returns is fresh (C33); it returns what it has stored
      until that expires, and removes an entry only when it has expired or, the
      oldest first, when 4096 entries or 8 MiB leave no room (C34); it is bounded,
      counting keys and responses (C35).
    - Fake addresses: no two names share one (C36), a name keeps its own and
      connections are restored to it (C37).
    - X25519 in its portable routine is the function of RFC 7748 (C38).
    - ClientHello without pre-shared keys: the bytes written, their order, the
      [sent] set and every way to fail (C39).
    - Builder: any program over a growing builder writes its output or fails
      (C40).

    Further theorems of the files (the interpreter of the C interface has the steps
    of the relation, sets of domains are unions, rules nest boundedly, a member of
    a tested group that stops answering is kept, an unpadded Vision reply of less
    than 21 bytes is lost, a WebSocket length near 2^64 makes the reader panic,
    addresses survive the wire, a saved profile restores the fake addresses, the
    configured order of extensions is followed exactly, the reassembly queue is
    bounded, the readers of DER elements accept what the writers write, BER conversion gives DER, filling the read buffer loses
    nothing, base64 and its streaming coders, the calendar and the times of
    certificates, UTF-8, object identifiers, stacks and hash tables as maps,
    version negotiation, write buffers, builders over fixed buffers, XUDP
    identifiers and others) stand next to the definitions they are about.

    ** Fuel and bounds

    Loops over a window run on fuel equal to the length of the window, of which
    every round consumes at least one byte; the recursions of Ber.v are bounded
    by [kMaxDepth] and those of the rule parser by 32 levels, as in the source;
    the search for cyclic groups has the number of groups plus two as fuel, which
    C15 shows to be enough; the binary search has the number of elements, the
    transport loops the number of bytes to move; a poll of the Vision stream
    runs at most 66 rounds, because it yields after 64 frames; ten groups of seven
    bits hold every varint of 64 bits; a poll of a gRPC stream has the bytes and
    answers at hand as fuel, the eviction from the DNS cache the entries, of which
    every round removes one.  The theorems
    state totality
    where fuel is involved: the functions return a result under their
    hypotheses.  Sizes are 64-bit; bounds such as [2^62] in hypotheses are below
    every size an allocator can serve and keep the doubling of capacities from
    wrapping.

    ** Not modelled

    Of the proxy: the exchange of DNS messages with the upstreams, the TLS and
    REALITY transports, the set-up of gRPC connections and the WebSocket upgrade,
    the TUN stack around smoltcp, dialing, [Target::parse] (it uses the crate
    http), the XUDP and VLESS sessions without multiplexer, the fields of the
    configuration the policy does not use and the files behind profiles and
    resources: they are sockets, files and calls into other crates, which the
    theorems meet as parameters or as the steps of an environment.  Of BoringSSL:
    the handshake state machines, records, the key schedule, certificates, the
    encrypted ClientHello, the callbacks of the other extensions, the ciphers and
    digests. *)

From Stdlib Require Export ZArith Lia.
From stdpp Require Export base list numbers option sets.

#[global] Open Scope Z_scope.

(** ** Automation *)

Create HintDb bytes_db.
Create HintDb word_db.

(** Turn boolean comparisons in hypotheses and goal into propositions. *)
Ltac bool_to_prop :=
  repeat match goal with
  | H : (_ && _)%bool = true |- _ => apply andb_true_iff in H; destruct H
  | H : (_ || _)%bool = false |- _ => apply orb_false_iff in H; destruct H
  | H : negb _ = true |- _ => apply negb_true_iff in H
  | H : negb _ = false |- _ => apply negb_false_iff in H
  | H : (_ <? _) = true |- _ => apply Z.ltb_lt in H
  | H : (_ <? _) = false |- _ => apply Z.ltb_ge in H
  | H : (_ <=? _) = true |- _ => apply Z.leb_le in H
  | H : (_ <=? _) = false |- _ => apply Z.leb_gt in H
  | H : (_ =? _) = true |- _ => apply Z.eqb_eq in H
  | H : (_ =? _) = false |- _ => apply Z.eqb_neq in H
  end.

(** Case split on the condition of an [if] of the goal or of a hypothesis. *)
Ltac case_if :=
  match goal with
  | |- context [if ?b then _ else _] => destruct b eqn:?
  | H : context [if ?b then _ else _] |- _ => destruct b eqn:?
  end.

(** Linear arithmetic with division and remainder by constants. *)
Ltac div_lia := Z.to_euclidean_division_equations; lia.

(** ** Machine words

    A value of an unsigned w-bit C type is a [Z] in [0, 2^w); [wrap w] is the
    conversion to that type. *)

Definition wrap (w z : Z) : Z := z mod 2 ^ w.
Definition word (w z : Z) : Prop := 0 <= z < 2 ^ w.

Abbreviation u8 := (wrap 8).
Abbreviation u16 := (wrap 16).
Abbreviation u32 := (wrap 32).
Abbreviation u64 := (wrap 64).

(** [SIZE_MAX] and friends of the 64-bit targets. *)
Definition UINT64_MAX : Z := 2 ^ 64 - 1.
Definition INT_MAX : Z := 2 ^ 31 - 1.
Definition INT64_MAX : Z := 2 ^ 63 - 1.
Definition INT64_MIN : Z := - 2 ^ 63.

Lemma wrap_word w z : 0 <= w -> word w (wrap w z).
Proof. intros. apply Z.mod_pos_bound. apply Z.pow_pos_nonneg; lia. Qed.

Lemma wrap_small w z : word w z -> wrap w z = z.
Proof. intros. by apply Z.mod_small. Qed.

Lemma word_weaken v w z : 0 <= v <= w -> word v z -> word w z.
Proof.
  intros Hvw [H0 H1]. split; [done|].
  apply Z.lt_le_trans with (2 ^ v); [done|]. apply Z.pow_le_mono_r; lia.
Qed.

#[export] Hint Resolve wrap_word : word_db.

(** ** Bit operations as arithmetic *)

Lemma lor_shiftl_add a b n :
  0 <= n -> 0 <= b < 2 ^ n -> Z.lor (Z.shiftl a n) b = a * 2 ^ n + b.
Proof.
  intros Hn Hb. rewrite Z.lor_comm, <- Z.add_nocarry_lor.
  - rewrite Z.shiftl_mul_pow2 by done. lia.
  - apply Z.bits_inj'. intros i Hi. rewrite Z.land_spec, Z.bits_0.
    destruct (decide (i < n)).
    + rewrite Z.shiftl_spec_low by done. by rewrite andb_false_r.
    + destruct (decide (b = 0)) as [->|]; [by rewrite Z.bits_0|].
      rewrite (Z.bits_above_log2 b i); [done|lia|].
      apply Z.log2_lt_pow2; [lia|].
      apply Z.lt_le_trans with (2 ^ n); [lia|]. apply Z.pow_le_mono_r; lia.
Qed.

Lemma land_ones_mod a n : 0 <= n -> Z.land a (2 ^ n - 1) = a mod 2 ^ n.
Proof. intros. rewrite <- Z.land_ones by done. by rewrite Z.ones_equiv, <- Z.sub_1_r. Qed.

(** The words of a width are the nonnegative numbers with no bit above it. *)
Lemma word_bits w z : 0 <= w ->
  word w z <-> 0 <= z /\ forall i, w <= i -> Z.testbit z i = false.
Proof.
  intros Hw. split.
  - intros [H0 H1]. split; [done|]. intros i Hi.
    destruct (decide (z = 0)) as [->|]; [apply Z.bits_0|].
    apply Z.bits_above_log2; [done|]. apply Z.lt_le_trans with w; [|done].
    apply Z.log2_lt_pow2; lia.
  - intros [H0 H1]. split; [done|].
    destruct (decide (z = 0)) as [->|]; [by apply Z.pow_pos_nonneg|].
    apply Z.log2_lt_pow2; [lia|]. destruct (decide (Z.log2 z < w)); [done|].
    specialize (H1 (Z.log2 z)). rewrite Z.bit_log2 in H1 by lia.
    discriminate H1. lia.
Qed.

Lemma word_testbit_high w z i : 0 <= w <= i -> word w z -> Z.testbit z i = false.
Proof. intros [Hw Hi] H. apply word_bits in H as [_ H]; [|done]. by apply H. Qed.

Lemma word_lxor w a b : 0 <= w -> word w a -> word w b -> word w (Z.lxor a b).
Proof.
  intros Hw Ha Hb. apply word_bits; [done|].
  assert (0 <= a /\ 0 <= b) as [Ha0 Hb0] by (destruct Ha, Hb; lia).
  split; [by apply Z.lxor_nonneg|]. intros i Hi. rewrite Z.lxor_spec.
  by rewrite !(word_testbit_high w) by done.
Qed.

Lemma word_lor w a b : 0 <= w -> word w a -> word w b -> word w (Z.lor a b).
Proof.
  intros Hw Ha Hb. apply word_bits; [done|].
  assert (0 <= a /\ 0 <= b) as [Ha0 Hb0] by (destruct Ha, Hb; lia).
  split; [by apply Z.lor_nonneg|]. intros i Hi. rewrite Z.lor_spec.
  by rewrite !(word_testbit_high w) by done.
Qed.

Lemma word_land w a b : 0 <= w -> word w a -> word w (Z.land a b).
Proof.
  intros Hw Ha. apply word_bits; [done|].
  assert (0 <= a) as Ha0 by (destruct Ha; lia).
  split; [apply Z.land_nonneg; by left|]. intros i Hi. rewrite Z.land_spec.
  by rewrite (word_testbit_high w a) by done.
Qed.

(** The top bit of a word decides its half. *)
Lemma word_testbit_top w a : 0 <= w -> word (w + 1) a ->
  Z.testbit a w = (2 ^ w <=? a).
Proof.
  intros Hw [H0 H1]. rewrite Z.pow_add_r in H1 by lia. apply Bool.eq_true_iff_eq.
  rewrite Z.testbit_true by done. rewrite Z.leb_le.
  assert (0 < 2 ^ w) by (by apply Z.pow_pos_nonneg).
  destruct (decide (2 ^ w <= a)).
  - replace (a / 2 ^ w) with 1; [done|]. apply Z.div_unique with (a - 2 ^ w); lia.
  - rewrite Z.div_small by lia. split; [done|lia].
Qed.

Lemma wrap_testbit w z i : 0 <= i < w -> Z.testbit (wrap w z) i = Z.testbit z i.
Proof. intros. unfold wrap. apply Z.mod_pow2_bits_low. lia. Qed.

Lemma wrap_lnot w a : 0 <= w -> word w a -> wrap w (Z.lnot a) = 2 ^ w - 1 - a.
Proof.
  intros Hw [H0 H1]. unfold wrap, Z.lnot. rewrite <- Z.sub_1_r.
  symmetry. apply Z.mod_unique with (-1); lia.
Qed.

#[export] Hint Resolve word_lxor word_lor word_land : word_db.

(** Bitwise operations act on the limbs of a number separately. *)
Lemma testbit_limbs n a b i : 0 <= n -> 0 <= b < 2 ^ n -> 0 <= i ->
  Z.testbit (a * 2 ^ n + b) i = if i <? n then Z.testbit b i else Z.testbit a (i - n).
Proof.
  intros Hn Hb Hi. rewrite <- lor_shiftl_add, Z.lor_spec by done.
  destruct (Z.ltb_spec i n).
  - by rewrite Z.shiftl_spec_low by done.
  - rewrite Z.shiftl_spec by done.
    by rewrite (word_testbit_high n b i), orb_false_r by (done || lia).
Qed.

Lemma lor_limbs n a b c d : 0 <= n -> 0 <= b < 2 ^ n -> 0 <= d < 2 ^ n ->
  Z.lor (a * 2 ^ n + b) (c * 2 ^ n + d) = Z.lor a c * 2 ^ n + Z.lor b d.
Proof.
  intros Hn Hb Hd. apply Z.bits_inj'. intros i Hi.
  rewrite Z.lor_spec, !testbit_limbs by (done || by apply word_lor).
  case_if; by rewrite Z.lor_spec.
Qed.

Lemma land_limbs n a b c d : 0 <= n -> 0 <= b < 2 ^ n -> 0 <= d < 2 ^ n ->
  Z.land (a * 2 ^ n + b) (c * 2 ^ n + d) = Z.land a c * 2 ^ n + Z.land b d.
Proof.
  intros Hn Hb Hd. apply Z.bits_inj'. intros i Hi.
  rewrite Z.land_spec, !testbit_limbs by (done || by apply word_land).
  case_if; by rewrite Z.land_spec.
Qed.

Lemma lxor_limbs n a b c d : 0 <= n -> 0 <= b < 2 ^ n -> 0 <= d < 2 ^ n ->
  Z.lxor (a * 2 ^ n + b) (c * 2 ^ n + d) = Z.lxor a c * 2 ^ n + Z.lxor b d.
Proof.
  intros Hn Hb Hd. apply Z.bits_inj'. intros i Hi.
  rewrite Z.lxor_spec, !testbit_limbs by (done || by apply word_lxor).
  case_if; by rewrite Z.lxor_spec.
Qed.

(** A property of a small range of integers is decided by evaluating it. *)
Fixpoint all_from (n : nat) (z : Z) (P : Z -> bool) : bool :=
  match n with O => true | S n' => P z && all_from n' (z + 1) P end.

Lemma all_from_spec n z0 P z :
  all_from n z0 P = true -> z0 <= z < z0 + Z.of_nat n -> P z = true.
Proof.
  revert z0. induction n as [|n IH]; intros z0; [lia|]. simpl. intros H Hz.
  apply andb_true_iff in H as [H1 H2].
  destruct (decide (z = z0)) as [->|]; [done|]. apply (IH (z0 + 1)); [done|lia].
Qed.


(** ** Bytes *)

Abbreviation byte := (word 8).
Definition bytes (l : list Z) : Prop := Forall byte l.

Abbreviation len l := (Z.of_nat (length l)).

Lemma byte_range b : byte b -> 0 <= b < 256.
Proof. done. Qed.

Lemma bytes_nil : bytes [].
Proof. constructor. Qed.

Lemma bytes_cons b l : byte b -> bytes l -> bytes (b :: l).
Proof. by constructor. Qed.

Lemma bytes_cons_inv b l : bytes (b :: l) -> byte b /\ bytes l.
Proof. by inversion_clear 1. Qed.

Lemma bytes_app l k : bytes (l ++ k) <-> bytes l /\ bytes k.
Proof. apply Forall_app. Qed.

Lemma bytes_app_2 l k : bytes l -> bytes k -> bytes (l ++ k).
Proof. intros. by apply Forall_app. Qed.

Lemma bytes_take n l : bytes l -> bytes (take n l).
Proof. apply Forall_take. Qed.

Lemma bytes_drop n l : bytes l -> bytes (drop n l).
Proof. apply Forall_drop. Qed.

Lemma bytes_replicate n b : byte b -> bytes (replicate n b).
Proof. intros. by apply Forall_replicate. Qed.

Lemma bytes_reverse l : bytes l -> bytes (reverse l).
Proof. intros. by apply Forall_reverse. Qed.

Lemma bytes_lookup l i b : bytes l -> l !! i = Some b -> byte b.
Proof. apply Forall_lookup_1. Qed.

#[export] Hint Resolve bytes_nil bytes_cons bytes_app_2 bytes_take bytes_drop
  bytes_replicate bytes_reverse : bytes_db.

(** [bytes] of a literal list. *)
Ltac byte_list := repeat (apply bytes_cons; [by vm_compute|]); apply bytes_nil.

(** Split a hypothesis [bytes (b0 :: b1 :: ...)]. *)
Ltac bytes_inv H :=
  repeat (apply bytes_cons_inv in H; let Hb := fresh "Hb" in destruct H as [Hb H]).

(** ** Big- and little-endian integers *)

Definition be_decode (l : list Z) : Z := foldl (fun acc b => acc * 256 + b) 0 l.

Fixpoint be_encode (n : nat) (v : Z) : list Z :=
  match n with
  | O => []
  | S n' => be_encode n' (v / 256) ++ [v mod 256]
  end.

Definition le_decode (l : list Z) : Z := be_decode (reverse l).
Definition le_encode (n : nat) (v : Z) : list Z := reverse (be_encode n v).

Lemma be_decode_snoc l b : be_decode (l ++ [b]) = be_decode l * 256 + b.
Proof. unfold be_decode. by rewrite foldl_app. Qed.

Lemma be_decode_acc l acc :
  foldl (fun acc b => acc * 256 + b) acc l = acc * 256 ^ len l + be_decode l.
Proof.
  induction l as [|b l IH] using rev_ind.
  - unfold be_decode. simpl. lia.
  - rewrite foldl_app. simpl. rewrite IH, be_decode_snoc, length_app. simpl.
    rewrite Nat2Z.inj_add, Z.pow_add_r by lia. lia.
Qed.

Lemma be_decode_cons b l : be_decode (b :: l) = b * 256 ^ len l + be_decode l.
Proof. unfold be_decode at 1. simpl. rewrite be_decode_acc. lia. Qed.

Lemma be_decode_app l k : be_decode (l ++ k) = be_decode l * 256 ^ len k + be_decode k.
Proof. unfold be_decode at 1. rewrite foldl_app. apply be_decode_acc. Qed.

Lemma be_decode_bound l : bytes l -> 0 <= be_decode l < 256 ^ len l.
Proof.
  induction l as [|b l IH] using rev_ind; intros Hl; [by vm_compute|].
  apply bytes_app in Hl as [Hl Hb]. inversion_clear Hb as [|? ? Hb' _].
  specialize (IH Hl). rewrite be_decode_snoc, length_app, Nat2Z.inj_add.
  simpl length. rewrite Z.pow_add_r by lia. apply byte_range in Hb'.
  change (256 ^ Z.of_nat 1) with 256. lia.
Qed.

Lemma length_be_encode n v : length (be_encode n v) = n.
Proof. revert v. induction n; intros; simpl; [done|]. rewrite length_app, IHn. simpl. lia. Qed.

Lemma bytes_be_encode n v : bytes (be_encode n v).
Proof.
  revert v. induction n; intros; simpl; [constructor|].
  apply bytes_app_2; [done|]. constructor; [|constructor].
  apply (wrap_word 8). lia.
Qed.

Lemma be_decode_encode n v : be_decode (be_encode n v) = v mod 256 ^ Z.of_nat n.
Proof.
  revert v. induction n as [|n IH]; intros v.
  - simpl. by rewrite Z.mod_1_r.
  - cbn [be_encode]. rewrite be_decode_snoc, IH.
    rewrite Nat2Z.inj_succ, Z.pow_succ_r by lia.
    rewrite Z.rem_mul_r; [lia|lia|]. apply Z.pow_pos_nonneg; lia.
Qed.

Lemma be_encode_decode l : bytes l -> be_encode (length l) (be_decode l) = l.
Proof.
  induction l as [|b l IH] using rev_ind; intros Hl; [done|].
  apply bytes_app in Hl as [Hl Hb]. inversion_clear Hb as [|? ? Hb' _].
  apply byte_range in Hb'. rewrite length_app, Nat.add_comm. simpl.
  rewrite be_decode_snoc.
  rewrite Z.div_add_l, (Z.div_small b), Z.add_0_r by lia.
  rewrite Z.add_comm, Z.mod_add, Z.mod_small by lia. by rewrite IH.
Qed.

Lemma be_encode_decode' n l :
  length l = n -> bytes l -> be_encode n (be_decode l) = l.
Proof. intros <-. apply be_encode_decode. Qed.

Lemma length_le_encode n v : length (le_encode n v) = n.
Proof. unfold le_encode. by rewrite length_reverse, length_be_encode. Qed.

Lemma le_decode_cons x l : le_decode (x :: l) = x + 256 * le_decode l.
Proof. unfold le_decode. rewrite reverse_cons, be_decode_snoc. lia. Qed.

Lemma le_decode_encode n v : le_decode (le_encode n v) = v mod 256 ^ Z.of_nat n.
Proof. unfold le_decode, le_encode. by rewrite reverse_involutive, be_decode_encode. Qed.

#[export] Hint Resolve bytes_be_encode : bytes_db.

(** ** Lists as C arrays *)

Lemma take_app_exact {A} n (l k : list A) : n = length l -> take n (l ++ k) = l.
Proof. intros ->. apply take_app_length. Qed.

Lemma drop_app_exact {A} n (l k : list A) : n = length l -> drop n (l ++ k) = k.
Proof. intros ->. apply drop_app_length. Qed.

(** Bytes [src] written at offset [off] of [buf] (memcpy); the caller of the
    C code guarantees that the destination range lies in the buffer. *)
Definition mem_write (buf : list Z) (off : nat) (src : list Z) : list Z :=
  take off buf ++ src ++ drop (off + length src) buf.

Lemma length_mem_write buf off src :
  (off + length src <= length buf)%nat -> length (mem_write buf off src) = length buf.
Proof.
  intros. unfold mem_write. rewrite !length_app, length_take, length_drop. lia.
Qed.

(** Reading back what was written. *)
Lemma mem_write_read m off src : (off + length src <= length m)%nat ->
  take (length src) (drop off (mem_write m off src)) = src.
Proof.
  intros Hl. unfold mem_write. rewrite drop_app_length' by (rewrite length_take; lia).
  by rewrite take_app_length.
Qed.

(** What lies before the write is kept. *)
Lemma mem_write_append m off n src : (off + n + length src <= length m)%nat ->
  take (n + length src) (drop off (mem_write m (off + n) src)) = take n (drop off m) ++ src.
Proof.
  intros Hl. unfold mem_write. rewrite drop_app_le by (rewrite length_take; lia).
  assert (E : drop off (take (off + n) m) = take n (drop off m)).
  { rewrite take_drop_commute. f_equal. }
  rewrite E. assert (L : length (take n (drop off m)) = n) by (rewrite length_take, length_drop; lia).
  rewrite app_assoc. rewrite take_app_le by (rewrite length_app, L; lia).
  rewrite take_ge; [done|]. rewrite length_app, L. lia.
Qed.

Lemma bytes_mem_write m off src : bytes m -> bytes src -> bytes (mem_write m off src).
Proof. intros. unfold mem_write. auto with bytes_db. Qed.

#[export] Hint Resolve bytes_mem_write : bytes_db.

(** Taking an element out of a list and putting another in its place. *)
Lemma insert_delete_perm {A} (l : list A) i x y : l !! i = Some x ->
  l ≡ₚ x :: delete i l /\ <[i := y]> l ≡ₚ y :: delete i l.
Proof.
  intros Hi. assert (Hl := lookup_lt_Some _ _ _ Hi). split; [by apply delete_Permutation|].
  rewrite insert_take_drop, delete_take_drop by done. by rewrite Permutation_middle.
Qed.

(** ** Fallible operations on a state

    A C function that returns 1 or 0 and works on an object: the value it
    writes through its out parameter ([None] for the return value 0) and the
    object it leaves, also when it fails. *)

Declare Scope fallible_scope.
Delimit Scope fallible_scope with fallible.

Definition fallible (S A : Type) : Type := S -> option A * S.

Definition pret {S A} (x : A) : fallible S A := fun s => (Some x, s).
Definition pfail {S A} : fallible S A := fun s => (None, s).
Definition pbind {S A B} (m : fallible S A) (f : A -> fallible S B) : fallible S B := fun s =>
  match m s with
  | (Some x, s') => f x s'
  | (None, s') => (None, s')
  end.
Definition pguard {S} (b : bool) : fallible S unit := if b then pret tt else pfail.
Definition plift {S A} (o : option A) : fallible S A :=
  match o with Some x => pret x | None => pfail end.

Notation "'let*' x := m 'in' k" := (pbind m (fun x => k))
  (at level 10, x name, m at level 100, k at level 200) : fallible_scope.
Notation "'let*' ' p := m 'in' k" := (pbind m (fun p => k))
  (at level 10, p strict pattern, m at level 100, k at level 200) : fallible_scope.
Notation "'check' b 'in' k" := (pbind (pguard b) (fun _ => k))
  (at level 10, b at level 100, k at level 200) : fallible_scope.
#[global] Open Scope fallible_scope.

Lemma pbind_Some {S A B} (m : fallible S A) (f : A -> fallible S B) s y s' :
  pbind m f s = (Some y, s') <->
  exists x s1, m s = (Some x, s1) /\ f x s1 = (Some y, s').
Proof.
  unfold pbind. destruct (m s) as [[x|] s1]; split.
  - eauto.
  - intros (x' & s1' & [= <- <-] & H). done.
  - done.
  - by intros (x' & s1' & [=] & _).
Qed.

Lemma pbind_step {S A B} (m : fallible S A) (f : A -> fallible S B) s x s1 :
  m s = (Some x, s1) -> pbind m f s = f x s1.
Proof. unfold pbind. by intros ->. Qed.

Lemma pguard_Some {S} b (s : S) u s' : pguard b s = (Some u, s') <-> b = true /\ s' = s.
Proof. destruct u, b; simpl; unfold pret, pfail; naive_solver. Qed.

Lemma pret_Some {S A} (x y : A) (s s' : S) : pret x s = (Some y, s') <-> y = x /\ s' = s.
Proof. unfold pret. naive_solver. Qed.

Lemma plift_Some {S A} (o : option A) y (s s' : S) : plift o s = (Some y, s') <-> o = Some y /\ s' = s.
Proof. destruct o; simpl; unfold pret, pfail; naive_solver. Qed.

(** Run the checks of a reader whose conditions are known. *)
Lemma pcheck_true {S A} b (k : fallible S A) s : b = true -> pbind (pguard b) (fun _ => k) s = k s.
Proof. by intros ->. Qed.

(** Decompose a successful run of a reader into its steps. *)
Ltac parser_inv :=
  repeat match goal with
  | H : pbind _ _ _ = (Some _, _) |- _ =>
      let x := fresh "x" in let s := fresh "s" in let E := fresh "E" in
      apply pbind_Some in H as (x & s & E & H)
  | H : pguard _ _ = (Some _, _) |- _ => apply pguard_Some in H as [H ->]
  | H : pret _ _ = (Some _, _) |- _ => apply pret_Some in H as [-> ->]
  | H : plift _ _ = (Some _, _) |- _ => apply plift_Some in H as [H ->]
  | H : pfail _ = (Some _, _) |- _ => discriminate H
  | H : (None, _) = (Some _, _) |- _ => discriminate H
  end.
