(* ===== verification/PosixTime.v ===== *)
(** * POSIX time and civil dates

    Model of crypto/asn1/posix_time.cc: conversion between a [struct tm] in UTC
    and the number of seconds since the epoch, over the years 0000 to 9999.
    The C code works on [int64_t]; the C operators [/] and [%] truncate towards
    zero, so they are [Z.quot] and [Z.rem].  All intermediate values of the
    conversions stay far inside the int64 range, which
    [OPENSSL_tm_to_posix_range] makes precise for the result. *)

From S2P Require Import Prelude.

Definition SECS_PER_HOUR : Z := 60 * 60.
Definition SECS_PER_DAY : Z := 24 * SECS_PER_HOUR.
Definition MIN_POSIX_TIME : Z := -62167219200.
Definition MAX_POSIX_TIME : Z := 253402300799.

(** The fields of [struct tm] the conversions read and write. *)
Record tm := mk_tm {
  tm_year : Z; tm_mon : Z; tm_mday : Z; tm_hour : Z; tm_min : Z; tm_sec : Z
}.

#[export] Instance tm_eq_dec : EqDecision tm.
Proof. solve_decision. Defined.

Definition is_leap_year (year : Z) : bool :=
  ((Z.rem year 4 =? 0) && negb (Z.rem year 100 =? 0)) || (Z.rem year 400 =? 0).

Definition is_valid_date (year month day : Z) : bool :=
  if (day <? 1) || (month <? 1) || (year <? 0) || (9999 <? year) then false
  else
    match month with
    | 1 | 3 | 5 | 7 | 8 | 10 | 12 => (0 <? day) && (day <=? 31)
    | 4 | 6 | 9 | 11 => (0 <? day) && (day <=? 30)
    | 2 => if is_leap_year year then (0 <? day) && (day <=? 29)
           else (0 <? day) && (day <=? 28)
    | _ => false
    end.

Definition is_valid_time (hours minutes seconds : Z) : bool :=
  negb ((hours <? 0) || (minutes <? 0) || (seconds <? 0) || (23 <? hours) ||
        (59 <? minutes) || (59 <? seconds)).

Definition is_valid_posix_time (time : Z) : bool :=
  (MIN_POSIX_TIME <=? time) && (time <=? MAX_POSIX_TIME).

(** Days since the epoch of a date whose year starts on March 1. *)
Definition posix_time_from_utc (year month day hours minutes seconds : Z) : option Z :=
  if negb (is_valid_date year month day) || negb (is_valid_time hours minutes seconds)
  then None
  else
    let year := if month <=? 2 then year - 1 else year in
    let era := Z.quot (if 0 <=? year then year else year - 399) 400 in
    let year_of_era := year - era * 400 in
    let day_of_year :=
      Z.quot (153 * (if 2 <? month then month - 3 else month + 9) + 2) 5 + day - 1 in
    let day_of_era :=
      year_of_era * 365 + Z.quot year_of_era 4 - Z.quot year_of_era 100 + day_of_year in
    let posix_days := era * 146097 + day_of_era - 719468 in
    Some (posix_days * SECS_PER_DAY + hours * SECS_PER_HOUR + minutes * 60 + seconds).

Definition utc_from_posix_time (time : Z) : option (Z * Z * Z * Z * Z * Z) :=
  if negb (is_valid_posix_time time) then None
  else
    let days := Z.quot time SECS_PER_DAY in
    let leftover_seconds := Z.rem time SECS_PER_DAY in
    let '(days, leftover_seconds) :=
      if leftover_seconds <? 0 then (days - 1, leftover_seconds + SECS_PER_DAY)
      else (days, leftover_seconds) in
    let days := days + 719468 in
    let era := Z.quot (if 0 <? days then days else days - 146096) 146097 in
    let day_of_era := days - era * 146097 in
    let year_of_era :=
      Z.quot (day_of_era - Z.quot day_of_era 1460 + Z.quot day_of_era 36524
              - Z.quot day_of_era 146096) 365 in
    let out_year := year_of_era + era * 400 in
    let day_of_year :=
      day_of_era - (365 * year_of_era + Z.quot year_of_era 4 - Z.quot year_of_era 100) in
    let month_of_year := Z.quot (5 * day_of_year + 2) 153 in
    let out_month := if month_of_year <? 10 then month_of_year + 3 else month_of_year - 9 in
    let out_year := if out_month <=? 2 then out_year + 1 else out_year in
    let out_day := day_of_year - Z.quot (153 * month_of_year + 2) 5 + 1 in
    let out_hours := Z.quot leftover_seconds SECS_PER_HOUR in
    let leftover_seconds := Z.rem leftover_seconds SECS_PER_HOUR in
    Some (out_year, out_month, out_day, out_hours,
          Z.quot leftover_seconds 60, Z.rem leftover_seconds 60).

Definition OPENSSL_tm_to_posix (t : tm) : option Z :=
  posix_time_from_utc (tm_year t + 1900) (tm_mon t + 1) (tm_mday t)
    (tm_hour t) (tm_min t) (tm_sec t).

Definition OPENSSL_posix_to_tm (time : Z) : option tm :=
  match utc_from_posix_time time with
  | None => None
  | Some (y, mo, d, h, mi, s) => Some (mk_tm (y - 1900) (mo - 1) d h mi s)
  end.

(** [time_t] is a 64-bit type on the targets of the program. *)
Definition OPENSSL_timegm (t : tm) : option Z := OPENSSL_tm_to_posix t.

Definition OPENSSL_gmtime (time : Z) : option tm := OPENSSL_posix_to_tm time.

Definition OPENSSL_gmtime_adj (t : tm) (offset_day offset_sec : Z) : option tm :=
  match OPENSSL_tm_to_posix t with
  | None => None
  | Some posix_time =>
      let posix_time := posix_time + offset_day * SECS_PER_DAY in
      if (0 <? posix_time) && (INT64_MAX - posix_time <? offset_sec) then None
      else if (posix_time <? 0) && (offset_sec <? INT64_MIN - posix_time) then None
      else OPENSSL_posix_to_tm (posix_time + offset_sec)
  end.

Definition OPENSSL_gmtime_diff (from to : tm) : option (Z * Z) :=
  match OPENSSL_tm_to_posix to with
  | None => None
  | Some time_to =>
      match OPENSSL_tm_to_posix from with
      | None => None
      | Some time_from =>
          let timediff := time_to - time_from in
          Some (Z.quot timediff SECS_PER_DAY, Z.rem timediff SECS_PER_DAY)
      end
  end.

(** ** The two halves of the conversions: whole days and seconds of a day *)

(** Number of days of a month in the Gregorian calendar (reference). *)
Definition days_in_month (year month : Z) : Z :=
  match month with
  | 4 | 6 | 9 | 11 => 30
  | 2 => if is_leap_year year then 29 else 28
  | _ => 31
  end.

(** The day after a date (reference). *)
Definition next_date (year month day : Z) : Z * Z * Z :=
  if day <? days_in_month year month then (year, month, day + 1)
  else if month <? 12 then (year, month + 1, 1)
  else (year + 1, 1, 1).

Definition days_of_civil (year month day : Z) : Z :=
  let year := if month <=? 2 then year - 1 else year in
  let mp := if 2 <? month then month - 3 else month + 9 in
  let era := year / 400 in
  let yoe := year mod 400 in
  era * 146097 + (yoe * 365 + yoe / 4 - yoe / 100 + ((153 * mp + 2) / 5 + day - 1)) - 719468.

Definition civil_of_days (days : Z) : Z * Z * Z :=
  let era := (days + 719468) / 146097 in
  let doe := (days + 719468) mod 146097 in
  let yoe := (doe - doe / 1460 + doe / 36524 - doe / 146096) / 365 in
  let doy := doe - (365 * yoe + yoe / 4 - yoe / 100) in
  let mp := (5 * doy + 2) / 153 in
  let month := if mp <? 10 then mp + 3 else mp - 9 in
  (yoe + era * 400 + (if month <=? 2 then 1 else 0), month, doy - (153 * mp + 2) / 5 + 1).

Definition valid_date (year month day : Z) : Prop :=
  0 <= year <= 9999 /\ 1 <= month <= 12 /\ 1 <= day <= days_in_month year month.

Lemma quot_nonneg a b : 0 <= a -> 0 < b -> Z.quot a b = a / b.
Proof. intros. by apply Z.quot_div_nonneg. Qed.

Lemma month_cases m : 1 <= m <= 12 ->
  m = 1 \/ m = 2 \/ m = 3 \/ m = 4 \/ m = 5 \/ m = 6 \/ m = 7 \/ m = 8 \/ m = 9
  \/ m = 10 \/ m = 11 \/ m = 12 \/ False.
Proof. lia. Qed.

Ltac month_split H :=
  apply month_cases in H; repeat (destruct H as [-> | H]); [.. | destruct H].

Lemma is_valid_date_spec y m d : is_valid_date y m d = true <-> valid_date y m d.
Proof.
  unfold is_valid_date, valid_date, days_in_month. split.
  - destruct (_ || _ || _ || _) eqn:E; [done|]. intros H. bool_to_prop.
    assert (Hm : m <= 12).
    { destruct m as [|p|p]; try lia. do 4 (destruct p as [p|p|]; try (by simpl in H)); lia. }
    assert (Hm' : 1 <= m <= 12) by lia.
    month_split Hm'; try destruct (is_leap_year y); bool_to_prop; lia.
  - intros (Hy & Hm & Hd). destruct (_ || _ || _ || _) eqn:E; [lia|].
    month_split Hm; try destruct (is_leap_year y); lia.
Qed.

Lemma is_valid_time_spec h m s :
  is_valid_time h m s = true <-> 0 <= h <= 23 /\ 0 <= m <= 59 /\ 0 <= s <= 59.
Proof. unfold is_valid_time. lia. Qed.

Lemma leap_year_mod y : 0 <= y ->
  is_leap_year y = true <-> (y mod 4 = 0 /\ y mod 100 <> 0) \/ y mod 400 = 0.
Proof. intros. unfold is_leap_year. rewrite !Z.rem_mod_nonneg by lia. lia. Qed.

Lemma year_of_era_inv yoe doy doe : 0 <= yoe < 400 -> 0 <= doy <= 365 ->
  (doy = 365 -> yoe mod 4 = 3 /\ (yoe mod 100 <> 99 \/ yoe = 399)) ->
  doe = 365 * yoe + yoe / 4 - yoe / 100 + doy ->
  (doe - doe / 1460 + doe / 36524 - doe / 146096) / 365 = yoe.
Proof.
  intros. subst doe.
  assert (yoe / 100 = 0 \/ yoe/100 = 1 \/ yoe/100 = 2 \/ yoe/100 = 3) by div_lia.
  div_lia.
Qed.

(** A valid date has a day of its March-based year below 366, and day 365
    exists only in leap years. *)
Lemma day_of_year_bounds y m d mp yy :
  valid_date y m d ->
  mp = (if 2 <? m then m - 3 else m + 9) -> yy = (if m <=? 2 then y - 1 else y) ->
  let doy := (153 * mp + 2) / 5 + d - 1 in
  0 <= doy <= 365 /\ (5 * doy + 2) / 153 = mp /\ 0 <= mp <= 11 /\
  (doy = 365 -> (yy mod 400) mod 4 = 3 /\ ((yy mod 400) mod 100 <> 99 \/ yy mod 400 = 399)).
Proof.
  intros (Hy & Hm & Hd) Emp Eyy. unfold days_in_month in Hd. simpl.
  month_split Hm; simpl in Emp, Eyy; subst mp yy; try div_lia.
  destruct (is_leap_year y) eqn:E; [|div_lia].
  apply leap_year_mod in E; [|lia]. div_lia.
Qed.

Lemma civil_of_days_of_civil y m d :
  valid_date y m d -> civil_of_days (days_of_civil y m d) = (y, m, d).
Proof.
  intros Hv. unfold days_of_civil, civil_of_days.
  set (yy := if m <=? 2 then y - 1 else y). set (mp := if 2 <? m then m - 3 else m + 9).
  destruct (day_of_year_bounds y m d mp yy Hv eq_refl eq_refl) as (Hdoy & Hmp & Hmp' & Hleap).
  cbv zeta in Hdoy, Hmp, Hleap.
  set (doy := (153 * mp + 2) / 5 + d - 1) in *.
  set (yoe := yy mod 400) in *.
  assert (Hyoe : 0 <= yoe < 400) by (apply Z.mod_pos_bound; lia).
  set (doe := yoe * 365 + yoe / 4 - yoe / 100 + doy).
  assert (Hdoe : 0 <= doe < 146097) by (subst doe; clearbody yoe doy; div_lia).
  replace (yy / 400 * 146097 + doe - 719468 + 719468) with (doe + yy / 400 * 146097) by lia.
  rewrite Z.div_add, Z.mod_add, (Z.div_small doe), (Z.mod_small doe) by lia.
  rewrite (year_of_era_inv yoe doy doe) by (done || (subst doe; lia)).
  replace (doe - (365 * yoe + yoe / 4 - yoe / 100)) with doy by (subst doe; lia).
  rewrite Hmp. assert (Hyy : yoe + (0 + yy / 400) * 400 = yy) by (subst yoe; div_lia).
  rewrite Hyy.
  assert (Hm : (if mp <? 10 then mp + 3 else mp - 9) = m).
  { subst mp. destruct Hv as (_ & Hm & _). repeat case_if; lia. }
  rewrite Hm. f_equal; [|subst doy; lia].
  f_equal. subst yy. case_if; lia.
Qed.

Lemma days_of_civil_next y m d y' m' d' :
  valid_date y m d -> next_date y m d = (y', m', d') ->
  days_of_civil y' m' d' = days_of_civil y m d + 1.
Proof.
  intros (Hy & Hm & Hd). unfold next_date, days_of_civil.
  month_split Hm; unfold days_in_month in *; intros E; simpl in E;
    try (destruct (is_leap_year y) eqn:L;
         [apply leap_year_mod in L; [|lia] | assert (L' := leap_year_mod y); rewrite L in L'; clear L]);
    repeat case_if; simplify_eq; simpl; div_lia.
Qed.

Lemma year_of_era_bounds doe yoe doy : 0 <= doe < 146097 ->
  yoe = (doe - doe / 1460 + doe / 36524 - doe / 146096) / 365 ->
  doy = doe - (365 * yoe + yoe / 4 - yoe / 100) ->
  0 <= yoe < 400 /\ 0 <= doy <= 365 /\
  (doy = 365 -> yoe mod 4 = 3 /\ (yoe mod 100 <> 99 \/ yoe = 399)).
Proof.
  intros Hdoe -> ->.
  assert (doe / 36524 = 0 \/ doe / 36524 = 1 \/ doe / 36524 = 2 \/ doe / 36524 = 3
          \/ doe / 36524 = 4) by div_lia.
  assert (doe / 146096 = 0 \/ doe / 146096 = 1) by div_lia.
  div_lia.
Qed.

Lemma civil_of_days_valid days y m d :
  -719528 <= days <= 2932896 -> civil_of_days days = (y, m, d) ->
  valid_date y m d /\ days_of_civil y m d = days.
Proof.
  intros Hdays. unfold civil_of_days.
  set (era := (days + 719468) / 146097). set (doe := (days + 719468) mod 146097).
  set (yoe := (doe - doe / 1460 + doe / 36524 - doe / 146096) / 365).
  set (doy := doe - (365 * yoe + yoe / 4 - yoe / 100)).
  assert (Hdoe : 0 <= doe < 146097) by (apply Z.mod_pos_bound; lia).
  destruct (year_of_era_bounds doe yoe doy Hdoe eq_refl eq_refl) as (Hyoe & Hdoy & Hleap).
  assert (Hdays' : days = era * 146097 + doe - 719468) by (subst era doe; div_lia).
  assert (Hera : -1 <= era <= 24) by lia.
  assert (Hdoe' : doe = 365 * yoe + yoe / 4 - yoe / 100 + doy) by (subst doy; lia).
  clearbody doy yoe doe era. subst days. subst doe. set (mp := (5 * doy + 2) / 153).
  set (month := if mp <? 10 then mp + 3 else mp - 9).
  assert (Hmp : 0 <= mp <= 11) by (subst mp; div_lia).
  assert (Hday : 1 <= doy - (153 * mp + 2) / 5 + 1 <= days_in_month
            (yoe + era * 400 + (if month <=? 2 then 1 else 0)) month).
  { assert (Hmp' := Hmp). unfold mp in Hmp'.
    assert (Hm : 1 <= month <= 12) by (subst month; case_if; lia).
    assert (Hmm : mp = month - 3 \/ mp = month + 9) by (subst month; case_if; lia).
    subst mp. clearbody month. month_split Hm; unfold days_in_month; simpl; try div_lia.
    destruct (is_leap_year _) eqn:E; [div_lia|].
    assert (Hnl := leap_year_mod (yoe + era * 400 + 1)). rewrite E in Hnl. div_lia. }
  intros [= <- <- <-]. split.
  - split; [|split]; [|subst month; case_if; lia|done].
    subst month. clear Hday. repeat case_if; bool_to_prop; subst mp; div_lia.
  - unfold days_of_civil. subst month.
    assert (Hmm : (if 2 <? (if mp <? 10 then mp + 3 else mp - 9) then
              (if mp <? 10 then mp + 3 else mp - 9) - 3 else
              (if mp <? 10 then mp + 3 else mp - 9) + 9) = mp) by (repeat case_if; lia).
    rewrite Hmm. clearbody mp. repeat case_if; bool_to_prop; try lia; div_lia.
Qed.

Lemma posix_time_from_utc_valid y m d h mi s :
  is_valid_date y m d = true -> is_valid_time h mi s = true ->
  posix_time_from_utc y m d h mi s =
    Some (days_of_civil y m d * SECS_PER_DAY + h * SECS_PER_HOUR + mi * 60 + s).
Proof.
  intros Hd Ht. unfold posix_time_from_utc. rewrite Hd, Ht. simpl.
  apply is_valid_date_spec in Hd as (Hy & Hm & Hd). f_equal. unfold days_of_civil.
  set (yy := if m <=? 2 then y - 1 else y).
  assert (Hyy : -1 <= yy <= 9999) by (subst yy; case_if; lia).
  assert (Hera : Z.quot (if 0 <=? yy then yy else yy - 399) 400 = yy / 400)
    by (clearbody yy; case_if; div_lia).
  rewrite Hera. assert (Hyoe : yy - yy / 400 * 400 = yy mod 400) by div_lia.
  rewrite Hyoe. clear Hera Hyoe.
  rewrite !quot_nonneg by (try case_if; try apply Z.mod_pos_bound; lia). lia.
Qed.

Lemma posix_time_from_utc_Some y m d h mi s t :
  posix_time_from_utc y m d h mi s = Some t ->
  is_valid_date y m d = true /\ is_valid_time h mi s = true.
Proof.
  unfold posix_time_from_utc. destruct (is_valid_date _ _ _), (is_valid_time _ _ _); done.
Qed.

Lemma days_of_civil_range y m d :
  valid_date y m d -> -719528 <= days_of_civil y m d <= 2932896.
Proof.
  intros (Hy & Hm & Hd). unfold days_of_civil.
  month_split Hm; unfold days_in_month in Hd; simpl; try div_lia.
  destruct (is_leap_year y) eqn:E; [apply leap_year_mod in E; [|lia]|]; div_lia.
Qed.

Lemma utc_from_posix_time_valid t :
  is_valid_posix_time t = true ->
  utc_from_posix_time t =
    let '(y, m, d) := civil_of_days (t / SECS_PER_DAY) in
    let sod := t mod SECS_PER_DAY in
    Some (y, m, d, sod / SECS_PER_HOUR, sod mod SECS_PER_HOUR / 60, sod mod 60).
Proof.
  intros Ht. unfold utc_from_posix_time. rewrite Ht. simpl.
  unfold is_valid_posix_time, MIN_POSIX_TIME, MAX_POSIX_TIME in Ht.
  assert (Hd : (if Z.rem t SECS_PER_DAY <? 0
                then (Z.quot t SECS_PER_DAY - 1, Z.rem t SECS_PER_DAY + SECS_PER_DAY)
                else (Z.quot t SECS_PER_DAY, Z.rem t SECS_PER_DAY))
               = (t / SECS_PER_DAY, t mod SECS_PER_DAY)).
  { change SECS_PER_DAY with 86400. case_if; f_equal; div_lia. }
  rewrite Hd. clear Hd. set (days := t / SECS_PER_DAY). set (sod := t mod SECS_PER_DAY).
  assert (Hsod : 0 <= sod < 86400) by (apply Z.mod_pos_bound; done).
  assert (Hdays : -719528 <= days <= 2932896)
    by (subst days; change SECS_PER_DAY with 86400; div_lia).
  clearbody days sod. unfold civil_of_days.
  assert (Hera : Z.quot (if 0 <? days + 719468 then days + 719468
             else days + 719468 - 146096) 146097 = (days + 719468) / 146097)
    by (case_if; div_lia).
  rewrite Hera. assert (Hdoe : days + 719468 - (days + 719468) / 146097 * 146097 =
    (days + 719468) mod 146097) by div_lia.
  rewrite Hdoe. clear Hera Hdoe. set (doe := (days + 719468) mod 146097).
  assert (Hb : 0 <= doe < 146097) by (apply Z.mod_pos_bound; lia).
  destruct (year_of_era_bounds doe _ _ Hb eq_refl eq_refl) as (Hyoe & Hdoy & _).
  clearbody doe. rewrite (quot_nonneg doe 1460), (quot_nonneg doe 36524),
    (quot_nonneg doe 146096) by lia.
  rewrite (quot_nonneg (doe - _ + _ - _) 365) by div_lia.
  set (yoe := (doe - doe / 1460 + doe / 36524 - doe / 146096) / 365) in *.
  rewrite (quot_nonneg yoe 4), (quot_nonneg yoe 100) by lia.
  set (doy := doe - (365 * yoe + yoe / 4 - yoe / 100)) in *.
  rewrite (quot_nonneg (5 * doy + 2) 153) by lia.
  rewrite (quot_nonneg (153 * _ + 2) 5) by (try lia; div_lia).
  change SECS_PER_HOUR with 3600.
  rewrite (quot_nonneg sod), (Z.rem_mod_nonneg sod 3600) by lia.
  rewrite Z.rem_mod_nonneg, quot_nonneg by (try lia; apply Z.mod_pos_bound; lia).
  assert (E : (sod mod 3600) mod 60 = sod mod 60) by div_lia.
  rewrite E. by destruct (_ <=? 2); rewrite ?Z.add_0_r.
Qed.

Lemma is_valid_posix_time_days t :
  is_valid_posix_time t = true <-> -719528 <= t / SECS_PER_DAY <= 2932896.
Proof.
  unfold is_valid_posix_time, MIN_POSIX_TIME, MAX_POSIX_TIME.
  change SECS_PER_DAY with 86400. rewrite andb_true_iff, !Z.leb_le. div_lia.
Qed.

Lemma day_split days h mi s :
  0 <= h <= 23 -> 0 <= mi <= 59 -> 0 <= s <= 59 ->
  let t := days * SECS_PER_DAY + h * SECS_PER_HOUR + mi * 60 + s in
  t / SECS_PER_DAY = days /\ t mod SECS_PER_DAY / SECS_PER_HOUR = h /\
  t mod SECS_PER_DAY mod SECS_PER_HOUR / 60 = mi /\ t mod SECS_PER_DAY mod 60 = s.
Proof.
  intros. subst t. change SECS_PER_DAY with 86400. change SECS_PER_HOUR with 3600.
  assert (E : (days * 86400 + h * 3600 + mi * 60 + s) mod 86400 = h * 3600 + mi * 60 + s) by div_lia.
  rewrite E. clear E. repeat split; div_lia.
Qed.

Lemma posix_time_inverse y m d h mi s t :
  posix_time_from_utc y m d h mi s = Some t <->
  utc_from_posix_time t = Some (y, m, d, h, mi, s).
Proof.
  split.
  - intros H. destruct (posix_time_from_utc_Some _ _ _ _ _ _ _ H) as [Hd Ht].
    rewrite posix_time_from_utc_valid in H by done. apply (inj Some) in H.
    apply is_valid_date_spec in Hd. apply is_valid_time_spec in Ht as (Hh & Hmi & Hs).
    destruct (day_split (days_of_civil y m d) h mi s Hh Hmi Hs) as (E1 & E2 & E3 & E4).
    rewrite H in *. rewrite utc_from_posix_time_valid.
    + rewrite E1, civil_of_days_of_civil by done. cbv zeta. by rewrite E2, E3, E4.
    + apply is_valid_posix_time_days. rewrite E1. by apply days_of_civil_range.
  - intros H. assert (Ht : is_valid_posix_time t = true).
    { unfold utc_from_posix_time in H. by destruct (is_valid_posix_time t). }
    rewrite utc_from_posix_time_valid in H by done.
    destruct (civil_of_days (t / SECS_PER_DAY)) as [[y' m'] d'] eqn:E.
    apply is_valid_posix_time_days in Ht.
    destruct (civil_of_days_valid _ _ _ _ Ht E) as [Hv Hdays].
    cbv zeta in H. simplify_eq.
    assert (0 <= t mod SECS_PER_DAY < 86400) by (by apply Z.mod_pos_bound).
    change SECS_PER_HOUR with 3600.
    rewrite posix_time_from_utc_valid; [|by apply is_valid_date_spec|].
    + rewrite Hdays. f_equal. change SECS_PER_HOUR with 3600.
      change SECS_PER_DAY with 86400 in *. div_lia.
    + apply is_valid_time_spec. div_lia.
Qed.

Lemma tm_posix_inv t p : OPENSSL_posix_to_tm p = Some t <-> OPENSSL_tm_to_posix t = Some p.
Proof.
  unfold OPENSSL_posix_to_tm, OPENSSL_tm_to_posix. rewrite posix_time_inverse.
  destruct t as [y mo d h mi s]. simpl. split.
  - destruct (utc_from_posix_time p) as [[[[[[y' mo'] d'] h'] mi'] s']|]; [|done].
    intros [= <- <- <- <- <- <-]. repeat f_equal; lia.
  - intros ->. repeat f_equal; lia.
Qed.

Lemma is_valid_posix_time_total p :
  is_valid_posix_time p = true <-> is_Some (OPENSSL_posix_to_tm p).
Proof.
  unfold OPENSSL_posix_to_tm. split.
  - intros H. rewrite utc_from_posix_time_valid by done.
    destruct (civil_of_days _) as [[? ?] ?]. eauto.
  - unfold utc_from_posix_time. destruct (is_valid_posix_time p); [done|]. by intros [? ?].
Qed.

Lemma OPENSSL_tm_to_posix_range t p :
  OPENSSL_tm_to_posix t = Some p -> MIN_POSIX_TIME <= p <= MAX_POSIX_TIME.
Proof.
  rewrite <- tm_posix_inv. intros H.
  assert (Hv : is_valid_posix_time p = true) by (apply is_valid_posix_time_total; eauto).
  unfold is_valid_posix_time in Hv. lia.
Qed.

(** ** Properties *)

(** The two conversions of posix_time.cc are inverse to each other:
    [posix_time_from_utc] accepts exactly the civil times that
    [utc_from_posix_time] produces, and each undoes the other. *)
Theorem posix_time_roundtrip y m d h mi s t :
  posix_time_from_utc y m d h mi s = Some t <->
  utc_from_posix_time t = Some (y, m, d, h, mi, s).
Proof. apply posix_time_inverse. Qed.

(** [posix_time_from_utc] counts days as the Gregorian calendar does: the
    epoch is 1970-01-01 00:00:00, and the same time on the next calendar day
    (leap years included) is 86400 seconds later. *)
Theorem posix_time_next_day y m d y' m' d' h mi s t :
  posix_time_from_utc y m d h mi s = Some t ->
  next_date y m d = (y', m', d') -> y' <= 9999 ->
  posix_time_from_utc 1970 1 1 0 0 0 = Some 0 /\
  posix_time_from_utc y' m' d' h mi s = Some (t + SECS_PER_DAY).
Proof.
  intros H Hn Hy'. split; [done|].
  destruct (posix_time_from_utc_Some _ _ _ _ _ _ _ H) as [Hd Ht].
  rewrite posix_time_from_utc_valid in H by done. apply (inj Some) in H.
  apply is_valid_date_spec in Hd.
  assert (Hd' : valid_date y' m' d').
  { destruct Hd as (Hy & Hm & Hd). unfold next_date in Hn.
    assert (1 <= days_in_month y (m + 1)) by (unfold days_in_month; repeat case_match; lia).
    repeat case_if; simplify_eq; bool_to_prop; unfold valid_date; repeat split; try lia.
    unfold days_in_month; lia. }
  rewrite posix_time_from_utc_valid by (done || by apply is_valid_date_spec).
  rewrite (days_of_civil_next y m d y' m' d') by done. f_equal. lia.
Qed.

Lemma posix_time_next_day_witness :
  posix_time_from_utc 1970 1 1 0 0 0 = Some 0 /\
  posix_time_from_utc 2024 3 1 12 0 0 = Some (1709208000 + SECS_PER_DAY).
Proof.
  apply (posix_time_next_day 2024 2 29 2024 3 1 12 0 0 1709208000);
    [reflexivity | reflexivity | lia].
Defined.

(** [OPENSSL_gmtime_adj] moves a time by a number of days and seconds
    exactly when the result stays between the years 0000 and 9999 (the int64
    overflow tests never reject a representable result), and
    [OPENSSL_gmtime_diff] recovers the distance. *)
Theorem gmtime_adj_spec t offset_day offset_sec p q :
  - 2 ^ 31 <= offset_day <= INT_MAX -> INT64_MIN <= offset_sec <= INT64_MAX ->
  OPENSSL_tm_to_posix t = Some p ->
  q = p + offset_day * SECS_PER_DAY + offset_sec ->
  if is_valid_posix_time q
  then exists t', OPENSSL_gmtime_adj t offset_day offset_sec = Some t' /\
         OPENSSL_tm_to_posix t' = Some q /\
         OPENSSL_gmtime_diff t t' =
           Some (Z.quot (q - p) SECS_PER_DAY, Z.rem (q - p) SECS_PER_DAY)
  else OPENSSL_gmtime_adj t offset_day offset_sec = None.
Proof.
  intros Hod Hos Hp Hq. assert (Hr := OPENSSL_tm_to_posix_range _ _ Hp).
  unfold OPENSSL_gmtime_adj. rewrite Hp.
  unfold MIN_POSIX_TIME, MAX_POSIX_TIME, INT_MAX, INT64_MIN, INT64_MAX in *.
  change SECS_PER_DAY with 86400 in *. cbv zeta. rewrite <- Hq.
  destruct (is_valid_posix_time q) eqn:Hv.
  - assert (Hv' := Hv). unfold is_valid_posix_time, MIN_POSIX_TIME, MAX_POSIX_TIME in Hv'.
    bool_to_prop.
    destruct ((0 <? _) && _) eqn:E1; [lia|]. destruct ((_ <? 0) && _) eqn:E2; [lia|].
    apply is_valid_posix_time_total in Hv as [t' Ht']. exists t'.
    split; [done|]. apply tm_posix_inv in Ht'. split; [done|].
    unfold OPENSSL_gmtime_diff. by rewrite Ht', Hp.
  - destruct (OPENSSL_posix_to_tm q) as [t'|] eqn:E; [|by repeat case_if].
    assert (is_valid_posix_time q = true) by (apply is_valid_posix_time_total; eauto).
    congruence.
Qed.

Lemma gmtime_adj_spec_witness :
  OPENSSL_gmtime_adj (mk_tm 124 1 28 23 0 0) 1 3600 = Some (mk_tm 124 2 1 0 0 0) /\
  exists t', OPENSSL_gmtime_adj (mk_tm 124 1 28 23 0 0) 1 3600 = Some t' /\
    OPENSSL_tm_to_posix t' = Some 1709251200 /\
    OPENSSL_gmtime_diff (mk_tm 124 1 28 23 0 0) t' = Some (1, 3600).
Proof.
  split; [reflexivity|].
  apply (gmtime_adj_spec (mk_tm 124 1 28 23 0 0) 1 3600 1709161200 1709251200);
    (reflexivity || (vm_compute; split; discriminate)).
Defined.
