(* ===== verification/Internal.v ===== *)
(** * Word-level helpers shared by the C++ sources

    Model of the inline functions of crypto/internal.h (constant-time
    selection, byte order, rotation, carry arithmetic) and of the byte-string
    and character helpers of crypto/mem.cc, for the 64-bit targets of the
    program ([crypto_word_t] is [uint64_t]).  A [value_barrier_*] is the
    identity. *)

From S2P Require Import Prelude.

Module Consttime.

Definition CONSTTIME_TRUE_W : Z := 2 ^ 64 - 1.
Definition CONSTTIME_FALSE_W : Z := 0.
Definition CONSTTIME_TRUE_8 : Z := 255.
Definition CONSTTIME_FALSE_8 : Z := 0.

Definition value_barrier_w (a : Z) : Z := a.

Definition constant_time_msb_w (a : Z) : Z := u64 (0 - Z.shiftr a 63).

Definition constant_time_lt_w (a b : Z) : Z :=
  constant_time_msb_w (Z.lxor a (Z.lor (Z.lxor a b) (Z.lxor (u64 (a - b)) a))).

Definition constant_time_lt_8 (a b : Z) : Z := u8 (constant_time_lt_w a b).

Definition constant_time_ge_w (a b : Z) : Z := u64 (Z.lnot (constant_time_lt_w a b)).

Definition constant_time_ge_8 (a b : Z) : Z := u8 (constant_time_ge_w a b).

Definition constant_time_is_zero_w (a : Z) : Z :=
  constant_time_msb_w (Z.land (u64 (Z.lnot a)) (u64 (a - 1))).

Definition constant_time_is_zero_8 (a : Z) : Z := u8 (constant_time_is_zero_w a).

Definition constant_time_eq_w (a b : Z) : Z := constant_time_is_zero_w (Z.lxor a b).

Definition constant_time_eq_8 (a b : Z) : Z := u8 (constant_time_eq_w a b).

(** The arguments are C [int]s, sign-extended to a word. *)
Definition constant_time_eq_int (a b : Z) : Z := constant_time_eq_w (u64 a) (u64 b).

Definition constant_time_select_w (mask a b : Z) : Z :=
  let mask := value_barrier_w mask in
  Z.lor (Z.land mask a) (Z.land (u64 (Z.lnot mask)) b).

Definition constant_time_select_8 (mask a b : Z) : Z :=
  let m := u8 (value_barrier_w mask) in
  u8 (Z.lor (Z.land m a) (Z.land (Z.lnot m) b)).

Definition constant_time_select_32 (mask a b : Z) : Z :=
  u32 (constant_time_select_w mask a b).

(** The loop over the [n] bytes of two equally long, disjoint buffers. *)
Fixpoint constant_time_conditional_memcpy (dst src : list Z) (mask : Z) : list Z :=
  match dst, src with
  | d :: dst', s :: src' =>
      constant_time_select_8 mask s d :: constant_time_conditional_memcpy dst' src' mask
  | _, _ => dst
  end.

Fixpoint constant_time_conditional_memxor (dst src : list Z) (mask : Z) : list Z :=
  match dst, src with
  | d :: dst', s :: src' =>
      u8 (Z.lxor d (Z.land (value_barrier_w mask) s))
      :: constant_time_conditional_memxor dst' src' mask
  | _, _ => dst
  end.

End Consttime.

Module Endian.

Definition CRYPTO_bswap2 (x : Z) : Z := u16 (Z.lor (Z.shiftr x 8) (Z.shiftl x 8)).

Definition CRYPTO_bswap4 (x : Z) : Z :=
  let x := Z.lor (Z.shiftr x 16) (u32 (Z.shiftl x 16)) in
  Z.lor (Z.shiftr (Z.land x 0xff00ff00) 8) (u32 (Z.shiftl (Z.land x 0x00ff00ff) 8)).

Definition CRYPTO_bswap8 (x : Z) : Z :=
  Z.lor (CRYPTO_bswap4 (Z.shiftr x 32)) (u64 (Z.shiftl (CRYPTO_bswap4 (u32 x)) 32)).

(** [memcpy] between an integer and its bytes, on a little-endian target. *)
Definition CRYPTO_load_u16_le (src : list Z) : Z := le_decode (take 2 src).
Definition CRYPTO_store_u16_le (v : Z) : list Z := le_encode 2 v.
Definition CRYPTO_load_u16_be (src : list Z) : Z := CRYPTO_bswap2 (le_decode (take 2 src)).
Definition CRYPTO_store_u16_be (v : Z) : list Z := le_encode 2 (CRYPTO_bswap2 v).
Definition CRYPTO_load_u32_le (src : list Z) : Z := le_decode (take 4 src).
Definition CRYPTO_store_u32_le (v : Z) : list Z := le_encode 4 v.
Definition CRYPTO_load_u32_be (src : list Z) : Z := CRYPTO_bswap4 (le_decode (take 4 src)).
Definition CRYPTO_store_u32_be (v : Z) : list Z := le_encode 4 (CRYPTO_bswap4 v).
Definition CRYPTO_load_u64_le (src : list Z) : Z := le_decode (take 8 src).
Definition CRYPTO_store_u64_le (v : Z) : list Z := le_encode 8 v.
Definition CRYPTO_load_u64_be (src : list Z) : Z := CRYPTO_bswap8 (le_decode (take 8 src)).
Definition CRYPTO_store_u64_be (v : Z) : list Z := le_encode 8 (CRYPTO_bswap8 v).

Definition CRYPTO_rotl_u32 (value shift : Z) : Z :=
  Z.lor (u32 (Z.shiftl value shift)) (Z.shiftr value (Z.land (- shift) 31)).
Definition CRYPTO_rotr_u32 (value shift : Z) : Z :=
  Z.lor (Z.shiftr value shift) (u32 (Z.shiftl value (Z.land (- shift) 31))).
Definition CRYPTO_rotl_u64 (value shift : Z) : Z :=
  Z.lor (u64 (Z.shiftl value shift)) (Z.shiftr value (Z.land (- shift) 63)).
Definition CRYPTO_rotr_u64 (value shift : Z) : Z :=
  Z.lor (Z.shiftr value shift) (u64 (Z.shiftl value (Z.land (- shift) 63))).

End Endian.

Module Carry.

(** The result and the carry or borrow bit. *)
Definition CRYPTO_addc_u32 (x y carry : Z) : Z * Z :=
  let ret := u64 (carry + u64 (x + y)) in (u32 ret, u32 (Z.shiftr ret 32)).

(** The portable branch, without a 128-bit type. *)
Definition CRYPTO_addc_u64 (x y carry : Z) : Z * Z :=
  let x := u64 (x + carry) in
  let carry := if x <? carry then 1 else 0 in
  let ret := u64 (x + y) in
  let carry := u64 (carry + (if ret <? x then 1 else 0)) in
  (ret, carry).

Definition CRYPTO_subc_u32 (x y borrow : Z) : Z * Z :=
  let ret := u32 (x - y - borrow) in
  (ret, Z.lor (if x <? y then 1 else 0) (Z.land (if x =? y then 1 else 0) borrow)).

Definition CRYPTO_subc_u64 (x y borrow : Z) : Z * Z :=
  let ret := u64 (x - y - borrow) in
  (ret, Z.lor (if x <? y then 1 else 0) (Z.land (if x =? y then 1 else 0) borrow)).

End Carry.

Module Mem.

(** [OPENSSL_memchr]: the index of the first byte equal to [c]. *)
Fixpoint OPENSSL_memchr (s : list Z) (c : Z) : option nat :=
  match s with
  | [] => None
  | b :: s' => if b =? c then Some O else S <$> OPENSSL_memchr s' c
  end.

(** The sign of [memcmp] on two buffers of the same length. *)
Fixpoint OPENSSL_memcmp (s1 s2 : list Z) : Z :=
  match s1, s2 with
  | a :: s1', b :: s2' =>
      if a <? b then -1 else if b <? a then 1 else OPENSSL_memcmp s1' s2'
  | _, _ => 0
  end.

(** The loop of [CRYPTO_memcmp] over two buffers of the same length. *)
Fixpoint memcmp_loop (x : Z) (a b : list Z) : Z :=
  match a, b with
  | p :: a', q :: b' => memcmp_loop (Z.lor x (Z.lxor p q)) a' b'
  | _, _ => x
  end.
Definition CRYPTO_memcmp (a b : list Z) : Z := memcmp_loop 0 a b.

Definition OPENSSL_hash32 (s : list Z) : Z :=
  foldl (fun h b => u32 (Z.lxor h b * 16777619)) 2166136261 s.

(** A C string is the list of its characters, without the terminating NUL. *)
Fixpoint OPENSSL_strnlen (s : list Z) (n : nat) : nat :=
  match n, s with
  | O, _ => O
  | S n', c :: s' => if c =? 0 then O else S (OPENSSL_strnlen s' n')
  | S _, [] => O
  end.

Definition OPENSSL_isalpha (c : Z) : bool :=
  ((97 <=? c) && (c <=? 122)) || ((65 <=? c) && (c <=? 90)).

Definition OPENSSL_isdigit (c : Z) : bool := (48 <=? c) && (c <=? 57).

Definition OPENSSL_isxdigit (c : Z) : bool :=
  OPENSSL_isdigit c || ((97 <=? c) && (c <=? 102)) || ((65 <=? c) && (c <=? 70)).

Definition OPENSSL_fromxdigit (c : Z) : option Z :=
  if OPENSSL_isdigit c then Some (c - 48)
  else if (97 <=? c) && (c <=? 102) then Some (c - 97 + 10)
  else if (65 <=? c) && (c <=? 70) then Some (c - 65 + 10)
  else None.

Definition OPENSSL_isalnum (c : Z) : bool := OPENSSL_isalpha c || OPENSSL_isdigit c.

Definition OPENSSL_tolower (c : Z) : Z :=
  if (65 <=? c) && (c <=? 90) then c + (97 - 65) else c.

Definition OPENSSL_isspace (c : Z) : bool :=
  (c =? 9) || (c =? 10) || (c =? 11) || (c =? 12) || (c =? 13) || (c =? 32).

(** The character at the head of a C string, NUL at its end. *)
Definition str_head (s : list Z) : Z := match s with [] => 0 | c :: _ => c end.

Fixpoint OPENSSL_strcasecmp (a b : list Z) : Z :=
  let aa := OPENSSL_tolower (str_head a) in
  let bb := OPENSSL_tolower (str_head b) in
  if aa <? bb then -1
  else if bb <? aa then 1
  else if aa =? 0 then 0
  else match a, b with
       | _ :: a', _ :: b' => OPENSSL_strcasecmp a' b'
       | _, _ => 0
       end.

Fixpoint OPENSSL_strncasecmp (a b : list Z) (n : nat) : Z :=
  match n with
  | O => 0
  | S n' =>
      let aa := OPENSSL_tolower (str_head a) in
      let bb := OPENSSL_tolower (str_head b) in
      if aa <? bb then -1
      else if bb <? aa then 1
      else if aa =? 0 then 0
      else match a, b with
           | _ :: a', _ :: b' => OPENSSL_strncasecmp a' b' n'
           | _, _ => 0
           end
  end.

End Mem.

(** ** Constant-time operations are their branching counterparts *)

Module ConsttimeFacts.
Import Consttime.

Lemma word64_testbit_top a : word 64 a -> Z.testbit a 63 = (2 ^ 63 <=? a).
Proof. apply (word_testbit_top 63). lia. Qed.

Lemma constant_time_msb_w_spec a : word 64 a ->
  constant_time_msb_w a = if Z.testbit a 63 then CONSTTIME_TRUE_W else 0.
Proof.
  intros Ha. rewrite word64_testbit_top by done.
  unfold constant_time_msb_w. rewrite Z.shiftr_div_pow2 by lia.
  destruct Ha as [H0 H1]. case_if; bool_to_prop.
  - assert (Hq : a / 2 ^ 63 = 1) by (symmetry; apply Z.div_unique with (a - 2 ^ 63); lia).
    by rewrite Hq.
  - by rewrite Z.div_small by lia.
Qed.

Lemma constant_time_lt_w_mask a b : word 64 a -> word 64 b ->
  constant_time_lt_w a b = if a <? b then CONSTTIME_TRUE_W else CONSTTIME_FALSE_W.
Proof.
  intros Ha Hb. unfold constant_time_lt_w.
  assert (Hd : word 64 (u64 (a - b))) by auto with word_db lia.
  rewrite constant_time_msb_w_spec by auto 8 with word_db lia.
  rewrite Z.lxor_spec, Z.lor_spec, !Z.lxor_spec.
  rewrite !word64_testbit_top by done.
  unfold wrap. destruct Ha as [Ha0 Ha1], Hb as [Hb0 Hb1].
  assert (Hm : (a - b) mod 2 ^ 64 = if a <? b then a - b + 2 ^ 64 else a - b).
  { case_if; bool_to_prop; symmetry; [apply Z.mod_unique with (-1)|apply Z.mod_unique with 0]; lia. }
  rewrite Hm. clear Hm Hd. destruct (a <? b) eqn:Hab; bool_to_prop;
  destruct (2 ^ 63 <=? a) eqn:Ea, (2 ^ 63 <=? b) eqn:Eb; simpl;
    try destruct (2 ^ 63 <=? a - b + _) eqn:Ed; try destruct (2 ^ 63 <=? a - b) eqn:Ed';
    bool_to_prop; simpl; try done; lia.
Qed.

Lemma constant_time_is_zero_w_mask a : word 64 a ->
  constant_time_is_zero_w a = if a =? 0 then CONSTTIME_TRUE_W else CONSTTIME_FALSE_W.
Proof.
  intros Ha. unfold constant_time_is_zero_w.
  rewrite constant_time_msb_w_spec by auto 8 with word_db lia.
  rewrite Z.land_spec, !word64_testbit_top by auto with word_db lia.
  rewrite wrap_lnot by (done || lia). unfold wrap. destruct Ha as [Ha0 Ha1].
  destruct (a =? 0) eqn:E; bool_to_prop; [by subst|].
  rewrite Z.mod_small by lia. repeat case_if; bool_to_prop; try done; lia.
Qed.

Lemma constant_time_eq_w_mask a b : word 64 a -> word 64 b ->
  constant_time_eq_w a b = if a =? b then CONSTTIME_TRUE_W else CONSTTIME_FALSE_W.
Proof.
  intros Ha Hb. unfold constant_time_eq_w.
  rewrite constant_time_is_zero_w_mask by auto with word_db lia.
  destruct (Z.eqb_spec a b) as [->|Hne]; [by rewrite Z.lxor_nilpotent|].
  destruct (Z.eqb_spec (Z.lxor a b) 0) as [E|]; [|done].
  by apply Z.lxor_eq in E.
Qed.

Lemma u8_mask (c : bool) :
  u8 (if c then CONSTTIME_TRUE_W else CONSTTIME_FALSE_W) =
  if c then CONSTTIME_TRUE_8 else CONSTTIME_FALSE_8.
Proof. by destruct c. Qed.

Lemma constant_time_eq_8_mask a b : word 64 a -> word 64 b ->
  constant_time_eq_8 a b = if a =? b then CONSTTIME_TRUE_8 else CONSTTIME_FALSE_8.
Proof.
  intros. unfold constant_time_eq_8. by rewrite constant_time_eq_w_mask, u8_mask.
Qed.

Lemma constant_time_select_w_mask (c : bool) a b : word 64 a -> word 64 b ->
  constant_time_select_w (if c then CONSTTIME_TRUE_W else CONSTTIME_FALSE_W) a b =
  if c then a else b.
Proof.
  intros Ha Hb. unfold constant_time_select_w, value_barrier_w, CONSTTIME_TRUE_W, CONSTTIME_FALSE_W.
  destruct c.
  - rewrite Z.land_comm, land_ones_mod, Z.mod_small by (done || lia).
    change (u64 (Z.lnot (2 ^ 64 - 1))) with 0. by rewrite Z.land_0_l, Z.lor_0_r.
  - change (u64 (Z.lnot 0)) with (2 ^ 64 - 1).
    rewrite Z.land_0_l, Z.lor_0_l, Z.land_comm, land_ones_mod by lia. by apply Z.mod_small.
Qed.

(** A mask whose low byte is all ones or all zeros selects a byte. *)
Lemma constant_time_select_8_mask (c : bool) mask a b : byte a -> byte b ->
  u8 mask = (if c then CONSTTIME_TRUE_8 else CONSTTIME_FALSE_8) ->
  constant_time_select_8 mask a b = if c then a else b.
Proof.
  intros Ha Hb Hm. unfold constant_time_select_8, value_barrier_w. rewrite Hm.
  unfold CONSTTIME_TRUE_8, CONSTTIME_FALSE_8. destruct c.
  - rewrite (Z.land_comm 255 a). change (Z.land a 255) with (Z.land a (2 ^ 8 - 1)).
    rewrite land_ones_mod, Z.mod_small by (done || lia).
    assert (E : Z.land (Z.lnot 255) b = 0).
    { apply Z.bits_inj'. intros i Hi. rewrite Z.land_spec, Z.bits_0.
      destruct (decide (i < 8)).
      - change 255 with (Z.ones 8). by rewrite Z.lnot_spec, Z.ones_spec_low by lia.
      - by rewrite (word_testbit_high 8 b i), andb_false_r by (done || lia). }
    rewrite E, Z.lor_0_r. by apply wrap_small.
  - rewrite Z.land_0_l, Z.lor_0_l. change (Z.lnot 0) with (-1).
    rewrite Z.land_m1_l. by apply wrap_small.
Qed.

Lemma conditional_memcpy_select (c : bool) mask dst src :
  u8 mask = (if c then CONSTTIME_TRUE_8 else CONSTTIME_FALSE_8) ->
  bytes dst -> bytes src -> length dst = length src ->
  constant_time_conditional_memcpy dst src mask = if c then src else dst.
Proof.
  intros Hm Hd. revert src. induction Hd as [|d dst Hb Hd IH]; intros [|s src] Hs Hl;
    simpl in *; try done; [by destruct c|].
  inversion_clear Hs. rewrite IH by (done || lia).
  rewrite (constant_time_select_8_mask c) by done. by destruct c.
Qed.

(** The branch-free comparisons and selections of crypto/internal.h
    compute what the corresponding C conditionals compute: each comparison is
    the all-ones mask or zero, and a selection under such a mask is the chosen
    operand, for every pair of 64-bit words (and byte buffers). *)
Theorem constant_time_correct a b :
  word 64 a -> word 64 b ->
  constant_time_lt_w a b = (if a <? b then CONSTTIME_TRUE_W else CONSTTIME_FALSE_W) /\
  constant_time_ge_w a b = (if b <=? a then CONSTTIME_TRUE_W else CONSTTIME_FALSE_W) /\
  constant_time_is_zero_w a = (if a =? 0 then CONSTTIME_TRUE_W else CONSTTIME_FALSE_W) /\
  constant_time_eq_w a b = (if a =? b then CONSTTIME_TRUE_W else CONSTTIME_FALSE_W) /\
  constant_time_select_w (constant_time_lt_w a b) a b = Z.min a b /\
  (forall dst src, bytes dst -> bytes src -> length dst = length src ->
     constant_time_conditional_memcpy dst src (constant_time_eq_w a b) =
       if a =? b then src else dst).
Proof.
  intros Ha Hb. rewrite constant_time_is_zero_w_mask, constant_time_eq_w_mask by done.
  unfold constant_time_ge_w. rewrite constant_time_lt_w_mask by done.
  repeat split.
  - rewrite Z.leb_antisym. by destruct (a <? b).
  - rewrite constant_time_select_w_mask by done. case_if; bool_to_prop; lia.
  - intros dst src Hd Hs Hl. apply conditional_memcpy_select; [|done..].
    by rewrite u8_mask.
Qed.

Lemma constant_time_correct_witness :
  constant_time_lt_w 3 (2 ^ 63) = CONSTTIME_TRUE_W /\
  constant_time_select_w (constant_time_lt_w 3 (2 ^ 63)) 3 (2 ^ 63) = 3.
Proof.
  destruct (constant_time_correct 3 (2 ^ 63)) as (H1 & _ & _ & _ & H5 & _);
    [split; reflexivity || discriminate | split; reflexivity || discriminate|].
  exact (conj H1 H5).
Defined.

End ConsttimeFacts.

(** ** Byte order, rotation and carries *)

Module EndianFacts.
Import Endian.

Lemma lor_add_disjoint n a b : 0 <= n -> 0 <= b < 2 ^ n -> Z.lor b (a * 2 ^ n) = a * 2 ^ n + b.
Proof.
  intros. rewrite <- lor_shiftl_add, Z.shiftl_mul_pow2 by done. apply Z.lor_comm.
Qed.

Lemma CRYPTO_bswap2_bytes b0 b1 : byte b0 -> byte b1 ->
  CRYPTO_bswap2 (b1 * 256 + b0) = b0 * 256 + b1.
Proof.
  intros H0 H1. apply byte_range in H0, H1. unfold CRYPTO_bswap2.
  rewrite Z.shiftr_div_pow2, Z.shiftl_mul_pow2 by lia. change (2 ^ 8) with 256.
  replace ((b1 * 256 + b0) / 256) with b1 by div_lia.
  rewrite (lor_add_disjoint 8) by lia. unfold wrap. change (2 ^ 16) with 65536.
  change (2 ^ 8) with 256. div_lia.
Qed.

Lemma CRYPTO_bswap4_bytes b0 b1 b2 b3 : byte b0 -> byte b1 -> byte b2 -> byte b3 ->
  CRYPTO_bswap4 (((b3 * 256 + b2) * 256 + b1) * 256 + b0) =
  ((b0 * 256 + b1) * 256 + b2) * 256 + b3.
Proof.
  intros H0 H1 H2 H3. apply byte_range in H0, H1, H2, H3. unfold CRYPTO_bswap4.
  set (x := ((b3 * 256 + b2) * 256 + b1) * 256 + b0).
  assert (Hy : Z.lor (Z.shiftr x 16) (u32 (Z.shiftl x 16)) =
               ((b1 * 2 ^ 8 + b0) * 2 ^ 8 + b3) * 2 ^ 8 + b2).
  { rewrite Z.shiftr_div_pow2, Z.shiftl_mul_pow2 by lia.
    replace (x / 2 ^ 16) with (b3 * 256 + b2) by (subst x; div_lia).
    replace (u32 (x * 2 ^ 16)) with ((b1 * 256 + b0) * 2 ^ 16)
      by (subst x; unfold wrap; div_lia).
    rewrite (lor_add_disjoint 16) by lia. lia. }
  rewrite Hy. clear Hy x. cbv zeta.
  change 0xff00ff00 with (((255 * 2 ^ 8 + 0) * 2 ^ 8 + 255) * 2 ^ 8 + 0).
  change 0x00ff00ff with (((0 * 2 ^ 8 + 255) * 2 ^ 8 + 0) * 2 ^ 8 + 255).
  rewrite !land_limbs by lia. rewrite !Z.land_0_r.
  assert (Hff : forall b, 0 <= b < 256 -> Z.land b 255 = b).
  { intros b Hb. change 255 with (2 ^ 8 - 1). rewrite land_ones_mod by lia.
    by apply Z.mod_small. }
  rewrite !Hff by done. rewrite Z.shiftr_div_pow2, Z.shiftl_mul_pow2 by lia.
  replace ((((b1 * 2 ^ 8 + 0) * 2 ^ 8 + b3) * 2 ^ 8 + 0) / 2 ^ 8)
    with ((0 * 2 ^ 8 + b1) * 2 ^ 16 + (0 * 2 ^ 8 + b3)) by div_lia.
  replace (u32 ((((0 * 2 ^ 8 + b0) * 2 ^ 8 + 0) * 2 ^ 8 + b2) * 2 ^ 8))
    with ((b0 * 2 ^ 8 + 0) * 2 ^ 16 + (b2 * 2 ^ 8 + 0)) by (unfold wrap; div_lia).
  rewrite !lor_limbs by lia. rewrite !Z.lor_0_r, !Z.lor_0_l. lia.
Qed.

Lemma CRYPTO_bswap8_words lo hi : word 32 lo -> word 32 hi ->
  word 32 (CRYPTO_bswap4 lo) -> word 32 (CRYPTO_bswap4 hi) ->
  CRYPTO_bswap8 (hi * 2 ^ 32 + lo) = CRYPTO_bswap4 lo * 2 ^ 32 + CRYPTO_bswap4 hi.
Proof.
  intros Hlo Hhi Blo Bhi. unfold CRYPTO_bswap8.
  rewrite Z.shiftr_div_pow2, Z.shiftl_mul_pow2 by lia.
  assert (E1 : (hi * 2 ^ 32 + lo) / 2 ^ 32 = hi) by (unfold word in *; div_lia).
  assert (E2 : u32 (hi * 2 ^ 32 + lo) = lo) by (unfold word, wrap in *; div_lia).
  rewrite E1, E2, (wrap_small 64); [by apply lor_add_disjoint|].
  unfold word in *. change (2 ^ 64) with (2 ^ 32 * 2 ^ 32). lia.
Qed.

Lemma le_decode_2 b0 b1 : le_decode [b0; b1] = b1 * 256 + b0.
Proof. done. Qed.
Lemma le_decode_4 b0 b1 b2 b3 :
  le_decode [b0; b1; b2; b3] = ((b3 * 256 + b2) * 256 + b1) * 256 + b0.
Proof. done. Qed.

Lemma bswap4_load l : length l = 4%nat -> bytes l -> CRYPTO_bswap4 (le_decode l) = be_decode l.
Proof.
  intros Hl Hb. destruct l as [|b0 [|b1 [|b2 [|b3 [|]]]]]; try done.
  bytes_inv Hb.
  rewrite le_decode_4.  rewrite CRYPTO_bswap4_bytes by done. done.
Qed.

Lemma bswap8_load l : length l = 8%nat -> bytes l -> CRYPTO_bswap8 (le_decode l) = be_decode l.
Proof.
  intros Hl Hb. rewrite <- (take_drop 4 l) in Hb |- *. apply bytes_app in Hb as [Hb1 Hb2].
  set (p := take 4 l) in *. set (q := drop 4 l) in *.
  assert (Hp : length p = 4%nat) by (subst p; rewrite length_take; lia).
  assert (Hq : length q = 4%nat) by (subst q; rewrite length_drop; lia).
  clearbody p q. unfold le_decode. rewrite reverse_app, !be_decode_app, length_reverse, Hp, Hq.
  change (256 ^ Z.of_nat 4) with (2 ^ 32). fold (le_decode p) (le_decode q).
  assert (Bp := be_decode_bound _ Hb1). assert (Bq := be_decode_bound _ Hb2).
  rewrite Hp in Bp. rewrite Hq in Bq.
  assert (Rp : word 32 (le_decode p)).
  { unfold le_decode. assert (B := be_decode_bound (reverse p)).
    rewrite length_reverse, Hp in B. apply B. by apply Forall_reverse. }
  assert (Rq : word 32 (le_decode q)).
  { unfold le_decode. assert (B := be_decode_bound (reverse q)).
    rewrite length_reverse, Hq in B. apply B. by apply Forall_reverse. }
  rewrite CRYPTO_bswap8_words; rewrite ?bswap4_load by done; done.
Qed.

Lemma le_encode_decode_word n x : word (8 * Z.of_nat n) x -> le_decode (le_encode n x) = x.
Proof.
  intros Hx. rewrite le_decode_encode. replace (256 ^ Z.of_nat n) with (2 ^ (8 * Z.of_nat n)).
  - by apply Z.mod_small.
  - rewrite Z.pow_mul_r by lia. done.
Qed.

Lemma bytes_le_encode n v : bytes (le_encode n v).
Proof. apply Forall_reverse, bytes_be_encode. Qed.

(** Storing the swapped value stores the bytes in the other order. *)
Lemma le_encode_swapped n (bswap : Z -> Z) x :
  (forall l, length l = n -> bytes l -> bswap (le_decode l) = be_decode l) ->
  word (8 * Z.of_nat n) x -> le_encode n (bswap x) = be_encode n x.
Proof.
  intros Hs Hx. rewrite <- (le_encode_decode_word n x Hx) at 1.
  rewrite Hs by (apply length_le_encode || apply bytes_le_encode).
  unfold le_encode at 1. rewrite be_encode_decode'.
  - unfold le_encode. apply reverse_involutive.
  - apply length_le_encode.
  - apply bytes_le_encode.
Qed.

Lemma bswap2_load l : length l = 2%nat -> bytes l -> CRYPTO_bswap2 (le_decode l) = be_decode l.
Proof.
  intros Hl Hb. destruct l as [|b0 [|b1 [|]]]; try done. bytes_inv Hb.
  rewrite le_decode_2. by rewrite CRYPTO_bswap2_bytes by done.
Qed.

Lemma neg_land_mask k s : 0 < s < 2 ^ k -> 0 <= k -> Z.land (- s) (2 ^ k - 1) = 2 ^ k - s.
Proof.
  intros Hs Hk. rewrite land_ones_mod by done. symmetry.
  apply Z.mod_unique with (-1); lia.
Qed.

(** Rotation of a w-bit word by arithmetic. *)
Definition rot_left (w v s : Z) : Z := (v * 2 ^ s) mod 2 ^ w + v / 2 ^ (w - s).

Lemma rot_left_lor w v s : 0 < s < w -> word w v ->
  Z.lor (wrap w (Z.shiftl v s)) (Z.shiftr v (w - s)) = rot_left w v s.
Proof.
  intros Hs [H0 H1]. rewrite Z.shiftl_mul_pow2, Z.shiftr_div_pow2 by lia.
  unfold rot_left, wrap. assert (Hp : 2 ^ w = 2 ^ s * 2 ^ (w - s))
    by (rewrite <- Z.pow_add_r by lia; f_equal; lia).
  assert (0 < 2 ^ s) by (apply Z.pow_pos_nonneg; lia).
  assert (0 < 2 ^ (w - s)) by (apply Z.pow_pos_nonneg; lia).
  assert (Hm : (v * 2 ^ s) mod 2 ^ w = (v mod 2 ^ (w - s)) * 2 ^ s).
  { rewrite Hp, (Z.mul_comm (2 ^ s)). rewrite Z.mul_mod_distr_r by lia. lia. }
  rewrite Hm, Z.lor_comm. rewrite lor_add_disjoint; [done|lia|].
  split; [by apply Z.div_pos; lia|]. apply Z.div_lt_upper_bound; [done|]. lia.
Qed.

Lemma CRYPTO_rotl_u32_rot v s : 0 < s < 32 -> word 32 v -> CRYPTO_rotl_u32 v s = rot_left 32 v s.
Proof.
  intros. unfold CRYPTO_rotl_u32. change 31 with (2 ^ 5 - 1).
  rewrite neg_land_mask by lia. by apply rot_left_lor.
Qed.

Lemma CRYPTO_rotl_u64_rot v s : 0 < s < 64 -> word 64 v -> CRYPTO_rotl_u64 v s = rot_left 64 v s.
Proof.
  intros. unfold CRYPTO_rotl_u64. change 63 with (2 ^ 6 - 1).
  rewrite neg_land_mask by lia. by apply rot_left_lor.
Qed.

(** Loads and stores of crypto/internal.h agree with the big- and
    little-endian value of a byte string on a little-endian target: storing a
    word and loading it back is the identity, a big-endian store writes the
    bytes most significant first, and a big-endian load reads them so. *)
Theorem load_store_roundtrip v rest :
  word 64 v ->
  CRYPTO_store_u64_be v = be_encode 8 v /\
  CRYPTO_load_u64_be (CRYPTO_store_u64_be v ++ rest) = v /\
  CRYPTO_load_u64_le (CRYPTO_store_u64_le v ++ rest) = v /\
  CRYPTO_bswap8 (CRYPTO_bswap8 v) = v /\
  (word 32 v -> CRYPTO_store_u32_be v = be_encode 4 v /\
     CRYPTO_load_u32_be (CRYPTO_store_u32_be v ++ rest) = v) /\
  (word 16 v -> CRYPTO_store_u16_be v = be_encode 2 v /\
     CRYPTO_load_u16_be (CRYPTO_store_u16_be v ++ rest) = v).
Proof.
  intros Hv.
  assert (G : forall n bswap, (forall l, length l = n -> bytes l -> bswap (le_decode l) = be_decode l) ->
    word (8 * Z.of_nat n) v -> le_encode n (bswap v) = be_encode n v /\
    bswap (le_decode (take n (le_encode n (bswap v) ++ rest))) = v).
  { intros n bswap Hs Hw. assert (E := le_encode_swapped n bswap v Hs Hw).
    split; [done|]. rewrite E, take_app_exact by (by rewrite length_be_encode).
    rewrite Hs by (apply length_be_encode || apply bytes_be_encode).
    rewrite be_decode_encode. apply Z.mod_small.
    unfold word in Hw. rewrite (Z.pow_mul_r 2 8) in Hw by lia. exact Hw. }
  destruct (G 8%nat CRYPTO_bswap8 bswap8_load Hv) as [G1 G2].
  repeat split; [exact G1|exact G2| | | |  | |].
  - unfold CRYPTO_load_u64_le, CRYPTO_store_u64_le.
    rewrite take_app_exact by (by rewrite length_le_encode). by apply (le_encode_decode_word 8).
  - rewrite <- (le_encode_decode_word 8 v Hv) at 1.
    rewrite bswap8_load by (apply length_le_encode || apply bytes_le_encode).
    assert (E : be_decode (le_encode 8 v) = le_decode (be_encode 8 v)) by done.
    rewrite E, bswap8_load by (apply length_be_encode || apply bytes_be_encode).
    rewrite be_decode_encode. by apply Z.mod_small.
  - by apply (G 4%nat CRYPTO_bswap4 bswap4_load).
  - by apply (G 4%nat CRYPTO_bswap4 bswap4_load).
  - by apply (G 2%nat CRYPTO_bswap2 bswap2_load).
  - by apply (G 2%nat CRYPTO_bswap2 bswap2_load).
Qed.

Lemma load_store_roundtrip_witness :
  CRYPTO_store_u64_be 0x0102030405060708 = [1; 2; 3; 4; 5; 6; 7; 8] /\
  CRYPTO_load_u64_be (CRYPTO_store_u64_be 0x0102030405060708 ++ [9]) = 0x0102030405060708.
Proof.
  destruct (load_store_roundtrip 0x0102030405060708 [9]) as (H1 & H2 & _);
    [split; reflexivity || discriminate|].
  exact (conj H1 H2).
Defined.

End EndianFacts.

Module CarryFacts.
Import Carry.

(** The carry chains are exact: [CRYPTO_addc_*] returns the low word and
    the carry bit of [x + y + carry], [CRYPTO_subc_*] the low word and the
    borrow bit of [x - y - borrow], without losing a bit. *)
Theorem addc_subc_exact x y c :
  word 64 x -> word 64 y -> word 1 c ->
  (let '(r, c') := CRYPTO_addc_u64 x y c in r + 2 ^ 64 * c' = x + y + c /\ word 64 r /\ word 1 c') /\
  (let '(r, b') := CRYPTO_subc_u64 x y c in r - 2 ^ 64 * b' = x - y - c /\ word 64 r /\ word 1 b') /\
  (word 32 x -> word 32 y ->
   (let '(r, c') := CRYPTO_addc_u32 x y c in r + 2 ^ 32 * c' = x + y + c /\ word 32 r /\ word 1 c') /\
   (let '(r, b') := CRYPTO_subc_u32 x y c in r - 2 ^ 32 * b' = x - y - c /\ word 32 r /\ word 1 b')).
Proof.
  intros Hx Hy Hc. unfold word in *.
  assert (B : forall p q : bool, Z.lor (if p then 1 else 0) (Z.land (if q then 1 else 0) c)
                = if p || (q && (c =? 1)) then 1 else 0).
  { assert (c = 0 \/ c = 1) as [-> | ->] by lia; by intros [] []. }
  repeat split; unfold CRYPTO_addc_u64, CRYPTO_subc_u64, CRYPTO_addc_u32, CRYPTO_subc_u32;
    rewrite ?B; cbv zeta beta; rewrite ?Z.shiftr_div_pow2 by lia; unfold wrap;
    repeat match goal with |- context [if ?b then _ else _] => destruct b eqn:? end; div_lia.
Qed.

Lemma addc_subc_exact_witness :
  (let '(r, c') := CRYPTO_addc_u64 (2 ^ 64 - 1) 0 1 in
     r + 2 ^ 64 * c' = 2 ^ 64 - 1 + 0 + 1 /\ word 64 r /\ word 1 c').
Proof.
  apply (addc_subc_exact (2 ^ 64 - 1) 0 1); split; reflexivity || discriminate.
Defined.

End CarryFacts.

Module MemFacts.
Import Mem.

Lemma memcmp_loop_zero x a b : length a = length b ->
  memcmp_loop x a b = 0 <-> x = 0 /\ a = b.
Proof.
  revert x b. induction a as [|p a IH]; intros x [|q b] Hl; try done; [naive_solver|].
  simpl. rewrite IH by (simpl in Hl; lia). rewrite Z.lor_eq_0_iff, Z.lxor_eq_0_iff. naive_solver.
Qed.

Lemma CRYPTO_memcmp_zero a b : length a = length b -> CRYPTO_memcmp a b = 0 <-> a = b.
Proof. intros. unfold CRYPTO_memcmp. rewrite memcmp_loop_zero by done. naive_solver. Qed.

Lemma OPENSSL_memchr_spec s c :
  match OPENSSL_memchr s c with
  | Some i => s !! i = Some c /\ forall j, (j < i)%nat -> s !! j <> Some c
  | None => c ∉ s
  end.
Proof.
  induction s as [|b s IH]; simpl; [set_solver|].
  destruct (Z.eqb_spec b c) as [->|Hne]; [split; [done|lia]|].
  destruct (OPENSSL_memchr s c) as [i|]; simpl.
  - destruct IH as [H1 H2]. split; [done|]. intros [|j] Hj; simpl; [congruence|].
    apply H2. lia.
  - set_solver.
Qed.

Lemma OPENSSL_memchr_lt s c i : OPENSSL_memchr s c = Some i -> (i < length s)%nat.
Proof.
  intros H. assert (S := OPENSSL_memchr_spec s c). rewrite H in S. destruct S as [S _].
  by apply lookup_lt_Some in S.
Qed.

End MemFacts.
