(* ===== verification/Alloc.v ===== *)
(** * Heap allocation

    Model of the allocation functions of crypto/mem.cc.  The C library's
    [malloc] is the class [Malloc]: it returns [None] (NULL) or a block of the
    requested number of bytes, whose contents are arbitrary.  The build has no
    [OPENSSL_memory_alloc] override and no malloc failure testing.  A block is
    the list of its bytes; the size word that [OPENSSL_malloc] keeps in front
    of a block is the length of the list, and [OPENSSL_free], which returns
    nothing, has no definition. *)

From S2P Require Import Prelude Internal.
Import Mem.

Class Malloc := {
  malloc : Z -> option (list Z);
  malloc_length : forall n m, 0 <= n -> malloc n = Some m -> len m = n;
  malloc_bytes : forall n m, malloc n = Some m -> bytes m
}.

(** The allocator has memory for every request of less than [2^63 + 8] bytes. *)
Definition malloc_never_fails `{Malloc} : Prop :=
  forall n, 0 <= n < 2 ^ 63 + 8 -> malloc n <> None.

Section alloc.
Context `{Malloc}.

Definition OPENSSL_MALLOC_PREFIX : Z := 8.

Definition OPENSSL_malloc (size : Z) : option (list Z) :=
  if u64 (size + OPENSSL_MALLOC_PREFIX) <? size then None
  else match malloc (u64 (size + OPENSSL_MALLOC_PREFIX)) with
       | None => None
       | Some ptr => Some (drop (Z.to_nat OPENSSL_MALLOC_PREFIX) ptr)
       end.

Definition OPENSSL_zalloc (size : Z) : option (list Z) :=
  match OPENSSL_malloc size with
  | Some ret => Some (mem_write ret 0 (replicate (Z.to_nat size) 0))
  | None => None
  end.

Definition OPENSSL_calloc (num size : Z) : option (list Z) :=
  if negb (size =? 0) && (UINT64_MAX / size <? num) then None
  else OPENSSL_zalloc (u64 (num * size)).

(** [orig] is [None] for a null pointer. *)
Definition OPENSSL_realloc (orig : option (list Z)) (new_size : Z) : option (list Z) :=
  match orig with
  | None => OPENSSL_malloc new_size
  | Some orig =>
      let old_size := len orig in
      match OPENSSL_malloc new_size with
      | None => None
      | Some ret =>
          let to_copy := if old_size <? new_size then old_size else new_size in
          Some (mem_write ret 0 (take (Z.to_nat to_copy) orig))
      end
  end.

Definition OPENSSL_memdup (data : list Z) : option (list Z) :=
  if len data =? 0 then None
  else match OPENSSL_malloc (len data) with
       | None => None
       | Some ret => Some (mem_write ret 0 data)
       end.

Definition OPENSSL_strndup (str : list Z) (size : Z) : option (list Z) :=
  let size := Z.of_nat (OPENSSL_strnlen str (Z.to_nat size)) in
  let alloc_size := u64 (size + 1) in
  if alloc_size <? size then None
  else match OPENSSL_malloc alloc_size with
       | None => None
       | Some ret => Some (<[Z.to_nat size := 0]> (mem_write ret 0 (take (Z.to_nat size) str)))
       end.

(** ** Blocks have the requested size *)

Lemma OPENSSL_malloc_Some n m : word 64 n -> OPENSSL_malloc n = Some m ->
  len m = n /\ bytes m.
Proof.
  intros [H0 H1]. unfold OPENSSL_malloc, OPENSSL_MALLOC_PREFIX, wrap.
  destruct (Z.ltb_spec ((n + 8) mod 2 ^ 64) n) as [|Hn]; [done|].
  assert (E : (n + 8) mod 2 ^ 64 = n + 8) by div_lia. rewrite E.
  destruct (malloc (n + 8)) as [p|] eqn:Em; [|done]. intros [= <-].
  assert (L : len p = n + 8) by (eapply malloc_length; [lia|done]). assert (B := malloc_bytes _ _ Em).
  rewrite length_drop. split; [lia|auto with bytes_db].
Qed.

Lemma OPENSSL_malloc_total n : malloc_never_fails -> 0 <= n < 2 ^ 63 ->
  is_Some (OPENSSL_malloc n).
Proof.
  intros Hm Hn. unfold OPENSSL_malloc, OPENSSL_MALLOC_PREFIX.
  rewrite (wrap_small 64) by (unfold word; lia).
  destruct (Z.ltb_spec (n + 8) n); [lia|].
  specialize (Hm (n + 8) ltac:(lia)). destruct (malloc (n + 8)); [eauto|done].
Qed.

(** Reallocating a block to a larger size keeps its bytes at the front. *)
Lemma OPENSSL_realloc_Some o n m : word 64 n -> len o <= n -> bytes o ->
  OPENSSL_realloc (Some o) n = Some m ->
  len m = n /\ bytes m /\ take (length o) m = o.
Proof.
  intros Hn Ho Hb. unfold OPENSSL_realloc.
  destruct (OPENSSL_malloc n) as [r|] eqn:Er; [|done]. intros [= <-].
  destruct (OPENSSL_malloc_Some _ _ Hn Er) as [Hl Hr].
  assert (E : take (Z.to_nat (if len o <? n then len o else n)) o = o).
  { apply take_ge. case_if; bool_to_prop; lia. }
  rewrite E. rewrite length_mem_write by lia. split; [done|].
  unfold mem_write. simpl. rewrite take_app_exact by done. auto with bytes_db.
Qed.

End alloc.

(** A [malloc] that always succeeds and returns zeroed memory. *)
Program Definition zero_malloc : Malloc := {| malloc n := Some (replicate (Z.to_nat n) 0) |}.
Next Obligation. intros n m Hn [= <-]. rewrite length_replicate. lia. Qed.
Next Obligation. intros n m [= <-]. by apply bytes_replicate. Qed.

Lemma zero_malloc_total : @malloc_never_fails zero_malloc.
Proof. intros n _. discriminate. Qed.
