(* ===== verification/Cbs.v ===== *)
(** * CBS: reading byte strings

    Model of crypto/bytestring/cbs.cc.  A [CBS] is a window (pointer and
    length) on bytes it does not own; it is the list of the bytes in the
    window, and a [CBS] carved out of another one is a sub-list.

    A function that takes a [CBS *] and returns an [int] is a [parser]: it
    returns the value written through its out parameter ([None] for the return
    value 0) together with the new contents of the window, also when it
    fails: several functions of the file have consumed part of their input
    when they return 0.  Out parameters are not read after a failure, so what
    a failing call leaves in them is not part of the model.  [size_t] has 64
    bits. *)

From S2P Require Import Prelude Internal PosixTime.
Import Endian Mem.

Abbreviation CBS := (list Z).

Abbreviation parser := (fallible CBS).

(** A local copy of the window: [p] runs on the copy, the window is unchanged. *)
Definition pcopy {A} (p : parser A) : parser A := fun s => (fst (p s), s).

(** ** Reading *)

Definition CBS_len (cbs : CBS) : Z := len cbs.

Definition cbs_get (n : Z) : parser CBS := fun cbs =>
  if CBS_len cbs <? n then (None, cbs)
  else (Some (take (Z.to_nat n) cbs), drop (Z.to_nat n) cbs).

Definition CBS_skip (n : Z) : parser unit :=
  let* _ := cbs_get n in pret tt.

Definition CBS_contains_zero_byte (cbs : CBS) : bool :=
  match OPENSSL_memchr cbs 0 with Some _ => true | None => false end.

Definition CBS_mem_equal (cbs data : CBS) : bool :=
  if negb (len data =? CBS_len cbs) then false else CRYPTO_memcmp cbs data =? 0.

Definition cbs_get_u (n : Z) : parser Z :=
  let* data := cbs_get n in
  pret (foldl (fun result b => Z.lor (u64 (Z.shiftl result 8)) b) 0 data).

Definition CBS_get_u8 : parser Z := fun cbs =>
  match cbs_get 1 cbs with
  | (Some (v :: _), cbs') => (Some v, cbs')
  | (_, cbs') => (None, cbs')
  end.

Definition CBS_get_u16 : parser Z := let* v := cbs_get_u 2 in pret (u16 v).
Definition CBS_get_u16le : parser Z := let* v := CBS_get_u16 in pret (CRYPTO_bswap2 v).
Definition CBS_get_u24 : parser Z := let* v := cbs_get_u 3 in pret (u32 v).
Definition CBS_get_u32 : parser Z := let* v := cbs_get_u 4 in pret (u32 v).
Definition CBS_get_u32le : parser Z := let* v := CBS_get_u32 in pret (CRYPTO_bswap4 v).
Definition CBS_get_u48 : parser Z := cbs_get_u 6.
Definition CBS_get_u64 : parser Z := cbs_get_u 8.
Definition CBS_get_u64le : parser Z := let* v := cbs_get_u 8 in pret (CRYPTO_bswap8 v).

Definition CBS_get_last_u8 : parser Z := fun cbs =>
  match last cbs with
  | None => (None, cbs)
  | Some b => (Some b, take (length cbs - 1) cbs)
  end.

Definition CBS_get_bytes (n : Z) : parser CBS := cbs_get n.
Definition CBS_copy_bytes (n : Z) : parser (list Z) := cbs_get n.

Definition cbs_get_length_prefixed (len_len : Z) : parser CBS :=
  let* n := cbs_get_u len_len in CBS_get_bytes n.

Definition CBS_get_u8_length_prefixed : parser CBS := cbs_get_length_prefixed 1.
Definition CBS_get_u16_length_prefixed : parser CBS := cbs_get_length_prefixed 2.
Definition CBS_get_u24_length_prefixed : parser CBS := cbs_get_length_prefixed 3.

Definition CBS_get_until_first (c : Z) : parser CBS := fun cbs =>
  match OPENSSL_memchr cbs c with
  | None => (None, cbs)
  | Some split => CBS_get_bytes (Z.of_nat split) cbs
  end.

(** [strchr(chars, c)] for a non-zero [c]. *)
Definition strchr (chars : list Z) (c : Z) : bool := existsb (Z.eqb c) chars.

(** The number of leading bytes the scan [while (pos < len && stay)] passes. *)
Fixpoint scan_while (stay : Z -> bool) (cbs : CBS) : nat :=
  match cbs with
  | [] => O
  | c :: cbs' => if stay c then S (scan_while stay cbs') else O
  end.

Definition CBS_get_until_first_of (chars : list Z) : parser CBS := fun cbs =>
  let pos := scan_while (fun c => (c =? 0) || negb (strchr chars c)) cbs in
  if Z.of_nat pos =? CBS_len cbs then (None, cbs) else CBS_get_bytes (Z.of_nat pos) cbs.

Definition CBS_get_until_first_not_of (chars : list Z) : parser CBS := fun cbs =>
  let pos := scan_while (fun c => negb (c =? 0) && strchr chars c) cbs in
  if Z.of_nat pos =? CBS_len cbs then (None, cbs) else CBS_get_bytes (Z.of_nat pos) cbs.

(** The loop of [CBS_get_u64_decimal]; every iteration consumes one byte. *)
Fixpoint get_u64_decimal_loop (v : Z) (seen_digit : bool) (cbs : CBS) : option Z * CBS :=
  match cbs with
  | [] => (if seen_digit then Some v else None, cbs)
  | c :: cbs' =>
      if negb (OPENSSL_isdigit c) then (if seen_digit then Some v else None, cbs)
      else if ((v =? 0) && seen_digit) || (UINT64_MAX / 10 <? v)
              || (UINT64_MAX - (c - 48) <? u64 (v * 10))
      then (None, cbs')
      else get_u64_decimal_loop (u64 (v * 10 + (c - 48))) true cbs'
  end.
Definition CBS_get_u64_decimal : parser Z := get_u64_decimal_loop 0 false.

(** ** ASN.1 elements *)

(** The do-while loop of [parse_base128_integer]. *)
Fixpoint parse_base128_loop (v : Z) (cbs : CBS) : option Z * CBS :=
  match cbs with
  | [] => (None, cbs)
  | b :: cbs' =>
      if negb (Z.shiftr v (64 - 7) =? 0) then (None, cbs')
      else if (v =? 0) && (b =? 0x80) then (None, cbs')
      else
        let v := Z.lor (u64 (Z.shiftl v 7)) (Z.land b 0x7f) in
        if negb (Z.land b 0x80 =? 0) then parse_base128_loop v cbs' else (Some v, cbs')
  end.
Definition parse_base128_integer : parser Z := parse_base128_loop 0.

Definition CBS_ASN1_TAG_SHIFT : Z := 24.
Definition CBS_ASN1_CONSTRUCTED : Z := Z.shiftl 0x20 CBS_ASN1_TAG_SHIFT.
Definition CBS_ASN1_CONTEXT_SPECIFIC : Z := Z.shiftl 0x80 CBS_ASN1_TAG_SHIFT.
Definition CBS_ASN1_TAG_NUMBER_MASK : Z := Z.shiftl 1 (5 + CBS_ASN1_TAG_SHIFT) - 1.
Definition CBS_ASN1_BOOLEAN : Z := 0x1.
Definition CBS_ASN1_INTEGER : Z := 0x2.
Definition CBS_ASN1_OCTETSTRING : Z := 0x4.
Definition CBS_ASN1_OBJECT : Z := 0x6.
Definition CBS_ASN1_SEQUENCE : Z := Z.lor 0x10 CBS_ASN1_CONSTRUCTED.

Definition parse_asn1_tag : parser Z :=
  let* tag_byte := CBS_get_u8 in
  let tag := u32 (Z.shiftl (Z.land tag_byte 0xe0) CBS_ASN1_TAG_SHIFT) in
  let tag_number := Z.land tag_byte 0x1f in
  let* tag_number :=
    (if tag_number =? 0x1f then
       let* v := parse_base128_integer in
       check negb (CBS_ASN1_TAG_NUMBER_MASK <? v) in
       check negb (v <? 0x1f) in
       pret (u32 v)
     else pret tag_number) in
  let tag := Z.lor tag tag_number in
  check negb (Z.land tag (u32 (Z.lnot CBS_ASN1_CONSTRUCTED)) =? 0) in
  pret tag.

(** What [cbs_get_any_asn1_element] reports through its out parameters. *)
Record element := mk_element {
  el_cbs : CBS; el_tag : Z; el_header_len : Z; el_ber_found : bool; el_indefinite : bool
}.

(** The header is read from a copy of the window; only the final
    [CBS_get_bytes] advances the window itself. *)
Definition cbs_get_any_asn1_element (ber_ok : bool) : parser element := fun cbs =>
  match parse_asn1_tag cbs with
  | (None, _) => (None, cbs)
  | (Some tag, header) =>
  match CBS_get_u8 header with
  | (None, _) => (None, cbs)
  | (Some length_byte, header) =>
      let header_len := CBS_len cbs - CBS_len header in
      if Z.land length_byte 0x80 =? 0 then
        let n := u64 (length_byte + header_len) in
        (let* out := CBS_get_bytes n in pret (mk_element out tag header_len false false)) cbs
      else
        let num_bytes := Z.land length_byte 0x7f in
        if ber_ok && negb (Z.land tag CBS_ASN1_CONSTRUCTED =? 0) && (num_bytes =? 0) then
          (let* out := CBS_get_bytes header_len in
           pret (mk_element out tag header_len true true)) cbs
        else if (num_bytes =? 0) || (4 <? num_bytes) then (None, cbs)
        else
          match cbs_get_u num_bytes header with
          | (None, _) => (None, cbs)
          | (Some len64, _) =>
              let not_short := len64 <? 128 in
              let not_minimal := Z.shiftr len64 ((num_bytes - 1) * 8) =? 0 in
              if negb ber_ok && (not_short || not_minimal) then (None, cbs)
              else if u64 (len64 + header_len + num_bytes) <? len64 then (None, cbs)
              else
                let n := u64 (len64 + (header_len + num_bytes)) in
                (let* out := CBS_get_bytes n in
                 pret (mk_element out tag (header_len + num_bytes)
                         (not_short || not_minimal) false)) cbs
          end
  end end.

Definition CBS_get_any_asn1_element : parser (CBS * Z * Z) :=
  let* e := cbs_get_any_asn1_element false in
  pret (el_cbs e, el_tag e, el_header_len e).

Definition CBS_get_any_ber_asn1_element : parser element := cbs_get_any_asn1_element true.

Definition CBS_get_any_asn1 : parser (CBS * Z) :=
  let* '(out, tag, header_len) := CBS_get_any_asn1_element in
  match CBS_skip header_len out with
  | (Some _, out') => pret (out', tag)
  | (None, _) => pfail
  end.

Definition cbs_get_asn1 (tag_value : Z) (skip_header : bool) : parser CBS :=
  let* '(out, tag, header_len) := CBS_get_any_asn1_element in
  check (tag =? tag_value) in
  if skip_header then
    match CBS_skip header_len out with
    | (Some _, out') => pret out'
    | (None, _) => pfail
    end
  else pret out.

Definition CBS_get_asn1 (tag_value : Z) : parser CBS := cbs_get_asn1 tag_value true.
Definition CBS_get_asn1_element (tag_value : Z) : parser CBS := cbs_get_asn1 tag_value false.

Definition CBS_peek_asn1_tag (cbs : CBS) (tag_value : Z) : bool :=
  match parse_asn1_tag cbs with
  | (Some actual_tag, _) => tag_value =? actual_tag
  | (None, _) => false
  end.

(** ** ASN.1 values *)

Definition CBS_is_valid_asn1_integer (cbs : CBS) : option bool :=
  match CBS_get_u8 cbs with
  | (None, _) => None
  | (Some first_byte, copy) =>
      let is_negative := negb (Z.land first_byte 0x80 =? 0) in
      match CBS_get_u8 copy with
      | (None, _) => Some is_negative
      | (Some second_byte, _) =>
          if ((first_byte =? 0x00) && (Z.land second_byte 0x80 =? 0))
             || ((first_byte =? 0xff) && negb (Z.land second_byte 0x80 =? 0))
          then None else Some is_negative
      end
  end.

Definition CBS_is_unsigned_asn1_integer (cbs : CBS) : bool :=
  match CBS_is_valid_asn1_integer cbs with
  | Some is_negative => negb is_negative
  | None => false
  end.

(** The accumulation loop of [CBS_get_asn1_uint64_with_tag]. *)
Fixpoint asn1_uint64_loop (out : Z) (data : list Z) : option Z :=
  match data with
  | [] => Some out
  | b :: data' =>
      if negb (Z.shiftr out 56 =? 0) then None
      else asn1_uint64_loop (Z.lor (u64 (Z.shiftl out 8)) b) data'
  end.

Definition CBS_get_asn1_uint64_with_tag (tag : Z) : parser Z :=
  let* bytes := CBS_get_asn1 tag in
  check CBS_is_unsigned_asn1_integer bytes in
  plift (asn1_uint64_loop 0 bytes).

Definition CBS_get_asn1_uint64 : parser Z := CBS_get_asn1_uint64_with_tag CBS_ASN1_INTEGER.

(** The conversion of a [uint64_t] to [int64_t]. *)
Definition to_int64 (v : Z) : Z := if v <? 2 ^ 63 then v else v - 2 ^ 64.

Definition CBS_get_asn1_int64_with_tag (tag : Z) : parser Z :=
  let* bytes := CBS_get_asn1 tag in
  let* is_negative := plift (CBS_is_valid_asn1_integer bytes) in
  check negb (8 <? CBS_len bytes) in
  let sign_extend :=
    replicate (8 - length bytes) (if is_negative : bool then 0xff else 0) ++ bytes in
  pret (to_int64 (CRYPTO_load_u64_be sign_extend)).

Definition CBS_get_asn1_int64 : parser Z := CBS_get_asn1_int64_with_tag CBS_ASN1_INTEGER.

Definition CBS_get_asn1_bool : parser bool :=
  let* bytes := CBS_get_asn1 CBS_ASN1_BOOLEAN in
  match bytes with
  | [value] =>
      check negb (negb (value =? 0) && negb (value =? 0xff)) in
      pret (negb (value =? 0))
  | _ => pfail
  end.

Definition CBS_get_optional_asn1 (tag : Z) : parser (option CBS) := fun cbs =>
  if CBS_peek_asn1_tag cbs tag then (let* out := CBS_get_asn1 tag in pret (Some out)) cbs
  else (Some None, cbs).

(** [p] must consume the whole of [child] ([CBS_len(&child) != 0] fails). *)
Definition parse_all {A} (p : parser A) (child : CBS) : option A :=
  match p child with
  | (Some x, []) => Some x
  | _ => None
  end.

Definition CBS_get_optional_asn1_octet_string (tag : Z) : parser (option CBS) :=
  let* child := CBS_get_optional_asn1 tag in
  match child with
  | Some child => let* out := plift (parse_all (CBS_get_asn1 CBS_ASN1_OCTETSTRING) child) in
                  pret (Some out)
  | None => pret None
  end.

Definition CBS_get_optional_asn1_uint64 (tag default_value : Z) : parser Z :=
  let* child := CBS_get_optional_asn1 tag in
  match child with
  | Some child => plift (parse_all CBS_get_asn1_uint64 child)
  | None => pret default_value
  end.

Definition CBS_get_optional_asn1_bool (tag : Z) (default_value : bool) : parser bool :=
  let* child := CBS_get_optional_asn1 tag in
  match child with
  | Some child =>
      let* child2 := plift (parse_all (CBS_get_asn1 CBS_ASN1_BOOLEAN) child) in
      match child2 with
      | [boolean] =>
          if boolean =? 0 then pret false
          else if boolean =? 0xff then pret true
          else pfail
      | _ => pfail
      end
  | None => pret default_value
  end.

Definition CBS_is_valid_asn1_bitstring (cbs : CBS) : bool :=
  match CBS_get_u8 cbs with
  | (None, _) => false
  | (Some num_unused_bits, rest) =>
      if 7 <? num_unused_bits then false
      else if num_unused_bits =? 0 then true
      else match CBS_get_last_u8 rest with
           | (None, _) => false
           | (Some last, _) => Z.land last (Z.shiftl 1 num_unused_bits - 1) =? 0
           end
  end.

Definition CBS_asn1_bitstring_has_bit (cbs : CBS) (bit : Z) : bool :=
  if negb (CBS_is_valid_asn1_bitstring cbs) then false
  else
    let byte_num := u32 (Z.shiftr bit 3 + 1) in
    let bit_num := 7 - Z.land bit 7 in
    (byte_num <? CBS_len cbs)
    && negb (Z.land (default 0 (cbs !! Z.to_nat byte_num)) (Z.shiftl 1 bit_num) =? 0).

(** The loop of [CBS_is_valid_asn1_oid]. *)
Fixpoint valid_oid_loop (prev : Z) (cbs : CBS) : bool :=
  match cbs with
  | [] => Z.land prev 0x80 =? 0
  | v :: cbs' =>
      if (Z.land prev 0x80 =? 0) && (v =? 0x80) then false else valid_oid_loop v cbs'
  end.

Definition CBS_is_valid_asn1_oid (cbs : CBS) : bool :=
  if CBS_len cbs =? 0 then false else valid_oid_loop 0 cbs.

Definition CBS_is_valid_asn1_relative_oid (cbs : CBS) : bool := CBS_is_valid_asn1_oid cbs.

(** ** Times *)

Definition cbs_get_two_digits : parser Z :=
  let* first_digit := CBS_get_u8 in
  check OPENSSL_isdigit first_digit in
  let* second_digit := CBS_get_u8 in
  check OPENSSL_isdigit second_digit in
  pret ((first_digit - 48) * 10 + (second_digit - 48)).

Definition is_valid_day (year month day : Z) : bool :=
  if day <? 1 then false
  else match month with
       | 1 | 3 | 5 | 7 | 8 | 10 | 12 => day <=? 31
       | 4 | 6 | 9 | 11 => day <=? 30
       | 2 => if is_leap_year year then day <=? 29 else day <=? 28
       | _ => false
       end.

(** The year of a GeneralizedTime (four digits) or of a UTCTime (two digits,
    1950 to 2049). *)
Definition parse_time_year (is_gentime : bool) : parser Z :=
  if is_gentime then
    let* century := cbs_get_two_digits in
    let* yy := cbs_get_two_digits in
    pret (century * 100 + yy)
  else
    let* yy := cbs_get_two_digits in
    let year := 1900 + yy in
    let year := if year <? 1950 then year + 100 else year in
    check negb (2050 <=? year) in
    pret year.

(** The zone designator: [Z], or, if allowed, a sign and four digits; the
    result is [offset_seconds]. *)
Definition parse_time_zone (allow_timezone_offset : bool) : parser Z :=
  let* tz := CBS_get_u8 in
  let* offset_sign :=
    (if tz =? 90 then pret 0 else if tz =? 43 then pret 1
     else if tz =? 45 then pret (-1) else pfail) in
  if negb (offset_sign =? 0) then
    check allow_timezone_offset in
    let* offset_hours := cbs_get_two_digits in
    check negb (23 <? offset_hours) in
    let* offset_minutes := cbs_get_two_digits in
    check negb (59 <? offset_minutes) in
    pret (offset_sign * (offset_hours * 3600 + offset_minutes * 60))
  else pret 0.

Definition parse_time_fields (is_gentime allow_timezone_offset : bool) : parser (tm * Z) :=
  let* year := parse_time_year is_gentime in
  let* month := cbs_get_two_digits in
  check negb ((month <? 1) || (12 <? month)) in
  let* day := cbs_get_two_digits in
  check is_valid_day year month day in
  let* hour := cbs_get_two_digits in
  check negb (23 <? hour) in
  let* min := cbs_get_two_digits in
  check negb (59 <? min) in
  let* sec := cbs_get_two_digits in
  check negb (59 <? sec) in
  let* offset_seconds := parse_time_zone allow_timezone_offset in
  pret (mk_tm (year - 1900) (month - 1) day hour min sec, offset_seconds).

(** [want_tm] is [out_tm != nullptr]; the result is the time stored there. *)
Definition CBS_parse_rfc5280_time_internal (cbs : CBS)
    (is_gentime allow_timezone_offset want_tm : bool) : option (option tm) :=
  match parse_all (parse_time_fields is_gentime allow_timezone_offset) cbs with
  | None => None
  | Some (t, offset_seconds) =>
      if negb want_tm then Some None
      else if offset_seconds =? 0 then Some (Some t)
      else match OPENSSL_gmtime_adj t 0 offset_seconds with
           | None => None
           | Some t' => Some (Some t')
           end
  end.

Definition CBS_parse_generalized_time (cbs : CBS) (want_tm allow_timezone_offset : bool) :=
  CBS_parse_rfc5280_time_internal cbs true allow_timezone_offset want_tm.

Definition CBS_parse_utc_time (cbs : CBS) (want_tm allow_timezone_offset : bool) :=
  CBS_parse_rfc5280_time_internal cbs false allow_timezone_offset want_tm.
