(* ===== verification/CbsFacts.v ===== *)
(** * Generic facts about the readers of cbs.cc

    The parser interface [ParserOk]: what a reader promises to its callers
    about the window it works on; inversion lemmas for the primitive readers;
    the big-endian value read by [cbs_get_u]. *)

From S2P Require Import Prelude Internal PosixTime Cbs.
Import Endian Mem.

Create HintDb parser_db.

(** ** The parser interface *)

(** A well-behaved reader consumes a prefix of its window, whatever it
    returns, and a successful read depends on the consumed bytes only. *)
Class ParserOk {A} (p : parser A) : Prop := {
  ok_suffix : forall s r s', p s = (r, s') -> exists pre, s = pre ++ s';
  ok_frame : forall s x s' t, p s = (Some x, s') -> p (s ++ t) = (Some x, s' ++ t)
}.

#[export] Instance pret_ok {A} (x : A) : ParserOk (pret x).
Proof. split; unfold pret; [intros s r s' [= <- <-]; by exists []|naive_solver]. Qed.

#[export] Instance pfail_ok {A} : ParserOk (@pfail _ A).
Proof. split; unfold pfail; [intros s r s' [= <- <-]; by exists []|naive_solver]. Qed.

#[export] Instance pguard_ok b : ParserOk (pguard b).
Proof. destruct b; apply _. Qed.

#[export] Instance plift_ok {A} (o : option A) : ParserOk (plift o).
Proof. destruct o; apply _. Qed.

#[export] Instance pbind_ok {A B} (m : parser A) (f : A -> parser B) :
  ParserOk m -> (forall x, ParserOk (f x)) -> ParserOk (pbind m f).
Proof.
  intros [Sm Fm] Hf. split.
  - intros s r s'. unfold pbind. destruct (m s) as [[x|] s1] eqn:E.
    + intros H. destruct (Sm _ _ _ E) as [p1 ->]. destruct (ok_suffix _ _ _ H) as [p2 ->].
      exists (p1 ++ p2). by rewrite app_assoc.
    + intros [= <- <-]. by apply Sm in E.
  - intros s y s' t H. apply pbind_Some in H as (x & s1 & E & H).
    rewrite (pbind_step _ _ _ x (s1 ++ t)) by (by apply Fm). by apply ok_frame.
Qed.

#[export] Instance if_ok {A} (b : bool) (p q : parser A) :
  ParserOk p -> ParserOk q -> ParserOk (if b then p else q).
Proof. by destruct b. Qed.

(** ** Primitive readers *)

Lemma cbs_get_app a b n : n = len a -> cbs_get n (a ++ b) = (Some a, b).
Proof.
  intros ->. unfold cbs_get, CBS_len. rewrite length_app.
  destruct (Z.ltb_spec (Z.of_nat (length a + length b)) (len a)); [lia|].
  by rewrite Nat2Z.id, take_app_length, drop_app_length.
Qed.

Lemma cbs_get_Some n s x s' : 0 <= n ->
  cbs_get n s = (Some x, s') <-> s = x ++ s' /\ len x = n.
Proof.
  intros Hn. split.
  - unfold cbs_get, CBS_len. destruct (Z.ltb_spec (len s) n); [done|].
    intros [= <- <-]. rewrite take_drop, length_take. split; [done|lia].
  - intros [-> <-]. by apply cbs_get_app.
Qed.

Lemma cbs_get_None n s : 0 <= n -> fst (cbs_get n s) = None <-> len s < n.
Proof.
  intros Hn. unfold cbs_get, CBS_len. destruct (Z.ltb_spec (len s) n); simpl; [done|].
  split; [done|lia].
Qed.

#[export] Instance cbs_get_ok n : ParserOk (cbs_get n).
Proof.
  split; unfold cbs_get, CBS_len.
  - intros s r s'. case_if; intros [= <- <-]; [by exists []|].
    exists (take (Z.to_nat n) s). by rewrite take_drop.
  - intros s x s' t. rewrite length_app. case_if; intros [= <- <-]. bool_to_prop.
    destruct (Z.ltb_spec (Z.of_nat (length s + length t)) n); [lia|].
    by rewrite take_app_le, drop_app_le by lia.
Qed.

Lemma CBS_get_u8_cons b s : CBS_get_u8 (b :: s) = (Some b, s).
Proof.
  unfold CBS_get_u8. rewrite (cbs_get_app [b] s) by done. done.
Qed.

Lemma CBS_get_u8_nil : CBS_get_u8 [] = (None, []).
Proof. done. Qed.

Lemma CBS_get_u8_Some b s s' : CBS_get_u8 s = (Some b, s') <-> s = b :: s'.
Proof.
  destruct s as [|c s]; [rewrite CBS_get_u8_nil; naive_solver|].
  rewrite CBS_get_u8_cons. naive_solver.
Qed.

#[export] Instance CBS_get_u8_ok : ParserOk CBS_get_u8.
Proof.
  split.
  - intros [|b s] r s'; [rewrite CBS_get_u8_nil|rewrite CBS_get_u8_cons];
      intros [= <- <-]; [by exists []|by exists [b]].
  - intros s x s' t H. apply CBS_get_u8_Some in H as ->. apply CBS_get_u8_cons.
Qed.

(** ** Big-endian integers *)

Lemma lor_shift8 acc b : 0 <= acc < 2 ^ 56 -> byte b ->
  Z.lor (u64 (Z.shiftl acc 8)) b = acc * 256 + b.
Proof.
  intros Ha Hb. rewrite (wrap_small 64).
  - by apply lor_shiftl_add.
  - rewrite Z.shiftl_mul_pow2 by lia. unfold word. lia.
Qed.

Lemma get_u_fold l acc k : bytes l -> (length l + k <= 8)%nat -> 0 <= acc < 256 ^ Z.of_nat k ->
  foldl (fun result b => Z.lor (u64 (Z.shiftl result 8)) b) acc l =
  foldl (fun result b => result * 256 + b) acc l.
Proof.
  revert acc k. induction l as [|b l IH]; intros acc k Hl Hk Ha; [done|].
  apply bytes_cons_inv in Hl as [Hb Hl]. simpl in *.
  assert (Ha' : acc < 2 ^ 56).
  { apply Z.lt_le_trans with (256 ^ Z.of_nat k); [lia|].
    change (2 ^ 56) with (256 ^ 7). apply Z.pow_le_mono_r; lia. }
  rewrite lor_shift8 by (done || lia). apply (IH _ (S k)); [done|lia|].
  apply byte_range in Hb. rewrite Nat2Z.inj_succ, Z.pow_succ_r by lia. lia.
Qed.

Lemma cbs_get_u_Some n s v s' : 0 <= n <= 8 -> bytes s ->
  cbs_get_u n s = (Some v, s') <-> exists d, s = d ++ s' /\ len d = n /\ v = be_decode d.
Proof.
  intros Hn Hs. unfold cbs_get_u. split.
  - intros H. parser_inv. apply cbs_get_Some in E as [-> Hx]; [|lia].
    exists x. split; [done|]. split; [done|]. apply bytes_app in Hs as [Hx' _].
    apply (get_u_fold _ 0 0); [done|lia|done].
  - intros (d & -> & Hd & ->). apply bytes_app in Hs as [Hd' _].
    rewrite (pbind_step _ _ _ d s') by (by apply cbs_get_app). unfold pret.
    do 2 f_equal. apply (get_u_fold _ 0 0); [done|lia|done].
Qed.

#[export] Instance cbs_get_u_ok n : ParserOk (cbs_get_u n).
Proof. unfold cbs_get_u. apply _. Qed.

Lemma cbs_get_u_encode (k : nat) v s : (k <= 8)%nat -> 0 <= v < 256 ^ Z.of_nat k -> bytes s ->
  cbs_get_u (Z.of_nat k) (be_encode k v ++ s) = (Some v, s).
Proof.
  intros Hk Hv Hs. apply cbs_get_u_Some; [lia|auto with bytes_db|].
  exists (be_encode k v). rewrite length_be_encode, be_decode_encode, Z.mod_small; auto.
Qed.

Lemma be_decode_word d w : bytes d -> w = 8 * len d -> word w (be_decode d).
Proof.
  intros Hd ->. unfold word. rewrite Z.pow_mul_r by lia. by apply be_decode_bound.
Qed.
