(* ===== verification/Der.v ===== *)
(** * DER: an abstract specification, and the readers that implement it

    The specification of an element is its encoding as a byte string: the
    identifier octets of a tag ([der_tag]), the minimal length octets
    ([der_len]) and the contents.  The readers of cbs.cc are characterised
    exactly: they accept the encodings and nothing else. *)

From S2P Require Import Prelude Internal PosixTime Cbs CbsFacts.
Import Endian Mem.

(** ** Base-128 integers *)

(** The continuation octets that carry the bits of [v] (none for 0). *)
Fixpoint base128_hi (fuel : nat) (v : Z) : list Z :=
  match fuel with
  | O => []
  | S fuel' => if v =? 0 then [] else base128_hi fuel' (v / 128) ++ [128 + v mod 128]
  end.

(** Ten groups of seven bits hold a 64-bit value. *)
Definition base128 (v : Z) : list Z := base128_hi 10 (v / 128) ++ [v mod 128].

Lemma base128_hi_fuel f v : 0 <= v < 128 ^ Z.of_nat f -> base128_hi f v = base128_hi (S f) v.
Proof.
  revert v. induction f as [|f IH]; intros v Hv.
  - simpl in *. assert (v = 0) as -> by lia. done.
  - cbn [base128_hi]. destruct (Z.eqb_spec v 0); [done|]. f_equal.
    rewrite Nat2Z.inj_succ, Z.pow_succ_r in Hv by lia. apply IH.
    split; [apply Z.div_pos; lia|]. apply Z.div_lt_upper_bound; lia.
Qed.

Lemma base128_hi_step v b : 0 < v * 128 + b -> 0 <= v < 2 ^ 57 -> 0 <= b < 128 ->
  base128_hi 10 (v * 128 + b) = base128_hi 10 v ++ [128 + b].
Proof.
  intros Hpos Hv Hb. rewrite <- (base128_hi_fuel 9 v).
  - cbn [base128_hi]. destruct (Z.eqb_spec (v * 128 + b) 0); [lia|].
    by replace ((v * 128 + b) / 128) with v by div_lia;
      replace ((v * 128 + b) mod 128) with b by div_lia.
  - change (128 ^ Z.of_nat 9) with (2 ^ 63). lia.
Qed.

Lemma bytes_base128_hi f v : bytes (base128_hi f v).
Proof.
  revert v. induction f as [|f IH]; intros v; cbn [base128_hi]; [constructor|].
  case_if; [constructor|]. apply bytes_app_2; [done|]. constructor; [|constructor].
  assert (0 <= v mod 128 < 128) by (by apply Z.mod_pos_bound). unfold word. lia.
Qed.

Lemma bytes_base128 v : bytes (base128 v).
Proof.
  apply bytes_app_2; [apply bytes_base128_hi|]. constructor; [|constructor].
  assert (0 <= v mod 128 < 128) by (by apply Z.mod_pos_bound). unfold word. lia.
Qed.

#[export] Hint Resolve bytes_base128 : bytes_db.

Lemma byte_land_7f b : byte b -> Z.land b 0x7f = b mod 128.
Proof. intros. change 0x7f with (2 ^ 7 - 1). by apply land_ones_mod. Qed.

Lemma byte_land_80 b : byte b -> (Z.land b 0x80 =? 0) = (b <? 128).
Proof.
  intros Hb. apply Bool.eqb_prop.
  apply (all_from_spec 256 0 (fun b => Bool.eqb (Z.land b 0x80 =? 0) (b <? 128)));
    [by vm_compute|]. apply byte_range in Hb. lia.
Qed.

Lemma shiftr_57_zero v : 0 <= v -> (Z.shiftr v 57 =? 0) = (v <? 2 ^ 57).
Proof.
  intros Hv. rewrite Z.shiftr_div_pow2 by lia.
  destruct (Z.ltb_spec v (2 ^ 57)); [rewrite Z.div_small by lia; done|].
  apply Z.eqb_neq. assert (1 <= v / 2 ^ 57) by (apply Z.div_le_lower_bound; lia). lia.
Qed.

(** One iteration of the loop of [parse_base128_integer]. *)
Lemma parse_base128_loop_cons v b s : 0 <= v -> byte b ->
  parse_base128_loop v (b :: s) =
    if negb (v <? 2 ^ 57) then (None, s)
    else if (v =? 0) && (b =? 128) then (None, s)
    else if b <? 128 then (Some (v * 128 + b), s)
    else parse_base128_loop (v * 128 + (b - 128)) s.
Proof.
  intros Hv Hb. cbn [parse_base128_loop]. change (64 - 7) with 57.
  rewrite shiftr_57_zero, byte_land_80, byte_land_7f by done. apply byte_range in Hb.
  destruct (Z.ltb_spec v (2 ^ 57)); simpl negb; [|done].
  destruct ((v =? 0) && (b =? 128)); [done|].
  assert (E : Z.lor (u64 (Z.shiftl v 7)) (b mod 128) = v * 128 + b mod 128).
  { rewrite (wrap_small 64); [apply lor_shiftl_add; [lia|by apply Z.mod_pos_bound]|].
    rewrite Z.shiftl_mul_pow2 by lia. unfold word. lia. }
  rewrite E. destruct (Z.ltb_spec b 128); simpl negb.
  - by rewrite (Z.mod_small b) by lia.
  - by replace (b mod 128) with (b - 128) by div_lia.
Qed.

Lemma parse_base128_hi f u s : 0 <= u < 2 ^ 57 -> u < 128 ^ Z.of_nat f ->
  parse_base128_loop 0 (base128_hi f u ++ s) = parse_base128_loop u s.
Proof.
  revert u s. induction f as [|f IH]; intros u s Hu Hf.
  - simpl in *. by assert (u = 0) as -> by lia.
  - cbn [base128_hi]. destruct (Z.eqb_spec u 0) as [->|Hne]; [done|].
    rewrite <- app_assoc. rewrite Nat2Z.inj_succ, Z.pow_succ_r in Hf by lia.
    assert (0 <= u / 128 < 2 ^ 57) by div_lia.
    assert (Hm : 0 <= u mod 128 < 128) by (by apply Z.mod_pos_bound).
    rewrite IH by (done || apply Z.div_lt_upper_bound; lia). simpl app.
    rewrite parse_base128_loop_cons by (done || unfold word; lia).
    destruct (Z.ltb_spec (u / 128) (2 ^ 57)); [|lia]. simpl negb.
    destruct ((u / 128 =? 0) && (128 + u mod 128 =? 128)) eqn:E; [bool_to_prop; div_lia|].
    destruct (Z.ltb_spec (128 + u mod 128) 128); [lia|]. f_equal. div_lia.
Qed.

Lemma parse_base128_encode v s : word 64 v ->
  parse_base128_integer (base128 v ++ s) = (Some v, s).
Proof.
  intros [H0 H1]. unfold parse_base128_integer, base128. rewrite <- app_assoc.
  assert (0 <= v / 128 < 2 ^ 57) by div_lia.
  assert (0 <= v mod 128 < 128) by (by apply Z.mod_pos_bound).
  rewrite parse_base128_hi by (change (128 ^ Z.of_nat 10) with (2 ^ 70); lia). simpl app.
  rewrite parse_base128_loop_cons by (done || unfold word; lia).
  destruct (Z.ltb_spec (v / 128) (2 ^ 57)); [|lia]. simpl negb.
  destruct (_ && (_ =? 128)) eqn:E; [bool_to_prop; lia|].
  destruct (Z.ltb_spec (v mod 128) 128); [|lia]. do 2 f_equal. div_lia.
Qed.

Lemma parse_base128_loop_Some s : forall v w s', bytes s -> 0 <= v ->
  parse_base128_loop v s = (Some w, s') ->
  word 64 w /\ v < 2 ^ 57 /\
  exists pre, s = pre ++ s' /\ base128_hi 10 v ++ pre = base128 w.
Proof.
  induction s as [|b s IH]; intros v w s' Hs Hv H; [done|].
  apply bytes_cons_inv in Hs as [Hb Hs].
  rewrite parse_base128_loop_cons in H by done. apply byte_range in Hb.
  destruct (Z.ltb_spec v (2 ^ 57)); simpl negb in H; [|done].
  destruct ((v =? 0) && (b =? 128)) eqn:E; [done|].
  destruct (Z.ltb_spec b 128).
  - simplify_eq. split; [unfold word; lia|]. split; [done|]. exists [b]. split; [done|].
    unfold base128. by replace ((v * 128 + b) / 128) with v by div_lia;
      replace ((v * 128 + b) mod 128) with b by div_lia.
  - apply IH in H as (Hw & _ & pre & -> & Hpre); [|done|lia].
    split; [done|]. split; [done|]. exists (b :: pre). split; [done|].
    rewrite <- Hpre, base128_hi_step by lia. rewrite <- app_assoc. simpl app.
    by replace (128 + (b - 128)) with b by lia.
Qed.

Lemma parse_base128_integer_Some s v s' : bytes s ->
  parse_base128_integer s = (Some v, s') <-> word 64 v /\ s = base128 v ++ s'.
Proof.
  intros Hs. split.
  - intros H. apply parse_base128_loop_Some in H as (Hw & _ & pre & -> & Hpre); [|done..].
    split; [done|]. by rewrite <- Hpre.
  - intros [Hw ->]. by apply parse_base128_encode.
Qed.

#[export] Instance parse_base128_ok : ParserOk parse_base128_integer.
Proof.
  assert (S : forall s v r s', parse_base128_loop v s = (r, s') -> exists pre, s = pre ++ s').
  { induction s as [|b s IH]; intros v r s'; cbn [parse_base128_loop].
    - intros [= <- <-]. by exists [].
    - repeat case_if; try (intros [= <- <-]; by exists [b]).
      intros H. apply IH in H as [pre ->]. by exists (b :: pre). }
  assert (F : forall s v x s' t, parse_base128_loop v s = (Some x, s') ->
                parse_base128_loop v (s ++ t) = (Some x, s' ++ t)).
  { induction s as [|b s IH]; intros v x s' t; [done|]. cbn [parse_base128_loop app].
    repeat case_if; try done; [by apply IH|]. by intros [= <- <-]. }
  split; unfold parse_base128_integer; eauto.
Qed.

(** ** Identifier and length octets *)

(** A tag in the in-memory representation: class and constructed bits on top,
    a number of 29 bits, and not [UNIVERSAL 0]. *)
Definition valid_tag (tag : Z) : Prop :=
  word 32 tag /\ ~ (tag mod 2 ^ 29 = 0 /\ tag / 2 ^ 29 <= 1).

Definition der_tag (tag : Z) : list Z :=
  let bits := tag / 2 ^ 29 * 32 in
  let number := tag mod 2 ^ 29 in
  if number <? 31 then [bits + number] else (bits + 31) :: base128 number.

Definition der_len (n : Z) : list Z :=
  if n <? 0x80 then [n]
  else if n <? 0x100 then 0x81 :: be_encode 1 n
  else if n <? 0x10000 then 0x82 :: be_encode 2 n
  else if n <? 0x1000000 then 0x83 :: be_encode 3 n
  else 0x84 :: be_encode 4 n.

Definition der_header (tag n : Z) : list Z := der_tag tag ++ der_len n.

(** The encoding of an element. *)
Definition der (tag : Z) (contents : list Z) : list Z :=
  der_header tag (len contents) ++ contents.

Lemma bytes_der_tag tag : word 32 tag -> bytes (der_tag tag).
Proof.
  intros [H0 H1]. unfold der_tag. assert (0 <= tag / 2 ^ 29 < 8) by div_lia.
  assert (0 <= tag mod 2 ^ 29 < 2 ^ 29) by (by apply Z.mod_pos_bound).
  destruct (Z.ltb_spec (tag mod 2 ^ 29) 31); (apply bytes_cons; [unfold word; lia|auto with bytes_db]).
Qed.

Lemma bytes_der_len n : 0 <= n -> bytes (der_len n).
Proof.
  intros. unfold der_len.
  repeat case_if; bool_to_prop; (apply bytes_cons; [unfold word; lia|auto with bytes_db]).
Qed.

Lemma der_tag_nonempty tag : (1 <= length (der_tag tag) <= 12)%nat.
Proof.
  assert (H : forall f v, (length (base128_hi f v) <= f)%nat).
  { induction f; intros v; cbn [base128_hi]; [simpl; lia|].
    case_if; [simpl; lia|]. rewrite length_app. simpl. specialize (IHf (v / 128)). lia. }
  unfold der_tag, base128. case_if; cbn [length]; [lia|].
  rewrite length_app. cbn [length]. specialize (H 10%nat (tag mod 2 ^ 29 / 128)). lia.
Qed.

Lemma length_der_len n : 0 <= n -> (1 <= length (der_len n) <= 5)%nat.
Proof. intros. unfold der_len. repeat case_if; cbn [length]; rewrite ?length_be_encode; lia. Qed.

Lemma land_e0 b : byte b -> Z.land b 0xe0 = b / 32 * 32.
Proof.
  intros Hb. apply Z.eqb_eq.
  apply (all_from_spec 256 0 (fun b => Z.land b 0xe0 =? b / 32 * 32)); [by vm_compute|].
  apply byte_range in Hb. lia.
Qed.

Lemma land_1f b : Z.land b 0x1f = b mod 32.
Proof. change 0x1f with (2 ^ 5 - 1). by apply land_ones_mod. Qed.

Lemma tag_compose c n : 0 <= c < 8 -> 0 <= n < 2 ^ 29 ->
  Z.lor (u32 (Z.shiftl (c * 32) CBS_ASN1_TAG_SHIFT)) n = c * 2 ^ 29 + n.
Proof.
  intros Hc Hn. unfold CBS_ASN1_TAG_SHIFT. rewrite Z.shiftl_mul_pow2 by lia.
  rewrite (wrap_small 32) by (unfold word; lia).
  replace (c * 32 * 2 ^ 24) with (Z.shiftl c 29) by (rewrite Z.shiftl_mul_pow2; lia).
  by apply lor_shiftl_add.
Qed.

(** The test for [UNIVERSAL 0] that ignores the constructed bit. *)
Lemma not_universal_zero c n : 0 <= c < 8 -> 0 <= n < 2 ^ 29 ->
  (Z.land (c * 2 ^ 29 + n) (u32 (Z.lnot CBS_ASN1_CONSTRUCTED)) =? 0)
  = ((n =? 0) && (c <=? 1)).
Proof.
  intros Hc Hn. change (u32 (Z.lnot CBS_ASN1_CONSTRUCTED)) with (6 * 2 ^ 29 + (2 ^ 29 - 1)).
  rewrite land_limbs, land_ones_mod, Z.mod_small by lia.
  assert (c = 0 \/ c = 1 \/ c = 2 \/ c = 3 \/ c = 4 \/ c = 5 \/ c = 6 \/ c = 7) as Hcs by lia.
  repeat destruct Hcs as [-> | Hcs]; try subst c;
    match goal with |- context [Z.land ?a 6] =>
      let v := eval vm_compute in (Z.land a 6) in change (Z.land a 6) with v
    end; lia.
Qed.

Lemma tag_split c n : 0 <= n < 2 ^ 29 ->
  (c * 2 ^ 29 + n) / 2 ^ 29 = c /\ (c * 2 ^ 29 + n) mod 2 ^ 29 = n.
Proof. intros. div_lia. Qed.

(** The tag number read by the two identifier forms. *)
Definition tag_number_octets (c n : Z) : list Z :=
  if n <? 31 then [c * 32 + n] else (c * 32 + 31) :: base128 n.

Lemma parse_tag_number_Some b s n s' : byte b -> bytes s ->
  (if b mod 32 =? 31 then
     let* v := parse_base128_integer in
     check negb (CBS_ASN1_TAG_NUMBER_MASK <? v) in
     check negb (v <? 31) in pret (u32 v)
   else pret (b mod 32)) s = (Some n, s') <->
  0 <= n < 2 ^ 29 /\ b :: s = tag_number_octets (b / 32) n ++ s'.
Proof.
  intros Hb Hs. unfold tag_number_octets. apply byte_range in Hb.
  change CBS_ASN1_TAG_NUMBER_MASK with (2 ^ 29 - 1).
  destruct (Z.eqb_spec (b mod 32) 31).
  - split.
    + intros H. parser_inv.
      match goal with H : parse_base128_integer _ = _ |- _ =>
        apply parse_base128_integer_Some in H as [Hw ->]; [|done] end.
      bool_to_prop. unfold word in *. rewrite (wrap_small 32) by (unfold word; lia).
      split; [lia|]. destruct (Z.ltb_spec x 31); [lia|]. simpl. f_equal. div_lia.
    + intros [Hn Heq]. destruct (Z.ltb_spec n 31); simpl in Heq; [simplify_eq; div_lia|].
      apply (inj2 cons) in Heq as [_ ->].
      rewrite (pbind_step _ _ _ n s') by (apply parse_base128_encode; unfold word; lia).
      rewrite !pcheck_true by (apply negb_true_iff, Z.ltb_ge; lia).
      unfold pret. by rewrite (wrap_small 32) by (unfold word; lia).
  - split.
    + intros H. parser_inv. destruct (Z.ltb_spec (b mod 32) 31); [|div_lia].
      split; [div_lia|]. simpl. f_equal. div_lia.
    + intros [Hn Heq]. destruct (Z.ltb_spec n 31); simpl in Heq; apply (inj2 cons) in Heq as [Eb ->].
      * unfold pret. do 2 f_equal. div_lia.
      * div_lia.
Qed.

Lemma der_tag_octets tag : der_tag tag = tag_number_octets (tag / 2 ^ 29) (tag mod 2 ^ 29).
Proof. done. Qed.

Lemma tag_number_octets_head c n l s b s1 : 0 <= c -> 0 <= n ->
  b :: s1 = tag_number_octets c n ++ s -> l = b / 32 -> l = c.
Proof.
  intros Hc Hn H ->. unfold tag_number_octets in H.
  destruct (Z.ltb_spec n 31); simpl in H; apply (inj2 cons) in H as [-> _]; div_lia.
Qed.

Lemma parse_asn1_tag_Some s tag s' : bytes s ->
  parse_asn1_tag s = (Some tag, s') <-> valid_tag tag /\ s = der_tag tag ++ s'.
Proof.
  intros Hs. unfold parse_asn1_tag. rewrite pbind_Some, der_tag_octets. split.
  - intros (b & s1 & Hb1 & H). apply CBS_get_u8_Some in Hb1 as ->.
    apply bytes_cons_inv in Hs as [Hb Hs]. rewrite land_1f in H.
    apply pbind_Some in H as (n & s2 & Hn & H).
    apply parse_tag_number_Some in Hn as [Hn Heq]; [|done..].
    apply byte_range in Hb. assert (Hc : 0 <= b / 32 < 8) by div_lia.
    rewrite land_e0, tag_compose in H by done. parser_inv.
    rewrite not_universal_zero in * by done.
    destruct (tag_split (b / 32) n Hn) as [-> ->]. split; [|done].
    split; [unfold word; lia|]. destruct (tag_split (b / 32) n Hn) as [-> ->]. lia.
  - intros [[[H0 H1] Hv] Heq].
    set (c := tag / 2 ^ 29) in *. set (n := tag mod 2 ^ 29) in *.
    assert (Hc : 0 <= c < 8) by (subst c; div_lia).
    assert (Hn : 0 <= n < 2 ^ 29) by (by apply Z.mod_pos_bound).
    assert (Et : tag = c * 2 ^ 29 + n) by (subst c n; div_lia).
    clearbody c n. subst tag. destruct s as [|b s1].
    { unfold tag_number_octets in Heq. by destruct (_ <? _). }
    assert (b / 32 = c) as Hbc by (by eapply tag_number_octets_head; [..|done|done]; lia).
    apply bytes_cons_inv in Hs as [Hb Hs]. exists b, s1.
    split; [apply CBS_get_u8_cons|]. rewrite land_1f. apply pbind_Some. exists n, s'.
    split; [apply parse_tag_number_Some; [done..|by rewrite Hbc]|].
    rewrite land_e0, Hbc, tag_compose by done. rewrite pcheck_true; [done|].
    rewrite not_universal_zero by done.
    destruct (_ && _) eqn:E; [|done]. bool_to_prop. destruct Hv. lia.
Qed.

(** ** Elements *)

Lemma der_len_long d : bytes d -> (1 <= length d <= 4)%nat ->
  128 <= be_decode d -> 256 ^ (len d - 1) <= be_decode d ->
  der_len (be_decode d) = (128 + len d) :: d.
Proof.
  intros Hd Hl H128 Hmin. assert (Hb := be_decode_bound d Hd).
  assert (He := be_encode_decode d Hd). unfold der_len.
  destruct (Z.ltb_spec (be_decode d) 0x80); [lia|].
  destruct (length d) as [|[|[|[|[|]]]]] eqn:El; try lia.
  - change (256 ^ Z.of_nat 1) with 256 in Hb.
    destruct (Z.ltb_spec (be_decode d) 0x100); [|lia]. by rewrite He.
  - change (256 ^ Z.of_nat 2) with 65536 in Hb. change (256 ^ (Z.of_nat 2 - 1)) with 256 in Hmin.
    destruct (Z.ltb_spec (be_decode d) 0x100); [lia|].
    destruct (Z.ltb_spec (be_decode d) 0x10000); [|lia]. by rewrite He.
  - change (256 ^ Z.of_nat 3) with 16777216 in Hb.
    change (256 ^ (Z.of_nat 3 - 1)) with 65536 in Hmin.
    destruct (Z.ltb_spec (be_decode d) 0x100); [lia|].
    destruct (Z.ltb_spec (be_decode d) 0x10000); [lia|].
    destruct (Z.ltb_spec (be_decode d) 0x1000000); [|lia]. by rewrite He.
  - change (256 ^ (Z.of_nat 4 - 1)) with 16777216 in Hmin.
    destruct (Z.ltb_spec (be_decode d) 0x100); [lia|].
    destruct (Z.ltb_spec (be_decode d) 0x10000); [lia|].
    destruct (Z.ltb_spec (be_decode d) 0x1000000); [lia|]. by rewrite He.
Qed.

(** The length octets of a number are one short octet or the long form with
    the minimal number of octets. *)
Lemma der_len_cases n : 0 <= n < 2 ^ 32 ->
  (n < 128 /\ der_len n = [n]) \/
  exists d, bytes d /\ (1 <= length d <= 4)%nat /\ n = be_decode d /\ 128 <= n /\
    256 ^ (len d - 1) <= n /\ der_len n = (128 + len d) :: d.
Proof.
  intros Hn. destruct (decide (n < 128)).
  { left. split; [done|]. unfold der_len. by destruct (Z.ltb_spec n 0x80); [|lia]. }
  right. assert (K : forall k, (1 <= k <= 4)%nat -> n < 256 ^ Z.of_nat k ->
    256 ^ (Z.of_nat k - 1) <= n -> exists d, bytes d /\ (1 <= length d <= 4)%nat /\
    n = be_decode d /\ 128 <= n /\ 256 ^ (len d - 1) <= n /\ der_len n = (128 + len d) :: d).
  { intros k Hk Hu Hm. exists (be_encode k n).
    assert (E : be_decode (be_encode k n) = n) by (rewrite be_decode_encode, Z.mod_small; lia).
    rewrite length_be_encode. split; [auto with bytes_db|]. split; [lia|]. split; [lia|].
    split; [lia|]. split; [lia|]. rewrite <- E at 1.
    rewrite der_len_long; rewrite ?length_be_encode, ?E; auto with bytes_db lia. }
  destruct (decide (n < 256)); [apply (K 1%nat); simpl; lia|].
  destruct (decide (n < 65536)); [apply (K 2%nat); simpl; lia|].
  destruct (decide (n < 16777216)); [apply (K 3%nat)|apply (K 4%nat)]; simpl; lia.
Qed.

(** A read that extends past a known header returns the header and what
    follows it. *)
Lemma cbs_get_past_header h rest n out s' : 0 <= n ->
  cbs_get (len h + n) (h ++ rest) = (Some out, s') <->
  exists c, out = h ++ c /\ rest = c ++ s' /\ len c = n.
Proof.
  intros Hn. rewrite cbs_get_Some by lia. split.
  - intros [E Hl]. assert (exists c, out = h ++ c /\ rest = c ++ s') as (c & -> & ->).
    { exists (drop (length h) out). apply (f_equal (take (length out))) in E as Et.
      apply (f_equal (drop (length h))) in E as Ed.
      rewrite take_app_length, take_app_ge in Et by lia.
      rewrite drop_app_length, drop_app_le in Ed by lia. split; [|done].
      rewrite <- Et at 2. by rewrite drop_app_length. }
    exists c. rewrite length_app in Hl. split; [done|]. split; [done|lia].
  - intros (c & -> & -> & Hc). rewrite app_assoc, length_app. split; [done|lia].
Qed.

Definition der_element (e : element) (c : list Z) : Prop :=
  valid_tag (el_tag e) /\ len c < 2 ^ 32 /\ el_cbs e = der (el_tag e) c /\
  el_header_len e = len (der_header (el_tag e) (len c)) /\
  el_ber_found e = false /\ el_indefinite e = false.

Lemma get_element_result h rest tag n bf s e s' : 0 <= n < 2 ^ 33 -> (length h <= 20)%nat ->
  s = h ++ rest ->
  (let* out := CBS_get_bytes (u64 (n + len h)) in
   pret (mk_element out tag (len h) bf false)) s = (Some e, s') <->
  exists c, e = mk_element (h ++ c) tag (len h) bf false /\ rest = c ++ s' /\ len c = n.
Proof.
  intros Hn Hh ->. rewrite (wrap_small 64) by (unfold word; lia). unfold CBS_get_bytes.
  rewrite pbind_Some. rewrite (Z.add_comm n). split.
  - intros (out & s1 & H & He). apply cbs_get_past_header in H as (c & -> & -> & Hc); [|lia].
    apply pret_Some in He as [-> ->]. eauto.
  - intros (c & -> & -> & Hc). exists (h ++ c), s'. split; [|done].
    apply cbs_get_past_header; eauto. lia.
Qed.

Lemma shiftr_bytes_zero v k : 0 <= k -> 0 <= v -> (Z.shiftr v (k * 8) =? 0) = (v <? 256 ^ k).
Proof.
  intros Hk Hv. rewrite Z.shiftr_div_pow2 by lia.
  replace (2 ^ (k * 8)) with (256 ^ k) by (rewrite Z.mul_comm, Z.pow_mul_r by lia; done).
  assert (0 < 256 ^ k) by (apply Z.pow_pos_nonneg; lia).
  destruct (Z.ltb_spec v (256 ^ k)); [by rewrite Z.div_small by lia|].
  apply Z.eqb_neq. assert (1 <= v / 256 ^ k) by (apply Z.div_le_lower_bound; lia). lia.
Qed.

(** The part of [cbs_get_any_asn1_element] after the identifier octets and
    the first length octet [lb], with the window split at that point. *)
Lemma get_element_after_length_byte s tag lb h2 :
  bytes s -> valid_tag tag -> s = der_tag tag ++ lb :: h2 ->
  forall ber_ok, cbs_get_any_asn1_element ber_ok s =
    let h := der_tag tag ++ [lb] in
    if lb <? 128 then
      (let* out := CBS_get_bytes (u64 (lb + len h)) in
       pret (mk_element out tag (len h) false false)) s
    else
      let k := lb mod 128 in
      if ber_ok && negb (Z.land tag CBS_ASN1_CONSTRUCTED =? 0) && (k =? 0) then
        (let* out := CBS_get_bytes (len h) in
         pret (mk_element out tag (len h) true true)) s
      else if (k =? 0) || (4 <? k) then (None, s)
      else match cbs_get_u k h2 with
           | (None, _) => (None, s)
           | (Some len64, _) =>
               let bad := (len64 <? 128) || (len64 <? 256 ^ (k - 1)) in
               if negb ber_ok && bad then (None, s)
               else (let* out := CBS_get_bytes (u64 (len64 + (len h + k))) in
                     pret (mk_element out tag (len h + k) bad false)) s
           end.
Proof.
  intros Hs Hv Es ber_ok. assert (Et : parse_asn1_tag s = (Some tag, lb :: h2))
    by (apply parse_asn1_tag_Some; done).
  assert (Hb : byte lb /\ bytes h2).
  { rewrite Es in Hs. apply bytes_app in Hs as [_ Hs]. by apply bytes_cons_inv in Hs. }
  unfold cbs_get_any_asn1_element. rewrite Et, CBS_get_u8_cons.
  assert (Hh : CBS_len s - CBS_len h2 = len (der_tag tag ++ [lb])).
  { unfold CBS_len. rewrite Es, !length_app. simpl. lia. }
  rewrite Hh. assert (Hl := der_tag_nonempty tag). destruct Hb as [Hb Hh2].
  rewrite byte_land_80, byte_land_7f by done. cbv zeta. apply byte_range in Hb.
  destruct (lb <? 128); [done|]. destruct (_ && (_ mod 128 =? 0)); [done|].
  destruct (_ || (4 <? _)) eqn:Ek; [done|]. bool_to_prop.
  assert (Hk : 1 <= lb mod 128 <= 4) by (assert (0 <= lb mod 128) by div_lia; lia).
  destruct (cbs_get_u (lb mod 128) h2) as [[len64|] h3] eqn:Eu; [|done].
  apply cbs_get_u_Some in Eu as (d & -> & Hd & ->); [|lia|done].
  apply bytes_app in Hh2 as [Hd' _].
  assert (0 <= be_decode d < 2 ^ 32).
  { assert (B := be_decode_bound d Hd'). rewrite Hd in B. split; [lia|].
    apply Z.lt_le_trans with (256 ^ (lb mod 128)); [lia|].
    change (2 ^ 32) with (256 ^ 4). apply Z.pow_le_mono_r; lia. }
  rewrite shiftr_bytes_zero by lia. rewrite length_app. simpl length.
  rewrite (wrap_small 64) by (unfold word; lia). 
  destruct (negb ber_ok && _); [done|].
  destruct (Z.ltb_spec (be_decode d + Z.of_nat (length (der_tag tag) + 1) + lb mod 128)
    (be_decode d)); [lia|done].
Qed.

(** The element a DER reader reports for [der tag c]. *)
Definition der_result (tag : Z) (c : list Z) : element :=
  mk_element (der tag c) tag (len (der_header tag (len c))) false false.

Lemma len_word32 (k : Z) d : bytes d -> 1 <= k <= 4 -> len d = k -> 0 <= be_decode d < 2 ^ 32.
Proof.
  intros Hd Hk Hl. assert (B := be_decode_bound d Hd). rewrite Hl in B. split; [lia|].
  apply Z.lt_le_trans with (256 ^ k); [lia|].
  change (2 ^ 32) with (256 ^ 4). apply Z.pow_le_mono_r; lia.
Qed.

Lemma get_der_element_inv s e s' : bytes s ->
  cbs_get_any_asn1_element false s = (Some e, s') ->
  exists tag c, valid_tag tag /\ len c < 2 ^ 32 /\ e = der_result tag c /\ s = der tag c ++ s'.
Proof.
  intros Hs H. assert (exists tag lb h2, valid_tag tag /\ s = der_tag tag ++ lb :: h2)
    as (tag & lb & h2 & Hv & Es).
  { unfold cbs_get_any_asn1_element in H.
    destruct (parse_asn1_tag s) as [[tag|] [|lb h2]] eqn:Et; try done.
    apply parse_asn1_tag_Some in Et as [Hv Es]; eauto. }
  rewrite (get_element_after_length_byte s tag lb h2) in H by done. cbv zeta in H.
  assert (Hb : byte lb /\ bytes h2).
  { rewrite Es in Hs. apply bytes_app in Hs as [_ Hs]. by apply bytes_cons_inv in Hs. }
  destruct Hb as [Hb Hh2]. apply byte_range in Hb. assert (Hl := der_tag_nonempty tag).
  exists tag. unfold der_result, der. destruct (Z.ltb_spec lb 128).
  - apply (get_element_result (der_tag tag ++ [lb]) h2) in H as (c & -> & -> & Hc);
      [|lia|rewrite length_app; simpl; lia|by rewrite Es, <- app_assoc].
    exists c. rewrite Hc. unfold der_header.
    assert (der_len lb = [lb]) as -> by (unfold der_len; by destruct (Z.ltb_spec lb 0x80); [|lia]).
    split_and!; [done|lia|done|]. rewrite Es, <- !app_assoc. done.
  - simpl negb in H. destruct (_ || (4 <? _)) eqn:Ek; [done|]. bool_to_prop.
    assert (Hk : 1 <= lb mod 128 <= 4) by (assert (0 <= lb mod 128) by div_lia; lia).
    destruct (cbs_get_u (lb mod 128) h2) as [[len64|] h3] eqn:Eu; [|done].
    apply cbs_get_u_Some in Eu as (d & -> & Hd & ->); [|lia|done].
    apply bytes_app in Hh2 as [Hd' _]. simpl in H. destruct (_ || _) eqn:Ebad in H; [done|].
    assert (B := len_word32 _ d Hd' Hk Hd). bool_to_prop.
    assert (Elen : der_header tag (be_decode d) = der_tag tag ++ lb :: d).
    { unfold der_header. rewrite der_len_long by (done || (try rewrite Hd); lia).
      do 2 f_equal. rewrite Hd. div_lia. }
    assert (Ehl : len (der_tag tag ++ [lb]) + lb mod 128 = len (der_header tag (be_decode d)))
      by (rewrite Elen, !length_app; simpl; lia).
    rewrite Ehl in H.
    apply (get_element_result (der_header tag (be_decode d)) h3) in H as (c & -> & -> & Hc);
      [|lia|rewrite Elen, length_app; simpl; lia|rewrite Es, Elen, <- app_assoc; done].
    exists c. rewrite Hc. split_and!; [done|lia|done|].
    rewrite Es, Elen, <- !app_assoc. simpl. done.
Qed.

Lemma get_der_element_encode tag c s' : bytes (der tag c ++ s') -> valid_tag tag ->
  len c < 2 ^ 32 ->
  cbs_get_any_asn1_element false (der tag c ++ s') = (Some (der_result tag c), s').
Proof.
  intros Hs Hv Hc. assert (Hl := der_tag_nonempty tag).
  assert (Hn : 0 <= len c < 2 ^ 32) by lia.
  destruct (der_len_cases (len c) Hn) as [[H128 E]|(d & Hd & Hk & Ed & H128 & Hmin & E)].
  - assert (Es : der tag c ++ s' = der_tag tag ++ len c :: (c ++ s')).
    { unfold der, der_header. rewrite E, <- !app_assoc. done. }
    rewrite (get_element_after_length_byte _ tag (len c) (c ++ s')) by done. cbv zeta.
    destruct (Z.ltb_spec (len c) 128); [|lia].
    apply (get_element_result (der_tag tag ++ [len c]) (c ++ s'));
      [lia|rewrite length_app; simpl; lia|by rewrite Es, <- app_assoc|].
    exists c. unfold der_result, der, der_header. by rewrite E.
  - assert (Es : der tag c ++ s' = der_tag tag ++ (128 + len d) :: (d ++ c ++ s')).
    { unfold der, der_header. rewrite E, <- !app_assoc. done. }
    assert (Hd' : bytes (d ++ c ++ s')).
    { rewrite Es in Hs. apply bytes_app in Hs as [_ Hs]. by apply bytes_cons_inv in Hs as [_ ?]. }
    rewrite (get_element_after_length_byte _ tag _ _ Hs Hv Es). cbv zeta.
    destruct (Z.ltb_spec (128 + len d) 128); [lia|]. simpl negb.
    replace ((128 + len d) mod 128) with (len d) by div_lia.
    assert (Ek : (len d =? 0) || (4 <? len d) = false) by lia. rewrite Ek. simpl andb.
    assert (Eu : cbs_get_u (len d) (d ++ c ++ s') = (Some (len c), c ++ s')).
    { apply cbs_get_u_Some; [lia|done|]. eauto. }
    assert (Ebad : (len c <? 128) || (len c <? 256 ^ (len d - 1)) = false) by lia.
    rewrite Eu, Ebad. simpl andb.
    assert (Ehl : len (der_tag tag ++ [128 + len d]) + len d = len (der_header tag (len c)))
      by (unfold der_header; rewrite E, !length_app; simpl; lia).
    rewrite Ehl. apply (get_element_result (der_header tag (len c)) (c ++ s')); [lia| | |].
    + unfold der_header. rewrite E, length_app. simpl. lia.
    + unfold der. by rewrite <- app_assoc.
    + exists c. done.
Qed.

(** ** The public readers of elements *)

Lemma get_any_asn1_element_Some s out tag hl s' : bytes s ->
  CBS_get_any_asn1_element s = (Some (out, tag, hl), s') <->
  exists c, valid_tag tag /\ len c < 2 ^ 32 /\ out = der tag c /\
    hl = len (der_header tag (len c)) /\ s = out ++ s'.
Proof.
  intros Hs. unfold CBS_get_any_asn1_element. rewrite pbind_Some. split.
  - intros (e & s1 & H & He). apply pret_Some in He as [[= -> -> ->] ->].
    apply get_der_element_inv in H as (t & c & Hv & Hc & -> & ->); [|done].
    exists c. done.
  - intros (c & Hv & Hc & -> & -> & ->). exists (der_result tag c), s'.
    by rewrite get_der_element_encode.
Qed.

Lemma CBS_skip_header tag c :
  CBS_skip (len (der_header tag (len c))) (der tag c) = (Some tt, c).
Proof.
  unfold CBS_skip, der. by rewrite (pbind_step _ _ _ (der_header tag (len c)) c)
    by (by apply cbs_get_app).
Qed.

Lemma der_app_inv tag c c' s s' : len c < 2 ^ 32 -> len c' < 2 ^ 32 ->
  bytes (der tag c ++ s) -> valid_tag tag ->
  der tag c ++ s = der tag c' ++ s' -> c = c' /\ s = s'.
Proof.
  intros Hc Hc' Hb Hv E. assert (H := get_der_element_encode tag c s Hb Hv Hc).
  rewrite E in H, Hb. rewrite get_der_element_encode in H by done.
  apply (f_equal fst) in H as H1. apply (f_equal snd) in H as H2. simpl in H1, H2.
  split; [|done]. apply (inj Some) in H1.
  apply (f_equal el_cbs) in H1 as He. apply (f_equal el_header_len) in H1 as Hh. simpl in He, Hh.
  unfold der in He. apply app_inj_1 in He as [_ ?]; [done|]. lia.
Qed.

Lemma CBS_get_asn1_Some tag s c s' : bytes s ->
  CBS_get_asn1 tag s = (Some c, s') <->
  valid_tag tag /\ len c < 2 ^ 32 /\ s = der tag c ++ s'.
Proof.
  intros Hs. unfold CBS_get_asn1, cbs_get_asn1. rewrite pbind_Some. split.
  - intros ([[out t] hl] & s1 & H & H1). parser_inv. bool_to_prop. subst t.
    apply get_any_asn1_element_Some in H as (c' & Hv & Hc & -> & -> & ->); [|done].
    rewrite CBS_skip_header in H1. parser_inv. done.
  - intros (Hv & Hc & ->). exists (der tag c, tag, len (der_header tag (len c))), s'.
    split; [apply get_any_asn1_element_Some; eauto 8|].
    rewrite pcheck_true by apply Z.eqb_refl. by rewrite CBS_skip_header.
Qed.

Lemma CBS_get_asn1_element_Some tag s out s' : bytes s ->
  CBS_get_asn1_element tag s = (Some out, s') <->
  exists c, valid_tag tag /\ len c < 2 ^ 32 /\ out = der tag c /\ s = out ++ s'.
Proof.
  intros Hs. unfold CBS_get_asn1_element, cbs_get_asn1. rewrite pbind_Some. split.
  - intros ([[out' t] hl] & s1 & H & H1). parser_inv. bool_to_prop. subst t.
    apply get_any_asn1_element_Some in H as (c' & Hv & Hc & -> & -> & ->); [|done].
    exists c'. done.
  - intros (c & Hv & Hc & -> & ->). exists (der tag c, tag, len (der_header tag (len c))), s'.
    split; [apply get_any_asn1_element_Some; eauto 8|].
    rewrite pcheck_true by apply Z.eqb_refl. done.
Qed.

(** ** Integers *)

(** The two's complement value of a big-endian byte string. *)
Definition be_signed (l : list Z) : Z :=
  match l with
  | [] => 0
  | b :: _ => be_decode l - (if b <? 128 then 0 else 256 ^ len l)
  end.

(** [v] fits in [n] octets of two's complement. *)
Definition fits (n v : Z) : bool := (- 2 ^ (8 * n - 1) <=? v) && (v <? 2 ^ (8 * n - 1)).

(** The shortest two's complement encoding (up to nine octets, which hold
    every [uint64_t] and [int64_t]). *)
Fixpoint int_octets (fuel : nat) (n : Z) (v : Z) : Z :=
  match fuel with
  | O => n
  | S fuel' => if fits n v then n else int_octets fuel' (n + 1) v
  end.
Definition der_int_contents (v : Z) : list Z :=
  let n := int_octets 8 1 v in be_encode (Z.to_nat n) (v mod 256 ^ n).

Lemma fits_mono n m v : 1 <= n <= m -> fits n v = true -> fits m v = true.
Proof.
  unfold fits. intros Hnm H. assert (2 ^ (8 * n - 1) <= 2 ^ (8 * m - 1)) by (apply Z.pow_le_mono_r; lia).
  bool_to_prop. apply andb_true_iff. rewrite Z.leb_le, Z.ltb_lt. lia.
Qed.

(** The minimal number of octets is characterised by: it fits, and one less
    does not. *)
Lemma int_octets_unique fuel n0 n v : 1 <= n0 <= n -> n <= n0 + Z.of_nat fuel ->
  fits n v = true -> (n = n0 \/ fits (n - 1) v = false) -> int_octets fuel n0 v = n.
Proof.
  revert n0. induction fuel as [|fuel IH]; intros n0 H1 H2 Hf Hm; simpl; [lia|].
  destruct (fits n0 v) eqn:E.
  - destruct Hm as [->|Hm]; [done|]. destruct (decide (n = n0)); [done|].
    rewrite (fits_mono n0 (n - 1)) in Hm by (done || lia). done.
  - destruct (decide (n = n0)) as [->|]; [congruence|]. apply IH; try lia; [done|].
    destruct Hm; [lia|by right].
Qed.

Lemma be_signed_cons b l : bytes (b :: l) ->
  be_signed (b :: l) = (if b <? 128 then b else b - 256) * 256 ^ len l + be_decode l.
Proof.
  intros Hb. unfold be_signed. rewrite be_decode_cons.
  change (len (b :: l)) with (Z.of_nat (S (length l))).
  rewrite Nat2Z.inj_succ, Z.pow_succ_r by lia. case_if; lia.
Qed.

Lemma pow_octets n : 1 <= n -> 2 * 2 ^ (8 * n - 1) = 256 ^ n.
Proof.
  intros. rewrite <- Z.pow_succ_r by lia. change 256 with (2 ^ 8).
  rewrite <- Z.pow_mul_r by lia. f_equal. lia.
Qed.

Lemma be_signed_fits l : bytes l -> l <> [] -> fits (len l) (be_signed l) = true.
Proof.
  intros Hl Hne. destruct l as [|b l]; [done|]. rewrite be_signed_cons by done.
  apply bytes_cons_inv in Hl as [Hb Hl]. assert (B := be_decode_bound l Hl).
  apply byte_range in Hb. change (len (b :: l)) with (Z.of_nat (S (length l))).
  assert (P := pow_octets (Z.of_nat (S (length l)))). unfold fits.
  assert (E : 256 ^ Z.of_nat (S (length l)) = 256 * 256 ^ len l)
    by (rewrite Nat2Z.inj_succ, Z.pow_succ_r by lia; done).
  rewrite E in P. apply andb_true_iff. rewrite Z.leb_le, Z.ltb_lt. 
  assert (Q : 2 ^ (8 * Z.of_nat (S (length l)) - 1) = 128 * 256 ^ len l) by lia.
  rewrite Q. case_if; bool_to_prop; nia.
Qed.

(** Two's complement encoding and decoding are inverse at a fixed length. *)
Lemma be_signed_encode l n : bytes l -> n = len l -> l <> [] ->
  be_encode (Z.to_nat n) (be_signed l mod 256 ^ n) = l.
Proof.
  intros Hl -> Hne. rewrite Nat2Z.id. assert (B := be_decode_bound l Hl).
  assert (E : be_signed l mod 256 ^ len l = be_decode l).
  { destruct l as [|b l]; [done|]. unfold be_signed. case_if.
    - rewrite Z.sub_0_r. by apply Z.mod_small.
    - symmetry. apply Z.mod_unique with (-1); lia. }
  rewrite E. by apply be_encode_decode.
Qed.

(** The contents of an INTEGER are valid when they are minimal. *)
Lemma is_valid_asn1_integer_spec l neg : bytes l ->
  CBS_is_valid_asn1_integer l = Some neg <->
  l <> [] /\ neg = (be_signed l <? 0) /\
  (len l = 1 \/ fits (len l - 1) (be_signed l) = false).
Proof.
  intros Hl. unfold CBS_is_valid_asn1_integer. destruct l as [|b l]; [naive_solver|].
  rewrite CBS_get_u8_cons, be_signed_cons by done.
  apply bytes_cons_inv in Hl as [Hb Hl]. assert (B := be_decode_bound l Hl).
  rewrite byte_land_80 by done. apply byte_range in Hb.
  assert (Hneg : negb (b <? 128) =
    ((if b <? 128 then b else b - 256) * 256 ^ len l + be_decode l <? 0)).
  { symmetry. case_if; bool_to_prop; [apply Z.ltb_ge|apply Z.ltb_lt]; nia. }
  rewrite <- Hneg. destruct l as [|c l].
  { rewrite CBS_get_u8_nil. naive_solver. }
  rewrite CBS_get_u8_cons. apply bytes_cons_inv in Hl as [Hc Hl].
  rewrite byte_land_80 by done. apply byte_range in Hc. rewrite be_decode_cons in *.
  change (len (b :: c :: l)) with (Z.of_nat (S (S (length l)))).
  change (len (c :: l)) with (Z.of_nat (S (length l))) in *.
  rewrite !Nat2Z.inj_succ, Z.pow_succ_r in * by lia.
  replace (Z.succ (Z.succ (len l)) - 1) with (len l + 1) by lia.
  assert (Q := pow_octets (len l + 1)). rewrite Z.pow_add_r in Q by lia.
  assert (B' := be_decode_bound l Hl). unfold fits.
  assert (E : 2 ^ (8 * (len l + 1) - 1) = 128 * 256 ^ len l) by lia. rewrite E. clear Hneg.
  set (p := 256 ^ len l) in *. set (r := be_decode l) in *. clearbody p r.
  set (bad := _ || _). set (v := (if b <? 128 then b else b - 256) * (256 * p) + (c * p + r)).
  assert (Hbad : bad = (- (128 * p) <=? v) && (v <? 128 * p)).
  { subst bad v. apply Bool.eq_true_iff_eq.
    rewrite orb_true_iff, !andb_true_iff, negb_true_iff, !Z.eqb_eq, Z.ltb_lt, Z.ltb_ge,
      Z.leb_le, Z.ltb_lt. case_if; bool_to_prop; split; intros; [nia| |nia|]; [left|right]; nia. }
  rewrite <- Hbad. destruct bad; split; intros H.
  - done.
  - destruct H as (_ & _ & [?|?]); [lia|done].
  - simplify_eq. naive_solver.
  - destruct H as (_ & -> & _). done.
Qed.

Lemma der_int_contents_decode l : bytes l -> (length l <= 9)%nat -> l <> [] ->
  (len l = 1 \/ fits (len l - 1) (be_signed l) = false) -> der_int_contents (be_signed l) = l.
Proof.
  intros Hl H9 Hne Hm. unfold der_int_contents.
  assert (1 <= len l) by (destruct l; simpl; done || lia).
  rewrite (int_octets_unique 8 1 (len l)) by (done || lia || by apply be_signed_fits).
  by apply be_signed_encode.
Qed.

Lemma int_octets_spec fuel n0 v : 1 <= n0 -> fits (n0 + Z.of_nat fuel) v = true ->
  let n := int_octets fuel n0 v in
  n0 <= n <= n0 + Z.of_nat fuel /\ fits n v = true /\ (n = n0 \/ fits (n - 1) v = false).
Proof.
  revert n0. induction fuel as [|fuel IH]; intros n0 H1 Hf; simpl.
  - rewrite Z.add_0_r in Hf. split; [lia|]. auto.
  - destruct (fits n0 v) eqn:E; [split; [lia|auto]|].
    replace (n0 + Z.of_nat (S fuel)) with (n0 + 1 + Z.of_nat fuel) in Hf by lia.
    destruct (IH (n0 + 1)) as (Hr & Hf' & Hm); [lia|done|].
    split; [lia|]. split; [done|]. right. destruct Hm as [->|]; [|done].
    by replace (n0 + 1 - 1) with n0 by lia.
Qed.

Lemma be_signed_be_encode n v : 1 <= n -> fits n v = true ->
  be_signed (be_encode (Z.to_nat n) (v mod 256 ^ n)) = v.
Proof.
  intros Hn Hf. set (l := be_encode _ _).
  assert (Hl : bytes l) by apply bytes_be_encode.
  assert (Hlen : len l = n) by (subst l; rewrite length_be_encode; lia).
  assert (P : 0 < 256 ^ n) by (apply Z.pow_pos_nonneg; lia).
  assert (Hd : be_decode l = v mod 256 ^ n).
  { subst l. rewrite be_decode_encode, Z2Nat.id by lia. apply Z.mod_small.
    by apply Z.mod_pos_bound. }
  assert (Hne : l <> []) by (intros ->; simpl in Hlen; lia).
  assert (Hs := be_signed_fits l Hl Hne). rewrite Hlen in Hs.
  assert (Hq : exists q, be_signed l = v + q * 256 ^ n).
  { destruct l as [|b l0]; [done|]. unfold be_signed. rewrite Hd, Hlen.
    rewrite Z.mod_eq by lia. case_if; [exists (- (v / 256 ^ n))|exists (- (v / 256 ^ n) - 1)]; lia. }
  destruct Hq as [q Hq]. assert (Q := pow_octets n Hn). unfold fits in *. bool_to_prop.
  assert (q = 0) by nia. lia.
Qed.

Lemma der_int_contents_spec v : fits 9 v = true ->
  let l := der_int_contents v in
  bytes l /\ l <> [] /\ (length l <= 9)%nat /\ be_signed l = v /\
  (len l = 1 \/ fits (len l - 1) v = false).
Proof.
  intros Hf. unfold der_int_contents.
  destruct (int_octets_spec 8 1 v ltac:(lia) Hf) as (Hr & Hf' & Hm).
  set (n := int_octets 8 1 v) in *. cbv zeta.
  assert (Hlen : length (be_encode (Z.to_nat n) (v mod 256 ^ n)) = Z.to_nat n)
    by apply length_be_encode.
  split_and!; [apply bytes_be_encode| |lia|by apply be_signed_be_encode; [lia|] |].
  - intros E. rewrite E in Hlen. simpl in Hlen. lia.
  - rewrite Hlen, Z2Nat.id by lia. done.
Qed.

(** The value an INTEGER reader reports determines the contents it read. *)
Lemma valid_integer_contents l v : bytes l -> fits 9 v = true ->
  (exists neg, CBS_is_valid_asn1_integer l = Some neg) /\ be_signed l = v <->
  l = der_int_contents v.
Proof.
  intros Hl Hf. split.
  - intros [[neg H] Hv]. apply is_valid_asn1_integer_spec in H as (Hne & _ & Hm); [|done].
    rewrite Hv in Hm. rewrite <- Hv in *. symmetry. apply der_int_contents_decode; try done.
    destruct (decide (length l <= 9)%nat); [done|]. destruct Hm as [Hm|Hm]; [lia|].
    rewrite (fits_mono 9) in Hm by (done || lia). done.
  - intros ->. destruct (der_int_contents_spec v Hf) as (Hb & Hne & H9 & Hv & Hm).
    split; [|done]. exists (v <? 0). apply is_valid_asn1_integer_spec; [done|].
    rewrite Hv. done.
Qed.

Lemma asn1_uint64_loop_spec l out v : bytes l -> 0 <= out < 2 ^ 64 ->
  asn1_uint64_loop out l = Some v <->
  v = foldl (fun acc b => acc * 256 + b) out l /\ v < 2 ^ 64.
Proof.
  revert out. induction l as [|b l IH]; intros out Hl Ho;
    cbn [asn1_uint64_loop foldl].
  { split; [intros [= <-]; split; [done|lia]|by intros [-> _]]. }
  apply bytes_cons_inv in Hl as [Hb Hl]. rewrite Z.shiftr_div_pow2 by lia.
  destruct (Z.eqb_spec (out / 2 ^ 56) 0) as [E|E]; cbn [negb].
  - assert (out < 2 ^ 56) by div_lia. rewrite lor_shift8 by (done || lia).
    apply byte_range in Hb. apply IH; [done|lia].
  - assert (2 ^ 56 <= out) by div_lia. split; [done|]. intros [-> Hlt].
    rewrite be_decode_acc in Hlt. assert (B := be_decode_bound l Hl). apply byte_range in Hb.
    assert (0 < 256 ^ len l) by (apply Z.pow_pos_nonneg; lia). nia.
Qed.

Lemma fits_uint64 v : word 64 v -> fits 9 v = true.
Proof.
  intros [H0 H1]. unfold fits. change (2 ^ (8 * 9 - 1)) with (2 ^ 71).
  apply andb_true_iff. rewrite Z.leb_le, Z.ltb_lt. lia.
Qed.

Lemma fits_int64 v : INT64_MIN <= v <= INT64_MAX <-> fits 8 v = true.
Proof.
  unfold INT64_MIN, INT64_MAX, fits. change (8 * 8 - 1) with 63.
  rewrite andb_true_iff, Z.leb_le, Z.ltb_lt. lia.
Qed.

Lemma be_signed_nonneg l : bytes l -> 0 <= be_signed l -> be_signed l = be_decode l.
Proof.
  intros Hl. destruct l as [|b l]; [done|]. unfold be_signed.
  assert (B := be_decode_bound _ Hl). case_if; lia.
Qed.

Lemma length_der_int_contents v : fits 9 v = true -> len (der_int_contents v) < 2 ^ 32.
Proof. intros Hf. destruct (der_int_contents_spec v Hf) as (_ & _ & ? & _). lia. Qed.

Lemma bytes_der tag c : valid_tag tag -> bytes c -> bytes (der tag c).
Proof.
  intros [Hv _] Hc. unfold der, der_header.
  repeat apply bytes_app_2; [by apply bytes_der_tag|apply bytes_der_len; lia|done].
Qed.

#[export] Hint Resolve bytes_der : bytes_db.

Lemma get_asn1_uint64_Some tag s v s' : bytes s ->
  CBS_get_asn1_uint64_with_tag tag s = (Some v, s') <->
  valid_tag tag /\ word 64 v /\ s = der tag (der_int_contents v) ++ s'.
Proof.
  intros Hs. unfold CBS_get_asn1_uint64_with_tag. rewrite pbind_Some. split.
  - intros (l & s1 & H & H1). apply CBS_get_asn1_Some in H as (Hv & Hc & ->); [|done].
    apply bytes_app in Hs as [Hs _]. unfold der in Hs. apply bytes_app in Hs as [_ Hl].
    parser_inv. unfold CBS_is_unsigned_asn1_integer in *.
    destruct (CBS_is_valid_asn1_integer l) as [neg|] eqn:Ei; [|done]. bool_to_prop. subst neg.
    assert (Ei' := Ei). apply is_valid_asn1_integer_spec in Ei' as (_ & Hneg & _); [|done].
    symmetry in Hneg. bool_to_prop.
    apply asn1_uint64_loop_spec in H1 as [Hd Hlt]; [|done..].
    change (foldl _ 0 l) with (be_decode l) in Hd. rewrite <- be_signed_nonneg in Hd by done.
    assert (word 64 v) by (unfold word; lia). split; [done|]. split; [done|].
    do 2 f_equal. apply valid_integer_contents; eauto using fits_uint64.
  - intros (Hv & Hw & ->). set (l := der_int_contents v).
    assert (Hf := fits_uint64 v Hw). destruct (der_int_contents_spec v Hf) as (Hb & _ & _ & Hsv & _).
    exists l, s'. split; [apply CBS_get_asn1_Some; eauto using length_der_int_contents|].
    destruct (proj2 (valid_integer_contents l v Hb Hf) eq_refl) as [[neg Hi] _].
    assert (Hi' := Hi). apply is_valid_asn1_integer_spec in Hi' as (_ & Hneg & _); [|done].
    fold l in Hsv. rewrite Hsv in Hneg. destruct Hw as [H0 H1].
    rewrite pcheck_true.
    + apply plift_Some. split; [|done]. apply asn1_uint64_loop_spec; [done..|].
      split; [|lia]. change (v = be_decode l). rewrite <- be_signed_nonneg by (done || lia). done.
    + unfold CBS_is_unsigned_asn1_integer. rewrite Hi. subst neg.
      apply negb_true_iff, Z.ltb_ge. lia.
Qed.

(** Sign extension to eight octets keeps the two's complement value. *)
Lemma sign_extend_value l neg : bytes l -> l <> [] -> (length l <= 8)%nat ->
  neg = (be_signed l <? 0) ->
  to_int64 (CRYPTO_load_u64_be (replicate (8 - length l) (if neg : bool then 255 else 0) ++ l))
  = be_signed l.
Proof.
  intros Hl Hne H8 ->. set (pad := replicate _ _).
  assert (Hp : bytes pad) by (apply bytes_replicate; case_if; unfold word; lia).
  assert (Hlp : length pad = (8 - length l)%nat) by (subst pad; apply length_replicate).
  unfold CRYPTO_load_u64_be. rewrite take_ge by (rewrite length_app; lia).
  rewrite EndianFacts.bswap8_load by (auto with bytes_db; rewrite length_app; lia).
  rewrite be_decode_app. assert (B := be_decode_bound l Hl).
  assert (Hpad : be_decode pad = if be_signed l <? 0 then 256 ^ len pad - 1 else 0).
  { subst pad. clear. generalize (8 - length l)%nat as n. induction n as [|n IH].
    - by destruct (_ <? 0).
    - simpl replicate. rewrite be_decode_cons, IH. rewrite !length_replicate.
      change (len (?x :: ?y)) with (Z.of_nat (S (length y))). rewrite length_replicate.
      rewrite Nat2Z.inj_succ, Z.pow_succ_r by lia. destruct (_ <? 0); lia. }
  rewrite Hpad. assert (E : 256 ^ len pad * 256 ^ len l = 2 ^ 64).
  { rewrite <- Z.pow_add_r by lia. change (2 ^ 64) with (256 ^ 8). f_equal. lia. }
  assert (F := be_signed_fits l Hl Hne). unfold fits in F. bool_to_prop.
  assert (1 <= len l) by (destruct l; simpl; done || lia).
  assert (M : 2 ^ (8 * len l - 1) <= 2 ^ 63) by (apply Z.pow_le_mono_r; lia).
  unfold to_int64. destruct (Z.ltb_spec (be_signed l) 0).
  - assert (Hd : be_decode l = be_signed l + 256 ^ len l).
    { destruct l as [|b l']; [done|]. unfold be_signed in *. destruct (b <? 128); lia. }
    rewrite Hd. destruct (Z.ltb_spec ((256 ^ len pad - 1) * 256 ^ len l + (be_signed l + 256 ^ len l)) (2 ^ 63)); lia.
  - rewrite <- be_signed_nonneg by done.
    destruct (Z.ltb_spec (0 * 256 ^ len l + be_signed l) (2 ^ 63)); lia.
Qed.

Lemma get_asn1_int64_Some tag s v s' : bytes s ->
  CBS_get_asn1_int64_with_tag tag s = (Some v, s') <->
  valid_tag tag /\ INT64_MIN <= v <= INT64_MAX /\ s = der tag (der_int_contents v) ++ s'.
Proof.
  intros Hs. unfold CBS_get_asn1_int64_with_tag. rewrite pbind_Some. split.
  - intros (l & s1 & H & H1). apply CBS_get_asn1_Some in H as (Hv & Hc & ->); [|done].
    apply bytes_app in Hs as [Hs _]. unfold der in Hs. apply bytes_app in Hs as [_ Hl].
    parser_inv. bool_to_prop. unfold CBS_len in *.
    assert (Ei := E). apply is_valid_asn1_integer_spec in Ei as (Hne & Hneg & _); [|done].
    rewrite sign_extend_value by (done || lia).
    assert (F : fits 8 (be_signed l) = true).
    { apply (fits_mono (len l)); [|by apply be_signed_fits].
      destruct l; [done|]. simpl in *. lia. }
    split; [done|]. split; [by apply fits_int64|]. do 2 f_equal.
    apply valid_integer_contents; eauto. by apply (fits_mono 8).
  - intros (Hv & Hr & ->). apply fits_int64 in Hr.
    assert (Hf : fits 9 v = true) by (by apply (fits_mono 8)).
    set (l := der_int_contents v).
    destruct (der_int_contents_spec v Hf) as (Hb & Hne & _ & Hsv & Hm). fold l in Hb, Hne, Hsv, Hm.
    exists l, s'. split; [apply CBS_get_asn1_Some; eauto using length_der_int_contents|].
    destruct (proj2 (valid_integer_contents l v Hb Hf) eq_refl) as [[neg Hi] _].
    rewrite Hi. rewrite (pbind_step _ _ _ neg s') by done.
    apply is_valid_asn1_integer_spec in Hi as (_ & Hneg & _); [|done].
    assert (length l <= 8)%nat.
    { destruct (decide (length l <= 8)%nat); [done|]. destruct Hm as [Hm|Hm]; [lia|].
      rewrite (fits_mono 8) in Hm by (done || lia). done. }
    rewrite pcheck_true by (apply negb_true_iff, Z.ltb_ge; unfold CBS_len; lia).
    rewrite sign_extend_value by done. by rewrite Hsv.
Qed.

(** ** Booleans *)

Definition der_bool (v : bool) : list Z := [if v then 0xff else 0].

Lemma get_asn1_bool_Some s v s' : bytes s ->
  CBS_get_asn1_bool s = (Some v, s') <-> s = der CBS_ASN1_BOOLEAN (der_bool v) ++ s'.
Proof.
  intros Hs. assert (Hv : valid_tag CBS_ASN1_BOOLEAN) by (split; [done|]; by intros [? _]).
  unfold CBS_get_asn1_bool. rewrite pbind_Some. split.
  - intros (l & s1 & H & H1). apply CBS_get_asn1_Some in H as (_ & Hc & ->); [|done].
    destruct l as [|b [|]]; try done. parser_inv. do 2 f_equal. unfold der_bool.
    destruct (Z.eqb_spec b 0) as [->|]; [done|]. destruct (Z.eqb_spec b 255) as [->|]; done.
  - intros ->. exists (der_bool v), s'. split; [apply CBS_get_asn1_Some; [done|]; done|].
    by destruct v.
Qed.

(** ** The readers are well behaved *)

#[export] Instance parse_asn1_tag_ok : ParserOk parse_asn1_tag.
Proof. unfold parse_asn1_tag. apply _. Qed.

Lemma element_tail_ok n tag hl bf ind :
  ParserOk (let* out := CBS_get_bytes n in pret (mk_element out tag hl bf ind)).
Proof. apply _. Qed.

#[export] Instance cbs_get_any_asn1_element_ok ber_ok : ParserOk (cbs_get_any_asn1_element ber_ok).
Proof.
  split.
  - intros s r s'. unfold cbs_get_any_asn1_element.
    repeat (case_match; try (intros [= <- <-]; by exists []));
      intros H'; by apply (ok_suffix (ParserOk := element_tail_ok _ _ _ _ _)) in H'.
  - intros s x s' t. unfold cbs_get_any_asn1_element.
    destruct (parse_asn1_tag s) as [[tag|] header] eqn:Et; [|done].
    rewrite (ok_frame _ _ _ t Et).
    destruct (CBS_get_u8 header) as [[lb|] h2] eqn:Eb; [|done].
    rewrite (ok_frame _ _ _ t Eb).
    assert (Hh : CBS_len (s ++ t) - CBS_len (h2 ++ t) = CBS_len s - CBS_len h2)
      by (unfold CBS_len; rewrite !length_app; lia).
    rewrite Hh. cbv zeta. case_if; [apply (ok_frame (ParserOk := element_tail_ok _ _ _ _ _))|].
    case_if; [apply (ok_frame (ParserOk := element_tail_ok _ _ _ _ _))|].
    case_if; [done|].
    destruct (cbs_get_u (Z.land lb 127) h2) as [[len64|] h3] eqn:Eu; [|done].
    rewrite (ok_frame _ _ _ t Eu). case_if; [done|]. case_if; [done|].
    apply (ok_frame (ParserOk := element_tail_ok _ _ _ _ _)).
Qed.

#[export] Instance CBS_get_any_asn1_element_ok : ParserOk CBS_get_any_asn1_element.
Proof. unfold CBS_get_any_asn1_element. apply _. Qed.

#[export] Instance cbs_get_asn1_ok tag skip : ParserOk (cbs_get_asn1 tag skip).
Proof.
  unfold cbs_get_asn1. apply pbind_ok; [apply _|]. intros [[out t] hl].
  apply pbind_ok; [apply _|]. intros _. destruct skip; [|apply _].
  destruct (CBS_skip hl out) as [[u|] out']; apply _.
Qed.

#[export] Instance CBS_get_asn1_ok tag : ParserOk (CBS_get_asn1 tag).
Proof. unfold CBS_get_asn1. apply _. Qed.

#[export] Instance get_asn1_uint64_ok tag : ParserOk (CBS_get_asn1_uint64_with_tag tag).
Proof. unfold CBS_get_asn1_uint64_with_tag. apply _. Qed.

#[export] Instance get_asn1_int64_ok tag : ParserOk (CBS_get_asn1_int64_with_tag tag).
Proof. unfold CBS_get_asn1_int64_with_tag. apply _. Qed.

#[export] Instance get_asn1_bool_ok : ParserOk CBS_get_asn1_bool.
Proof.
  unfold CBS_get_asn1_bool. apply pbind_ok; [apply _|]. intros [|b [|]]; apply _.
Qed.

#[export] Instance cbs_get_length_prefixed_ok n : ParserOk (cbs_get_length_prefixed n).
Proof. unfold cbs_get_length_prefixed, CBS_get_bytes. apply _. Qed.

#[export] Instance cbs_get_two_digits_ok : ParserOk cbs_get_two_digits.
Proof. unfold cbs_get_two_digits. apply _. Qed.
