(* ===== verification/Cbb.v ===== *)
(** * CBB: building byte strings

    Model of crypto/bytestring/cbb.cc.  A top-level [CBB] owns a buffer; a
    length-prefixed child [CBB] writes to the end of the same buffer until its
    parent is flushed.  At any time the pending children form a chain: the
    top-level object points to its child, the child to its own child, and so
    on.  The state of such a family of objects is the buffer and the chain,
    outermost child first.  A [CBB *] argument is a [handle]: the top-level
    object, or the address of a child.

    - A handle whose address is not in the chain is a child that was flushed,
      discarded or cut off by an error.  For a flushed or discarded child
      [base] is null and [CBB_flush] returns 0; for one cut off by an error
      [base->error] is set and [CBB_flush] returns 0 too.  Every writer starts
      with [CBB_flush], so it fails there.  [CBB_did_write], [CBB_discard] and
      [cbb_on_error] read [base] without a test: their use on such a handle is
      a contract violation in C, and fails or does nothing here.
    - A pointer into the buffer is an offset.
    - A local variable [CBB child] has an address no live child has
      ([stack_addr]).
    - [assert] and [BSSL_CHECK] failures end the program: the operation fails. *)

From S2P Require Import Prelude Internal Alloc Cbs.
Import Endian Mem.

Record cbb_buffer_st := mk_base {
  buf : list Z; base_len : Z; cap : Z; can_resize : bool; error : bool
}.

Record cbb_child_st := mk_child {
  child_addr : nat; offset : Z; pending_len_len : Z; pending_is_asn1 : bool
}.

Record CBB := mk_CBB { base : cbb_buffer_st; children : list cbb_child_st }.

Inductive handle := Top | Child (a : nat).

Abbreviation cbb_op := (fallible CBB).

Definition set_buf (b : cbb_buffer_st) (l : list Z) : cbb_buffer_st :=
  mk_base l (base_len b) (cap b) (can_resize b) (error b).
Definition set_len (b : cbb_buffer_st) (n : Z) : cbb_buffer_st :=
  mk_base (buf b) n (cap b) (can_resize b) (error b).
Definition set_error (b : cbb_buffer_st) : cbb_buffer_st :=
  mk_base (buf b) (base_len b) (cap b) (can_resize b) true.

(** The number of chain entries up to and including the object of a handle:
    the entries after it are its descendants. *)
Fixpoint find_child (a : nat) (l : list cbb_child_st) : option nat :=
  match l with
  | [] => None
  | c :: l' => if decide (child_addr c = a) then Some 1%nat else S <$> find_child a l'
  end.
Definition depth (cbb : handle) (st : CBB) : option nat :=
  match cbb with Top => Some 0%nat | Child a => find_child a (children st) end.

Definition has_child (cbb : handle) (st : CBB) : bool :=
  match depth cbb st with
  | Some d => negb (length (children st) <=? d)%nat
  | None => false
  end.

Definition stack_addr (st : CBB) : nat := S (list_max (child_addr <$> children st)).

Section cbb.
Context `{Malloc}.

(** ** The buffer *)

Definition cbb_init (b : list Z) (c : Z) (resize : bool) : CBB :=
  mk_CBB (mk_base b 0 c resize false) [].

Definition CBB_init (initial_capacity : Z) : option CBB :=
  match OPENSSL_malloc initial_capacity with
  | None => if 0 <? initial_capacity then None else Some (cbb_init [] initial_capacity true)
  | Some b => Some (cbb_init b initial_capacity true)
  end.

Definition CBB_init_fixed (b : list Z) : CBB := cbb_init b (len b) false.

(** The result is the offset [*out] points to. *)
Definition cbb_buffer_reserve (n : Z) : fallible cbb_buffer_st Z := fun b =>
  let newlen := u64 (base_len b + n) in
  if newlen <? base_len b then (None, set_error b)
  else if cap b <? newlen then
    if negb (can_resize b) then (None, set_error b)
    else
      let newcap := u64 (cap b * 2) in
      let newcap := if (newcap <? cap b) || (newcap <? newlen) then newlen else newcap in
      match OPENSSL_realloc (Some (buf b)) newcap with
      | None => (None, set_error b)
      | Some newbuf =>
          (Some (base_len b), mk_base newbuf (base_len b) newcap (can_resize b) (error b))
      end
  else (Some (base_len b), b).

Definition cbb_buffer_add (n : Z) : fallible cbb_buffer_st Z :=
  let* out := cbb_buffer_reserve n in
  fun b => (Some out, set_len b (u64 (base_len b + n))).

(** The loop [for (i = n - 1; i < n; i--) { p[i] = v; v >>= 8; }]; the result
    is the buffer and what is left of [v]. *)
Fixpoint store_be_loop (n : nat) (l : list Z) (p : nat) (v : Z) : list Z * Z :=
  match n with
  | O => (l, v)
  | S i => store_be_loop i (<[(p + i)%nat := u8 v]> l) p (Z.shiftr v 8)
  end.

(** ** Flushing *)

(** [len_len] and [initial_length_byte] of a DER length, and what remains of
    the length to be written after that byte. *)
Definition der_length_form (n : Z) : option (Z * Z * Z) :=
  if 0xfffffffe <? n then None
  else if 0xffffff <? n then Some (5, Z.lor 0x80 4, n)
  else if 0xffff <? n then Some (4, Z.lor 0x80 3, n)
  else if 0xff <? n then Some (3, Z.lor 0x80 2, n)
  else if 0x7f <? n then Some (2, Z.lor 0x80 1, n)
  else Some (1, u8 n, 0).

(** The part of [CBB_flush] that moves the contents of an ASN.1 child and
    writes the first length byte; the result is the new [offset] and
    [pending_len_len] of the child and what remains of the length. *)
Definition flush_asn1_length (child : cbb_child_st) (child_start n : Z) :
    fallible cbb_buffer_st (Z * Z * Z) :=
  let* '(len_len, initial_length_byte, n') := plift (der_length_form n) in
  let* _ :=
    (if negb (len_len =? 1) then
       let extra_bytes := len_len - 1 in
       let* _ := cbb_buffer_add extra_bytes in
       fun b => (Some tt, set_buf b
         (mem_write (buf b) (Z.to_nat (child_start + extra_bytes))
            (take (Z.to_nat n') (drop (Z.to_nat child_start) (buf b)))))
     else pret tt) in
  let* _ := fun b =>
    (Some tt, set_buf b (<[Z.to_nat (offset child) := initial_length_byte]> (buf b))) in
  pret (offset child + 1, len_len - 1, n').

(** Write the pending length prefix of [child], whose own children are done. *)
Definition flush_prefix (child : cbb_child_st) : fallible cbb_buffer_st unit := fun b =>
  let child_start := u64 (offset child + pending_len_len child) in
  if (child_start <? offset child) || (base_len b <? child_start) then (None, b)
  else
    let n := base_len b - child_start in
    (let* '(off, pll, n) :=
       (if pending_is_asn1 child then flush_asn1_length child child_start n
        else pret (offset child, pending_len_len child, n)) in
     fun b =>
       let '(l, n) := store_be_loop (Z.to_nat pll) (buf b) (Z.to_nat off) n in
       (if negb (n =? 0) then None else Some tt, set_buf b l)) b.

(** The recursion of [CBB_flush] along the descendants of an object. *)
Fixpoint flush_chain (ds : list cbb_child_st) : fallible cbb_buffer_st unit := fun b =>
  if error b then (None, b)
  else match ds with
       | [] => (Some tt, b)
       | child :: ds' =>
           match (let* _ := flush_chain ds' in flush_prefix child) b with
           | (None, b') => (None, set_error b')
           | (Some _, b') => (Some tt, b')
           end
       end.

Definition CBB_flush (cbb : handle) : cbb_op unit := fun st =>
  match depth cbb st with
  | None => (None, st)
  | Some d =>
      if error (base st) then (None, st)
      else let '(r, b) := flush_chain (drop d (children st)) (base st) in
           (r, mk_CBB b (take d (children st)))
  end.

Definition cbb_on_error (cbb : handle) (st : CBB) : CBB :=
  match depth cbb st with
  | None => st
  | Some d => mk_CBB (set_error (base st)) (take d (children st))
  end.

(** [goto err]: a failure of [m] locks the object into the error state. *)
Definition or_on_error {A} (cbb : handle) (m : cbb_op A) : cbb_op A := fun st =>
  match m st with
  | (None, st') => (None, cbb_on_error cbb st')
  | r => r
  end.

(** An operation on the buffer ([cbb_get_base]). *)
Definition on_base {A} (m : fallible cbb_buffer_st A) : cbb_op A := fun st =>
  let '(r, b) := m (base st) in (r, mk_CBB b (children st)).

(** ** Reading back *)

(** The offset of the first byte of an object's contents. *)
Definition CBB_data (cbb : handle) (st : CBB) : option Z :=
  if has_child cbb st then None
  else match depth cbb st with
       | None => None
       | Some O => Some 0
       | Some (S i) => c ← children st !! i; Some (offset c + pending_len_len c)
       end.

Definition CBB_len (cbb : handle) (st : CBB) : option Z :=
  start ← CBB_data cbb st; Some (base_len (base st) - start).

(** [want_data] and [want_len]: [out_data] and [out_len] are not null. *)
Definition CBB_finish (cbb : handle) (want_data want_len : bool) : cbb_op (list Z) :=
  match cbb with
  | Child _ => pfail
  | Top =>
      let* _ := CBB_flush Top in
      fun st =>
        if can_resize (base st) && (negb want_data || negb want_len) then (None, st)
        else (Some (take (Z.to_nat (base_len (base st))) (buf (base st))),
              mk_CBB (set_buf (base st) []) (children st))
  end.

(** ** Children *)

(** The contract of the caller: [out_child] is an object that is not in use.  To
    pass the address of a pending child would corrupt the chain in C, and is
    outside of what this definition models.  The writers here take addresses that
    no pending child has ([stack_addr]). *)
Definition cbb_add_child (cbb : handle) (out_child : nat) (len_len : Z) (is_asn1 : bool) :
    cbb_op unit :=
  let* off := on_base (cbb_buffer_add len_len) in
  fun st =>
    (Some tt,
     mk_CBB (set_buf (base st)
               (mem_write (buf (base st)) (Z.to_nat off) (replicate (Z.to_nat len_len) 0)))
            (children st ++ [mk_child out_child off len_len is_asn1])).

Definition cbb_add_length_prefixed (cbb : handle) (out_contents : nat) (len_len : Z) :
    cbb_op unit :=
  let* _ := CBB_flush cbb in
  cbb_add_child cbb out_contents len_len false.

Definition CBB_add_u8_length_prefixed cbb out_contents :=
  cbb_add_length_prefixed cbb out_contents 1.
Definition CBB_add_u16_length_prefixed cbb out_contents :=
  cbb_add_length_prefixed cbb out_contents 2.
Definition CBB_add_u24_length_prefixed cbb out_contents :=
  cbb_add_length_prefixed cbb out_contents 3.

(** ** Plain contents *)

Definition CBB_add_space (cbb : handle) (n : Z) : cbb_op Z :=
  let* _ := CBB_flush cbb in on_base (cbb_buffer_add n).

Definition CBB_add_bytes (cbb : handle) (data : list Z) : cbb_op unit :=
  let* out := CBB_add_space cbb (len data) in
  on_base (fun b => (Some tt, set_buf b (mem_write (buf b) (Z.to_nat out) data))).

Definition CBB_add_zeros (cbb : handle) (n : Z) : cbb_op unit :=
  let* out := CBB_add_space cbb n in
  on_base (fun b =>
    (Some tt, set_buf b (mem_write (buf b) (Z.to_nat out) (replicate (Z.to_nat n) 0)))).

Definition CBB_reserve (cbb : handle) (n : Z) : cbb_op Z :=
  let* _ := CBB_flush cbb in on_base (cbb_buffer_reserve n).

Definition CBB_did_write (cbb : handle) (n : Z) : cbb_op unit := fun st =>
  let newlen := u64 (base_len (base st) + n) in
  if has_child cbb st || (newlen <? base_len (base st)) || (cap (base st) <? newlen)
  then (None, st)
  else (Some tt, mk_CBB (set_len (base st) newlen) (children st)).

Definition cbb_add_u (cbb : handle) (v : Z) (len_len : Z) : cbb_op unit :=
  let* p := CBB_add_space cbb len_len in
  or_on_error cbb (on_base (fun b =>
    let '(l, v) := store_be_loop (Z.to_nat len_len) (buf b) (Z.to_nat p) v in
    (if negb (v =? 0) then None else Some tt, set_buf b l))).

(** The argument is converted to the type of the C parameter. *)
Definition CBB_add_u8 cbb value := cbb_add_u cbb (u8 value) 1.
Definition CBB_add_u16 cbb value := cbb_add_u cbb (u16 value) 2.
Definition CBB_add_u16le cbb value := CBB_add_u16 cbb (CRYPTO_bswap2 value).
Definition CBB_add_u24 cbb value := cbb_add_u cbb (u32 value) 3.
Definition CBB_add_u32 cbb value := cbb_add_u cbb (u32 value) 4.
Definition CBB_add_u32le cbb value := CBB_add_u32 cbb (CRYPTO_bswap4 value).
Definition CBB_add_u64 cbb value := cbb_add_u cbb (u64 value) 8.
Definition CBB_add_u64le cbb value := CBB_add_u64 cbb (CRYPTO_bswap8 value).

Definition CBB_discard (cbb : handle) (n : Z) : cbb_op unit := fun st =>
  match CBB_len cbb st with
  | None => (None, st)
  | Some l =>
      if negb (n <=? l) then (None, st)
      else (Some tt, mk_CBB (set_len (base st) (base_len (base st) - n)) (children st))
  end.

Definition CBB_discard_child (cbb : handle) (st : CBB) : CBB :=
  match depth cbb st with
  | None => st
  | Some d =>
      match children st !! d with
      | None => st
      | Some child => mk_CBB (set_len (base st) (offset child)) (take d (children st))
      end
  end.

(** ** ASN.1 *)

(** The number of base-128 digits of a [uint64_t] (at most ten). *)
Fixpoint base128_len_loop (fuel : nat) (copy : Z) : nat :=
  match fuel with
  | O => O
  | S fuel' => if 0 <? copy then S (base128_len_loop fuel' (Z.shiftr copy 7)) else O
  end.

Fixpoint add_base128_loop (cbb : handle) (v : Z) (n : nat) : cbb_op unit :=
  match n with
  | O => pret tt
  | S i =>
      let byte := Z.land (Z.shiftr v (7 * Z.of_nat i)) 0x7f in
      let byte := if negb (Nat.eqb i 0) then Z.lor byte 0x80 else byte in
      let* _ := CBB_add_u8 cbb byte in add_base128_loop cbb v i
  end.

Definition add_base128_integer (cbb : handle) (v : Z) : cbb_op unit :=
  let len_len := base128_len_loop 10 v in
  let len_len := if Nat.eqb len_len 0 then 1%nat else len_len in
  add_base128_loop cbb v len_len.

Definition CBB_add_asn1 (cbb : handle) (out_contents : nat) (tag : Z) : cbb_op unit :=
  let* _ := CBB_flush cbb in
  let tag_bits := Z.land (Z.shiftr tag CBS_ASN1_TAG_SHIFT) 0xe0 in
  let tag_number := Z.land tag CBS_ASN1_TAG_NUMBER_MASK in
  let* _ :=
    (if 0x1f <=? tag_number then
       let* _ := CBB_add_u8 cbb (Z.lor tag_bits 0x1f) in
       add_base128_integer cbb tag_number
     else CBB_add_u8 cbb (Z.lor tag_bits tag_number)) in
  cbb_add_child cbb out_contents 1 true.

(** A block with a local variable [CBB child]. *)
Definition with_local {A} (f : nat -> cbb_op A) : cbb_op A := fun st => f (stack_addr st) st.

Definition CBB_add_asn1_element (cbb : handle) (tag : Z) (data : list Z) : cbb_op unit :=
  with_local (fun child => or_on_error cbb (
    let* _ := CBB_add_asn1 cbb child tag in
    let* _ := CBB_add_bytes (Child child) data in
    CBB_flush cbb)).

(** The loop over the octets of the value, most significant first; the result
    is [started]. *)
Fixpoint add_uint64_loop (child : handle) (started : bool) (l : list Z) : cbb_op bool :=
  match l with
  | [] => pret started
  | byte :: l' =>
      if negb started && (byte =? 0) then add_uint64_loop child started l'
      else
        let* _ := (if negb started && negb (Z.land byte 0x80 =? 0)
                   then CBB_add_u8 child 0 else pret tt) in
        let* _ := CBB_add_u8 child byte in
        add_uint64_loop child true l'
  end.

Definition CBB_add_asn1_uint64_with_tag (cbb : handle) (value tag : Z) : cbb_op unit :=
  with_local (fun child =>
    let* _ := or_on_error cbb (
      let* _ := CBB_add_asn1 cbb child tag in
      let octets := (fun i => Z.land (Z.shiftr value (8 * (7 - i))) 0xff)
                      <$> [0; 1; 2; 3; 4; 5; 6; 7] in
      let* started := add_uint64_loop (Child child) false octets in
      if negb started then CBB_add_u8 (Child child) 0 else pret tt) in
    CBB_flush cbb).

Definition CBB_add_asn1_uint64 (cbb : handle) (value : Z) : cbb_op unit :=
  CBB_add_asn1_uint64_with_tag cbb value CBS_ASN1_INTEGER.

(** [while (start > 0 && bytes[start] == 0xff && (bytes[start - 1] & 0x80))]. *)
Fixpoint int64_start (l : list Z) (start : nat) : nat :=
  match start with
  | O => O
  | S start' =>
      if (default 0 (l !! start) =? 0xff)
         && negb (Z.land (default 0 (l !! start')) 0x80 =? 0)
      then int64_start l start' else start
  end.

(** [for (int i = start; i >= 0; i--) CBB_add_u8(&child, bytes[i])]. *)
Fixpoint add_int64_loop (child : handle) (l : list Z) (n : nat) : cbb_op unit :=
  match n with
  | O => pret tt
  | S i => let* _ := CBB_add_u8 child (default 0 (l !! i)) in add_int64_loop child l i
  end.

Definition CBB_add_asn1_int64_with_tag (cbb : handle) (value tag : Z) : cbb_op unit :=
  if 0 <=? value then CBB_add_asn1_uint64_with_tag cbb (u64 value) tag
  else
    let l := le_encode 8 (u64 value) in
    let start := int64_start l 7 in
    with_local (fun child =>
      let* _ := or_on_error cbb (
        let* _ := CBB_add_asn1 cbb child tag in
        add_int64_loop (Child child) l (S start)) in
      CBB_flush cbb).

Definition CBB_add_asn1_int64 (cbb : handle) (value : Z) : cbb_op unit :=
  CBB_add_asn1_int64_with_tag cbb value CBS_ASN1_INTEGER.

Definition CBB_add_asn1_octet_string (cbb : handle) (data : list Z) : cbb_op unit :=
  CBB_add_asn1_element cbb CBS_ASN1_OCTETSTRING data.

Definition CBB_add_asn1_bool (cbb : handle) (value : Z) : cbb_op unit :=
  with_local (fun child => or_on_error cbb (
    let* _ := CBB_add_asn1 cbb child CBS_ASN1_BOOLEAN in
    let* _ := CBB_add_u8 (Child child) (if negb (value =? 0) then 0xff else 0) in
    CBB_flush cbb)).

(** ** Object identifiers *)

Definition parse_dotted_decimal : parser Z :=
  let* out := CBS_get_u64_decimal in
  fun cbs =>
    match CBS_get_u8 cbs with
    | (None, cbs') => (Some out, cbs')
    | (Some dot, cbs') =>
        (if (dot =? 46) && (0 <? CBS_len cbs') then Some out else None, cbs')
    end.

(** [while (CBS_len(&cbs) > 0)]: every round consumes at least one byte, so
    the length of the text is enough fuel. *)
Fixpoint add_oid_components (fuel : nat) (cbb : handle) (cbs : CBS) : cbb_op unit :=
  match fuel with
  | O => pret tt
  | S fuel' =>
      if negb (0 <? CBS_len cbs) then pret tt
      else match parse_dotted_decimal cbs with
           | (None, _) => pfail
           | (Some a, cbs') =>
               let* _ := add_base128_integer cbb a in add_oid_components fuel' cbb cbs'
           end
  end.

Definition CBB_add_asn1_oid_from_text (cbb : handle) (text : list Z) : cbb_op unit :=
  let* _ := CBB_flush cbb in
  match (let* a := parse_dotted_decimal in let* b := parse_dotted_decimal in pret (a, b)) text with
  | (None, _) => pfail
  | (Some (a, b), cbs) =>
      check negb ((2 <? a) || ((a <? 2) && (39 <? b)) || (UINT64_MAX - 80 <? b)) in
      let* _ := add_base128_integer cbb (40 * a + b) in
      add_oid_components (length text) cbb cbs
  end.

Definition CBB_add_asn1_relative_oid_from_text (cbb : handle) (text : list Z) : cbb_op unit :=
  let* _ := CBB_flush cbb in
  check negb (len text =? 0) in
  add_oid_components (length text) cbb text.

Definition CBB_add_asn1_oid_component (cbb : handle) (value : Z) : cbb_op unit :=
  let* _ := CBB_flush cbb in add_base128_integer cbb value.

(** ** SET OF *)

Definition compare_set_of_element (a b : CBS) : Z :=
  let min_len := if CBS_len a <? CBS_len b then length a else length b in
  let ret := OPENSSL_memcmp (take min_len a) (take min_len b) in
  if negb (ret =? 0) then ret
  else if CBS_len a =? CBS_len b then 0
  else if CBS_len a <? CBS_len b then -1 else 1.

(** [while (CBS_len(&cbs) != 0)] over the elements; each has a byte at least. *)
Fixpoint split_elements (fuel : nat) (cbs : CBS) : option (list CBS) :=
  match cbs, fuel with
  | [], _ => Some []
  | _, O => None
  | _, S fuel' =>
      match CBS_get_any_asn1_element cbs with
      | (None, _) => None
      | (Some (out, _, _), cbs') => cons out <$> split_elements fuel' cbs'
      end
  end.

(** The C library's [qsort] with [compare_set_of_element]: elements that
    compare equal have equal contents, so its result is determined. *)
Fixpoint insert_element (x : CBS) (l : list CBS) : list CBS :=
  match l with
  | [] => [x]
  | y :: l' => if compare_set_of_element x y <=? 0 then x :: l else y :: insert_element x l'
  end.
Definition qsort_elements (l : list CBS) : list CBS := foldr insert_element [] l.

(** [sizeof(CBS)]: a pointer and a length. *)
Definition sizeof_CBS : Z := 16.

Definition CBB_flush_asn1_set_of (cbb : handle) : cbb_op unit :=
  let* _ := CBB_flush cbb in
  fun st =>
    match CBB_data cbb st with
    | None => (None, st)
    | Some start =>
        let b := base st in
        let contents :=
          take (Z.to_nat (base_len b - start)) (drop (Z.to_nat start) (buf b)) in
        match split_elements (length contents) contents with
        | None => (None, st)
        | Some elements =>
            if (length elements <? 2)%nat then (Some tt, st)
            else match OPENSSL_memdup contents, OPENSSL_calloc (len elements) sizeof_CBS with
                 | Some copy, Some _ =>
                     let out := mjoin (qsort_elements elements) in
                     (Some tt, mk_CBB (set_buf b (mem_write (buf b) (Z.to_nat start) out))
                                      (children st))
                 | _, _ => (None, st)
                 end
        end
    end.

End cbb.
