(* ===== verification/CbbFacts.v ===== *)
(** * The builder of cbb.cc refines a list of open frames

    The abstract state of a family of [CBB] objects is the list of its open
    objects, outermost first: what each of them holds so far and the length
    prefix it waits for.  Flushing an object closes the frames behind it.
    [rep] relates the concrete state (buffer, lengths, chain of children) to
    that list; [refines] is the simulation of an operation. *)

From S2P Require Import Prelude Internal Alloc Cbs CbsFacts Der Cbb.
Import Endian Mem.

(** ** Writing to a buffer *)

Lemma insert_mem_write l i v : (i < length l)%nat -> <[i := v]> l = mem_write l i [v].
Proof. intros. unfold mem_write. rewrite insert_take_drop by done. by rewrite Nat.add_1_r. Qed.

Lemma mem_write_merge l p d x : (p + length d < length l)%nat ->
  mem_write (mem_write l (p + length d) [x]) p d = mem_write l p (d ++ [x]).
Proof.
  intros Hl. unfold mem_write. rewrite length_app. simpl length.
  rewrite take_app_le, take_take, Nat.min_l by (rewrite ?length_take; lia).
  rewrite drop_app_ge by (rewrite length_take; lia). rewrite length_take.
  rewrite Nat.min_l by lia. replace (p + length d - (p + length d))%nat with 0%nat by lia.
  rewrite <- !app_assoc. simpl. by replace (p + (length d + 1))%nat with (p + length d + 1)%nat by lia.
Qed.

Lemma store_be_loop_spec n : forall l p v, (p + n <= length l)%nat -> 0 <= v ->
  store_be_loop n l p v = (mem_write l p (be_encode n v), v / 256 ^ Z.of_nat n).
Proof.
  induction n as [|n IH]; intros l p v Hl Hv.
  - simpl. unfold mem_write. simpl. by rewrite Nat.add_0_r, take_drop, Z.div_1_r.
  - cbn [store_be_loop be_encode]. rewrite IH.
    + f_equal.
      * rewrite insert_mem_write by lia. rewrite <- (length_be_encode n (Z.shiftr v 8)) at 1.
        rewrite mem_write_merge by (rewrite length_be_encode; lia).
        by rewrite Z.shiftr_div_pow2 by lia.
      * rewrite Z.shiftr_div_pow2 by lia. rewrite Z.div_div by (try apply Z.pow_pos_nonneg; lia).
        by rewrite Nat2Z.inj_succ, Z.pow_succ_r by lia.
    + rewrite length_insert. lia.
    + apply Z.shiftr_nonneg. lia.
Qed.

(** ** The buffer invariant *)

Definition base_ok (b : cbb_buffer_st) : Prop :=
  len (buf b) = cap b /\ 0 <= base_len b <= cap b /\ cap b < 2 ^ 64 /\ bytes (buf b).

Definition content (b : cbb_buffer_st) : list Z := take (Z.to_nat (base_len b)) (buf b).

(** [b'] is [b] after successful writes. *)
Definition extends (b b' : cbb_buffer_st) : Prop :=
  base_ok b' /\ cap b <= cap b' /\ can_resize b' = can_resize b /\ error b' = error b /\
  (can_resize b = false -> cap b' = cap b).

Lemma extends_refl b : base_ok b -> extends b b.
Proof. intros. by repeat split; try apply H. Qed.

Lemma extends_trans a b c : extends a b -> extends b c -> extends a c.
Proof.
  intros (?&?&E1&?&F1) (B&?&E2&?&F2). split; [done|]. split; [lia|]. split; [congruence|].
  split; [congruence|]. intros E. rewrite F2, F1; congruence.
Qed.

Lemma len_content b : base_ok b -> len (content b) = base_len b.
Proof. intros (H1 & H2 & _). unfold content. rewrite length_take. lia. Qed.

Lemma bytes_content b : base_ok b -> bytes (content b).
Proof. intros (_ & _ & _ & H). unfold content. auto with bytes_db. Qed.

Lemma base_ok_set_error b : base_ok b -> base_ok (set_error b).
Proof. done. Qed.

(** Overwriting a part of the written bytes. *)
Lemma content_write b pre old post data :
  base_ok b -> bytes data -> content b = pre ++ old ++ post -> length data = length old ->
  let b' := set_buf b (mem_write (buf b) (length pre) data) in
  extends b b' /\ content b' = pre ++ data ++ post.
Proof.
  intros Hb Hd Hc Hl b'. assert (L := len_content b Hb). destruct Hb as (H1 & H2 & H3 & H4).
  assert (E : buf b = pre ++ old ++ post ++ drop (Z.to_nat (base_len b)) (buf b)).
  { rewrite <- (take_drop (Z.to_nat (base_len b)) (buf b)) at 1. unfold content in Hc.
    by rewrite Hc, <- !app_assoc. }
  assert (W : mem_write (buf b) (length pre) data =
              (pre ++ data ++ post) ++ drop (Z.to_nat (base_len b)) (buf b)).
  { unfold mem_write. rewrite E at 1. rewrite take_app_length, E at 1.
    rewrite Hl, <- length_app, (app_assoc pre old), drop_app_length. by rewrite <- !app_assoc. }
  rewrite Hc, !length_app in L. split.
  - unfold extends, base_ok. subst b'. simpl. rewrite length_mem_write.
    + repeat split; try done; try lia. rewrite W. rewrite E in H4.
      rewrite !bytes_app in *. naive_solver.
    + rewrite Hl. apply (f_equal length) in E. rewrite !length_app in E. lia.
  - unfold content. subst b'. simpl. rewrite W. apply take_app_exact. rewrite !length_app. lia.
Qed.

Section facts.
Context `{Malloc}.

(** The buffer can grow to [n] bytes: they fit, or the allocator has them. *)
Definition room (b : cbb_buffer_st) (n : Z) : Prop :=
  n <= cap b \/ (can_resize b = true /\ malloc_never_fails /\ n < 2 ^ 62).

Lemma room_le b n m : room b n -> m <= n -> room b m.
Proof. unfold room. intros [?|(?&?&?)] ?; [left; lia|right]. split_and!; try done. lia. Qed.

Lemma room_extends b b' n : extends b b' -> room b n -> room b' n.
Proof. intros (_&?&E&_). unfold room. rewrite E. intros [?|?]; [left; lia|by right]. Qed.

Lemma reserve_spec b n r b' : base_ok b -> word 64 n -> cbb_buffer_reserve n b = (r, b') ->
  base_len b' = base_len b /\ content b' = content b /\
  match r with
  | Some off => extends b b' /\ off = base_len b /\ base_len b + n <= cap b'
  | None => b' = set_error b /\ ~ room b (base_len b + n)
  end.
Proof.
  intros Hb [Hn0 Hn1]. destruct (Hb) as (H1 & H2 & H3 & H4).
  unfold cbb_buffer_reserve, wrap.
  destruct (Z.ltb_spec ((base_len b + n) mod 2 ^ 64) (base_len b)) as [Hov|Hov].
  { intros [= <- <-]. split_and!; try done. unfold room.
    intros [?|(_&_&?)]; revert Hov; rewrite Z.mod_small by lia; lia. }
  assert (Hs : base_len b + n < 2 ^ 64) by div_lia. rewrite Z.mod_small by lia.
  destruct (Z.ltb_spec (cap b) (base_len b + n)) as [Hc|Hc].
  2: { intros [= <- <-]. split_and!; try done. }
  destruct (can_resize b) eqn:Er; cbn [negb].
  2: { intros [= <- <-]. split_and!; try done. unfold room. rewrite Er.
       intros [?|(?&_)]; [lia|done]. }
  cbv zeta. match goal with |- context [OPENSSL_realloc _ ?c] => set (newcap := c) end.
  assert (Hcap : base_len b + n <= newcap < 2 ^ 64 /\ newcap <= Z.max (cap b * 2) (base_len b + n)).
  { subst newcap. destruct (Z.ltb_spec ((cap b * 2) mod 2 ^ 64) (cap b)); simpl; [lia|].
    destruct (Z.ltb_spec ((cap b * 2) mod 2 ^ 64) (base_len b + n)); [lia|]. div_lia. }
  destruct (OPENSSL_realloc (Some (buf b)) newcap) as [newbuf|] eqn:Ea.
  - intros [= <- <-]. apply OPENSSL_realloc_Some in Ea as (L & B & T);
      [|unfold word; lia|lia|done].
    split; [done|]. split.
    + unfold content. simpl. rewrite <- T at 1. rewrite take_take. f_equal. lia.
    + unfold extends, base_ok. simpl. rewrite Er. repeat split; done || lia.
  - intros [= <- <-]. split_and!; try done. intros [?|(_ & Hm & ?)]; [lia|].
    destruct (OPENSSL_malloc_total newcap Hm) as [m Em]; [lia|].
    unfold OPENSSL_realloc in Ea. by rewrite Em in Ea.
Qed.

Lemma add_spec b n r b' : base_ok b -> word 64 n -> cbb_buffer_add n b = (r, b') ->
  match r with
  | Some off => extends b b' /\ off = base_len b /\
      exists junk, len junk = n /\ content b' = content b ++ junk
  | None => b' = set_error b /\ ~ room b (base_len b + n)
  end.
Proof.
  intros Hb Hn. unfold cbb_buffer_add, pbind.
  destruct (cbb_buffer_reserve n b) as [[off|] b1] eqn:E; intros [= <- <-];
    apply reserve_spec in E as (El & Ec & E); try done.
  destruct E as (He & -> & Hc). destruct (He) as ((H1 & H2 & H3 & H4) & H5 & H6 & H7 & H8).
  destruct Hn as [Hn _].
  rewrite (wrap_small 64), El by (unfold word; rewrite El; lia).
  split.
  - unfold extends, base_ok. simpl. repeat split; done || lia.
  - split; [done|]. rewrite <- Ec. unfold content. simpl. rewrite El.
    exists (take (Z.to_nat n) (drop (Z.to_nat (base_len b)) (buf b1))).
    rewrite length_take, length_drop. split; [lia|].
    rewrite Z2Nat.inj_add by lia. by rewrite take_take_drop.
Qed.

(** Writing to the space just added. *)
Lemma content_append b b1 junk data : extends b b1 -> base_ok b ->
  content b1 = content b ++ junk -> length data = length junk -> bytes data ->
  let b' := set_buf b1 (mem_write (buf b1) (Z.to_nat (base_len b)) data) in
  extends b b' /\ content b' = content b ++ data.
Proof.
  intros He Hb Hc Hl Hd. destruct (content_write b1 (content b) junk [] data) as [E1 E2];
    [apply He|done|by rewrite app_nil_r|done|].
  assert (L : length (content b) = Z.to_nat (base_len b)) by (assert (L := len_content b Hb); lia).
  rewrite L, app_nil_r in *. split; [by eapply extends_trans|done].
Qed.

(** ** Length prefixes *)

Inductive prefix := Fixed (n : nat) | Asn1.

Definition prefix_len (p : prefix) : nat := match p with Fixed n => n | Asn1 => 1 end.
Definition prefix_is_asn1 (p : prefix) : bool := match p with Fixed _ => false | Asn1 => true end.

(** The octets of the prefix for contents of [n] bytes, and when it exists. *)
Definition encode_prefix (p : prefix) (n : Z) : list Z :=
  match p with Fixed k => be_encode k n | Asn1 => der_len n end.
Definition prefix_fits (p : prefix) (n : Z) : bool :=
  match p with Fixed k => n <? 256 ^ Z.of_nat k | Asn1 => n <=? 0xfffffffe end.

Lemma bytes_encode_prefix p n : 0 <= n -> bytes (encode_prefix p n).
Proof. intros. destruct p; simpl; [auto with bytes_db|by apply bytes_der_len]. Qed.

Lemma length_encode_prefix p n : 0 <= n -> (prefix_len p <= length (encode_prefix p n))%nat.
Proof.
  intros. destruct p; simpl; [by rewrite length_be_encode|]. by apply length_der_len.
Qed.

Lemma der_length_form_spec n : 0 <= n ->
  match der_length_form n with
  | None => 0xfffffffe < n
  | Some (len_len, initial, n') =>
      n <= 0xfffffffe /\ exists k : nat, len_len = Z.of_nat k + 1 /\ (k <= 4)%nat /\
        der_len n = initial :: be_encode k n' /\ byte initial /\
        0 <= n' < 256 ^ Z.of_nat k /\ (k <> O -> n' = n)
  end.
Proof.
  intros Hn. unfold der_length_form, der_len.
  destruct (Z.ltb_spec 0xfffffffe n); [done|].
  destruct (Z.ltb_spec n 0x80), (Z.ltb_spec n 0x100), (Z.ltb_spec n 0x10000),
    (Z.ltb_spec n 0x1000000), (Z.ltb_spec 0xffffff n), (Z.ltb_spec 0xffff n),
    (Z.ltb_spec 0xff n), (Z.ltb_spec 0x7f n); try lia; (split; [lia|]);
  [exists 0%nat|exists 1%nat|exists 2%nat|exists 3%nat|exists 4%nat];
  (split; [done|]); (split; [lia|]); (split; [by rewrite ?(wrap_small 8) by (unfold word; lia)|]);
  (split; [first [by apply wrap_word | by vm_compute]|]);
  (split; [simpl; lia|done]).
Qed.

(** The outcome of an operation on a buffer that should leave [new] there,
    provided [Q]: it fails only if [Q] does not hold or there is no room. *)
Definition buffer_post (b : cbb_buffer_st) (Q : Prop) (new : list Z)
    (r : option unit * cbb_buffer_st) : Prop :=
  match r with
  | (Some _, b') => extends b b' /\ content b' = new /\ Q
  | (None, b') => base_ok b' /\ ~ (Q /\ room b (len new))
  end.

Lemma content_slice b p m q : content b = p ++ m ++ q ->
  take (length m) (drop (length p) (buf b)) = m.
Proof.
  unfold content. intros E. rewrite <- (take_drop (Z.to_nat (base_len b)) (buf b)), E.
  rewrite <- !app_assoc, drop_app_length. apply take_app_length.
Qed.

(** Storing a length of [k] octets over [k] written bytes. *)
Lemma store_length_spec b pre old post k n : base_ok b -> 0 <= n ->
  content b = pre ++ old ++ post -> length old = k ->
  let '(l, n') := store_be_loop k (buf b) (length pre) n in
  extends b (set_buf b l) /\ content (set_buf b l) = pre ++ be_encode k n ++ post /\
  (n' = 0 <-> n < 256 ^ Z.of_nat k).
Proof.
  intros Hb Hn Hc Hk. rewrite store_be_loop_spec.
  - destruct (content_write b pre old post (be_encode k n)) as [E1 E2];
      [done|auto with bytes_db|done|by rewrite length_be_encode|].
    split; [done|]. split; [done|].
    assert (0 < 256 ^ Z.of_nat k) by (apply Z.pow_pos_nonneg; lia).
    rewrite Z.div_small_iff by lia. lia.
  - apply (f_equal length) in Hc. unfold content in Hc.
    rewrite length_take, !length_app in Hc. lia.
  - done.
Qed.

Lemma flush_asn1_length_spec b a pre c : base_ok b -> content b = pre ++ [0] ++ c ->
  match flush_asn1_length (mk_child a (len pre) 1 true) (len pre + 1) (len c) b with
  | (Some (off, pll, n'), b') => exists initial k x,
      der_len (len c) = initial :: be_encode k n' /\ off = len (pre ++ [initial]) /\
      pll = Z.of_nat k /\ 0 <= n' < 256 ^ Z.of_nat k /\ length x = k /\
      extends b b' /\ content b' = (pre ++ [initial]) ++ x ++ c /\ prefix_fits Asn1 (len c)
  | (None, b') =>
      base_ok b' /\ ~ (prefix_fits Asn1 (len c) /\ room b (len (pre ++ der_len (len c) ++ c)))
  end.
Proof.
  intros Hb Hc. assert (L := len_content b Hb). rewrite Hc, !length_app in L. simpl length in L.
  unfold flush_asn1_length. assert (Hn := der_length_form_spec (len c) ltac:(lia)).
  destruct (der_length_form (len c)) as [[[ll initial] n']|]; simpl plift.
  2: { unfold pbind, pfail, prefix_fits. split; [done|]. intros [Hf _]. revert Hf.
       destruct (Z.leb_spec (len c) 0xfffffffe); [lia|done]. }
  destruct Hn as (Hle & k & -> & Hk & Hd & Hi & Hn' & Hkn).
  assert (Hfit : prefix_fits Asn1 (len c)) by (apply Is_true_true, Z.leb_le; done).
  unfold pbind at 1. cbn [pret]. destruct k as [|k].
  - cbn -[der_len]. destruct (content_write b pre [0] c [initial]) as [E1 E2];
      [done|auto with bytes_db|done|done|].
    rewrite Nat2Z.id. exists initial, 0%nat, []. rewrite insert_mem_write by (destruct Hb; lia).
    rewrite <- app_assoc, length_app. split_and!; done || (simpl; lia).
  - rewrite Hkn in * by done. destruct (Z.eqb_spec (Z.of_nat (S k) + 1) 1); [lia|].
    cbn [negb]. unfold pbind at 1 2. rewrite Z.add_simpl_r.
    destruct (cbb_buffer_add (Z.of_nat (S k)) b) as [[o|] b1] eqn:Ea;
      apply add_spec in Ea; try done; try (unfold word; lia).
    2: { destruct Ea as [-> Hr]. split; [done|]. intros [_ Hroom]. apply Hr.
         eapply room_le; [done|]. rewrite Hd, !length_app. simpl. rewrite length_app, length_be_encode. simpl. lia. }
    destruct Ea as (He & _ & junk & Hj & Hc1). rewrite Hc, <- !app_assoc in Hc1.
    set (x := take (S k) (c ++ junk)). set (y := drop (S k) (c ++ junk)).
    assert (Hxy : c ++ junk = x ++ y) by (symmetry; apply take_drop).
    assert (Lx : length x = S k) by (subst x; rewrite length_take, length_app; lia).
    assert (Ly : length y = length c) by (subst y; rewrite length_drop, length_app; lia).
    assert (Hsl : take (length c) (drop (length (pre ++ [0])) (buf b1)) = c).
    { apply (content_slice b1 _ _ junk). by rewrite Hc1, <- app_assoc. }
    destruct (content_write b1 (pre ++ [0] ++ x) y [] c) as [E1 E2].
    { apply He. } { assert (B := bytes_content b Hb). rewrite Hc, !bytes_app in B. naive_solver. }
    { by rewrite Hc1, Hxy, app_nil_r, <- !app_assoc. } { done. }
    rewrite app_nil_r in E2.
    replace (Z.to_nat (len pre + 1 + Z.of_nat (S k))) with (length (pre ++ [0] ++ x))
      by (rewrite !length_app; simpl; lia).
    replace (Z.to_nat (len pre + 1)) with (length (pre ++ [0])) by (rewrite length_app; simpl; lia).
    rewrite Nat2Z.id, Hsl. revert E1 E2. set (b2 := set_buf b1 _). intros E1 E2.
    destruct (content_write b2 pre [0] (x ++ c) [initial]) as [E3 E4];
      [apply E1|auto with bytes_db|by rewrite E2, <- !app_assoc|done|].
    unfold pbind, pret. cbn [offset]. rewrite Nat2Z.id.
    rewrite insert_mem_write.
    2: { destruct E1 as [Hok _]. assert (L2 := len_content b2 Hok). destruct Hok as (Hl & Hbl & _).
         rewrite E2, !length_app in L2. cbn [length] in L2. lia. }
    exists initial, (S k), x. rewrite <- (app_assoc pre), length_app.
    split_and!; try done; try (simpl; lia).
    by eapply extends_trans, extends_trans.
Qed.

Lemma flush_prefix_spec b a p pre c : base_ok b ->
  content b = pre ++ replicate (prefix_len p) 0 ++ c ->
  buffer_post b (prefix_fits p (len c)) (pre ++ encode_prefix p (len c) ++ c)
    (flush_prefix (mk_child a (len pre) (Z.of_nat (prefix_len p)) (prefix_is_asn1 p)) b).
Proof.
  intros Hb Hc. assert (L := len_content b Hb).
  rewrite Hc, !length_app, length_replicate in L. assert (Hb' := Hb).
  destruct Hb' as (H1 & H2 & H3 & H4).
  unfold flush_prefix. cbn [offset pending_len_len pending_is_asn1].
  rewrite (wrap_small 64) by (unfold word; lia).
  destruct (Z.ltb_spec (len pre + Z.of_nat (prefix_len p)) (len pre)); [lia|].
  destruct (Z.ltb_spec (base_len b) (len pre + Z.of_nat (prefix_len p))); [lia|].
  cbn [orb]. replace (base_len b - (len pre + Z.of_nat (prefix_len p))) with (len c) by lia.
  destruct p as [k|]; cbn [prefix_is_asn1 prefix_len] in *.
  - unfold pbind, pret. rewrite !Nat2Z.id.
    assert (S := store_length_spec b pre _ c k (len c) Hb ltac:(lia) Hc (length_replicate _ _)).
    destruct (store_be_loop k (buf b) (length pre) (len c)) as [l n'].
    destruct S as (E1 & E2 & E3). cbn [buffer_post prefix_fits encode_prefix].
    destruct (Z.eqb_spec n' 0) as [->|]; cbn [negb].
    + split; [done|]. split; [done|]. apply Is_true_true, Z.ltb_lt. by apply E3.
    + split; [apply E1|]. intros [Hf _]. apply Is_true_true, Z.ltb_lt, E3 in Hf. done.
  - assert (F := flush_asn1_length_spec b a pre c Hb Hc). change (Z.of_nat 1) with 1.
    unfold pbind. destruct (flush_asn1_length _ _ _ b) as [[[[off pll] n']|] b1]; [|done].
    destruct F as (initial & k & x & Hd & -> & -> & Hn' & Hx & He & Hc1 & Hf).
    rewrite !Nat2Z.id.
    assert (S := store_length_spec b1 _ x c k n' (proj1 He) ltac:(lia) Hc1 Hx).
    destruct (store_be_loop k (buf b1) _ n') as [l n'']. destruct S as (E1 & E2 & E3).
    assert (n'' = 0) as -> by (apply E3; lia). cbn [negb Z.eqb buffer_post].
    split; [by eapply extends_trans|]. split; [|done].
    rewrite E2. cbn [encode_prefix]. by rewrite Hd, <- app_assoc.
Qed.

(** ** Open frames *)

Record frame := mk_frame { f_addr : nat; f_prefix : prefix; f_contents : list Z }.

Definition add_contents (f : frame) (data : list Z) : frame :=
  mk_frame (f_addr f) (f_prefix f) (f_contents f ++ data).

(** What the buffer holds while the frames are open. *)
Fixpoint flat (fs : list frame) : list Z :=
  match fs with
  | [] => []
  | f :: fs' => (replicate (prefix_len (f_prefix f)) 0 ++ f_contents f) ++ flat fs'
  end.

(** What it holds when they are closed, and when they can be. *)
Fixpoint closed (fs : list frame) : list Z :=
  match fs with
  | [] => []
  | f :: fs' => let c := f_contents f ++ closed fs' in encode_prefix (f_prefix f) (len c) ++ c
  end.
Fixpoint closable (fs : list frame) : bool :=
  match fs with
  | [] => true
  | f :: fs' => closable fs' && prefix_fits (f_prefix f) (len (f_contents f ++ closed fs'))
  end.

(** The chain entries of the frames laid out from offset [off]. *)
Fixpoint entries (off : Z) (fs : list frame) : list cbb_child_st :=
  match fs with
  | [] => []
  | f :: fs' =>
      let n := prefix_len (f_prefix f) in
      mk_child (f_addr f) off (Z.of_nat n) (prefix_is_asn1 (f_prefix f))
        :: entries (off + Z.of_nat n + len (f_contents f)) fs'
  end.

Lemma buffer_post_weaken b Q new r : base_ok b -> buffer_post b Q new r -> base_ok (snd r).
Proof. destruct r as [[]?]; simpl; [intros _ [[? _] _]|intros _ [? _]]; done. Qed.

Lemma flush_chain_spec fs : forall b pre, base_ok b -> error b = false ->
  content b = pre ++ flat fs ->
  buffer_post b (closable fs) (pre ++ closed fs) (flush_chain (entries (len pre) fs) b).
Proof.
  induction fs as [|f fs IH]; intros b pre Hb He Hc; cbn [entries flush_chain]; rewrite He.
  - simpl. split; [by apply extends_refl|done].
  - set (n := prefix_len (f_prefix f)). set (c := f_contents f).
    set (pre1 := pre ++ replicate n 0 ++ c).
    replace (len pre + Z.of_nat n + len c) with (len pre1)
      by (subst pre1; rewrite !length_app, length_replicate; lia).
    cbn [flat] in Hc. assert (Hc1 : content b = pre1 ++ flat fs)
      by (subst pre1 n c; rewrite Hc; by rewrite <- !app_assoc).
    specialize (IH b pre1 Hb He Hc1). unfold pbind.
    set (c' := c ++ closed fs).
    assert (Hle : len (pre1 ++ closed fs) <= len (pre ++ encode_prefix (f_prefix f) (len c') ++ c')).
    { subst pre1 c'. rewrite !length_app, length_replicate.
      assert (P := length_encode_prefix (f_prefix f) (len (c ++ closed fs)) ltac:(lia)).
      rewrite length_app in P. lia. }
    destruct (flush_chain (entries (len pre1) fs) b) as [[[]|] b1]; cbn [buffer_post] in IH.
    + destruct IH as (E1 & C1 & Q1).
      assert (F := flush_prefix_spec b1 (f_addr f) (f_prefix f) pre c' (proj1 E1)).
      assert (Hc2 : content b1 = pre ++ replicate (prefix_len (f_prefix f)) 0 ++ c')
        by (rewrite C1; subst pre1 c'; by rewrite <- !app_assoc).
      specialize (F Hc2). fold n in F.
      destruct (flush_prefix _ b1) as [[[]|] b2]; cbn [buffer_post closable closed] in *.
      * destruct F as (E2 & C2 & Q2). split; [by eapply extends_trans|]. split; [done|].
        apply Is_true_true. apply Is_true_true in Q1, Q2. subst c' c. by rewrite Q1, Q2.
      * destruct F as [B2 Q2]. split; [by apply base_ok_set_error|]. intros [Q R]. apply Q2.
        apply Is_true_true, andb_true_iff in Q as [_ Q].
        split; [by apply Is_true_true|by eapply room_extends].
    + destruct IH as [B1 Q1]. cbn [buffer_post closable closed].
      split; [by apply base_ok_set_error|]. intros [Q R]. apply Q1.
      apply Is_true_true, andb_true_iff in Q as [Q _].
      split; [by apply Is_true_true|]. by eapply room_le.
Qed.

(** ** The refinement relation *)

Fixpoint find_addr (a : nat) (l : list nat) : option nat :=
  match l with
  | [] => None
  | b :: l' => if decide (b = a) then Some 1%nat else S <$> find_addr a l'
  end.

(** The index of the frame of a handle; the top-level object is frame 0. *)
Definition position (h : handle) (fs : list frame) : option nat :=
  match h with Top => Some 0%nat | Child a => find_addr a (tail (f_addr <$> fs)) end.

Record rep (st : CBB) (fs : list frame) : Prop := {
  rep_root : exists f fs', fs = f :: fs' /\ f_prefix f = Fixed 0;
  rep_error : error (base st) = false;
  rep_ok : base_ok (base st);
  rep_content : content (base st) = flat fs;
  rep_children : children st = tail (entries 0 fs)
}.

Lemma find_child_entries a off fs :
  find_child a (entries off fs) = find_addr a (f_addr <$> fs).
Proof.
  revert off. induction fs as [|f fs IH]; intros off; simpl; [done|]. rewrite IH.
  by repeat case_decide.
Qed.

Lemma find_addr_bounds a l d : find_addr a l = Some d ->
  (0 < d <= length l)%nat /\ find_addr a (take d l) = Some d /\
  forall k, find_addr a (l ++ k) = Some d.
Proof.
  revert d. induction l as [|b l IH]; intros d; [done|]. cbn [find_addr].
  destruct (decide (b = a)) as [->|Hne].
  - intros [= <-]. simpl. rewrite !decide_True by done. split; [lia|]. split; [done|].
    intros k. by rewrite decide_True.
  - destruct (find_addr a l) as [d'|]; [|done]. intros [= <-].
    destruct (IH d' eq_refl) as (H1 & H2 & H3). cbn [length take app find_addr].
    rewrite !decide_False, H2 by done. split; [lia|]. split; [done|]. intros k.
    by rewrite decide_False, H3.
Qed.

Lemma find_addr_fresh a l : a ∉ l -> find_addr a (l ++ [a]) = Some (S (length l)).
Proof.
  induction l as [|b l IH]; intros Hn; simpl; [by rewrite decide_True|].
  rewrite decide_False by set_solver. rewrite IH by set_solver. done.
Qed.

Lemma position_lt h fs d : fs <> [] -> position h fs = Some d -> (d < length fs)%nat.
Proof.
  destruct fs as [|f fs]; [done|]. intros _. destruct h; simpl; [intros [= <-]; lia|].
  intros E%find_addr_bounds. rewrite length_fmap in E. lia.
Qed.

Lemma rep_depth st fs h : rep st fs -> depth h st = position h fs.
Proof.
  intros R. destruct (rep_root _ _ R) as (f & fs' & -> & _). destruct h; [done|].
  simpl. rewrite (rep_children _ _ R). apply find_child_entries.
Qed.

(** Close the frames behind position [d]. *)
Fixpoint close (d : nat) (fs : list frame) : list frame :=
  match d, fs with
  | _, [] => []
  | O, f :: fs' => [add_contents f (closed fs')]
  | S d', f :: fs' => f :: close d' fs'
  end.

(** Append to the innermost frame. *)
Fixpoint append (data : list Z) (fs : list frame) : list frame :=
  match fs with
  | [] => []
  | [f] => [add_contents f data]
  | f :: fs' => f :: append data fs'
  end.

Lemma flat_app fs gs : flat (fs ++ gs) = flat fs ++ flat gs.
Proof. induction fs; simpl; [done|]. by rewrite IHfs, !app_assoc. Qed.

Lemma flat_append data fs : fs <> [] -> flat (append data fs) = flat fs ++ data.
Proof.
  induction fs as [|f [|g fs] IH]; intros Hne; [done| |].
  - simpl. by rewrite !app_nil_r, app_assoc.
  - cbn [append flat]. cbn [append flat] in IH. rewrite IH by done. by rewrite !app_assoc.
Qed.

Lemma flat_close d fs : (d < length fs)%nat ->
  flat (close d fs) = flat (take (S d) fs) ++ closed (drop (S d) fs).
Proof.
  revert fs. induction d as [|d IH]; intros [|f fs] Hd; simpl in Hd; try lia.
  - simpl. by rewrite !app_nil_r, app_assoc.
  - cbn [close flat take drop]. rewrite IH by lia. by rewrite !app_assoc.
Qed.

Lemma entries_app off fs gs :
  entries off (fs ++ gs) = entries off fs ++ entries (off + len (flat fs)) gs.
Proof.
  revert off. induction fs as [|f fs IH]; intros off; simpl; [by rewrite Z.add_0_r|].
  rewrite IH. do 3 f_equal. rewrite !length_app, length_replicate. lia.
Qed.

Lemma length_entries off fs : length (entries off fs) = length fs.
Proof. revert off. induction fs; intros; simpl; [done|]. by rewrite IHfs. Qed.

Lemma entries_close off d fs : (d < length fs)%nat ->
  entries off (close d fs) = take (S d) (entries off fs).
Proof.
  revert off fs. induction d as [|d IH]; intros off [|f fs] Hd; simpl in Hd; try lia; [done|].
  cbn [close entries take]. by rewrite IH by lia.
Qed.

Lemma entries_append off data fs : entries off (append data fs) = entries off fs.
Proof.
  revert off. induction fs as [|f [|g fs] IH]; intros off; [done|done|].
  cbn [append entries] in *. by rewrite IH.
Qed.

Lemma drop_entries off d fs :
  drop d (entries off fs) = entries (off + len (flat (take d fs))) (drop d fs).
Proof.
  destruct (decide (d <= length fs)%nat).
  - rewrite <- (take_drop d fs) at 1. rewrite entries_app.
    apply drop_app_exact. rewrite length_entries, length_take. lia.
  - rewrite drop_ge, (drop_ge fs) by (rewrite ?length_entries; lia). done.
Qed.

Lemma close_last d fs : length fs = S d -> close d fs = fs.
Proof.
  revert fs. induction d as [|d IH]; intros [|f [|g fs]] Hd; simpl in Hd; try lia.
  - destruct f. unfold close, add_contents. simpl. by rewrite app_nil_r.
  - cbn [close]. by rewrite IH by (simpl; lia).
Qed.

Lemma length_close d fs : (d < length fs)%nat -> length (close d fs) = S d.
Proof.
  revert fs. induction d as [|d IH]; intros [|f fs] Hd; simpl in *; try lia. by rewrite IH by lia.
Qed.

Lemma length_append data fs : length (append data fs) = length fs.
Proof. induction fs as [|f [|g fs] IH]; [done|done|]. cbn [append length] in *. by rewrite IH. Qed.

Lemma addrs_append data fs : f_addr <$> append data fs = f_addr <$> fs.
Proof. induction fs as [|f [|g fs] IH]; [done|done|]. cbn [append fmap list_fmap] in *. by rewrite IH. Qed.

Lemma addrs_close d fs : f_addr <$> close d fs = take (S d) (f_addr <$> fs).
Proof.
  revert fs. induction d as [|d IH]; intros [|f fs]; try done.
  cbn [close fmap list_fmap]. cbn [take]. f_equal. apply (IH fs).
Qed.

Lemma position_append h data fs : position h (append data fs) = position h fs.
Proof. unfold position. by rewrite addrs_append. Qed.

Lemma position_close h fs d : position h fs = Some d -> position h (close d fs) = Some d.
Proof.
  destruct h as [|a]; unfold position; [done|]. rewrite addrs_close.
  destruct fs as [|f fs]; simpl; [done|]. intros E%find_addr_bounds. naive_solver.
Qed.

Lemma position_push h fs d g : fs <> [] -> position h fs = Some d ->
  position h (fs ++ [g]) = Some d.
Proof.
  destruct fs as [|f fs]; [done|]. intros _. destruct h as [|a]; [done|]. simpl.
  rewrite fmap_app. intros E%find_addr_bounds. naive_solver.
Qed.

Lemma position_fresh a fs p : fs <> [] -> a ∉ tail (f_addr <$> fs) ->
  position (Child a) (fs ++ [mk_frame a p []]) = Some (length fs).
Proof.
  destruct fs as [|f fs]; [done|]. intros _. simpl. rewrite fmap_app. intros Hf.
  simpl. rewrite find_addr_fresh by done. by rewrite length_fmap.
Qed.

(** ** Simulation *)

(** From a state with frames [fs], [m] reaches one with frames [fs']; it
    succeeds exactly if [Q], as long as there is room, and a failure locks the
    object into the error state. *)
Definition refines {A} (fs : list frame) (m : cbb_op A) (Q : bool) (fs' : list frame) : Prop :=
  forall st, rep st fs ->
  match m st with
  | (Some _, st') => rep st' fs' /\ extends (base st) (base st') /\ Q
  | (None, st') => error (base st') = true /\ ~ (Q /\ room (base st) (len (flat fs')))
  end.

Lemma refines_bind {A B} fs (m : cbb_op A) Q1 fs1 (k : A -> cbb_op B) Q2 fs2 :
  refines fs m Q1 fs1 -> (forall x, refines fs1 (k x) Q2 fs2) ->
  len (flat fs1) <= len (flat fs2) -> refines fs (pbind m k) (Q1 && Q2) fs2.
Proof.
  intros H1 H2 Hle st R. specialize (H1 st R). unfold pbind.
  destruct (m st) as [[x|] st1].
  - destruct H1 as (R1 & E1 & Q1'). specialize (H2 x st1 R1).
    destruct (k x st1) as [[y|] st2].
    + destruct H2 as (R2 & E2 & Q2'). split; [done|]. split; [by eapply extends_trans|].
      apply Is_true_true. apply Is_true_true in Q1', Q2'. by rewrite Q1', Q2'.
    + destruct H2 as [He H2]. split; [done|]. intros [Q Rm]. apply H2.
      apply andb_prop_elim in Q as [_ Q]. split; [done|by eapply room_extends].
  - destruct H1 as [He H1]. split; [done|]. intros [Q Rm]. apply H1.
    apply andb_prop_elim in Q as [Q _]. split; [done|by eapply room_le].
Qed.

Lemma refines_ret {A} fs (x : A) : refines fs (pret x) true fs.
Proof. intros st R. split; [done|]. split; [apply extends_refl, R|done]. Qed.

Lemma refines_ext {A} fs (m : cbb_op A) Q Q' fs1 fs2 :
  refines fs m Q fs1 -> Q = Q' -> fs1 = fs2 -> refines fs m Q' fs2.
Proof. by intros ? -> ->. Qed.

Lemma refines_on_error {A} fs (m : cbb_op A) Q fs' h d : position h fs = Some d ->
  refines fs m Q fs' -> refines fs (or_on_error h m) Q fs'.
Proof.
  intros Hp H1 st R. specialize (H1 st R). unfold or_on_error.
  destruct (m st) as [[x|] st1]; [done|]. destruct H1 as [He H1]. split; [|done].
  unfold cbb_on_error. by destruct (depth h st1).
Qed.

Lemma flush_chain_error ds b b' : flush_chain ds b = (None, b') -> error b' = true.
Proof.
  destruct ds; cbn [flush_chain]; destruct (error b) eqn:E; try (by intros [= <-]).
  destruct (pbind _ _ b) as [[?|] ?]; [done|]. by intros [= <-].
Qed.

Lemma refines_flush fs h d : position h fs = Some d ->
  refines fs (CBB_flush h) (closable (drop (S d) fs)) (close d fs).
Proof.
  intros Hp st R. unfold CBB_flush. rewrite (rep_depth _ _ _ R), Hp, (rep_error _ _ R).
  destruct (rep_root _ _ R) as (f & fs' & Efs & Hf).
  assert (Hd : (d < length fs)%nat) by (apply (position_lt h); [by rewrite Efs|done]).
  assert (Ech : drop d (children st) = entries (len (flat (take (S d) fs))) (drop (S d) fs)).
  { rewrite (rep_children _ _ R), <- (Z.add_0_l (len _)), <- drop_entries.
    rewrite Efs. by simpl. }
  assert (F := flush_chain_spec (drop (S d) fs) (base st) (flat (take (S d) fs))
                 (rep_ok _ _ R) (rep_error _ _ R)).
  rewrite <- flat_app, take_drop in F. specialize (F (rep_content _ _ R)).
  rewrite <- flat_close in F by done. rewrite Ech.
  destruct (flush_chain _ (base st)) as [[[]|] b'] eqn:Ef; cbn [buffer_post] in F.
  - destruct F as (E1 & C1 & Q1). split; [|done]. destruct (E1) as (B1 & _ & _ & Ee & _).
    split; simpl; try done.
    + destruct d; rewrite Efs; simpl; eauto.
    + by rewrite Ee, (rep_error _ _ R).
    + rewrite entries_close, (rep_children _ _ R) by done.
      rewrite Efs. done.
  - destruct F as [B1 Q1]. split; [by eapply flush_chain_error|done].
Qed.

(** A writer [k] that fills the space just added with [data]. *)
Definition fills (h : handle) (k : Z -> cbb_op unit) (n : Z) (data : list Z) (Q : bool) : Prop :=
  forall st pre junk, is_Some (depth h st) -> base_ok (base st) ->
  content (base st) = pre ++ junk -> len junk = n ->
  match k (len pre) st with
  | (Some _, st') => children st' = children st /\ extends (base st) (base st') /\
      content (base st') = pre ++ data /\ Q
  | (None, st') => error (base st') = true /\ Q = false
  end.

Lemma rep_append st fs b data : rep st fs -> extends (base st) b ->
  content b = content (base st) ++ data -> rep (mk_CBB b (children st)) (append data fs).
Proof.
  intros R E C. destruct (rep_root _ _ R) as (f & fs' & -> & Hf).
  destruct E as (B & _ & _ & Ee & _). split; simpl.
  - destruct fs'; simpl; eauto.
  - by rewrite Ee, (rep_error _ _ R).
  - done.
  - rewrite C, (rep_content _ _ R). symmetry. by apply (flat_append data (f :: fs')).
  - rewrite (rep_children _ _ R). f_equal. symmetry. apply (entries_append 0 data (f :: fs')).
Qed.

Lemma refines_write fs h d n data k Q : position h fs = Some d -> len data = n -> word 64 n ->
  fills h k n data Q ->
  refines fs (let* out := CBB_add_space h n in k out)
    (closable (drop (S d) fs) && Q) (append data (close d fs)).
Proof.
  intros Hp Hd Hn Hk st R.
  assert (F := refines_flush fs h d Hp st R). unfold CBB_add_space, pbind at 1 2.
  assert (Hlt : (d < length fs)%nat).
  { apply (position_lt h); [|done]. destruct (rep_root _ _ R) as (?&?&->&_). done. }
  assert (Hne : close d fs <> []) by (apply length_close in Hlt; by destruct (close d fs)).
  assert (Hflat : len (flat (append data (close d fs))) = len (flat (close d fs)) + n).
  { rewrite flat_append, length_app by done. lia. }
  destruct (CBB_flush h st) as [[[]|] st1].
  2: { destruct F as [He F]. split; [done|]. intros [Q' Rm]. apply F.
       apply andb_prop_elim in Q' as [Q' _]. split; [done|]. eapply room_le; [done|].
       destruct Hn. lia. }
  destruct F as (R1 & E1 & Q1). assert (B1 := rep_ok _ _ R1).
  unfold on_base. destruct (cbb_buffer_add n (base st1)) as [[off|] b2] eqn:Ea;
    apply add_spec in Ea; try done.
  2: { destruct Ea as [-> Hr]. split; [done|]. intros [_ Rm]. apply Hr.
       eapply room_extends; [done|]. eapply room_le; [done|]. rewrite Hflat.
       assert (L := len_content _ B1). rewrite (rep_content _ _ R1) in L. lia. }
  destruct Ea as (E2 & -> & junk & Hj & Hc2).
  assert (Hdep : is_Some (depth h (mk_CBB b2 (children st1)))).
  { change (depth h _) with (depth h st1). rewrite (rep_depth _ _ _ R1).
    by rewrite (position_close _ _ _ Hp). }
  specialize (Hk (mk_CBB b2 (children st1)) (content (base st1)) junk Hdep (proj1 E2) Hc2 Hj).
  rewrite len_content in Hk by done.
  destruct (k _ _) as [[[]|] st3]; simpl in Hk.
  - destruct Hk as (Hch & E3 & C3 & HQ). split; [|split].
    + destruct st3 as [b3 ch3]. simpl in *. subst ch3. apply rep_append; [done| |done].
      by eapply extends_trans.
    + by eapply extends_trans, extends_trans.
    + apply andb_prop_intro. done.
  - destruct Hk as [He ->]. split; [done|]. rewrite andb_false_r. naive_solver.
Qed.

Lemma refines_add_bytes fs h d data : position h fs = Some d -> bytes data ->
  word 64 (len data) ->
  refines fs (CBB_add_bytes h data) (closable (drop (S d) fs)) (append data (close d fs)).
Proof.
  intros Hp Hb Hl. rewrite <- (andb_true_r (closable _)). apply (refines_write _ _ _ (len data)); try done.
  intros st pre junk Hdep B C Hj. unfold on_base. simpl.
  destruct (content_write (base st) pre junk [] data) as [E1 E2]; try done.
  { by rewrite app_nil_r. } { lia. }
  rewrite Nat2Z.id. rewrite app_nil_r in E2. done.
Qed.

Lemma refines_add_zeros fs h d n : position h fs = Some d -> word 64 n ->
  refines fs (CBB_add_zeros h n) (closable (drop (S d) fs))
    (append (replicate (Z.to_nat n) 0) (close d fs)).
Proof.
  intros Hp Hn. rewrite <- (andb_true_r (closable _)).
  assert (Hl : len (replicate (Z.to_nat n) 0) = n) by (rewrite length_replicate; destruct Hn; lia).
  apply (refines_write _ _ _ n); try done.
  intros st pre junk Hdep B C Hj. unfold on_base. simpl.
  destruct (content_write (base st) pre junk [] (replicate (Z.to_nat n) 0)) as [E1 E2]; try done.
  { by apply bytes_replicate. } { by rewrite app_nil_r. } { lia. }
  rewrite Nat2Z.id. rewrite app_nil_r in E2. done.
Qed.

Lemma refines_add_u fs h d v (k : nat) : position h fs = Some d -> 0 <= v -> (k <= 8)%nat ->
  refines fs (cbb_add_u h v (Z.of_nat k)) (closable (drop (S d) fs) && (v <? 256 ^ Z.of_nat k))
    (append (be_encode k v) (close d fs)).
Proof.
  intros Hp Hv Hk. apply (refines_write _ _ _ (Z.of_nat k)); try done.
  { by rewrite length_be_encode. } { unfold word. lia. }
  intros st pre junk Hdep B C Hj. unfold or_on_error, on_base. rewrite !Nat2Z.id.
  assert (S := store_length_spec (base st) pre junk [] k v B Hv).
  rewrite app_nil_r in S. specialize (S C ltac:(lia)).
  destruct (store_be_loop k (buf (base st)) (length pre) v) as [l n'].
  destruct S as (E1 & E2 & E3). rewrite app_nil_r in E2.
  destruct (Z.eqb_spec n' 0) as [->|]; cbn [negb].
  - split_and!; try done; try apply E1. apply Is_true_true, Z.ltb_lt. by apply E3.
  - split; [|apply Z.ltb_ge; lia]. unfold cbb_on_error.
    change (depth h _) with (depth h st). by destruct Hdep as [? ->].
Qed.

Lemma refines_add_u8 fs h d v : position h fs = Some d -> byte v ->
  refines fs (CBB_add_u8 h v) (closable (drop (S d) fs)) (append [v] (close d fs)).
Proof.
  intros Hp Hv. unfold CBB_add_u8. rewrite (wrap_small 8) by done.
  eapply refines_ext; [apply (refines_add_u fs h d v 1); [done|destruct Hv; lia|lia]| |].
  - destruct (Z.ltb_spec v (256 ^ Z.of_nat 1)) as [|Hge]; [by rewrite andb_true_r|].
    destruct Hv as [_ Hv]. change (256 ^ Z.of_nat 1) with (2 ^ 8) in Hge. lia.
  - simpl. by rewrite (Z.mod_small v) by apply Hv.
Qed.

(** Opening a child. *)
Lemma refines_add_child fs h a p : (prefix_len p <= 8)%nat ->
  refines fs (cbb_add_child h a (Z.of_nat (prefix_len p)) (prefix_is_asn1 p)) true
    (fs ++ [mk_frame a p []]).
Proof.
  intros Hp8 st R. unfold cbb_add_child, pbind, on_base.
  assert (B := rep_ok _ _ R). assert (L := len_content _ B). rewrite (rep_content _ _ R) in L.
  assert (Hflat : flat (fs ++ [mk_frame a p []]) = flat fs ++ replicate (prefix_len p) 0).
  { rewrite flat_app. simpl. by rewrite !app_nil_r. }
  destruct (cbb_buffer_add _ (base st)) as [[off|] b1] eqn:Ea;
    apply add_spec in Ea; try done; try (unfold word; lia).
  - destruct Ea as (E1 & -> & junk & Hj & Hc1). cbn [base children]. rewrite Nat2Z.id.
    destruct (content_append (base st) b1 junk (replicate (prefix_len p) 0)) as [E2 C2]; try done.
    { rewrite length_replicate. lia. } { by apply bytes_replicate. }
    split; [|done]. destruct (rep_root _ _ R) as (f & fs' & Efs & Hf).
    split; simpl.
    + exists f, (fs' ++ [mk_frame a p []]). by rewrite Efs.
    + destruct E2 as (_&_&_&Ee&_). simpl in Ee. by rewrite Ee, (rep_error _ _ R).
    + apply E2.
    + by rewrite C2, Hflat, (rep_content _ _ R).
    + rewrite entries_app, (rep_children _ _ R). simpl.
      rewrite <- L. by rewrite Efs.
  - destruct Ea as [-> Hr]. split; [done|]. intros [_ Rm]. apply Hr.
    eapply room_le; [done|]. rewrite Hflat, length_app, length_replicate. lia.
Qed.

Lemma refines_add_length_prefixed fs h d a k : position h fs = Some d -> (k <= 8)%nat ->
  refines fs (cbb_add_length_prefixed h a (Z.of_nat k)) (closable (drop (S d) fs))
    (close d fs ++ [mk_frame a (Fixed k) []]).
Proof.
  intros Hp Hk. unfold cbb_add_length_prefixed. rewrite <- (andb_true_r (closable _)).
  eapply refines_bind; [by apply refines_flush| |].
  - intros _. by apply (refines_add_child (close d fs) h a (Fixed k)).
  - rewrite flat_app, length_app. lia.
Qed.

End facts.
