(* ===== verification/CbbAsn1.v ===== *)
(** * The ASN.1 writers of cbb.cc

    What the writers of tags, lengths, integers, booleans and object
    identifiers append, in terms of the DER encodings of [Der]. *)

From S2P Require Import Prelude Internal Alloc Cbs CbsFacts Der Cbb CbbFacts.
Import Endian Mem.

(** ** Base-128 digits *)

(** The octets [add_base128_loop] writes. *)
Fixpoint digits_loop (v : Z) (n : nat) : list Z :=
  match n with
  | O => []
  | S i =>
      let byte := Z.land (Z.shiftr v (7 * Z.of_nat i)) 0x7f in
      (if negb (Nat.eqb i 0) then Z.lor byte 0x80 else byte) :: digits_loop v i
  end.

(** The [n] low digits of [u], all with the continuation bit. *)
Fixpoint high_digits (n : nat) (u : Z) : list Z :=
  match n with
  | O => []
  | S i => (128 + u / 128 ^ Z.of_nat i mod 128) :: high_digits i u
  end.

Lemma digit_eq v i : Z.land (Z.shiftr v (7 * Z.of_nat i)) 0x7f = v / 128 ^ Z.of_nat i mod 128.
Proof.
  change 0x7f with (2 ^ 7 - 1). rewrite land_ones_mod, Z.shiftr_div_pow2 by lia.
  by rewrite Z.pow_mul_r by lia.
Qed.

Lemma lor_80 x : 0 <= x < 128 -> Z.lor x 0x80 = 128 + x.
Proof.
  intros. apply Z.eqb_eq.
  apply (all_from_spec 128 0 (fun x => Z.lor x 0x80 =? 128 + x)); [by vm_compute|lia].
Qed.

Lemma div_pow128_succ v i : v / 128 / 128 ^ Z.of_nat i = v / 128 ^ Z.of_nat (S i).
Proof.
  rewrite Nat2Z.inj_succ, Z.pow_succ_r by lia. rewrite Z.div_div; [done|lia|].
  apply Z.pow_pos_nonneg; lia.
Qed.

Lemma digits_loop_eq n v : digits_loop v (S n) = high_digits n (v / 128) ++ [v mod 128].
Proof.
  induction n as [|n IH].
  - simpl. change 127 with (2 ^ 7 - 1). by rewrite Z.shiftr_0_r, land_ones_mod by lia.
  - cbn [digits_loop] in *. rewrite IH. cbn [high_digits app Nat.eqb negb]. f_equal.
    rewrite digit_eq, lor_80 by (by apply Z.mod_pos_bound). by rewrite div_pow128_succ.
Qed.

Lemma high_digits_snoc n u : high_digits (S n) u = high_digits n (u / 128) ++ [128 + u mod 128].
Proof.
  induction n as [|n IH].
  - simpl. by rewrite Z.div_1_r.
  - cbn [high_digits] in *. rewrite IH. cbn [app]. f_equal. by rewrite div_pow128_succ.
Qed.

Lemma high_digits_base128 n : forall f u, (n <= f)%nat -> 0 <= u < 128 ^ Z.of_nat n ->
  (n <> O -> 128 ^ (Z.of_nat n - 1) <= u) -> base128_hi f u = high_digits n u.
Proof.
  induction n as [|n IH]; intros f u Hf Hu Hn.
  - assert (u = 0) as -> by (simpl in Hu; lia). by destruct f.
  - destruct f as [|f]; [lia|]. rewrite high_digits_snoc. cbn [base128_hi].
    specialize (Hn ltac:(done)). rewrite Nat2Z.inj_succ, Z.sub_1_r, Z.pred_succ in Hn.
    rewrite Nat2Z.inj_succ, Z.pow_succ_r in Hu by lia.
    assert (0 < 128 ^ Z.of_nat n) by (apply Z.pow_pos_nonneg; lia).
    destruct (Z.eqb_spec u 0); [lia|]. f_equal. apply IH; [lia| |].
    + split; [apply Z.div_pos; lia|]. apply Z.div_lt_upper_bound; lia.
    + intros Hn0. apply Z.div_le_lower_bound; [lia|].
      rewrite <- Z.pow_succ_r by lia. by replace (Z.succ (Z.of_nat n - 1)) with (Z.of_nat n) by lia.
Qed.

Lemma base128_len_loop_spec f : forall v, 0 <= v < 128 ^ Z.of_nat f ->
  let n := base128_len_loop f v in
  (n <= f)%nat /\ v < 128 ^ Z.of_nat n /\ (n <> O -> 128 ^ (Z.of_nat n - 1) <= v).
Proof.
  induction f as [|f IH]; intros v Hv; [simpl in *; lia|]. cbn [base128_len_loop].
  destruct (Z.ltb_spec 0 v); [|simpl; lia]. rewrite Z.shiftr_div_pow2 by lia.
  change (2 ^ 7) with 128. rewrite Nat2Z.inj_succ, Z.pow_succ_r in Hv by lia.
  destruct (IH (v / 128)) as (H1 & H2 & H3).
  { split; [apply Z.div_pos; lia|apply Z.div_lt_upper_bound; lia]. }
  set (n := base128_len_loop f (v / 128)) in *. split; [lia|]. split.
  - rewrite Nat2Z.inj_succ, Z.pow_succ_r by lia. div_lia.
  - intros _. rewrite Nat2Z.inj_succ, Z.sub_1_r, Z.pred_succ. destruct n as [|m]; [simpl; lia|].
    specialize (H3 ltac:(done)). rewrite Nat2Z.inj_succ, Z.sub_1_r, Z.pred_succ in *.
    rewrite Z.pow_succ_r by lia. div_lia.
Qed.

Lemma digits_loop_base128 v : word 64 v ->
  let n := base128_len_loop 10 v in
  digits_loop v (if Nat.eqb n 0 then 1 else n) = base128 v.
Proof.
  intros [H0 H1]. destruct (base128_len_loop_spec 10 v) as (N1 & N2 & N3).
  { split; [done|]. apply Z.lt_le_trans with (2 ^ 64); [done|by vm_compute]. }
  cbv zeta. set (n := base128_len_loop 10 v) in *. unfold base128.
  assert (E : exists m, (if Nat.eqb n 0 then 1%nat else n) = S m /\
    (m <= 10)%nat /\ 0 <= v / 128 < 128 ^ Z.of_nat m /\
    (m <> O -> 128 ^ (Z.of_nat m - 1) <= v / 128)).
  { destruct n as [|m]; simpl Nat.eqb.
    - exists 0%nat. simpl in *. split_and!; try done; try lia; rewrite Z.div_small; lia.
    - exists m. specialize (N3 ltac:(done)).
      rewrite Nat2Z.inj_succ, Z.sub_1_r, Z.pred_succ in N3.
      rewrite Nat2Z.inj_succ, Z.pow_succ_r in N2 by lia.
      split_and!; try done; try lia; try div_lia. intros Hm.
      apply Z.div_le_lower_bound; [lia|]. rewrite <- Z.pow_succ_r by lia.
      by replace (Z.succ (Z.of_nat m - 1)) with (Z.of_nat m) by lia. }
  destruct E as (m & -> & Hm & Hb & Hlo). rewrite digits_loop_eq.
  by rewrite (high_digits_base128 m 10).
Qed.

(** ** Writing at the innermost frame *)

(** The handle is that of the innermost frame. *)
Definition focus (h : handle) (fs : list frame) : Prop :=
  position h fs = Some (length fs - 1)%nat /\ fs <> [].

Lemma focus_append h data fs : focus h fs -> focus h (append data fs).
Proof.
  intros [H1 H2]. split; [by rewrite position_append, length_append|].
  destruct fs as [|f [|]]; done.
Qed.

Lemma focus_close h fs d : fs <> [] -> position h fs = Some d -> focus h (close d fs).
Proof.
  intros Hne Hp. assert (Hd := position_lt _ _ _ Hne Hp). unfold focus.
  rewrite length_close by done. split.
  - rewrite Nat.sub_1_r. simpl. by apply position_close.
  - intros E. apply (f_equal length) in E. rewrite length_close in E by done. done.
Qed.

Lemma focus_push a fs p : fs <> [] -> a ∉ tail (f_addr <$> fs) ->
  focus (Child a) (fs ++ [mk_frame a p []]).
Proof.
  intros Hne Hf. split; [|by destruct fs].
  rewrite length_app, Nat.add_sub. by apply position_fresh.
Qed.

Lemma append_cons data f fs : fs <> [] -> append data (f :: fs) = f :: append data fs.
Proof. by destruct fs. Qed.

Lemma append_ne data fs : fs <> [] -> append data fs <> [].
Proof. by destruct fs as [|f [|]]. Qed.

Lemma append_append a b fs : append b (append a fs) = append (a ++ b) fs.
Proof.
  induction fs as [|f fs IH]; [done|]. destruct (decide (fs = [])) as [->|Hne].
  - simpl. unfold add_contents. simpl. by rewrite app_assoc.
  - by rewrite !append_cons, IH by (try apply append_ne; done).
Qed.

Lemma append_nil fs : append [] fs = fs.
Proof.
  induction fs as [|f [|g fs] IH]; [done| |].
  - destruct f. simpl. unfold add_contents. simpl. by rewrite app_nil_r.
  - cbn [append] in *. by rewrite IH.
Qed.

Lemma append_push data fs f : append data (fs ++ [f]) = fs ++ [add_contents f data].
Proof.
  induction fs as [|g fs IH]; [done|]. simpl app. rewrite <- IH.
  destruct fs; done.
Qed.

Lemma close_append_push d fs f : length fs = S d ->
  close d (fs ++ [f]) = append (closed [f]) fs.
Proof.
  revert fs. induction d as [|d IH]; intros [|g [|g' fs]] Hd; simpl in Hd; try lia; [done|].
  change ((g :: g' :: fs) ++ [f]) with (g :: (g' :: fs) ++ [f]).
  cbn [close]. rewrite IH by (simpl; lia). done.
Qed.

Lemma flat_append_le data fs : len (flat fs) <= len (flat (append data fs)).
Proof.
  destruct (decide (fs = [])) as [->|]; [done|]. rewrite flat_append, length_app by done. lia.
Qed.

Section writers.
Context `{Malloc}.

(** A sequence of writers at the innermost frame. *)
Lemma refines_then {A B} fs (m : cbb_op A) a (k : A -> cbb_op B) Q b :
  refines fs m true (append a fs) ->
  (forall x, refines (append a fs) (k x) Q (append b (append a fs))) ->
  refines fs (pbind m k) Q (append (a ++ b) fs).
Proof.
  intros H1 H2. rewrite <- append_append. change Q with (true && Q).
  eapply refines_bind; [done|done|]. apply flat_append_le.
Qed.

Lemma refines_assoc {A B C} fs (m : cbb_op A) (f : A -> cbb_op B) (g : B -> cbb_op C) Q fs' :
  refines fs (let* x := m in let* y := f x in g y) Q fs' ->
  refines fs (let* y := (let* x := m in f x) in g y) Q fs'.
Proof.
  intros R st Hst. specialize (R st Hst). unfold pbind in *. by destruct (m st) as [[?|] ?].
Qed.

Lemma refines_flush_focus fs h : focus h fs -> refines fs (CBB_flush h) true fs.
Proof.
  intros [Hp Hne]. eapply refines_ext; [by apply refines_flush| |].
  - by rewrite drop_ge by lia.
  - apply close_last. destruct fs; [done|]. simpl. lia.
Qed.

Lemma refines_u8 fs h v : focus h fs -> byte v ->
  refines fs (CBB_add_u8 h v) true (append [v] fs).
Proof.
  intros [Hp Hne] Hv. eapply refines_ext; [by apply refines_add_u8| |].
  - by rewrite drop_ge by lia.
  - f_equal. apply close_last. destruct fs; [done|]. simpl. lia.
Qed.

Lemma byte_digit v i : byte (Z.land (Z.shiftr v (7 * Z.of_nat i)) 0x7f).
Proof. rewrite digit_eq. assert (B := Z.mod_pos_bound (v / 128 ^ Z.of_nat i) 128). unfold word. lia. Qed.

Lemma refines_base128_loop h v n : forall fs, focus h fs ->
  refines fs (add_base128_loop h v n) true (append (digits_loop v n) fs).
Proof.
  induction n as [|i IH]; intros fs Hf; cbn [add_base128_loop digits_loop].
  - rewrite append_nil. apply refines_ret.
  - match goal with |- context [CBB_add_u8 h ?b] => set (byte := b) end.
    apply (refines_then _ _ [byte]).
    + apply refines_u8; [done|]. subst byte.
      case_if; [apply word_lor; [lia| |by vm_compute]|]; apply byte_digit.
    + intros _. apply IH. by apply focus_append.
Qed.

Lemma refines_base128 fs h v : focus h fs -> word 64 v ->
  refines fs (add_base128_integer h v) true (append (base128 v) fs).
Proof.
  intros Hf Hv. unfold add_base128_integer. rewrite <- (digits_loop_base128 v Hv).
  by apply refines_base128_loop.
Qed.

(** ** Elements *)

Lemma tag_bits tag : word 32 tag ->
  Z.land (Z.shiftr tag CBS_ASN1_TAG_SHIFT) 0xe0 = tag / 2 ^ 29 * 32.
Proof.
  intros [H0 H1]. unfold CBS_ASN1_TAG_SHIFT. rewrite Z.shiftr_div_pow2 by lia.
  rewrite land_e0 by (unfold word; div_lia). f_equal.
  rewrite Z.div_div by lia. done.
Qed.

Lemma tag_number tag : Z.land tag CBS_ASN1_TAG_NUMBER_MASK = tag mod 2 ^ 29.
Proof.
  change CBS_ASN1_TAG_NUMBER_MASK with (2 ^ 29 - 1). by apply land_ones_mod.
Qed.

Lemma lor_bits c n : 0 <= n < 32 -> Z.lor (c * 32) n = c * 32 + n.
Proof. intros. change 32 with (2 ^ 5). rewrite <- Z.shiftl_mul_pow2 by lia. rewrite lor_shiftl_add; [|lia|done]. by rewrite Z.shiftl_mul_pow2. Qed.

Lemma refines_add_asn1 fs h d a tag : position h fs = Some d -> fs <> [] -> word 32 tag ->
  refines fs (CBB_add_asn1 h a tag) (closable (drop (S d) fs))
    (append (der_tag tag) (close d fs) ++ [mk_frame a Asn1 []]).
Proof.
  intros Hp Hne Ht. unfold CBB_add_asn1. rewrite <- (andb_true_r (closable _)).
  assert (Hf : focus h (close d fs)) by (by apply focus_close).
  eapply refines_bind; [by apply refines_flush| |].
  2: { rewrite flat_app, length_app. assert (L := flat_append_le (der_tag tag) (close d fs)). lia. }
  intros _. rewrite tag_bits, tag_number by done.
  change true with (true && true). eapply refines_bind.
  2: { intros _. apply (refines_add_child _ h a Asn1). simpl; lia. }
  2: { rewrite flat_app, length_app. lia. }
  assert (Hc : 0 <= tag / 2 ^ 29 < 8) by (destruct Ht; div_lia).
  assert (Hn : 0 <= tag mod 2 ^ 29 < 2 ^ 29) by (by apply Z.mod_pos_bound).
  unfold der_tag.
  destruct (Z.leb_spec 0x1f (tag mod 2 ^ 29)), (Z.ltb_spec (tag mod 2 ^ 29) 31); try lia.
  - rewrite lor_bits by lia. apply (refines_then _ _ [_] _ _ (base128 (tag mod 2 ^ 29))).
    + apply refines_u8; [done|]. unfold word. lia.
    + intros _. apply refines_base128; [by apply focus_append|]. unfold word. lia.
  - rewrite lor_bits by lia. apply refines_u8; [done|]. unfold word. lia.
Qed.

(** A local child object has an address of its own. *)
Lemma stack_addr_fresh st fs d gs : rep st fs ->
  tail (f_addr <$> gs) = take d (tail (f_addr <$> fs)) ->
  stack_addr st ∉ tail (f_addr <$> gs).
Proof.
  intros R ->. unfold stack_addr. intros Hin. apply elem_of_take in Hin as (i & Hi & _).
  assert (E : child_addr <$> children st = tail (f_addr <$> fs)).
  { rewrite (rep_children _ _ R).
    assert (G : forall off gs, child_addr <$> entries off gs = f_addr <$> gs).
    { intros off gs'. revert off. induction gs'; intros; simpl; [done|]. by rewrite IHgs'. }
    specialize (G 0 fs). destruct fs as [|f fs]; [done|]. exact (f_equal tail G). }
  rewrite E in Hi. apply list_elem_of_lookup_2 in Hi.
  assert (M := list_max_le (tail (f_addr <$> fs)) (list_max (tail (f_addr <$> fs)))).
  destruct M as [M _]. specialize (M ltac:(lia)). rewrite List.Forall_forall in M.
  apply list_elem_of_In, M in Hi. lia.
Qed.

(** Opening an ASN.1 element in a child and filling it. *)
Lemma refines_asn1_block {A} fs h d a tag (k : handle -> cbb_op A) data :
  position h fs = Some d -> fs <> [] -> word 32 tag ->
  a ∉ tail (f_addr <$> close d fs) ->
  (forall gs, focus (Child a) gs -> refines gs (k (Child a)) true (append data gs)) ->
  refines fs (let* _ := CBB_add_asn1 h a tag in k (Child a)) (closable (drop (S d) fs))
    (append (der_tag tag) (close d fs) ++ [mk_frame a Asn1 data]).
Proof.
  intros Hp Hne Ht Ha Hk. rewrite <- (andb_true_r (closable _)).
  assert (Hf := focus_close h fs d Hne Hp).
  eapply refines_bind; [by apply refines_add_asn1| |].
  - intros _. eapply refines_ext; [apply Hk, focus_push| |]; try done.
    + apply append_ne, Hf.
    + by rewrite addrs_append.
    + by rewrite append_push.
  - rewrite !flat_app, !length_app. simpl. lia.
Qed.

Lemma refines_close_asn1 fs h d a tag data : position h fs = Some d -> fs <> [] ->
  refines (append (der_tag tag) (close d fs) ++ [mk_frame a Asn1 data]) (CBB_flush h)
    (prefix_fits Asn1 (len data)) (append (der tag data) (close d fs)).
Proof.
  intros Hp Hne. assert (Hf := focus_close h fs d Hne Hp).
  assert (Hd := position_lt _ _ _ Hne Hp).
  assert (L : length (append (der_tag tag) (close d fs)) = S d)
    by (rewrite length_append; by apply length_close).
  eapply refines_ext; [apply (refines_flush _ h d)| |].
  - apply position_push; [apply append_ne, Hf|]. rewrite position_append. by apply position_close.
  - rewrite drop_app_exact by done. cbn [closable closed f_prefix f_contents].
    by rewrite app_nil_r.
  - rewrite close_append_push, append_append by done. f_equal.
    cbn [closed f_prefix f_contents encode_prefix]. rewrite app_nil_r.
    unfold der, der_header. by rewrite app_assoc.
Qed.

Lemma fresh_close st fs d : rep st fs -> stack_addr st ∉ tail (f_addr <$> close d fs).
Proof.
  intros R. eapply (stack_addr_fresh st fs d); [done|]. rewrite addrs_close.
  destruct fs; [by destruct d|done].
Qed.

(** The two shapes of the element writers. *)
Lemma refines_element fs h d tag (k : handle -> cbb_op unit) data :
  position h fs = Some d -> fs <> [] -> word 32 tag ->
  (forall a gs, focus (Child a) gs -> refines gs (k (Child a)) true (append data gs)) ->
  refines fs
    (with_local (fun child =>
       let* _ := or_on_error h (let* _ := CBB_add_asn1 h child tag in k (Child child)) in
       CBB_flush h))
    (closable (drop (S d) fs) && prefix_fits Asn1 (len data)) (append (der tag data) (close d fs)).
Proof.
  intros Hp Hne Ht Hk st R. unfold with_local. revert st R.
  assert (Hr : forall st, rep st fs ->
    refines fs
      (let* _ := or_on_error h
         (let* _ := CBB_add_asn1 h (stack_addr st) tag in k (Child (stack_addr st))) in
       CBB_flush h)
      (closable (drop (S d) fs) && prefix_fits Asn1 (len data))
      (append (der tag data) (close d fs))); [|intros st R; by apply Hr].
  intros st R. eapply refines_bind.
  - eapply refines_on_error; [done|]. apply refines_asn1_block; try done.
    + by apply fresh_close.
    + intros gs Hg. by apply Hk.
  - intros _. by apply refines_close_asn1.
  - assert (Hf := focus_close h fs d Hne Hp). rewrite flat_app, !flat_append, !length_app by apply Hf.
    simpl. rewrite app_nil_r. unfold der, der_header. rewrite !length_app.
    assert (D := length_der_len (len data)). lia.
Qed.

(** [or_on_error] around the whole block adds nothing to a flush that fails:
    both orders have the same simulation. *)
Lemma refines_element_all fs h d tag (k : handle -> cbb_op unit) data :
  position h fs = Some d -> fs <> [] -> word 32 tag ->
  (forall a gs, focus (Child a) gs -> refines gs (k (Child a)) true (append data gs)) ->
  refines fs
    (with_local (fun child => or_on_error h (
       let* _ := CBB_add_asn1 h child tag in
       let* _ := k (Child child) in
       CBB_flush h)))
    (closable (drop (S d) fs) && prefix_fits Asn1 (len data)) (append (der tag data) (close d fs)).
Proof.
  intros Hp Hne Ht Hk st R. unfold with_local.
  assert (F := refines_element fs h d tag k data Hp Hne Ht Hk st R).
  unfold with_local, or_on_error, pbind in *.
  destruct (CBB_add_asn1 h (stack_addr st) tag st) as [[[]|] st1]; [|done].
  destruct (k (Child (stack_addr st)) st1) as [[[]|] st2]; [|done].
  destruct (CBB_flush h st2) as [[[]|] st3]; [done|].
  destruct F as [He F]. split; [|done]. unfold cbb_on_error. by destruct (depth h st3).
Qed.

(** ** Octet strings and booleans *)

Lemma refines_bytes fs h data : focus h fs -> bytes data -> word 64 (len data) ->
  refines fs (CBB_add_bytes h data) true (append data fs).
Proof.
  intros [Hp Hne] Hb Hl. eapply refines_ext; [by apply refines_add_bytes| |].
  - by rewrite drop_ge by lia.
  - f_equal. apply close_last. destruct fs; [done|]. simpl. lia.
Qed.

Lemma refines_add_asn1_element fs h d tag data :
  position h fs = Some d -> fs <> [] -> word 32 tag -> bytes data -> word 64 (len data) ->
  refines fs (CBB_add_asn1_element h tag data)
    (closable (drop (S d) fs) && prefix_fits Asn1 (len data)) (append (der tag data) (close d fs)).
Proof.
  intros. apply (refines_element_all fs h d tag (fun child => CBB_add_bytes child data)); try done.
  intros a gs Hg. by apply refines_bytes.
Qed.

Lemma refines_add_asn1_bool fs h d v : position h fs = Some d -> fs <> [] ->
  refines fs (CBB_add_asn1_bool h v) (closable (drop (S d) fs))
    (append (der CBS_ASN1_BOOLEAN (der_bool (negb (v =? 0)))) (close d fs)).
Proof.
  intros Hp Hne. eapply refines_ext; [apply (refines_element_all fs h d CBS_ASN1_BOOLEAN
    (fun child => CBB_add_u8 child (if negb (v =? 0) then 0xff else 0))
    (der_bool (negb (v =? 0))))| |done]; try done.
  - intros a gs Hg. apply refines_u8; [done|]. case_if; by vm_compute.
  - by rewrite andb_true_r.
Qed.

(** ** Integers *)

(** The octets written for an unsigned value. *)
Fixpoint uint64_octets (started : bool) (l : list Z) : list Z :=
  match l with
  | [] => if started then [] else [0]
  | b :: l' =>
      if negb started && (b =? 0) then uint64_octets started l'
      else (if negb started && negb (Z.land b 0x80 =? 0) then [0] else [])
             ++ b :: uint64_octets true l'
  end.

Lemma refines_uint64_loop a l : forall fs started, focus (Child a) fs -> bytes l ->
  refines fs
    (let* started := add_uint64_loop (Child a) started l in
     if negb started then CBB_add_u8 (Child a) 0 else pret tt) true
    (append (uint64_octets started l) fs).
Proof.
  induction l as [|b l IH]; intros fs started Hf Hl; cbn [add_uint64_loop uint64_octets].
  - intros st R. unfold pbind at 1, pret at 1. revert st R. destruct started; cbn [negb].
    + rewrite append_nil. apply refines_ret.
    + apply refines_u8; [done|by vm_compute].
  - apply bytes_cons_inv in Hl as [Hb Hl].
    destruct (negb started && (b =? 0)); [by apply IH|].
    set (pad := negb started && negb (Z.land b 0x80 =? 0)).
    set (ps := if pad then [0] else []).
    assert (Hpad : refines fs (if pad then CBB_add_u8 (Child a) 0 else pret tt) true (append ps fs)).
    { subst ps. destruct pad; [apply refines_u8; [done|by vm_compute]|].
      rewrite append_nil. apply refines_ret. }
    apply refines_assoc. eapply refines_ext; [|done|].
    { apply (refines_then _ _ ps _ true ([b] ++ uint64_octets true l)); [done|]. intros _.
      apply refines_assoc. apply refines_then.
      - apply refines_u8; [by apply focus_append|done].
      - intros _. apply IH; [by apply focus_append, focus_append|done]. }
    done.
Qed.

(** Reading the validity of INTEGER contents off their first two octets. *)
Lemma valid_integer_head b c l : byte b -> byte c ->
  (b = 0 -> 128 <= c) -> (b = 255 -> c < 128) ->
  CBS_is_valid_asn1_integer (b :: c :: l) = Some (negb (b <? 128)).
Proof.
  intros Hb Hc H0 H255. unfold CBS_is_valid_asn1_integer.
  rewrite !CBS_get_u8_cons, !byte_land_80 by done.
  assert (E : (b =? 0) && (c <? 128) || (b =? 255) && negb (c <? 128) = false).
  { apply orb_false_iff. rewrite !andb_false_iff, negb_false_iff, !Z.eqb_neq, Z.ltb_lt, Z.ltb_ge. lia. }
  by rewrite E.
Qed.

Lemma be_signed_low b l : byte b -> b < 128 -> be_signed (b :: l) = be_decode (b :: l).
Proof. intros Hb Hlt. unfold be_signed. destruct (Z.ltb_spec b 128); lia. Qed.

Lemma uint64_octets_started l : uint64_octets true l = l.
Proof. induction l; simpl; [done|]. by rewrite IHl. Qed.

Lemma uint64_octets_spec l : bytes l ->
  let r := uint64_octets false l in
  bytes r /\ be_signed r = be_decode l /\ exists neg, CBS_is_valid_asn1_integer r = Some neg.
Proof.
  induction l as [|b l IH]; intros Hl.
  - cbn. split; [by apply bytes_cons; [vm_compute|apply bytes_nil]|]. split; [done|]. by exists false.
  - assert (Hbl := Hl). apply bytes_cons_inv in Hl as [Hb Hl]. cbn [uint64_octets negb andb].
    destruct (Z.eqb_spec b 0) as [->|Hne].
    + destruct (IH Hl) as (H1 & H2 & H3). split; [done|]. split; [|done].
      rewrite H2, be_decode_cons. lia.
    + rewrite uint64_octets_started, byte_land_80 by done. apply byte_range in Hb as Hb'.
      destruct (Z.ltb_spec b 128); cbn [negb app].
      * split; [done|]. split; [by apply be_signed_low|].
        destruct l as [|c l]; [|apply bytes_cons_inv in Hl as [Hc _]].
        { unfold CBS_is_valid_asn1_integer. rewrite CBS_get_u8_cons, CBS_get_u8_nil. eauto. }
        eexists. apply valid_integer_head; try done; lia.
      * split; [by apply bytes_cons; [by vm_compute|]|]. split.
        { rewrite be_signed_low by (by vm_compute). rewrite (be_decode_cons 0). lia. }
        eexists. apply valid_integer_head; try done; lia.
Qed.

Lemma octets_be_encode v : 0 <= v ->
  (fun i => Z.land (Z.shiftr v (8 * (7 - i))) 0xff) <$> [0; 1; 2; 3; 4; 5; 6; 7] = be_encode 8 v.
Proof.
  intros Hv. cbn [be_encode app fmap list_fmap]. change 255 with (2 ^ 8 - 1).
  rewrite !land_ones_mod, !Z.shiftr_div_pow2 by lia. rewrite !Z.div_div by lia.
  repeat f_equal. by rewrite Z.div_1_r.
Qed.

Lemma uint64_octets_int v : word 64 v -> uint64_octets false (be_encode 8 v) = der_int_contents v.
Proof.
  intros Hv. destruct (uint64_octets_spec (be_encode 8 v)) as (H1 & H2 & H3); [apply bytes_be_encode|].
  apply valid_integer_contents; [done|by apply fits_uint64|]. split; [done|].
  rewrite H2, be_decode_encode. apply Z.mod_small, Hv.
Qed.

Lemma int_contents_fit v : fits 9 v = true -> prefix_fits Asn1 (len (der_int_contents v)).
Proof.
  intros Hf. apply Is_true_true, Z.leb_le.
  destruct (der_int_contents_spec v Hf) as (_ & _ & H1 & _). lia.
Qed.

Lemma refines_add_asn1_uint64 fs h d v tag : position h fs = Some d -> fs <> [] -> word 32 tag ->
  word 64 v ->
  refines fs (CBB_add_asn1_uint64_with_tag h v tag) (closable (drop (S d) fs))
    (append (der tag (der_int_contents v)) (close d fs)).
Proof.
  intros Hp Hne Ht Hv. unfold CBB_add_asn1_uint64_with_tag.
  rewrite octets_be_encode by apply Hv. cbv zeta.
  eapply refines_ext; [apply (refines_element fs h d tag (fun child =>
    let* started := add_uint64_loop child false (be_encode 8 v) in
    if negb started then CBB_add_u8 child 0 else pret tt) (der_int_contents v))| |done]; try done.
  - intros a gs Hg. rewrite <- uint64_octets_int by done.
    apply refines_uint64_loop; [done|apply bytes_be_encode].
  - assert (F := int_contents_fit v (fits_uint64 v Hv)). apply Is_true_true in F.
    by rewrite F, andb_true_r.
Qed.

(** Negative values: the octets from the first needed one on. *)
Lemma refines_int64_loop a l n : forall fs, focus (Child a) fs -> bytes l -> (n <= length l)%nat ->
  refines fs (add_int64_loop (Child a) l n) true (append (reverse (take n l)) fs).
Proof.
  induction n as [|n IH]; intros fs Hf Hl Hn; cbn [add_int64_loop].
  - rewrite append_nil. apply refines_ret.
  - destruct (lookup_lt_is_Some_2 l n) as [b Hb]; [lia|].
    rewrite (take_S_r l n b Hb), reverse_snoc, Hb. cbn [from_option id].
    apply (refines_then _ _ [b]).
    + apply refines_u8; [done|]. by eapply bytes_lookup.
    + intros _. apply IH; [by apply focus_append|done|lia].
Qed.

Lemma int64_start_spec l start : bytes l -> (start < length l)%nat ->
  let n := int64_start l start in
  (n <= start)%nat /\ be_signed (reverse (take (S n) l)) = be_signed (reverse (take (S start) l)) /\
  (n = O \/ exists b c r, reverse (take (S n) l) = b :: c :: r /\ byte b /\ byte c /\
     (b = 255 -> c < 128)).
Proof.
  intros Hl. induction start as [|s IH]; intros Hs; cbn [int64_start]; [auto|].
  destruct (lookup_lt_is_Some_2 l (S s)) as [b Hb]; [lia|].
  destruct (lookup_lt_is_Some_2 l s) as [c Hc]; [lia|].
  assert (Bb : byte b) by (by eapply bytes_lookup).
  assert (Bc : byte c) by (by eapply bytes_lookup).
  rewrite Hb, Hc. cbn [from_option id]. rewrite byte_land_80 by done.
  assert (E : reverse (take (S (S s)) l) = b :: c :: reverse (take s l)).
  { by rewrite (take_S_r l _ b Hb), (take_S_r l _ c Hc), !reverse_snoc. }
  destruct (Z.eqb_spec b 255) as [->|Hb255], (Z.ltb_spec c 128); cbn [negb andb]; cbv zeta iota in *.
  2: { destruct IH as (H1 & H2 & H3); [lia|]. split; [lia|]. split; [|done].
       rewrite H2, E, (take_S_r l _ c Hc), reverse_snoc.
       assert (Br : bytes (reverse (take s l))) by (auto with bytes_db).
       rewrite !be_signed_cons by auto with bytes_db. rewrite be_decode_cons.
       destruct (Z.ltb_spec c 128); [lia|]. change (255 <? 128) with false. cbv iota.
       change (len (c :: reverse (take s l))) with (Z.of_nat (S (length (reverse (take s l))))).
       rewrite Nat2Z.inj_succ, Z.pow_succ_r by lia. lia. }
  all: split; [lia|]; split; [done|]; right; exists b, c, (reverse (take s l)) || exists 255, c, (reverse (take s l));
    split_and!; done || lia.
Qed.

Lemma int64_octets_int v : INT64_MIN <= v < 0 ->
  let l := le_encode 8 (u64 v) in
  reverse (take (S (int64_start l 7)) l) = der_int_contents v.
Proof.
  intros Hv l. assert (Hf : fits 8 v = true) by (apply fits_int64; unfold INT64_MAX; lia).
  assert (Hl : bytes l) by (apply bytes_reverse, bytes_be_encode).
  assert (Len : length l = 8%nat) by apply length_le_encode.
  destruct (int64_start_spec l 7 Hl) as (H1 & H2 & H3); [lia|].
  set (n := int64_start l 7) in *.
  assert (S7 : be_signed (reverse (take 8 l)) = v).
  { rewrite take_ge by lia. unfold l, le_encode. rewrite reverse_involutive.
    unfold wrap. change (2 ^ 64) with (256 ^ 8). by apply (be_signed_be_encode 8). }
  rewrite S7 in H2.
  assert (Br : bytes (reverse (take (S n) l))) by (auto with bytes_db).
  apply valid_integer_contents; [done|by apply (fits_mono 8)|]. split; [|done].
  destruct H3 as [H3|(b & c & r & E & Bb & Bc & H3)].
  - rewrite H3 in *. destruct l as [|x l']; [done|].
    change (reverse (take 1 (x :: l'))) with [x].
    unfold CBS_is_valid_asn1_integer. rewrite CBS_get_u8_cons, CBS_get_u8_nil. eauto.
  - rewrite E in *. eexists. apply valid_integer_head; try done. intros ->.
    rewrite be_signed_low in H2 by (done || lia).
    assert (B := be_decode_bound _ Br). lia.
Qed.

Lemma refines_add_asn1_int64 fs h d v tag : position h fs = Some d -> fs <> [] -> word 32 tag ->
  INT64_MIN <= v <= INT64_MAX ->
  refines fs (CBB_add_asn1_int64_with_tag h v tag) (closable (drop (S d) fs))
    (append (der tag (der_int_contents v)) (close d fs)).
Proof.
  intros Hp Hne Ht Hv. unfold CBB_add_asn1_int64_with_tag. unfold INT64_MIN, INT64_MAX in Hv.
  destruct (Z.leb_spec 0 v).
  - rewrite (wrap_small 64) by (unfold word; lia).
    apply refines_add_asn1_uint64; try done. unfold word. lia.
  - cbv zeta. eapply refines_ext; [apply (refines_element fs h d tag (fun child =>
      add_int64_loop child (le_encode 8 (u64 v)) (S (int64_start (le_encode 8 (u64 v)) 7)))
      (der_int_contents v))| |done]; try done.
    + intros a gs Hg. rewrite <- int64_octets_int by (unfold INT64_MIN; lia).
      apply refines_int64_loop; [done|apply bytes_reverse, bytes_be_encode|].
      destruct (int64_start_spec (le_encode 8 (u64 v)) 7) as [Hs _];
        rewrite ?length_le_encode; try lia. apply bytes_reverse, bytes_be_encode.
    + assert (F : Is_true (prefix_fits Asn1 (len (der_int_contents v)))).
      { apply int_contents_fit, (fits_mono 8); [lia|]. apply fits_int64.
        unfold INT64_MIN, INT64_MAX. lia. }
      apply Is_true_true in F. by rewrite F, andb_true_r.
Qed.

End writers.
