(* ===== verification/Oid.v ===== *)
(** * Object identifiers and their text form

    The functions of crypto/bytestring/cbs.cc that allocate (duplication and
    the text form of object identifiers), the decimal reader
    [CBS_get_u64_decimal], and the writers of crypto/bytestring/cbb.cc that
    parse the text form.  The theorems relate both directions to one
    description: an identifier is a list of [uint64_t] components, its octets
    are their base-128 encodings and its text their decimals. *)

From S2P Require Import Prelude Internal Alloc Cbs CbsFacts Der Cbb CbbFacts CbbAsn1.
Import Endian Mem.

(** ** The code *)

(** [snprintf] of a [uint64_t] with the conversion [%u] (at most 20 digits). *)
Fixpoint decimal_hi (fuel : nat) (v : Z) : list Z :=
  match fuel with
  | O => []
  | S fuel' => if v =? 0 then [] else decimal_hi fuel' (v / 10) ++ [48 + v mod 10]
  end.
Definition decimal (v : Z) : list Z := if v =? 0 then [48] else decimal_hi 20 v.

Section oid.
Context `{Malloc}.

(** The result is what [*out_ptr] and [*out_len] describe. *)
Definition CBS_stow (cbs : CBS) : option (list Z) :=
  if CBS_len cbs =? 0 then Some [] else OPENSSL_memdup cbs.

Definition CBS_strdup (cbs : CBS) : option (list Z) := OPENSSL_strndup cbs (CBS_len cbs).

Definition add_decimal (out : handle) (v : Z) : cbb_op unit := CBB_add_bytes out (decimal v).

(** [while (CBS_len(&copy) != 0)]: every round consumes at least one byte, so
    the length of the input is enough fuel. *)
Fixpoint oid_text_loop (fuel : nat) (copy : CBS) : cbb_op unit :=
  match copy, fuel with
  | [], _ => pret tt
  | _, O => pfail
  | _, S fuel' =>
      match parse_base128_integer copy with
      | (None, _) => pfail
      | (Some v, copy') =>
          let* _ := CBB_add_u8 Top 46 in
          let* _ := add_decimal Top v in
          oid_text_loop fuel' copy'
      end
  end.

(** The text, with its terminating NUL; [None] is a null pointer. *)
Definition CBS_asn1_oid_to_text (cbs : CBS) : option (list Z) :=
  match CBB_init 32 with
  | None => None
  | Some cbb =>
      match parse_base128_integer cbs with
      | (None, _) => None
      | (Some v, copy) =>
          fst ((let* _ :=
                  (if 80 <=? v then
                     let* _ := CBB_add_bytes Top [50; 46] in add_decimal Top (v - 80)
                   else
                     let* _ := add_decimal Top (v / 40) in
                     let* _ := CBB_add_u8 Top 46 in
                     add_decimal Top (v mod 40)) in
                let* _ := oid_text_loop (length copy) copy in
                let* _ := CBB_add_u8 Top 0 in
                CBB_finish Top true true) cbb)
      end
  end.

Definition CBS_asn1_relative_oid_to_text (cbs : CBS) : option (list Z) :=
  match CBB_init 32 with
  | None => None
  | Some cbb =>
      match parse_base128_integer cbs with
      | (None, _) => None
      | (Some v, copy) =>
          fst ((let* _ := add_decimal Top v in
                let* _ := oid_text_loop (length copy) copy in
                let* _ := CBB_add_u8 Top 0 in
                CBB_finish Top true true) cbb)
      end
  end.

End oid.

(** ** Decimal numbers *)

Definition no_digit (s : list Z) : Prop :=
  match s with [] => True | c :: _ => OPENSSL_isdigit c = false end.

Lemma isdigit_range c : OPENSSL_isdigit c = true <-> 48 <= c <= 57.
Proof. unfold OPENSSL_isdigit. rewrite andb_true_iff, !Z.leb_le. done. Qed.

Lemma decimal_hi_fuel f v : 0 <= v < 10 ^ Z.of_nat f -> decimal_hi f v = decimal_hi (S f) v.
Proof.
  revert v. induction f as [|f IH]; intros v Hv.
  - simpl in *. by assert (v = 0) as -> by lia.
  - cbn [decimal_hi]. destruct (Z.eqb_spec v 0); [done|]. f_equal.
    rewrite Nat2Z.inj_succ, Z.pow_succ_r in Hv by lia. apply IH. div_lia.
Qed.

Lemma decimal_hi_step v d : 0 < v * 10 + d -> v * 10 + d < 2 ^ 64 -> 0 <= v -> 0 <= d < 10 ->
  decimal_hi 20 (v * 10 + d) = decimal_hi 20 v ++ [48 + d].
Proof.
  intros Hpos Hlt Hv Hd. rewrite <- (decimal_hi_fuel 19 v) by (change (10 ^ Z.of_nat 19) with (10^19); lia).
  cbn [decimal_hi]. destruct (Z.eqb_spec (v * 10 + d) 0); [lia|].
  by replace ((v * 10 + d) / 10) with v by div_lia; replace ((v * 10 + d) mod 10) with d by div_lia.
Qed.

(** One round of the loop of [CBS_get_u64_decimal]. *)
Lemma decimal_loop_cons v seen c s : word 64 v ->
  get_u64_decimal_loop v seen (c :: s) =
    if negb (OPENSSL_isdigit c) then (if seen then Some v else None, c :: s)
    else if ((v =? 0) && seen) || (2 ^ 64 <=? v * 10 + (c - 48)) then (None, s)
    else get_u64_decimal_loop (v * 10 + (c - 48)) true s.
Proof.
  intros [Hv0 Hv1]. cbn [get_u64_decimal_loop]. destruct (OPENSSL_isdigit c) eqn:Hc; [|done].
  apply isdigit_range in Hc. cbn [negb]. destruct ((v =? 0) && seen); [done|]. cbn [orb].
  unfold UINT64_MAX, wrap. destruct (Z.leb_spec (2 ^ 64) (v * 10 + (c - 48))) as [Hb|Hb].
  - destruct (Z.ltb_spec ((2 ^ 64 - 1) / 10) v) as [|Hm]; [done|].
    assert (v * 10 < 2 ^ 64) by div_lia. rewrite (Z.mod_small (v * 10)) by lia.
    by destruct (Z.ltb_spec (2 ^ 64 - 1 - (c - 48)) (v * 10)); [|lia].
  - destruct (Z.ltb_spec ((2 ^ 64 - 1) / 10) v) as [Hm|Hm]; [div_lia|].
    rewrite !Z.mod_small by lia.
    by destruct (Z.ltb_spec (2 ^ 64 - 1 - (c - 48)) (v * 10)); [lia|].
Qed.

Lemma decimal_loop_end v seen s : no_digit s ->
  get_u64_decimal_loop v seen s = (if seen then Some v else None, s).
Proof. destruct s as [|c s]; [done|]. simpl. by intros ->. Qed.

Lemma decimal_loop_hi f : forall v s, 0 <= v < 10 ^ Z.of_nat f -> v < 2 ^ 64 ->
  get_u64_decimal_loop 0 false (decimal_hi f v ++ s) = get_u64_decimal_loop v (negb (v =? 0)) s.
Proof.
  induction f as [|f IH]; intros v s Hf Hv.
  - simpl in *. by assert (v = 0) as -> by lia.
  - cbn [decimal_hi]. destruct (Z.eqb_spec v 0) as [->|Hne]; [done|].
    rewrite <- app_assoc, IH; [|rewrite Nat2Z.inj_succ, Z.pow_succ_r in Hf by lia; div_lia|div_lia].
    simpl app. rewrite decimal_loop_cons by (unfold word; div_lia).
    assert (Hd : OPENSSL_isdigit (48 + v mod 10) = true) by (apply isdigit_range; div_lia).
    rewrite Hd. cbn [negb]. rewrite andb_negb_r. cbn [orb].
    replace (v / 10 * 10 + (48 + v mod 10 - 48)) with v by div_lia.
    by destruct (Z.leb_spec (2 ^ 64) v); [lia|].
Qed.

Lemma get_u64_decimal_encode v s : word 64 v -> no_digit s ->
  CBS_get_u64_decimal (decimal v ++ s) = (Some v, s).
Proof.
  intros [H0 H1] Hs. unfold decimal, CBS_get_u64_decimal. destruct (Z.eqb_spec v 0) as [->|Hne].
  - simpl app. rewrite decimal_loop_cons by (by vm_compute). simpl. by apply (decimal_loop_end 0 true).
  - rewrite decimal_loop_hi by (change (10 ^ Z.of_nat 20) with (10 ^ 20); lia).
    rewrite decimal_loop_end by done. by destruct (Z.eqb_spec v 0).
Qed.

(** Inversion of the loop from a value [v]: zero only before the first digit
    or as the whole number. *)
Lemma decimal_loop_Some s : forall v seen w s', word 64 v -> (seen = false -> v = 0) ->
  get_u64_decimal_loop v seen s = (Some w, s') ->
  word 64 w /\ no_digit s' /\ exists pre, s = pre ++ s' /\
    (if seen then if v =? 0 then pre = [] /\ w = 0 else w <> 0 /\ decimal_hi 20 v ++ pre = decimal_hi 20 w
     else pre = decimal w).
Proof.
  assert (Stop : forall s v seen w s', word 64 v -> (seen = false -> v = 0) -> no_digit s ->
    (if seen : bool then Some v else None, s) = (Some w, s') ->
    word 64 w /\ no_digit s' /\ exists pre, s = pre ++ s' /\
      (if seen then if v =? 0 then pre = [] /\ w = 0 else w <> 0 /\ decimal_hi 20 v ++ pre = decimal_hi 20 w
       else pre = decimal w)).
  { intros ? v [] w s' Hv _ Hn E; [|done]. injection E as <- <-. split; [done|]. split; [done|].
    exists []. split; [done|]. destruct (Z.eqb_spec v 0); [done|]. by rewrite app_nil_r. }
  induction s as [|c s IH]; intros v seen w s' Hv Hz H; [by eapply Stop in H|].
  rewrite decimal_loop_cons in H by done. destruct (OPENSSL_isdigit c) eqn:Hc; cbn [negb] in H.
  2: by eapply Stop in H.
  apply isdigit_range in Hc. destruct ((v =? 0) && seen) eqn:Hvs; [done|]. cbn [orb] in H.
  destruct (Z.leb_spec (2 ^ 64) (v * 10 + (c - 48))); [done|].
  apply IH in H as (Hw & Hn & pre & -> & Hpre); [|unfold word in *; lia|done].
  split; [done|]. split; [done|]. exists (c :: pre). split; [done|].
  destruct (Z.eqb_spec (v * 10 + (c - 48)) 0) as [E0|E0].
  - assert (v = 0 /\ c = 48) as [-> ->] by (unfold word in *; lia). destruct Hpre as [-> ->].
    by destruct seen.
  - destruct Hpre as [Hw0 Hpre].
    rewrite decimal_hi_step in Hpre by (unfold word in *; lia).
    rewrite <- app_assoc in Hpre. replace (48 + (c - 48)) with c in Hpre by lia.
    destruct seen.
    + destruct (v =? 0); [done|]. done.
    + rewrite Hz in Hpre by done. unfold decimal. destruct (Z.eqb_spec w 0); [done|]. done.
Qed.

Lemma get_u64_decimal_Some s v s' :
  CBS_get_u64_decimal s = (Some v, s') <-> word 64 v /\ s = decimal v ++ s' /\ no_digit s'.
Proof.
  split.
  - intros H. apply decimal_loop_Some in H as (Hw & Hn & pre & -> & ->); [done|by vm_compute|done].
  - intros (Hv & -> & Hn). by apply get_u64_decimal_encode.
Qed.

(** ** Identifiers as lists of components *)

Definition oid_octets (cs : list Z) : list Z := mjoin (base128 <$> cs).
Definition dotted (cs : list Z) : list Z := mjoin ((fun c => 46 :: decimal c) <$> cs).

(** The text of a relative identifier, and of one whose first component packs
    the first two arcs. *)
Definition relative_oid_text (v : Z) (cs : list Z) : list Z := decimal v ++ dotted cs.
Definition oid_text (v : Z) (cs : list Z) : list Z :=
  if 80 <=? v then relative_oid_text 2 (v - 80 :: cs)
  else relative_oid_text (v / 40) (v mod 40 :: cs).

Abbreviation components := (Forall (word 64)).

Lemma base128_ne v : base128 v <> [].
Proof. unfold base128. by destruct (base128_hi 10 (v / 128)). Qed.

Lemma bytes_oid_octets cs : bytes (oid_octets cs).
Proof. induction cs; simpl; [apply bytes_nil|]. by apply bytes_app_2; [apply bytes_base128|]. Qed.

Lemma decimal_hi_bytes f v : bytes (decimal_hi f v) /\ (length (decimal_hi f v) <= f)%nat.
Proof.
  revert v. induction f as [|f IH]; intros v; cbn [decimal_hi]; [split; [apply bytes_nil|done]|].
  case_if; [split; [apply bytes_nil|simpl; lia]|]. destruct (IH (v / 10)) as [H1 H2].
  rewrite length_app. simpl. split; [|lia]. apply bytes_app_2; [done|].
  apply bytes_cons; [|apply bytes_nil]. assert (B := Z.mod_pos_bound v 10). unfold word. lia.
Qed.

Lemma decimal_bytes v : bytes (decimal v) /\ (length (decimal v) <= 20)%nat.
Proof.
  unfold decimal. case_if; [|apply decimal_hi_bytes].
  split; [by apply bytes_cons; [vm_compute|apply bytes_nil]|simpl; lia].
Qed.

Lemma decimal_ne v : decimal v <> [].
Proof.
  unfold decimal. case_if; [done|]. bool_to_prop. cbn [decimal_hi].
  destruct (Z.eqb_spec v 0); [done|]. intros E. by apply app_eq_nil in E as [_ E].
Qed.

Lemma no_digit_dotted cs : no_digit (dotted cs).
Proof. by destruct cs. Qed.

Lemma dotted_ne c cs : dotted (c :: cs) <> [].
Proof. done. Qed.

(** ** From octets to text *)

(** The components the loops of the text functions read. *)
Fixpoint split_components (fuel : nat) (copy : CBS) : option (list Z) :=
  match copy, fuel with
  | [], _ => Some []
  | _, O => None
  | _, S fuel' =>
      match parse_base128_integer copy with
      | (None, _) => None
      | (Some v, copy') => cons v <$> split_components fuel' copy'
      end
  end.

Lemma split_components_Some fuel : forall s cs, bytes s -> (length s <= fuel)%nat ->
  split_components fuel s = Some cs <-> components cs /\ s = oid_octets cs.
Proof.
  assert (Nil : forall cs, Some [] = Some cs <-> components cs /\ [] = oid_octets cs).
  { intros cs. split; [intros [= <-]; by split; [constructor|]|]. intros [_ E]. destruct cs as [|c cs]; [done|].
    simpl in E. symmetry in E. apply app_eq_nil in E as [E _]. by apply base128_ne in E. }
  induction fuel as [|fuel IH]; intros s cs Hs Hl.
  { destruct s; [apply Nil|simpl in Hl; lia]. }
  destruct s as [|b s]; [apply Nil|]. cbn [split_components]. split.
  - destruct (parse_base128_integer (b :: s)) as [[v|] s'] eqn:E; [|done].
    apply parse_base128_integer_Some in E as [Hv E]; [|done].
    destruct (split_components fuel s') as [cs'|] eqn:Es; [|done]. intros [= <-].
    rewrite E in Hs. apply bytes_app in Hs as [_ Hs]. apply (f_equal length) in E as El.
    rewrite length_app in El. assert (Hne := base128_ne v). destruct (base128 v) eqn:Eb; [done|].
    apply IH in Es as [Hc ->]; [|done|simpl in *; lia]. rewrite <- Eb in E.
    split; [by constructor|done].
  - intros [Hc E]. destruct cs as [|v cs]; [done|]. inversion_clear Hc as [|? ? Hv Hc'].
    change (oid_octets (v :: cs)) with (base128 v ++ oid_octets cs) in E. rewrite E.
    rewrite parse_base128_encode by done.
    assert (El := f_equal length E). rewrite length_app in El.
    assert (Hne := base128_ne v). destruct (base128 v); [done|].
    assert (Ei : split_components fuel (oid_octets cs) = Some cs); [|by rewrite Ei].
    apply IH; [apply bytes_oid_octets|simpl in *; lia|done].
Qed.

Section text.
Context `{Malloc}.

Lemma refines_decimal fs h v : focus h fs -> refines fs (add_decimal h v) true (append (decimal v) fs).
Proof.
  intros Hf. destruct (decimal_bytes v) as [Hb Hl]. apply refines_bytes; [done|done|].
  unfold word. lia.
Qed.

Lemma oid_text_loop_Some fuel : forall copy fs cs, focus Top fs ->
  split_components fuel copy = Some cs ->
  refines fs (oid_text_loop fuel copy) true (append (dotted cs) fs).
Proof.
  induction fuel as [|fuel IH]; intros copy fs cs Hf; destruct copy as [|b copy];
    cbn [split_components oid_text_loop]; try done.
  1,2: intros [= <-]; rewrite append_nil; apply refines_ret.
  destruct (parse_base128_integer (b :: copy)) as [[v|] copy'] eqn:E; [|done].
  destruct (split_components fuel copy') as [cs'|] eqn:Es; [|done]. intros [= <-].
  change (dotted (v :: cs')) with ([46] ++ decimal v ++ dotted cs').
  apply refines_then; [apply refines_u8; [done|by vm_compute]|]. intros _.
  apply refines_then; [apply refines_decimal; by apply focus_append|]. intros _.
  apply IH; [by apply focus_append, focus_append|done].
Qed.

(** A loop that writes its text has read all components. *)
Lemma oid_text_loop_None fuel : forall copy st, split_components fuel copy = None ->
  fst (oid_text_loop fuel copy st) = None.
Proof.
  induction fuel as [|fuel IH]; intros [|b copy] st; cbn [split_components oid_text_loop]; try done.
  destruct (parse_base128_integer (b :: copy)) as [[v|] copy'] eqn:E; [|done].
  destruct (split_components fuel copy') as [cs'|] eqn:Es; [done|]. intros _.
  unfold pbind at 1. destruct (CBB_add_u8 Top 46 st) as [[?|] st1]; [|done].
  unfold pbind. destruct (add_decimal Top v st1) as [[?|] st2]; [|done]. by apply IH.
Qed.

Lemma rep_init b c resize : len b = c -> c < 2 ^ 64 -> bytes b ->
  rep (cbb_init b c resize) [mk_frame 0 (Fixed 0) []].
Proof.
  intros Hl Hc Hb. split; simpl; try done; [by eexists _, []|].
  unfold base_ok. simpl. split_and!; try done; lia.
Qed.

(** [CBB_finish] returns the closed contents of the top-level object. *)
Lemma finish_rep st fs : rep st fs ->
  match fst (CBB_finish Top true true st) with
  | Some out => out = flat (close 0 fs) /\ closable (tail fs) /\
      (can_resize (base st) = false -> len out <= cap (base st))
  | None => ~ (closable (tail fs) /\ room (base st) (len (flat (close 0 fs))))
  end.
Proof.
  intros R. assert (F := refines_flush fs Top 0 eq_refl st R). unfold CBB_finish, pbind.
  destruct (CBB_flush Top st) as [[[]|] st1]; cbn [fst].
  - destruct F as (R1 & (_ & _ & _ & _ & Ec) & Q). cbn [orb negb]. rewrite andb_false_r. cbn [fst].
    assert (B := rep_ok _ _ R1). assert (L := len_content _ B). destruct B as (_ & B & _).
    unfold content in L. split; [by rewrite <- (rep_content _ _ R1)|].
    split; [by destruct fs|]. intros E. rewrite <- Ec by done. lia.
  - destruct F as [_ F]. by destruct fs.
Qed.

(** Run a writer of [text] on a fresh object and take the result. *)
Lemma build_text (m : cbb_op unit) text cbb : CBB_init 32 = Some cbb -> len text < 2 ^ 61 ->
  refines [mk_frame 0 (Fixed 0) []] m true (append text [mk_frame 0 (Fixed 0) []]) ->
  match fst ((let* _ := m in let* _ := CBB_add_u8 Top 0 in CBB_finish Top true true) cbb) with
  | Some out => out = text ++ [0]
  | None => ~ malloc_never_fails
  end.
Proof.
  intros Hi Ht Hm. set (f0 := [mk_frame 0 (Fixed 0) []]) in *.
  assert (R0 : rep cbb f0 /\ can_resize (base cbb) = true).
  { unfold CBB_init in Hi. destruct (OPENSSL_malloc 32) as [b|] eqn:Em; [|done].
    injection Hi as <-. apply OPENSSL_malloc_Some in Em as [E1 E2]; [|by vm_compute].
    split; [by apply rep_init|done]. }
  destruct R0 as [R0 Hres].
  assert (Hroom : forall b n, can_resize b = true -> n < 2 ^ 62 -> malloc_never_fails -> room b n).
  { intros. right. done. }
  assert (Hm2 : refines f0 (let* _ := m in CBB_add_u8 Top 0) true (append (text ++ [0]) f0)).
  { apply refines_then; [done|]. intros _. apply refines_u8; [|by vm_compute].
    apply focus_append. done. }
  specialize (Hm2 cbb R0). unfold pbind at 1 2. unfold pbind in Hm2.
  assert (Hlen : len (flat (append (text ++ [0]) f0)) < 2 ^ 62).
  { simpl. rewrite app_nil_r, length_app. simpl. lia. }
  destruct (m cbb) as [[[]|] st1]; [|destruct Hm2 as [_ Hm2]; intros Hf; apply Hm2; split; [done|by apply Hroom]].
  destruct (CBB_add_u8 Top 0 st1) as [[[]|] st2];
    [|destruct Hm2 as [_ Hm2]; intros Hf; apply Hm2; split; [done|by apply Hroom]].
  destruct Hm2 as (R2 & E2 & _). assert (F := finish_rep st2 _ R2).
  assert (Ef : flat (close 0 (append (text ++ [0]) f0)) = text ++ [0])
    by (simpl; by rewrite !app_nil_r).
  rewrite Ef in F.
  destruct (fst (CBB_finish Top true true st2)) as [out|]; [by destruct F as [-> _]|].
  intros Hf. apply F. split; [done|]. apply Hroom; [|rewrite length_app; simpl; lia|done].
  destruct E2 as (_ & _ & E2 & _). by rewrite E2.
Qed.

Lemma len_dotted cs : len (dotted cs) <= 21 * len cs.
Proof.
  induction cs as [|c cs IH]; [done|].
  change (dotted (c :: cs)) with ((46 :: decimal c) ++ dotted cs).
  destruct (decimal_bytes c) as [_ Hl]. rewrite length_app. cbn [length]. lia.
Qed.

Lemma len_oid_octets cs : len cs <= len (oid_octets cs).
Proof.
  induction cs as [|c cs IH]; [done|].
  change (oid_octets (c :: cs)) with (base128 c ++ oid_octets cs). rewrite length_app.
  assert (Hne := base128_ne c). destruct (base128 c); [done|]. cbn [length]. lia.
Qed.

(** The writer of the first component. *)
Lemma refines_first fs v : focus Top fs -> word 64 v ->
  refines fs
    (if 80 <=? v then let* _ := CBB_add_bytes Top [50; 46] in add_decimal Top (v - 80)
     else let* _ := add_decimal Top (v / 40) in
          let* _ := CBB_add_u8 Top 46 in add_decimal Top (v mod 40)) true
    (append (oid_text v []) fs).
Proof.
  intros Hf Hv. unfold oid_text, relative_oid_text. destruct (Z.leb_spec 80 v).
  - change (decimal 2 ++ dotted [v - 80]) with ([50; 46] ++ decimal (v - 80) ++ []).
    rewrite app_nil_r. apply refines_then.
    + apply refines_bytes; [done|byte_list|by vm_compute].
    + intros _. apply refines_decimal. by apply focus_append.
  - change (dotted [v mod 40]) with ([46] ++ decimal (v mod 40) ++ []). rewrite app_nil_r.
    apply refines_then; [by apply refines_decimal|]. intros _.
    apply refines_then; [apply refines_u8; [by apply focus_append|by vm_compute]|]. intros _.
    apply refines_decimal. by apply focus_append, focus_append.
Qed.

Lemma oid_text_app v cs : oid_text v cs = oid_text v [] ++ dotted cs.
Proof.
  assert (E : forall c, dotted (c :: cs) = dotted [c] ++ dotted cs).
  { intros c. change (dotted [c]) with ((46 :: decimal c) ++ []). by rewrite app_nil_r. }
  unfold oid_text, relative_oid_text. by case_if; rewrite E, app_assoc.
Qed.

Lemma CBB_init_32 : malloc_never_fails -> CBB_init 32 <> None.
Proof.
  intros Hm. unfold CBB_init. destruct (OPENSSL_malloc_total 32 Hm) as [b ->]; [lia|done].
Qed.

(** Both text functions: a writer [first] of the first component, the loop. *)
Lemma text_of_octets (first : Z -> cbb_op unit) (head : Z -> list Z) cbs :
  bytes cbs -> len cbs < 2 ^ 32 ->
  (forall v fs, focus Top fs -> word 64 v -> refines fs (first v) true (append (head v) fs)) ->
  (forall v, word 64 v -> len (head v) < 2 ^ 60) ->
  let r := match CBB_init 32 with
           | None => None
           | Some cbb =>
               match parse_base128_integer cbs with
               | (None, _) => None
               | (Some v, copy) =>
                   fst ((let* _ := first v in
                         let* _ := oid_text_loop (length copy) copy in
                         let* _ := CBB_add_u8 Top 0 in
                         CBB_finish Top true true) cbb)
               end
           end in
  (forall t, r = Some t -> exists v cs, components (v :: cs) /\
     cbs = oid_octets (v :: cs) /\ t = head v ++ dotted cs ++ [0]) /\
  (forall v cs, malloc_never_fails -> components (v :: cs) -> cbs = oid_octets (v :: cs) ->
     r = Some (head v ++ dotted cs ++ [0])).
Proof.
  intros Hb Hlen Hfirst Hhead r.
  assert (Run : forall v cs cbb, CBB_init 32 = Some cbb -> components (v :: cs) ->
    cbs = oid_octets (v :: cs) ->
    match r with Some t => t = head v ++ dotted cs ++ [0] | None => ~ malloc_never_fails end).
  { intros v cs cbb Hi Hc ->. inversion_clear Hc as [|? ? Hv Hc']. subst r. rewrite Hi.
    change (oid_octets (v :: cs)) with (base128 v ++ oid_octets cs) in *.
    rewrite parse_base128_encode by done.
    assert (Hs : split_components (length (oid_octets cs)) (oid_octets cs) = Some cs).
    { apply split_components_Some; [apply bytes_oid_octets|done|done]. }
    assert (B := build_text (let* _ := first v in oid_text_loop (length (oid_octets cs)) (oid_octets cs))
                   (head v ++ dotted cs) cbb Hi).
    assert (L1 := len_dotted cs). assert (L2 := len_oid_octets cs). specialize (Hhead v Hv).
    rewrite <- app_assoc in B. unfold pbind in *. rewrite length_app in *.
    specialize (B ltac:(lia)).
    lapply B.
    - intros F. destruct (first v cbb) as [[[]|] ?]; [|done].
      by destruct (oid_text_loop _ _ _) as [[[]|] ?].
    - apply (refines_then _ (first v)); [by apply Hfirst|]. intros _.
      apply oid_text_loop_Some; [by apply focus_append|done]. }
  split.
  - intros t Ht. destruct (CBB_init 32) as [cbb|] eqn:Hi; [|done].
    assert (exists v cs, components (v :: cs) /\ cbs = oid_octets (v :: cs)) as (v & cs & Hc & E).
    { subst r. destruct (parse_base128_integer cbs) as [[v|] copy] eqn:Ep; [|done].
      apply parse_base128_integer_Some in Ep as [Hv ->]; [|done]. apply bytes_app in Hb as [_ Hb].
      destruct (split_components (length copy) copy) as [cs|] eqn:Es.
      - apply split_components_Some in Es as [Hc ->]; [|done..]. exists v, cs. by split; [constructor|].
      - exfalso. unfold pbind in Ht. destruct (first v cbb) as [[[]|] st1]; [|done].
        assert (N := oid_text_loop_None _ copy st1 Es).
        destruct (oid_text_loop (length copy) copy st1) as [[?|] ?]; done. }
    exists v, cs. split; [done|]. split; [done|]. specialize (Run v cs cbb eq_refl Hc E).
    rewrite Ht in Run. done.
  - intros v cs Hm Hc E. assert (Hi := CBB_init_32 Hm). destruct (CBB_init 32) as [cbb|] eqn:Ei; [|done].
    specialize (Run v cs cbb eq_refl Hc E). destruct r as [t|]; [by rewrite Run|done].
Qed.

(** ** From text to octets *)

Lemma parse_dotted_decimal_Some s a s' :
  parse_dotted_decimal s = (Some a, s') <->
  word 64 a /\ (s = decimal a /\ s' = [] \/ s = decimal a ++ 46 :: s' /\ s' <> []).
Proof.
  unfold parse_dotted_decimal. rewrite pbind_Some. split.
  - intros (v & s1 & E & E1). apply get_u64_decimal_Some in E as (Hv & -> & Hn).
    destruct s1 as [|c s1].
    + rewrite CBS_get_u8_nil in E1. injection E1 as -> <-. rewrite app_nil_r. auto.
    + rewrite CBS_get_u8_cons in E1. unfold CBS_len in E1.
      destruct (Z.eqb_spec c 46) as [->|]; [|done]. destruct (Z.ltb_spec 0 (len s1)); [|done].
      injection E1 as -> <-. split; [done|]. right. split; [done|]. by destruct s1.
  - intros (Ha & [[-> ->]|[-> Hne]]).
    + exists a, []. split; [|done]. apply get_u64_decimal_Some. by rewrite app_nil_r.
    + exists a, (46 :: s'). split; [by apply get_u64_decimal_Some|]. rewrite CBS_get_u8_cons.
      unfold CBS_len. destruct s'; [done|]. cbn [length]. by destruct (Z.ltb_spec 0 (Z.of_nat (S (length s')))); [|lia].
Qed.

(** Components separated by dots. *)
Definition join (cs : list Z) : list Z :=
  match cs with [] => [] | c :: cs' => relative_oid_text c cs' end.

Lemma join_cons_cons a c cs : join (a :: c :: cs) = decimal a ++ 46 :: join (c :: cs).
Proof. done. Qed.

Lemma join_ne c cs : join (c :: cs) <> [].
Proof. simpl. unfold relative_oid_text. intros E. apply app_eq_nil in E as [E _]. by apply decimal_ne in E. Qed.

Lemma parse_join a cs : word 64 a -> parse_dotted_decimal (join (a :: cs)) = (Some a, join cs).
Proof.
  intros Ha. apply parse_dotted_decimal_Some. split; [done|]. destruct cs as [|c cs].
  - left. simpl. unfold relative_oid_text. by rewrite app_nil_r.
  - right. split; [done|apply join_ne].
Qed.

Lemma parse_join_inv s a s' cs : parse_dotted_decimal s = (Some a, s') -> s' = join cs ->
  s = join (a :: cs) /\ word 64 a.
Proof.
  intros E ->. apply parse_dotted_decimal_Some in E as (Ha & [[-> E]|[-> Hne]]); (split; [|done]).
  - destruct cs; [|by apply join_ne in E]. simpl. unfold relative_oid_text. by rewrite app_nil_r.
  - destruct cs; [done|]. done.
Qed.

Lemma refines_components h cs : forall fuel fs, focus h fs -> components cs ->
  (length cs <= fuel)%nat ->
  refines fs (add_oid_components fuel h (join cs)) true (append (oid_octets cs) fs).
Proof.
  induction cs as [|c cs IH]; intros fuel fs Hf Hc Hl.
  - simpl. rewrite append_nil. destruct fuel; apply refines_ret.
  - inversion_clear Hc as [|? ? Hv Hc']. destruct fuel as [|fuel]; [simpl in Hl; lia|].
    cbn [add_oid_components]. unfold CBS_len.
    assert (Hne := join_ne c cs). destruct (join (c :: cs)) as [|x l] eqn:Ej; [done|].
    cbn [length]. destruct (Z.ltb_spec 0 (Z.of_nat (S (length l)))); [|lia]. cbn [negb].
    rewrite <- Ej, parse_join by done.
    apply (refines_then _ _ (base128 c)); [by apply refines_base128|]. intros _.
    apply IH; [by apply focus_append|done|simpl in Hl; lia].
Qed.

Lemma add_components_Some h fuel : forall s st u st', (length s <= fuel)%nat ->
  add_oid_components fuel h s st = (Some u, st') -> exists cs, components cs /\ s = join cs.
Proof.
  induction fuel as [|fuel IH]; intros s st u st' Hl E.
  { destruct s; [|simpl in Hl; lia]. by exists []. }
  cbn [add_oid_components] in E. unfold CBS_len in E. destruct s as [|b s]; [by exists []|].
  revert E. cbn [length]. destruct (Z.ltb_spec 0 (Z.of_nat (S (length s)))); [|lia]. cbn [negb].
  destruct (parse_dotted_decimal (b :: s)) as [[a|] s'] eqn:Ep; [|done].
  intros E. apply pbind_Some in E as (? & st1 & _ & E).
  assert (Hs : (length s' < length (b :: s))%nat).
  { apply parse_dotted_decimal_Some in Ep as (_ & [[-> ->]|[-> _]]).
    - assert (Hd := decimal_ne a). destruct (decimal a); [done|]. simpl. lia.
    - rewrite length_app. simpl. lia. }
  apply IH in E as (cs & Hc & Ecs); [|simpl in *; lia].
  destruct (parse_join_inv _ _ _ _ Ep Ecs) as [-> Ha]. exists (a :: cs). by split; [constructor|].
Qed.

Lemma length_join cs : (length cs <= length (join cs))%nat.
Proof.
  destruct cs as [|c cs]; [done|]. simpl. unfold relative_oid_text. rewrite length_app.
  assert (Hd := decimal_ne c). destruct (decimal c); [done|].
  assert (L : (length cs <= length (dotted cs))%nat).
  { clear. induction cs as [|c cs IH]; [done|].
    change (dotted (c :: cs)) with ((46 :: decimal c) ++ dotted cs). rewrite length_app. simpl. lia. }
  simpl. lia.
Qed.

(** The packing of the first two arcs. *)
Definition valid_arcs (a b : Z) : bool :=
  negb ((2 <? a) || ((a <? 2) && (39 <? b)) || (UINT64_MAX - 80 <? b)).

Lemma arcs_pack a b cs : word 64 a -> word 64 b -> valid_arcs a b = true ->
  word 64 (40 * a + b) /\ join (a :: b :: cs) = oid_text (40 * a + b) cs.
Proof.
  intros [Ha _] [Hb _] Hv. unfold valid_arcs, UINT64_MAX in Hv. bool_to_prop.
  unfold oid_text. assert (a < 2 -> b <= 39).
  { intros Hlt. destruct (Z.ltb_spec a 2); [|lia]. destruct (Z.ltb_spec 39 b); done || lia. }
  split; [unfold word; lia|]. destruct (Z.leb_spec 80 (40 * a + b)).
  - assert (a = 2) as -> by lia. by replace (40 * 2 + b - 80) with b by lia.
  - by replace ((40 * a + b) / 40) with a by div_lia; replace ((40 * a + b) mod 40) with b by div_lia.
Qed.

Lemma arcs_unpack v cs : word 64 v -> exists a b, word 64 a /\ word 64 b /\ valid_arcs a b = true /\
  v = 40 * a + b /\ oid_text v cs = join (a :: b :: cs).
Proof.
  intros [H0 H1]. unfold oid_text. destruct (Z.leb_spec 80 v).
  - exists 2, (v - 80). unfold valid_arcs, UINT64_MAX, word.
    destruct (Z.ltb_spec (2 ^ 64 - 1 - 80) (v - 80)); [lia|]. split_and!; try done; lia.
  - exists (v / 40), (v mod 40). unfold valid_arcs, UINT64_MAX, word.
    destruct (Z.ltb_spec (2 ^ 64 - 1 - 80) (v mod 40)); [div_lia|].
    destruct (Z.ltb_spec 2 (v / 40)); [div_lia|].
    destruct (Z.ltb_spec 39 (v mod 40)); [div_lia|]. rewrite andb_false_r.
    split_and!; try done; div_lia.
Qed.

Lemma refines_oid_from_text fs h d v cs : position h fs = Some d -> fs <> [] ->
  components (v :: cs) ->
  refines fs (CBB_add_asn1_oid_from_text h (oid_text v cs)) (closable (drop (S d) fs))
    (append (oid_octets (v :: cs)) (close d fs)).
Proof.
  intros Hp Hne Hc. inversion_clear Hc as [|? ? Hv Hc'].
  destruct (arcs_unpack v cs Hv) as (a & b & Ha & Hb & Hab & Ev & ->).
  assert (Hf := focus_close h fs d Hne Hp).
  unfold CBB_add_asn1_oid_from_text. rewrite <- (andb_true_r (closable _)).
  eapply refines_bind; [by apply refines_flush| |apply flat_append_le].
  intros _. rewrite (pbind_step _ _ _ _ _ (parse_join a (b :: cs) Ha)).
  rewrite (pbind_step _ _ _ _ _ (parse_join b cs Hb)). unfold pret at 1.
  unfold valid_arcs in Hab. rewrite Hab. intros st R. unfold pbind at 1. revert st R.
  apply (refines_then _ _ (base128 v)).
  - rewrite <- Ev. by apply refines_base128.
  - intros _. apply refines_components; [by apply focus_append|done|].
    etransitivity; [|apply length_join]. simpl. lia.
Qed.

Lemma oid_from_text_Some h text st u st' :
  CBB_add_asn1_oid_from_text h text st = (Some u, st') ->
  exists v cs, components (v :: cs) /\ text = oid_text v cs.
Proof.
  unfold CBB_add_asn1_oid_from_text. intros E. apply pbind_Some in E as (? & st1 & _ & E).
  destruct ((let* a := parse_dotted_decimal in let* b := parse_dotted_decimal in pret (a, b)) text)
    as [[[a b]|] cbs] eqn:Ep; [|done].
  apply pbind_Some in Ep as (a' & s1 & Ea & Ep). apply pbind_Some in Ep as (b' & s2 & Eb & Ep).
  apply pret_Some in Ep as [[= <- <-] ->]. parser_inv.
  assert (Hlen : (length s2 <= length text)%nat).
  { apply parse_dotted_decimal_Some in Ea as (_ & [[-> ->]|[-> _]]);
      apply parse_dotted_decimal_Some in Eb as (_ & [[Eb ->]|[Eb _]]); try (simpl; lia).
    - symmetry in Eb. apply app_eq_nil in Eb as [_ Eb]. done.
    - rewrite Eb, !length_app. simpl. rewrite length_app. simpl. lia. }
  apply add_components_Some in E as (cs & Hc & ->); [|done].
  destruct (parse_join_inv _ _ _ _ Eb eq_refl) as [-> Hb].
  destruct (parse_join_inv _ _ _ _ Ea eq_refl) as [-> Ha].
  destruct (arcs_pack a b cs Ha Hb) as [Hw ->]; [done|]. exists (40 * a + b), cs.
  by split; [constructor|].
Qed.

End text.
