(* ===== verification/Builder.v ===== *)
(** * Programs over CBB

    The contract of cbb.cc as a whole: a program is a list of builder calls on
    a family of [CBB] objects, followed by [CBB_finish].  Its meaning is given
    by a small interpreter on open frames that knows nothing of buffers,
    capacities, offsets and moved contents; the code computes it.  A program
    that names a pending child as the object of a new one breaks the contract
    of cbb.cc and stands for no C program. *)

From S2P Require Import Prelude Internal Alloc Cbs CbsFacts Der Cbb CbbFacts CbbAsn1 Oid.
Import Endian Mem.

(** ** Programs *)

Inductive call :=
  | Flush
  | AddBytes (data : list Z)
  | AddZeros (n : Z)
  | AddU8 (v : Z) | AddU16 (v : Z) | AddU24 (v : Z) | AddU32 (v : Z) | AddU64 (v : Z)
  | AddU8Prefixed (child : nat) | AddU16Prefixed (child : nat) | AddU24Prefixed (child : nat)
  | AddAsn1 (child : nat) (tag : Z)
  | AddAsn1Element (tag : Z) (data : list Z)
  | AddAsn1OctetString (data : list Z)
  | AddAsn1Uint64 (v : Z)
  | AddAsn1Int64 (v : Z)
  | AddAsn1Bool (v : Z).

(** The C types of the arguments. *)
Definition call_typed (c : call) : Prop :=
  match c with
  | Flush | AddU8Prefixed _ | AddU16Prefixed _ | AddU24Prefixed _ | AddAsn1Bool _ => True
  | AddBytes data | AddAsn1OctetString data => bytes data /\ word 64 (len data)
  | AddZeros n => word 64 n
  | AddU8 v => word 8 v
  | AddU16 v => word 16 v
  | AddU24 v => word 32 v
  | AddU32 v => word 32 v
  | AddU64 v | AddAsn1Uint64 v => word 64 v
  | AddAsn1 _ tag => word 32 tag
  | AddAsn1Element tag data => word 32 tag /\ bytes data /\ word 64 (len data)
  | AddAsn1Int64 v => INT64_MIN <= v <= INT64_MAX
  end.

Definition step : Type := handle * call.

Section builder.
Context `{Malloc}.

(** The code. *)
Definition run_step (s : step) : cbb_op unit :=
  let '(h, c) := s in
  match c with
  | Flush => CBB_flush h
  | AddBytes data => CBB_add_bytes h data
  | AddZeros n => CBB_add_zeros h n
  | AddU8 v => CBB_add_u8 h v
  | AddU16 v => CBB_add_u16 h v
  | AddU24 v => CBB_add_u24 h v
  | AddU32 v => CBB_add_u32 h v
  | AddU64 v => CBB_add_u64 h v
  | AddU8Prefixed child => CBB_add_u8_length_prefixed h child
  | AddU16Prefixed child => CBB_add_u16_length_prefixed h child
  | AddU24Prefixed child => CBB_add_u24_length_prefixed h child
  | AddAsn1 child tag => CBB_add_asn1 h child tag
  | AddAsn1Element tag data => CBB_add_asn1_element h tag data
  | AddAsn1OctetString data => CBB_add_asn1_octet_string h data
  | AddAsn1Uint64 v => CBB_add_asn1_uint64 h v
  | AddAsn1Int64 v => CBB_add_asn1_int64 h v
  | AddAsn1Bool v => CBB_add_asn1_bool h v
  end.

Fixpoint run (p : list step) : cbb_op unit :=
  match p with
  | [] => pret tt
  | s :: p' => let* _ := run_step s in run p'
  end.

(** The bytes [CBB_finish] hands out after the program. *)
Definition build (p : list step) (st : CBB) : option (list Z) :=
  fst ((let* _ := run p in CBB_finish Top true true) st).

End builder.

(** The meaning of a call: whether it can succeed, and the frames it leaves;
    the frames behind the object are closed already. *)
Definition call_ok (c : call) : bool :=
  match c with
  | AddU24 v => v <? 2 ^ 24
  | AddAsn1Element _ data | AddAsn1OctetString data => len data <=? 0xfffffffe
  | _ => true
  end.

Definition call_frames (c : call) (fs : list frame) : list frame :=
  match c with
  | Flush => fs
  | AddBytes data => append data fs
  | AddZeros n => append (replicate (Z.to_nat n) 0) fs
  | AddU8 v => append (be_encode 1 v) fs
  | AddU16 v => append (be_encode 2 v) fs
  | AddU24 v => append (be_encode 3 v) fs
  | AddU32 v => append (be_encode 4 v) fs
  | AddU64 v => append (be_encode 8 v) fs
  | AddU8Prefixed child => fs ++ [mk_frame child (Fixed 1) []]
  | AddU16Prefixed child => fs ++ [mk_frame child (Fixed 2) []]
  | AddU24Prefixed child => fs ++ [mk_frame child (Fixed 3) []]
  | AddAsn1 child tag => append (der_tag tag) fs ++ [mk_frame child Asn1 []]
  | AddAsn1Element tag data => append (der tag data) fs
  | AddAsn1OctetString data => append (der CBS_ASN1_OCTETSTRING data) fs
  | AddAsn1Uint64 v | AddAsn1Int64 v => append (der CBS_ASN1_INTEGER (der_int_contents v)) fs
  | AddAsn1Bool v => append (der CBS_ASN1_BOOLEAN (der_bool (negb (v =? 0)))) fs
  end.

Definition step_meaning (s : step) (fs : list frame) : option (list frame) :=
  match position (fst s) fs with
  | None => None
  | Some d =>
      if closable (drop (S d) fs) && call_ok (snd s)
      then Some (call_frames (snd s) (close d fs)) else None
  end.

Fixpoint meaning (p : list step) (fs : list frame) : option (list frame) :=
  match p with
  | [] => Some fs
  | s :: p' => match step_meaning s fs with Some fs' => meaning p' fs' | None => None end
  end.

Definition root_frame : frame := mk_frame 0 (Fixed 0) [].

(** The bytes a program stands for. *)
Definition output (p : list step) : option (list Z) :=
  match meaning p [root_frame] with
  | Some fs => if closable (tail fs) then Some (flat (close 0 fs)) else None
  | None => None
  end.

(** ** Simulation *)

Section simulation.
Context `{Malloc}.

Lemma refines_add_word fs h d v (k : nat) w : position h fs = Some d -> word w v ->
  0 <= w <= 8 * Z.of_nat k -> (k <= 8)%nat ->
  refines fs (cbb_add_u h v (Z.of_nat k)) (closable (drop (S d) fs) && true)
    (append (be_encode k v) (close d fs)).
Proof.
  intros Hp Hv Hw Hk. eapply refines_ext; [by apply refines_add_u; [|apply Hv|]| |done].
  f_equal. apply Z.ltb_lt. destruct (word_weaken w (8 * Z.of_nat k) v Hw Hv) as [_ Hlt].
  by rewrite Z.pow_mul_r in Hlt by lia.
Qed.

Lemma refines_step h c fs d : call_typed c -> position h fs = Some d -> fs <> [] ->
  refines fs (run_step (h, c)) (closable (drop (S d) fs) && call_ok c)
    (call_frames c (close d fs)).
Proof.
  intros Ht Hp Hne.
  destruct c; cbn [run_step call_ok call_frames call_typed] in *;
    unfold CBB_add_u8, CBB_add_u16, CBB_add_u24, CBB_add_u32, CBB_add_u64 in *;
    rewrite ?(wrap_small _ _ Ht).
  - rewrite andb_true_r. by apply refines_flush.
  - rewrite andb_true_r. destruct Ht. by apply refines_add_bytes.
  - rewrite andb_true_r. by apply refines_add_zeros.
  - apply (refines_add_word fs h d v 1 8); done || lia.
  - apply (refines_add_word fs h d v 2 16); done || lia.
  - apply (refines_add_u fs h d v 3); [done|apply Ht|lia].
  - apply (refines_add_word fs h d v 4 32); done || lia.
  - apply (refines_add_word fs h d v 8 64); done || lia.
  - rewrite andb_true_r. by apply (refines_add_length_prefixed fs h d child 1); [|lia].
  - rewrite andb_true_r. by apply (refines_add_length_prefixed fs h d child 2); [|lia].
  - rewrite andb_true_r. by apply (refines_add_length_prefixed fs h d child 3); [|lia].
  - rewrite andb_true_r. by apply refines_add_asn1.
  - destruct Ht as (? & ? & ?). by apply refines_add_asn1_element.
  - destruct Ht. apply refines_add_asn1_element; done || by vm_compute.
  - rewrite andb_true_r. by apply refines_add_asn1_uint64.
  - rewrite andb_true_r. by apply refines_add_asn1_int64.
  - rewrite andb_true_r. by apply refines_add_asn1_bool.
Qed.

Lemma flush_no_position st fs h : rep st fs -> position h fs = None ->
  CBB_flush h st = (None, st).
Proof. intros R Hp. unfold CBB_flush. by rewrite (rep_depth _ _ _ R), Hp. Qed.

(** A handle that is not in the chain: nothing can be written to it. *)
Lemma step_no_position st fs h c : rep st fs -> position h fs = None ->
  fst (run_step (h, c) st) = None.
Proof.
  intros R Hp. assert (F := flush_no_position st fs h R Hp).
  assert (A : forall a tag, CBB_add_asn1 h a tag st = (None, st)).
  { intros. unfold CBB_add_asn1, pbind. by rewrite F. }
  destruct c; cbn [run_step]; try (by rewrite F);
    unfold CBB_add_bytes, CBB_add_zeros, CBB_add_u8, CBB_add_u16, CBB_add_u24, CBB_add_u32,
      CBB_add_u64, cbb_add_u, CBB_add_space, CBB_add_u8_length_prefixed,
      CBB_add_u16_length_prefixed, CBB_add_u24_length_prefixed, cbb_add_length_prefixed,
      CBB_add_asn1_octet_string, CBB_add_asn1_element, CBB_add_asn1_uint64,
      CBB_add_asn1_int64, CBB_add_asn1_int64_with_tag, CBB_add_asn1_uint64_with_tag,
      CBB_add_asn1_bool, with_local, or_on_error, pbind; rewrite ?F, ?A; try done.
  all: match goal with |- context [0 <=? ?v] => destruct (0 <=? v) end; by rewrite ?A.
Qed.

Lemma closed_ge fs : len (flat fs) <= len (closed fs).
Proof.
  induction fs as [|f fs IH]; simpl; [done|]. rewrite !length_app, length_replicate.
  assert (P := length_encode_prefix (f_prefix f) (len (f_contents f ++ closed fs)) ltac:(lia)).
  rewrite length_app in P. lia.
Qed.

Lemma close_ge d fs : (d < length fs)%nat -> len (flat fs) <= len (flat (close d fs)).
Proof.
  intros Hd. rewrite flat_close by done. rewrite <- (take_drop (S d) fs) at 1.
  rewrite flat_app, !length_app. assert (C := closed_ge (drop (S d) fs)). lia.
Qed.

Lemma call_frames_ge c fs : len (flat fs) <= len (flat (call_frames c fs)).
Proof.
  destruct c; cbn [call_frames]; rewrite ?flat_app, ?length_app;
    try (apply flat_append_le); try lia.
  assert (L := flat_append_le (der_tag tag) fs). lia.
Qed.

Lemma step_meaning_ge s fs fs' : fs <> [] -> step_meaning s fs = Some fs' ->
  len (flat fs) <= len (flat fs') /\ fs' <> [].
Proof.
  intros Hne. unfold step_meaning. destruct (position (fst s) fs) as [d|] eqn:Hp; [|done].
  case_if; [|done]. intros [= <-]. assert (Hd := position_lt _ _ _ Hne Hp).
  assert (C := close_ge d fs Hd). assert (G := call_frames_ge (snd s) (close d fs)).
  split; [lia|]. assert (Hc := length_close d fs Hd).
  assert (Hc' : close d fs <> []) by (intros E; rewrite E in Hc; done).
  destruct (snd s); cbn [call_frames]; try (by apply append_ne); try done.
  all: intros E; apply app_eq_nil in E as [_ E]; done.
Qed.

Lemma meaning_ge p fs fs' : fs <> [] -> meaning p fs = Some fs' ->
  len (flat fs) <= len (flat fs') /\ fs' <> [].
Proof.
  revert fs. induction p as [|s p IH]; intros fs Hne; cbn [meaning]; [intros [= <-]; done|].
  destruct (step_meaning s fs) as [fs1|] eqn:E; [|done]. intros E1.
  apply step_meaning_ge in E as [? Hne1]; [|done]. apply IH in E1 as [? ?]; [|done]. split; [lia|done].
Qed.

(** The code fails where the meaning does, and otherwise only for lack of room. *)
Lemma run_refines p : forall fs st, Forall (fun s => call_typed (snd s)) p -> fs <> [] -> rep st fs ->
  match run p st with
  | (Some _, st') => exists fs', meaning p fs = Some fs' /\ rep st' fs' /\ extends (base st) (base st')
  | (None, _) => forall fs', meaning p fs = Some fs' -> ~ room (base st) (len (flat fs'))
  end.
Proof.
  induction p as [|[h c] p IH]; intros fs st Ht Hne R; cbn [run meaning].
  - exists fs. split; [done|]. split; [done|]. apply extends_refl, R.
  - inversion_clear Ht as [|? ? Hc Ht']. unfold step_meaning, pbind. cbn [fst snd] in *.
    destruct (position h fs) as [d|] eqn:Hp.
    2: { assert (N := step_no_position st fs h c R Hp).
         destruct (run_step (h, c) st) as [[?|] ?]; done. }
    assert (S := refines_step h c fs d Hc Hp Hne st R).
    assert (G := step_meaning_ge (h, c) fs (call_frames c (close d fs)) Hne).
    unfold step_meaning in G. cbn [fst snd] in G. rewrite Hp in G.
    destruct (run_step (h, c) st) as [[[]|] st1].
    + destruct S as (R1 & E1 & Q). apply Is_true_true in Q. rewrite Q in *.
      destruct (G eq_refl) as [_ Hne1]. specialize (IH _ st1 Ht' Hne1 R1).
      destruct (run p st1) as [[[]|] st2].
      * destruct IH as (fs' & M & R2 & E2). exists fs'. split; [done|]. split; [done|].
        by eapply extends_trans.
      * intros fs' M Rm. apply (IH fs' M). by eapply room_extends.
    + destruct S as [_ S]. intros fs'. case_if; [|done]. intros M Rm. apply S.
      split; [done|]. destruct (G eq_refl) as [_ Hne1].
      apply meaning_ge in M as [? _]; [|done]. by eapply room_le.
Qed.

Lemma build_refines p st : Forall (fun s => call_typed (snd s)) p -> rep st [root_frame] ->
  match build p st with
  | Some out => output p = Some out /\ (can_resize (base st) = false -> len out <= cap (base st))
  | None => forall out, output p = Some out -> ~ room (base st) (len out)
  end.
Proof.
  intros Ht R. assert (S := run_refines p [root_frame] st Ht ltac:(done) R). unfold build, output, pbind.
  destruct (run p st) as [[[]|] st1]; cbn [fst].
  - destruct S as (fs & -> & R1 & E1). assert (F := finish_rep st1 fs R1).
    destruct (fst (CBB_finish Top true true st1)) as [out|].
    + destruct F as (-> & Q & L). apply Is_true_true in Q. rewrite Q. split; [done|].
      destruct E1 as (_ & _ & Er & _ & Ec). intros E. rewrite <- Ec by done. apply L. by rewrite Er.
    + intros out. case_if; [|done]. intros [= <-] Rm. apply F. split; [done|].
      by eapply room_extends.
  - intros out. destruct (meaning p [root_frame]) as [fs|] eqn:M; [|done]. case_if; [|done].
    intros [= <-] Rm. apply (S fs eq_refl). eapply room_le; [done|].
    apply meaning_ge in M as [_ Hne]; [|done]. apply (close_ge 0). destruct fs; [done|simpl; lia].
Qed.

(** A builder with a fixed buffer. *)
Lemma build_fixed p b : Forall (fun s => call_typed (snd s)) p -> bytes b -> len b < 2 ^ 64 ->
  build p (CBB_init_fixed b) =
    match output p with
    | Some out => if len out <=? len b then Some out else None
    | None => None
    end.
Proof.
  intros Ht Hb Hl. assert (R : rep (CBB_init_fixed b) [root_frame]) by (by apply rep_init).
  assert (S := build_refines p _ Ht R).
  destruct (build p (CBB_init_fixed b)) as [out|]; simpl in S.
  - destruct S as [-> S]. destruct (Z.leb_spec (len out) (len b)); [done|].
    specialize (S eq_refl). lia.
  - destruct (output p) as [out|]; [|done]. destruct (Z.leb_spec (len out) (len b)); [|done].
    destruct (S out eq_refl). by left.
Qed.

(** An operation on a fresh builder with a fixed buffer, and [CBB_finish]. *)
Lemma finish_fixed (m : cbb_op unit) (Q : bool) out b : bytes b -> len b < 2 ^ 64 ->
  refines [root_frame] m Q (append out [root_frame]) ->
  fst ((let* _ := m in CBB_finish Top true true) (CBB_init_fixed b)) =
    if Q && (len out <=? len b) then Some out else None.
Proof.
  intros Hb Hl Hm. unfold pbind.
  assert (R : rep (CBB_init_fixed b) [root_frame]) by (by apply rep_init).
  assert (S := Hm _ R). change (append out [root_frame]) with [mk_frame 0 (Fixed 0) out] in S.
  destruct (m (CBB_init_fixed b)) as [[[]|] st1].
  - destruct S as (R1 & E1 & HQ). apply Is_true_true in HQ as ->. assert (F := finish_rep st1 _ R1).
    destruct E1 as (_ & _ & Er & _ & Ec). cbn [base can_resize cap CBB_init_fixed cbb_init] in Er, Ec.
    change (flat (close 0 [mk_frame 0 (Fixed 0) out])) with ((out ++ []) ++ []) in F.
    rewrite !app_nil_r in F. cbn [andb].
    destruct (fst (CBB_finish Top true true st1)) as [o|].
    + destruct F as (-> & _ & F). specialize (F Er). rewrite Ec in F by done.
      by destruct (Z.leb_spec (len out) (len b)); [|lia].
    + destruct (Z.leb_spec (len out) (len b)); [|done]. destruct F.
      split; [done|]. left. by rewrite Ec.
  - destruct Q; [|done]. cbn [andb fst]. destruct (Z.leb_spec (len out) (len b)); [|done]. exfalso.
    destruct S as [_ S]. apply S. split; [done|].
    change (flat [mk_frame 0 (Fixed 0) out]) with (out ++ []). rewrite app_nil_r. by left.
Qed.

(** [p] writes exactly [e] into every buffer that has room for it. *)
Definition written (p : list step) (e : list Z) : Prop :=
  word 64 (len e) /\
  forall b, bytes b -> len e <= len b < 2 ^ 64 -> build p (CBB_init_fixed b) = Some e.

Lemma written_iff p e : Forall (fun s => call_typed (snd s)) p ->
  written p e <-> word 64 (len e) /\ output p = Some e.
Proof.
  intros Ht. split; intros [Hw H1]; (split; [done|]); destruct Hw as [_ Hl].
  - specialize (H1 (replicate (length e) 0)). rewrite length_replicate in H1.
    rewrite build_fixed in H1; [|done|by apply bytes_replicate|by rewrite length_replicate].
    specialize (H1 (bytes_replicate _ 0 ltac:(by vm_compute)) ltac:(lia)).
    destruct (output p); [|done]. by case_if.
  - intros b Hb Hbl. rewrite build_fixed by (done || lia). rewrite H1.
    by destruct (Z.leb_spec (len e) (len b)); [|lia].
Qed.

(** For every program over a builder with a fixed buffer
    ([CBB_init_fixed]), nested children and every branch included, the bytes
    [CBB_finish] returns are exactly the output of the program if it has one
    and it fits the buffer; otherwise the program or [CBB_finish] fails. *)
Theorem cbb_fixed_program (p : list step) (b : list Z) :
  Forall (fun s => call_typed (snd s)) p -> bytes b -> len b < 2 ^ 64 ->
  build p (CBB_init_fixed b) =
    match output p with
    | Some out => if len out <=? len b then Some out else None
    | None => None
    end.
Proof. apply build_fixed. Qed.

(** C40: a growing builder ([CBB_init]) returns nothing but the output of its
    program, and it does return it when the allocator has memory and the
    output has less than [2^62] bytes. *)
Theorem cbb_growing_program (p : list step) (n : Z) (st : CBB) :
  Forall (fun s => call_typed (snd s)) p -> word 64 n -> CBB_init n = Some st ->
  (forall out, build p st = Some out -> output p = Some out) /\
  (forall out, malloc_never_fails -> output p = Some out -> len out < 2 ^ 62 ->
     build p st = Some out).
Proof.
  intros Ht Hn Hi. assert (R : rep st [root_frame] /\ can_resize (base st) = true).
  { unfold CBB_init in Hi. destruct (OPENSSL_malloc n) as [b|] eqn:Em.
    - injection Hi as <-. apply OPENSSL_malloc_Some in Em as [E1 E2]; [|done].
      split; [|done]. apply rep_init; [done|apply Hn|done].
    - destruct (Z.ltb_spec 0 n); [done|]. injection Hi as <-. destruct Hn.
      split; [|done]. apply rep_init; [simpl; lia|lia|apply bytes_nil]. }
  destruct R as [R Hres]. assert (S := build_refines p st Ht R).
  destruct (build p st) as [out|].
  - destruct S as [S _]. split; [naive_solver|]. intros out' _ E _. rewrite S in E. done.
  - split; [done|]. intros out Hm E Hl. destruct (S out E). by right.
Qed.

End simulation.

(** A server name extension (RFC 6066): nested 16-bit length prefixes. *)
Definition server_name_program : list step :=
  [(Top, AddU16 0); (Top, AddU16Prefixed 1); (Child 1, AddU16Prefixed 2);
   (Child 2, AddU8 0); (Child 2, AddU16Prefixed 3); (Child 3, AddBytes [97; 46; 98]);
   (Top, AddU8 255)].

Definition server_name_bytes : list Z :=
  [0; 0; 0; 8; 0; 6; 0; 0; 3; 97; 46; 98; 255].

Lemma server_name_typed : Forall (fun s => call_typed (snd s)) server_name_program.
Proof. repeat constructor; by vm_compute. Qed.

Lemma cbb_fixed_program_witness :
  @build zero_malloc server_name_program (CBB_init_fixed (replicate 13 170)) =
    Some server_name_bytes /\
  @build zero_malloc server_name_program (CBB_init_fixed (replicate 12 170)) = None.
Proof.
  split.
  - rewrite (@cbb_fixed_program zero_malloc server_name_program (replicate 13 170)
      server_name_typed (bytes_replicate 13 170 ltac:(by vm_compute)) ltac:(by vm_compute)).
    by vm_compute.
  - by vm_compute.
Defined.

Lemma cbb_growing_program_witness :
  @CBB_init zero_malloc 0 = Some (cbb_init [] 0 true) /\
  @build zero_malloc server_name_program (cbb_init [] 0 true) = Some server_name_bytes.
Proof.
  split; [by vm_compute|].
  apply (proj2 (@cbb_growing_program zero_malloc server_name_program 0 (cbb_init [] 0 true)
    server_name_typed ltac:(by vm_compute) ltac:(by vm_compute)) server_name_bytes zero_malloc_total).
  - by vm_compute.
  - by vm_compute.
Defined.
