(* ===== verification/Unicode.v ===== *)
(** * Unicode encodings

    Model of crypto/bytestring/unicode.cc: readers and writers of one code
    point in UTF-8, Latin-1, UCS-2 and UTF-32. *)

From S2P Require Import Prelude Internal Alloc Cbs CbsFacts Der Cbb CbbFacts CbbAsn1.
Import Endian Mem.

(** ** The code *)

Definition is_valid_code_point (v : Z) : bool :=
  negb ((0x10ffff <? v) || (Z.land v 0xfffe =? 0xfffe)
        || ((0xfdd0 <=? v) && (v <=? 0xfdef)) || ((0xd800 <=? v) && (v <=? 0xdfff))).

Definition BOTTOM_BITS (n : Z) : Z := u8 (Z.shiftl 1 n - 1).
Definition TOP_BITS (n : Z) : Z := u8 (Z.lnot (BOTTOM_BITS (8 - n))).

(** The loop over the continuation bytes. *)
Fixpoint utf8_tail (n : nat) (v : Z) : parser Z :=
  match n with
  | O => pret v
  | S n' =>
      let* c := CBS_get_u8 in
      check (Z.land c (TOP_BITS 2) =? TOP_BITS 1) in
      utf8_tail n' (Z.lor (u32 (Z.shiftl v 6)) (Z.land c (BOTTOM_BITS 6)))
  end.

Definition CBS_get_utf8 : parser Z :=
  let* c := CBS_get_u8 in
  if c <=? 0x7f then pret c
  else
    let* '(v, n, lower_bound) :=
      (if Z.land c (TOP_BITS 3) =? TOP_BITS 2 then pret (Z.land c (BOTTOM_BITS 5), 1%nat, 0x80)
       else if Z.land c (TOP_BITS 4) =? TOP_BITS 3 then
         pret (Z.land c (BOTTOM_BITS 4), 2%nat, 0x800)
       else if Z.land c (TOP_BITS 5) =? TOP_BITS 4 then
         pret (Z.land c (BOTTOM_BITS 3), 3%nat, 0x10000)
       else pfail) in
    let* v := utf8_tail n v in
    check negb (negb (is_valid_code_point v) || (v <? lower_bound)) in
    pret v.

Definition CBS_get_latin1 : parser Z := CBS_get_u8.

Definition CBS_get_ucs2_be : parser Z :=
  let* c := CBS_get_u16 in check is_valid_code_point c in pret c.

Definition CBS_get_utf32_be : parser Z :=
  let* c := CBS_get_u32 in check is_valid_code_point c in pret c.

Definition CBB_get_utf8_len (u : Z) : Z :=
  if u <=? 0x7f then 1 else if u <=? 0x7ff then 2 else if u <=? 0xffff then 3 else 4.

Section writers.
Context `{Malloc}.

Definition CBB_add_utf8 (cbb : handle) (u : Z) : cbb_op unit :=
  check is_valid_code_point u in
  if u <=? 0x7f then CBB_add_u8 cbb (u8 u)
  else if u <=? 0x7ff then
    let* _ := CBB_add_u8 cbb (Z.lor (TOP_BITS 2) (Z.shiftr u 6)) in
    CBB_add_u8 cbb (Z.lor (TOP_BITS 1) (Z.land u (BOTTOM_BITS 6)))
  else if u <=? 0xffff then
    let* _ := CBB_add_u8 cbb (Z.lor (TOP_BITS 3) (Z.shiftr u 12)) in
    let* _ := CBB_add_u8 cbb (Z.lor (TOP_BITS 1) (Z.land (Z.shiftr u 6) (BOTTOM_BITS 6))) in
    CBB_add_u8 cbb (Z.lor (TOP_BITS 1) (Z.land u (BOTTOM_BITS 6)))
  else if u <=? 0x10ffff then
    let* _ := CBB_add_u8 cbb (Z.lor (TOP_BITS 4) (Z.shiftr u 18)) in
    let* _ := CBB_add_u8 cbb (Z.lor (TOP_BITS 1) (Z.land (Z.shiftr u 12) (BOTTOM_BITS 6))) in
    let* _ := CBB_add_u8 cbb (Z.lor (TOP_BITS 1) (Z.land (Z.shiftr u 6) (BOTTOM_BITS 6))) in
    CBB_add_u8 cbb (Z.lor (TOP_BITS 1) (Z.land u (BOTTOM_BITS 6)))
  else pfail.

Definition CBB_add_latin1 (cbb : handle) (u : Z) : cbb_op unit :=
  check (u <=? 0xff) in CBB_add_u8 cbb (u8 u).

Definition CBB_add_ucs2_be (cbb : handle) (u : Z) : cbb_op unit :=
  check ((u <=? 0xffff) && is_valid_code_point u) in CBB_add_u16 cbb (u16 u).

Definition CBB_add_utf32_be (cbb : handle) (u : Z) : cbb_op unit :=
  check is_valid_code_point u in CBB_add_u32 cbb u.

End writers.

(** ** UTF-8 (RFC 3629) *)

Definition utf8 (u : Z) : list Z :=
  let cont k := 0x80 + u / 64 ^ k mod 64 in
  if u <? 0x80 then [u]
  else if u <? 0x800 then [0xc0 + u / 64; cont 0]
  else if u <? 0x10000 then [0xe0 + u / 64 ^ 2; cont 1; cont 0]
  else [0xf0 + u / 64 ^ 3; cont 2; cont 1; cont 0].

(** The accepted code points: scalar values other than noncharacters. *)
Definition code_point (u : Z) : Prop :=
  0 <= u <= 0x10ffff /\ u mod 0x10000 < 0xfffe /\ ~ (0xfdd0 <= u <= 0xfdef) /\
  ~ (0xd800 <= u <= 0xdfff).

Lemma land_fffe v : 0 <= v -> (Z.land v 0xfffe =? 0xfffe) = (0xfffe <=? v mod 0x10000).
Proof.
  intros Hv. assert (B := Z.mod_pos_bound v 0x10000 ltac:(lia)).
  replace (Z.land v 0xfffe)
    with (Z.land (v / 2 ^ 16 * 2 ^ 16 + v mod 2 ^ 16) (0 * 2 ^ 16 + 0xfffe))
    by (f_equal; rewrite Z.mul_comm; symmetry; apply Z.div_mod; lia).
  change (v mod 0x10000) with (v mod 2 ^ 16) in *. rewrite land_limbs by lia.
  rewrite Z.land_0_r, Z.mul_0_l, Z.add_0_l. set (m := v mod 2 ^ 16) in *. clearbody m.
  assert (E : Z.land m 0xfffe = m / 2 * 2).
  { replace (Z.land m 0xfffe) with (Z.land (m / 2 * 2 ^ 1 + m mod 2) (0x7fff * 2 ^ 1 + 0))
      by (f_equal; rewrite Z.mul_comm; symmetry; apply Z.div_mod; lia).
    rewrite land_limbs by (lia || by apply Z.mod_pos_bound).
    rewrite Z.land_0_r, Z.add_0_r. change 0x7fff with (2 ^ 15 - 1). rewrite land_ones_mod by lia.
    rewrite Z.mod_small by div_lia. lia. }
  rewrite E. apply Bool.eq_true_iff_eq. rewrite Z.eqb_eq, Z.leb_le. div_lia.
Qed.

Lemma valid_code_point_spec u : 0 <= u -> is_valid_code_point u = true <-> code_point u.
Proof.
  intros Hu. unfold is_valid_code_point, code_point. rewrite land_fffe by done.
  rewrite negb_true_iff, !orb_false_iff, !andb_false_iff, Z.ltb_ge, !Z.leb_gt. lia.
Qed.

(** The bit tests on one byte. *)
Lemma utf8_lead c : byte c -> 0x80 <= c ->
  ((Z.land c (TOP_BITS 3) =? TOP_BITS 2) = (0xc0 <=? c) && (c <? 0xe0)) /\
  ((Z.land c (TOP_BITS 4) =? TOP_BITS 3) = (0xe0 <=? c) && (c <? 0xf0)) /\
  ((Z.land c (TOP_BITS 5) =? TOP_BITS 4) = (0xf0 <=? c) && (c <? 0xf8)) /\
  Z.land c (BOTTOM_BITS 5) = c mod 32 /\ Z.land c (BOTTOM_BITS 4) = c mod 16 /\
  Z.land c (BOTTOM_BITS 3) = c mod 8.
Proof.
  intros Hc H80. apply byte_range in Hc.
  assert (A := all_from_spec 256 0 (fun c =>
    Bool.eqb (Z.land c (TOP_BITS 3) =? TOP_BITS 2) ((0xc0 <=? c) && (c <? 0xe0)) &&
    Bool.eqb (Z.land c (TOP_BITS 4) =? TOP_BITS 3) ((0xe0 <=? c) && (c <? 0xf0)) &&
    Bool.eqb (Z.land c (TOP_BITS 5) =? TOP_BITS 4) ((0xf0 <=? c) && (c <? 0xf8)) &&
    (Z.land c (BOTTOM_BITS 5) =? c mod 32) && (Z.land c (BOTTOM_BITS 4) =? c mod 16) &&
    (Z.land c (BOTTOM_BITS 3) =? c mod 8)) c).
  specialize (A ltac:(by vm_compute) ltac:(lia)). cbv beta in A. bool_to_prop.
  repeat match goal with H : Bool.eqb _ _ = true |- _ => apply Bool.eqb_prop in H end.
  by split_and!.
Qed.

Lemma utf8_cont c : byte c ->
  (Z.land c (TOP_BITS 2) =? TOP_BITS 1) = ((0x80 <=? c) && (c <? 0xc0)) /\
  Z.land c (BOTTOM_BITS 6) = c mod 64.
Proof.
  intros Hc. apply byte_range in Hc.
  assert (A := all_from_spec 256 0 (fun c =>
    Bool.eqb (Z.land c (TOP_BITS 2) =? TOP_BITS 1) ((0x80 <=? c) && (c <? 0xc0)) &&
    (Z.land c (BOTTOM_BITS 6) =? c mod 64)) c).
  specialize (A ltac:(by vm_compute) ltac:(lia)). cbv beta in A. bool_to_prop.
  by match goal with H : Bool.eqb _ _ = true |- _ => apply Bool.eqb_prop in H end.
Qed.

(** Continuation bytes carry six bits each, most significant first. *)
Definition cont_bytes (l : list Z) : Prop := Forall (fun c => 0x80 <= c < 0xc0) l.
Definition cont_value (v : Z) (l : list Z) : Z := foldl (fun v c => v * 64 + (c - 0x80)) v l.

Lemma utf8_tail_Some n : forall v s w s', bytes s -> 0 <= v < 2 ^ (26 - 6 * Z.of_nat n) ->
  (n <= 4)%nat ->
  utf8_tail n v s = (Some w, s') <->
  exists l, length l = n /\ cont_bytes l /\ s = l ++ s' /\ w = cont_value v l.
Proof.
  induction n as [|n IH]; intros v s w s' Hs Hv Hn; cbn [utf8_tail].
  - rewrite pret_Some. split.
    + intros [-> ->]. exists []. split_and!; try done. constructor.
    + intros (l & Hl & _ & -> & ->). by destruct l.
  - rewrite pbind_Some. rewrite Nat2Z.inj_succ in Hv.
    assert (Hp : 2 ^ (26 - 6 * Z.of_nat n) = 64 * 2 ^ (26 - 6 * Z.succ (Z.of_nat n))).
    { replace (26 - 6 * Z.of_nat n) with (6 + (26 - 6 * Z.succ (Z.of_nat n))) by lia.
      rewrite Z.pow_add_r by lia. done. }
    assert (H26 : 2 ^ (26 - 6 * Z.succ (Z.of_nat n)) <= 2 ^ 26) by (apply Z.pow_le_mono_r; lia).
    assert (Step : forall c, 0x80 <= c < 0xc0 ->
      Z.lor (u32 (Z.shiftl v 6)) (c mod 64) = v * 64 + (c - 0x80)).
    { intros c Hc. rewrite (wrap_small 32) by (rewrite Z.shiftl_mul_pow2 by lia; unfold word; lia).
      rewrite lor_shiftl_add by (lia || (split; div_lia)).
      replace (c mod 64) with (c - 0x80) by div_lia. done. }
    split.
    + intros (c & s1 & E & E1). apply CBS_get_u8_Some in E as ->.
      apply bytes_cons_inv in Hs as [Hc Hs]. destruct (utf8_cont c Hc) as [E2 E3].
      rewrite E2, E3 in E1. parser_inv. bool_to_prop.
      rewrite Step in E1 by lia. apply IH in E1 as (l & Hl & Hcl & -> & ->); [|done|lia|lia].
      exists (c :: l). split_and!; [simpl; lia|by constructor; [lia|]|done|done].
    + intros (l & Hl & Hcl & -> & ->). destruct l as [|c l]; [done|].
      inversion_clear Hcl as [|? ? Hc Hcl']. exists c, (l ++ s'). split; [apply CBS_get_u8_cons|].
      apply bytes_cons_inv in Hs as [Hb Hs]. destruct (utf8_cont c Hb) as [E1 E2].
      rewrite E1, E2, pcheck_true by (apply andb_true_iff; rewrite Z.leb_le, Z.ltb_lt; lia).
      rewrite Step by lia. apply IH; [done|lia|lia|]. exists l. by injection Hl.
Qed.

(** The multi-byte forms: lead byte [c] carrying [v], [n] continuation bytes. *)
Definition utf8_form (c v : Z) (n : nat) (lb : Z) : Prop :=
  (n = 1%nat /\ 0xc0 <= c < 0xe0 /\ v = c mod 32 /\ lb = 0x80) \/
  (n = 2%nat /\ 0xe0 <= c < 0xf0 /\ v = c mod 16 /\ lb = 0x800) \/
  (n = 3%nat /\ 0xf0 <= c < 0xf8 /\ v = c mod 8 /\ lb = 0x10000).

Lemma utf8_lead_Some c s v n lb s' : byte c -> 0x80 <= c ->
  (if Z.land c (TOP_BITS 3) =? TOP_BITS 2 then pret (Z.land c (BOTTOM_BITS 5), 1%nat, 0x80)
   else if Z.land c (TOP_BITS 4) =? TOP_BITS 3 then
     pret (Z.land c (BOTTOM_BITS 4), 2%nat, 0x800)
   else if Z.land c (TOP_BITS 5) =? TOP_BITS 4 then
     pret (Z.land c (BOTTOM_BITS 3), 3%nat, 0x10000)
   else pfail : parser (Z * nat * Z)) s = (Some (v, n, lb), s') <-> s' = s /\ utf8_form c v n lb.
Proof.
  intros Hc H80. destruct (utf8_lead c Hc H80) as (-> & -> & -> & -> & -> & ->).
  unfold utf8_form, pret, pfail.
  destruct (Z.leb_spec 0xc0 c), (Z.ltb_spec c 0xe0), (Z.leb_spec 0xe0 c), (Z.ltb_spec c 0xf0),
    (Z.leb_spec 0xf0 c), (Z.ltb_spec c 0xf8); try lia; cbn [andb]; (split; [intros E|intros [-> E]]);
    try (injection E as -> -> -> ->; split; [done|]; lia); try done; try lia;
    destruct E as [(-> & ? & -> & ->)|[(-> & ? & -> & ->)|(-> & ? & -> & ->)]]; done || lia.
Qed.

Lemma utf8_form_bound c v n lb : utf8_form c v n lb ->
  (n <= 3)%nat /\ 0 <= v < 2 ^ (26 - 6 * Z.of_nat n).
Proof.
  intros [(-> & ? & -> & ->)|[(-> & ? & -> & ->)|(-> & ? & -> & ->)]]; (split; [lia|]);
    simpl Z.of_nat; simpl Z.pow; div_lia.
Qed.

Ltac utf8_powers :=
  unfold utf8; cbv zeta; change (64 ^ 0) with 1; change (64 ^ 1) with 64;
  change (64 ^ 2) with 4096; change (64 ^ 3) with 262144; rewrite ?Z.div_1_r.

Lemma utf8_of_form u c v l lb : cont_bytes l -> utf8_form c v (length l) lb ->
  u = cont_value v l -> lb <= u <= 0x10ffff -> utf8 u = c :: l.
Proof.
  intros Hl H Ev Hu. utf8_powers. unfold cont_bytes in Hl.
  destruct H as [(Hn & Hc & -> & ->)|[(Hn & Hc & -> & ->)|(Hn & Hc & -> & ->)]];
    destruct l as [|c1 [|c2 [|c3 [|]]]]; try done;
    repeat match goal with H : Forall _ (_ :: _) |- _ => inversion_clear H end;
    unfold cont_value in Ev; simpl in Ev.
  - destruct (Z.ltb_spec u 0x80), (Z.ltb_spec u 0x800); try (exfalso; div_lia).
    repeat f_equal; div_lia.
  - destruct (Z.ltb_spec u 0x80), (Z.ltb_spec u 0x800), (Z.ltb_spec u 0x10000);
      try (exfalso; div_lia). repeat f_equal; div_lia.
  - destruct (Z.ltb_spec u 0x80), (Z.ltb_spec u 0x800), (Z.ltb_spec u 0x10000);
      try (exfalso; div_lia). repeat f_equal; div_lia.
Qed.

Lemma utf8_to_form u : 0x80 <= u <= 0x10ffff -> exists c v l lb, utf8 u = c :: l /\ byte c /\
  0x80 <= c /\ cont_bytes l /\ utf8_form c v (length l) lb /\ u = cont_value v l /\ lb <= u.
Proof.
  intros Hu. utf8_powers. unfold utf8_form, cont_bytes, word.
  destruct (Z.ltb_spec u 0x80); [lia|].
  destruct (Z.ltb_spec u 0x800); [|destruct (Z.ltb_spec u 0x10000)].
  - exists (0xc0 + u / 64), ((0xc0 + u / 64) mod 32), [0x80 + u mod 64], 0x80.
    unfold cont_value; simpl. split_and!; try done; try (repeat constructor); div_lia.
  - exists (0xe0 + u / 4096), ((0xe0 + u / 4096) mod 16), [0x80 + u / 64 mod 64; 0x80 + u mod 64], 0x800.
    unfold cont_value; simpl. split_and!; try done; try (repeat constructor); div_lia.
  - exists (0xf0 + u / 262144), ((0xf0 + u / 262144) mod 8),
      [0x80 + u / 4096 mod 64; 0x80 + u / 64 mod 64; 0x80 + u mod 64], 0x10000.
    unfold cont_value; simpl. split_and!; try done; try (repeat constructor); div_lia.
Qed.

Lemma code_point_ascii u : 0 <= u < 0x80 -> code_point u.
Proof. intros. unfold code_point. rewrite Z.mod_small by lia. lia. Qed.

Lemma cont_value_nonneg l : forall v, 0 <= v -> cont_bytes l -> 0 <= cont_value v l.
Proof.
  induction l as [|c l IH]; intros v Hv Hl; [done|]. inversion_clear Hl as [|? ? Hc Hl'].
  simpl. apply IH; [lia|done].
Qed.

Lemma get_utf8_Some s u s' : bytes s ->
  CBS_get_utf8 s = (Some u, s') <-> code_point u /\ s = utf8 u ++ s'.
Proof.
  intros Hs. unfold CBS_get_utf8. rewrite pbind_Some. split.
  - intros (c & s1 & E & H). apply CBS_get_u8_Some in E as ->.
    apply bytes_cons_inv in Hs as [Hc Hs]. apply byte_range in Hc as Hc'.
    destruct (Z.leb_spec c 0x7f).
    + parser_inv. split; [apply code_point_ascii; lia|]. unfold utf8.
      by destruct (Z.ltb_spec c 0x80); [|lia].
    + apply pbind_Some in H as ([[v n] lb] & s2 & Ef & H).
      apply utf8_lead_Some in Ef as [-> Hf]; [|done|lia].
      destruct (utf8_form_bound _ _ _ _ Hf) as [Hn Hv]. parser_inv.
      apply utf8_tail_Some in E as (l & Hl & Hcl & -> & ->); [|done|done|lia].
      bool_to_prop. assert (Hw := cont_value_nonneg l v ltac:(lia) Hcl).
      match goal with H : is_valid_code_point _ = true |- _ =>
        apply valid_code_point_spec in H as Hcp; [|done] end.
      split; [done|]. rewrite (utf8_of_form _ c v l lb); try done; [by rewrite Hl|].
      destruct Hcp. lia.
  - intros [Hcp ->]. destruct (decide (u < 0x80)).
    + destruct Hcp as [Hu _]. unfold utf8. destruct (Z.ltb_spec u 0x80); [|lia].
      exists u, s'. split; [apply CBS_get_u8_cons|]. by destruct (Z.leb_spec u 0x7f); [|lia].
    + destruct (utf8_to_form u) as (c & v & l & lb & E & Hc & H80 & Hcl & Hf & Hu & Hlb);
        [destruct Hcp; lia|]. destruct (utf8_form_bound _ _ _ _ Hf) as [Hn Hv].
      rewrite E in *. exists c, (l ++ s'). split; [apply CBS_get_u8_cons|].
      apply bytes_cons_inv in Hs as [_ Hs]. destruct (Z.leb_spec c 0x7f); [lia|].
      rewrite (pbind_step _ _ _ (v, length l, lb) (l ++ s')) by (by apply utf8_lead_Some).
      rewrite (pbind_step _ _ _ u s') by (apply utf8_tail_Some; [done|done|lia|by exists l]).
      apply valid_code_point_spec in Hcp as Hb; [|destruct Hcp; lia]. rewrite Hb.
      by destruct (Z.ltb_spec u lb); [lia|].
Qed.

(** ** Writing *)

Section unicode_writers.
Context `{Malloc}.

Lemma refines_u8_then fs h d b rest (k : cbb_op unit) : position h fs = Some d -> fs <> [] -> byte b ->
  (forall gs, focus h gs -> refines gs k true (append rest gs)) ->
  refines fs (let* _ := CBB_add_u8 h b in k) (closable (drop (S d) fs))
    (append (b :: rest) (close d fs)).
Proof.
  intros Hp Hne Hb Hk. rewrite <- (andb_true_r (closable _)).
  change (b :: rest) with ([b] ++ rest). rewrite <- append_append.
  eapply refines_bind; [by apply refines_add_u8| |apply flat_append_le].
  intros _. apply Hk. apply focus_append. by apply focus_close.
Qed.

Lemma refines_u8_focus h b rest (k : cbb_op unit) : byte b ->
  (forall gs, focus h gs -> refines gs k true (append rest gs)) ->
  forall gs, focus h gs -> refines gs (let* _ := CBB_add_u8 h b in k) true (append (b :: rest) gs).
Proof.
  intros Hb Hk gs Hg. apply (refines_then _ _ [b]); [by apply refines_u8|].
  intros _. apply Hk. by apply focus_append.
Qed.

Lemma lor_cont x : Z.lor (TOP_BITS 1) (Z.land x (BOTTOM_BITS 6)) = 0x80 + x mod 64.
Proof.
  change (TOP_BITS 1) with (Z.shiftl 2 6). change (BOTTOM_BITS 6) with (2 ^ 6 - 1).
  rewrite land_ones_mod by lia. by rewrite lor_shiftl_add by (lia || by apply Z.mod_pos_bound).
Qed.

Lemma byte_cont x : byte (0x80 + x mod 64).
Proof. assert (B := Z.mod_pos_bound x 64). unfold word. lia. Qed.

Lemma lor_lead k n x : 0 <= n -> 0 <= x < 2 ^ n -> Z.lor (Z.shiftl k n) x = Z.shiftl k n + x.
Proof. intros. rewrite lor_shiftl_add by lia. by rewrite Z.shiftl_mul_pow2. Qed.

Lemma refines_add_utf8 fs h d u : position h fs = Some d -> fs <> [] -> code_point u ->
  refines fs (CBB_add_utf8 h u) (closable (drop (S d) fs)) (append (utf8 u) (close d fs)).
Proof.
  intros Hp Hne Hcp. assert (Hu : 0 <= u <= 0x10ffff) by apply Hcp. unfold CBB_add_utf8.
  apply valid_code_point_spec in Hcp; [|lia]. rewrite Hcp. cbn [pguard]. intros st R.
  unfold pbind at 1, pret at 1. revert st R. utf8_powers.
  rewrite !Z.shiftr_div_pow2 by lia. change (2 ^ 6) with 64. change (2 ^ 12) with 4096.
  change (2 ^ 18) with 262144. rewrite !lor_cont.
  change (TOP_BITS 2) with (Z.shiftl 6 5). change (TOP_BITS 3) with (Z.shiftl 14 4).
  change (TOP_BITS 4) with (Z.shiftl 30 3).
  destruct (Z.leb_spec u 0x7f), (Z.ltb_spec u 0x80); try lia.
  { rewrite (wrap_small 8) by (unfold word; lia). apply refines_add_u8; [done|]. unfold word; lia. }
  assert (Last : forall gs, focus h gs ->
    refines gs (CBB_add_u8 h (0x80 + u mod 64)) true (append [0x80 + u mod 64] gs)).
  { intros gs Hg. apply refines_u8; [done|apply byte_cont]. }
  destruct (Z.leb_spec u 0x7ff), (Z.ltb_spec u 0x800); try lia.
  { rewrite lor_lead by (lia || div_lia). apply refines_u8_then; try done.
    simpl. unfold word. div_lia. }
  destruct (Z.leb_spec u 0xffff), (Z.ltb_spec u 0x10000); try lia.
  { rewrite lor_lead by (lia || div_lia). apply refines_u8_then; try done.
    - simpl. unfold word. div_lia.
    - apply refines_u8_focus; [apply byte_cont|done]. }
  destruct (Z.leb_spec u 0x10ffff); [|lia].
  rewrite lor_lead by (lia || div_lia). apply refines_u8_then; try done.
  - simpl. unfold word. div_lia.
  - apply refines_u8_focus; [apply byte_cont|]. by apply refines_u8_focus; [apply byte_cont|].
Qed.

(** [CBS_get_utf8] accepts exactly the shortest UTF-8 encoding of a
    Unicode scalar value that is not a noncharacter; for such a code point
    [CBB_add_utf8] appends that encoding, of [CBB_get_utf8_len] bytes, and for
    any other it fails and writes nothing. *)
Theorem utf8_exact fs h d u : position h fs = Some d -> fs <> [] -> word 32 u ->
  (forall s s', bytes s ->
     CBS_get_utf8 s = (Some u, s') <-> code_point u /\ s = utf8 u ++ s') /\
  (code_point u ->
     refines fs (CBB_add_utf8 h u) (closable (drop (S d) fs)) (append (utf8 u) (close d fs)) /\
     len (utf8 u) = CBB_get_utf8_len u /\ bytes (utf8 u)) /\
  (~ code_point u -> forall st, CBB_add_utf8 h u st = (None, st)).
Proof.
  intros Hp Hne [H0 H1]. split; [intros; by apply get_utf8_Some|]. split.
  - intros Hcp. split; [by apply refines_add_utf8|]. destruct Hcp as [Hu _].
    unfold CBB_get_utf8_len. utf8_powers.
    destruct (Z.leb_spec u 0x7f), (Z.ltb_spec u 0x80); try lia;
      [|destruct (Z.leb_spec u 0x7ff), (Z.ltb_spec u 0x800); try lia;
        [|destruct (Z.leb_spec u 0xffff), (Z.ltb_spec u 0x10000); try lia]]; (split; [done|]);
      repeat (apply bytes_cons; [first [apply byte_cont|unfold word; div_lia]|]); apply bytes_nil.
  - intros Hn st. unfold CBB_add_utf8.
    destruct (is_valid_code_point u) eqn:E; [|done]. by apply valid_code_point_spec in E.
Qed.

End unicode_writers.

Lemma utf8_exact_witness :
  CBS_get_utf8 [0xe2; 0x82; 0xac; 0x21] = (Some 0x20ac, [0x21]) /\
  len (utf8 0x20ac) = CBB_get_utf8_len 0x20ac.
Proof.
  assert (C : code_point 0x20ac) by (apply valid_code_point_spec; by vm_compute).
  destruct (@utf8_exact zero_malloc [mk_frame 0 (Fixed 0) []] Top 0 0x20ac eq_refl
    ltac:(done) ltac:(by vm_compute)) as (E1 & E2 & _).
  split; [|by apply E2]. apply E1; [byte_list|]. split; [done|by vm_compute].
Defined.
