(* ===== verification/Ber.v ===== *)
(** * Conversion of BER to DER

    Model of crypto/bytestring/ber.cc.  The recursion depth is bounded by
    [kMaxDepth] in the code, so the recursive functions are structurally
    recursive in the number of levels left, [kMaxDepth + 1 - depth]; the
    [while] loops consume at least one byte per round, so the length of the
    input is enough fuel. *)

From S2P Require Import Prelude Internal Alloc Cbs CbsFacts Der Cbb CbbFacts CbbAsn1 Oid.
Import Endian Mem.

(** ** The code *)

Definition kMaxDepth : nat := 128.

Definition CBS_ASN1_UTF8STRING : Z := 0xc.
Definition CBS_ASN1_NUMERICSTRING : Z := 0x12.
Definition CBS_ASN1_PRINTABLESTRING : Z := 0x13.
Definition CBS_ASN1_T61STRING : Z := 0x14.
Definition CBS_ASN1_VIDEOTEXSTRING : Z := 0x15.
Definition CBS_ASN1_IA5STRING : Z := 0x16.
Definition CBS_ASN1_GRAPHICSTRING : Z := 0x19.
Definition CBS_ASN1_VISIBLESTRING : Z := 0x1a.
Definition CBS_ASN1_GENERALSTRING : Z := 0x1b.
Definition CBS_ASN1_UNIVERSALSTRING : Z := 0x1c.
Definition CBS_ASN1_BMPSTRING : Z := 0x1e.

(** [tag & ~CBS_ASN1_CONSTRUCTED] *)
Definition clear_constructed (tag : Z) : Z := Z.land tag (u32 (Z.lnot CBS_ASN1_CONSTRUCTED)).
Definition is_constructed (tag : Z) : bool := negb (Z.land tag CBS_ASN1_CONSTRUCTED =? 0).

Definition is_string_type (tag : Z) : bool :=
  existsb (Z.eqb (clear_constructed tag))
    [CBS_ASN1_OCTETSTRING; CBS_ASN1_UTF8STRING; CBS_ASN1_NUMERICSTRING;
     CBS_ASN1_PRINTABLESTRING; CBS_ASN1_T61STRING; CBS_ASN1_VIDEOTEXSTRING;
     CBS_ASN1_IA5STRING; CBS_ASN1_GRAPHICSTRING; CBS_ASN1_VISIBLESTRING;
     CBS_ASN1_GENERALSTRING; CBS_ASN1_UNIVERSALSTRING; CBS_ASN1_BMPSTRING].

(** The [while] loop of [cbs_find_ber]; [rec] is the recursive call. *)
Fixpoint find_ber_loop (rec : CBS -> option bool) (fuel : nat) (inp : CBS) : option bool :=
  match inp, fuel with
  | [], _ => Some false
  | _, O => None
  | _, S fuel' =>
      match CBS_get_any_ber_asn1_element inp with
      | (None, _) => None
      | (Some e, inp') =>
          if el_ber_found e then Some true
          else if is_constructed (el_tag e) then
            if is_string_type (el_tag e) then Some true
            else match CBS_skip (el_header_len e) (el_cbs e) with
                 | (None, _) => None
                 | (Some _, contents) =>
                     match rec contents with
                     | None => None
                     | Some true => Some true
                     | Some false => find_ber_loop rec fuel' inp'
                     end
                 end
          else find_ber_loop rec fuel' inp'
      end
  end.

(** The result is [*ber_found]; [None] is the return value 0. *)
Fixpoint cbs_find_ber (left : nat) (orig_in : CBS) : option bool :=
  match left with
  | O => None
  | S left' => find_ber_loop (cbs_find_ber left') (length orig_in) orig_in
  end.

Definition cbs_get_eoc : parser unit := fun cbs =>
  match cbs with
  | 0 :: 0 :: _ => CBS_skip 2 cbs
  | _ => (None, cbs)
  end.

Section ber.
Context `{Malloc}.

(** Where the contents of an element go, and the string tag its children must
    match. *)
Definition convert_target (out : handle) (storage : nat) (string_tag tag : Z) :
    cbb_op (handle * Z) :=
  if negb (string_tag =? 0) then
    check (clear_constructed tag =? string_tag) in
    pret (out, string_tag)
  else
    let '(out_tag, child_string_tag) :=
      if is_constructed tag && is_string_type tag
      then (clear_constructed tag, clear_constructed tag)
      else (tag, string_tag) in
    let* _ := CBB_add_asn1 out storage out_tag in
    pret (Child storage, child_string_tag).

(** Convert or copy the contents of the element [e] to [out_contents]; [inp] is
    what follows its header (indefinite length) or the element.  The result is
    what is left of it; [rec] is the recursive call. *)
Definition convert_contents (rec : CBS -> handle -> Z -> bool -> cbb_op CBS)
    (out_contents : handle) (child_string_tag : Z) (e : element) (inp : CBS) : cbb_op CBS :=
  if el_indefinite e then rec inp out_contents child_string_tag true
  else match CBS_skip (el_header_len e) (el_cbs e) with
       | (None, _) => pfail
       | (Some _, contents) =>
           let* _ := (if is_constructed (el_tag e) then
                        let* _ := rec contents out_contents child_string_tag false in pret tt
                      else CBB_add_bytes out_contents contents) in
           pret inp
       end.

(** One round of the loop of [cbs_convert_ber]; both ways end with the flush. *)
Definition convert_element (rec : CBS -> handle -> Z -> bool -> cbb_op CBS) (out : handle)
    (string_tag : Z) (e : element) (inp : CBS) : cbb_op CBS :=
  with_local (fun storage =>
    let* '(out_contents, child_string_tag) := convert_target out storage string_tag (el_tag e) in
    let* inp := convert_contents rec out_contents child_string_tag e inp in
    let* _ := CBB_flush out in
    pret inp).

(** The result is what is left of [*in]. *)
Fixpoint convert_loop (rec : CBS -> handle -> Z -> bool -> cbb_op CBS) (out : handle)
    (string_tag : Z) (looking_for_eoc : bool) (fuel : nat) (inp : CBS) : cbb_op CBS :=
  match inp, fuel with
  | [], _ => if negb looking_for_eoc then pret [] else pfail
  | _, O => pfail
  | _, S fuel' =>
      match (if looking_for_eoc then cbs_get_eoc inp else (None, inp)) with
      | (Some _, inp') => pret inp'
      | (None, _) =>
          match CBS_get_any_ber_asn1_element inp with
          | (None, _) => pfail
          | (Some e, inp') =>
              let* inp'' := convert_element rec out string_tag e inp' in
              convert_loop rec out string_tag looking_for_eoc fuel' inp''
          end
      end
  end.

Fixpoint cbs_convert_ber (left : nat) (inp : CBS) (out : handle) (string_tag : Z)
    (looking_for_eoc : bool) : cbb_op CBS :=
  match left with
  | O => pfail
  | S left' =>
      convert_loop (cbs_convert_ber left') out string_tag looking_for_eoc (length inp) inp
  end.

(** The converted element and what is left of [*in] on success; the element is
    a window of the input if no conversion is needed, and the contents of the
    buffer [*out_storage] otherwise. *)
Definition CBS_asn1_ber_to_der (inp : CBS) : option (CBS * CBS) :=
  match cbs_find_ber (S kMaxDepth) inp with
  | None => None
  | Some false =>
      match CBS_get_any_asn1_element inp with
      | (Some (out, _, _), inp') => Some (out, inp')
      | (None, _) => None
      end
  | Some true =>
      match CBB_init (CBS_len inp) with
      | None => None
      | Some cbb =>
          match cbs_convert_ber (S kMaxDepth) inp Top 0 false cbb with
          | (None, _) => None
          | (Some inp', cbb) =>
              match fst (CBB_finish Top true true cbb) with
              | Some out => Some (out, inp')
              | None => None
              end
          end
      end
  end.

(** [while (CBS_len(&child) > 0)] of [CBS_get_asn1_implicit_string]. *)
Fixpoint implicit_string_loop (fuel : nat) (child : CBS) (inner_tag : Z) : cbb_op unit :=
  match child, fuel with
  | [], _ => pret tt
  | _, O => pfail
  | _, S fuel' =>
      match CBS_get_asn1 inner_tag child with
      | (None, _) => pfail
      | (Some chunk, child') =>
          let* _ := CBB_add_bytes Top chunk in implicit_string_loop fuel' child' inner_tag
      end
  end.

Definition CBS_get_asn1_implicit_string (outer_tag inner_tag : Z) : parser CBS := fun inp =>
  if CBS_peek_asn1_tag inp outer_tag then CBS_get_asn1 outer_tag inp
  else match CBB_init (CBS_len inp) with
       | None => (None, inp)
       | Some result =>
           match CBS_get_asn1 (Z.lor outer_tag CBS_ASN1_CONSTRUCTED) inp with
           | (None, inp') => (None, inp')
           | (Some child, inp') =>
               (fst ((let* _ := implicit_string_loop (length child) child inner_tag in
                      CBB_finish Top true true) result), inp')
           end
       end.

End ber.

(** ** BER elements *)

Lemma ber_element_tag s e s' : bytes s -> cbs_get_any_asn1_element true s = (Some e, s') ->
  valid_tag (el_tag e) /\ exists lb h2, s = der_tag (el_tag e) ++ lb :: h2 /\ byte lb /\ bytes h2.
Proof.
  intros Hs H. unfold cbs_get_any_asn1_element in H.
  destruct (parse_asn1_tag s) as [[tag|] [|lb h2]] eqn:Et; try done.
  apply parse_asn1_tag_Some in Et as [Hv Es]; [|done].
  assert (Htag : el_tag e = tag).
  { rewrite CBS_get_u8_cons in H. cbv zeta in H.
    destruct (Z.land lb 0x80 =? 0); [by parser_inv|].
    destruct (_ && _ && _); [by parser_inv|]. destruct (_ || (4 <? _)); [done|].
    destruct (cbs_get_u _ h2) as [[n|] ?]; [|done]. cbn [negb andb] in H.
    destruct (u64 _ <? n); [done|]. by parser_inv. }
  rewrite Htag. split; [done|]. exists lb, h2. split; [done|].
  rewrite Es in Hs. apply bytes_app in Hs as [_ Hs]. by apply bytes_cons_inv in Hs.
Qed.

(** An element the BER reader reports as DER is what the DER reader reads. *)
Lemma ber_element_der s e s' : bytes s -> cbs_get_any_asn1_element true s = (Some e, s') ->
  el_ber_found e = false -> cbs_get_any_asn1_element false s = (Some e, s').
Proof.
  intros Hs H Hf. destruct (ber_element_tag s e s' Hs H) as (Hv & lb & h2 & Es & Hlb & Hh2).
  revert Hv Es H. generalize (el_tag e). intros tag Hv Es H.
  rewrite (get_element_after_length_byte s tag lb h2) in * by done. cbv zeta in *.
  destruct (lb <? 128); [done|]. cbn [andb negb] in *.
  destruct (_ && (lb mod 128 =? 0)); [parser_inv; done|].
  destruct (_ || (4 <? _)); [done|]. destruct (cbs_get_u _ h2) as [[n|] ?]; [|done].
  destruct (_ || _) eqn:Eb; [parser_inv; done|]. done.
Qed.

Lemma der_element_ber s e s' : bytes s -> cbs_get_any_asn1_element false s = (Some e, s') ->
  cbs_get_any_asn1_element true s = (Some e, s').
Proof.
  intros Hs H. destruct (get_der_element_inv s e s' Hs H) as (tag & c & Hv & Hc & -> & Es).
  assert (exists lb h2, s = der_tag tag ++ lb :: h2) as (lb & h2 & Es').
  { unfold der, der_header in Es. assert (L := length_der_len (len c) ltac:(lia)).
    destruct (der_len (len c)) as [|lb l] eqn:El; [simpl in L; lia|].
    exists lb, (l ++ c ++ s'). by rewrite Es, <- !app_assoc. }
  rewrite (get_element_after_length_byte s tag lb h2) in * by done. cbv zeta in *.
  destruct (lb <? 128); [done|]. cbn [andb negb] in *.
  destruct (Z.eqb_spec (lb mod 128) 0) as [|Hk0]; [done|]. rewrite andb_false_r. cbn [orb] in *.
  destruct (4 <? _); [done|]. destruct (cbs_get_u _ h2) as [[n|] ?]; [|done].
  destruct (_ || _) eqn:Eb; [done|]. done.
Qed.

(** What the BER reader takes from its window. *)
Lemma ber_element_shape s e s' : bytes s -> cbs_get_any_asn1_element true s = (Some e, s') ->
  valid_tag (el_tag e) /\ s = el_cbs e ++ s' /\ (0 < length (el_cbs e))%nat /\
  (el_indefinite e = true -> is_constructed (el_tag e) = true).
Proof.
  intros Hs H. destruct (ber_element_tag s e s' Hs H) as (Hv & lb & h2 & Es & Hlb & Hh2).
  split; [done|]. assert (Hl := der_tag_nonempty (el_tag e)). assert (Hlb' := byte_range _ Hlb).
  assert (Get : forall n tag hl bf ind, 1 <= n -> (let* out := CBS_get_bytes n in
      pret (mk_element out tag hl bf ind)) s = (Some e, s') ->
    s = el_cbs e ++ s' /\ (0 < length (el_cbs e))%nat /\ el_indefinite e = ind).
  { intros n tag hl bf ind Hn E. parser_inv. unfold CBS_get_bytes in *.
    match goal with H : cbs_get _ _ = _ |- _ => apply cbs_get_Some in H as [-> Hx]; [|lia] end.
    simpl. split; [done|]. split; [lia|done]. }
  rewrite (get_element_after_length_byte s (el_tag e) lb h2) in H by done. cbv zeta in H.
  rewrite length_app in H. simpl length in H.
  destruct (Z.ltb_spec lb 128).
  - rewrite (wrap_small 64) in H by (unfold word; lia). apply Get in H as (? & ? & Hi); [|lia].
    split_and!; try done. by rewrite Hi.
  - cbn [andb] in H. destruct (negb _ && _) eqn:Ec.
    + apply Get in H as (? & ? & Hi); [|lia]. split_and!; try done. intros _.
      apply andb_true_iff in Ec as [Ec _]. done.
    + destruct (_ || (4 <? _)) eqn:Ek; [done|]. bool_to_prop.
      assert (Hk : 1 <= lb mod 128 <= 4) by (assert (0 <= lb mod 128) by div_lia; lia).
      destruct (cbs_get_u (lb mod 128) h2) as [[n|] h3] eqn:Eu; [|done].
      apply cbs_get_u_Some in Eu as (dd & -> & Hd & ->); [|lia|done].
      apply bytes_app in Hh2 as [Hd' _]. assert (B := len_word32 _ dd Hd' Hk Hd).
      cbn [negb andb] in H. rewrite (wrap_small 64) in H by (unfold word; lia).
      apply Get in H as (? & ? & Hi); [|lia]. split_and!; try done. by rewrite Hi.
Qed.

(** ** Walking DER *)

Lemma find_ber_loop_fuel rec f : forall g inp, bytes inp ->
  (length inp <= f)%nat -> (length inp <= g)%nat ->
  find_ber_loop rec f inp = find_ber_loop rec g inp.
Proof.
  induction f as [|f IH]; intros g inp Hb Hf Hg.
  { destruct inp; [by destruct g|simpl in Hf; lia]. }
  destruct inp as [|b inp]; [by destruct g|]. destruct g as [|g]; [simpl in Hg; lia|].
  cbn [find_ber_loop].
  destruct (CBS_get_any_ber_asn1_element (b :: inp)) as [[e|] inp'] eqn:E; [|done].
  destruct (ber_element_shape _ _ _ Hb E) as (_ & Es & Hl & _).
  assert (L := f_equal length Es). rewrite length_app in L.
  assert (Hb' : bytes inp') by (rewrite Es in Hb; by apply bytes_app in Hb as [_ ?]).
  assert (R : find_ber_loop rec f inp' = find_ber_loop rec g inp') by (apply IH; simpl in *; done || lia).
  by rewrite R.
Qed.

(** An element of DER form that needs no conversion. *)
Definition der_element_ok (left : nat) (tag : Z) (c : list Z) : Prop :=
  valid_tag tag /\ len c < 2 ^ 32 /\
  (is_constructed tag = true -> is_string_type tag = false /\ cbs_find_ber left c = Some false).

Lemma find_ber_step left tag c s : valid_tag tag -> len c < 2 ^ 32 -> bytes (der tag c ++ s) ->
  cbs_find_ber (S left) (der tag c ++ s) =
    if is_constructed tag then
      if is_string_type tag then Some true
      else match cbs_find_ber left c with
           | None => None
           | Some true => Some true
           | Some false => cbs_find_ber (S left) s
           end
    else cbs_find_ber (S left) s.
Proof.
  intros Hv Hc Hb. cbn [cbs_find_ber].
  assert (E := der_element_ber _ _ _ Hb (get_der_element_encode tag c s Hb Hv Hc)).
  destruct (ber_element_shape _ _ _ Hb E) as (_ & _ & Hl & _). cbn [el_cbs der_result] in Hl.
  destruct (der tag c ++ s) as [|b l] eqn:El.
  { apply (f_equal length) in El. rewrite length_app in El. simpl in El. lia. }
  rewrite <- El in *. rewrite (find_ber_loop_fuel _ _ (S (length (der tag c ++ s)))) by (done || lia).
  rewrite El at 1. cbn [find_ber_loop]. rewrite <- El. unfold CBS_get_any_ber_asn1_element.
  rewrite E. cbn [el_ber_found el_tag el_header_len el_cbs der_result].
  assert (Hb' : bytes s) by (by apply bytes_app in Hb as [_ ?]).
  assert (F : find_ber_loop (cbs_find_ber left) (length (der tag c ++ s)) s =
              find_ber_loop (cbs_find_ber left) (length s) s).
  { apply find_ber_loop_fuel; [done| |done]. rewrite length_app. lia. }
  rewrite El at 1. by rewrite F, CBS_skip_header.
Qed.

Lemma find_ber_der left tag c s : der_element_ok left tag c -> bytes (der tag c ++ s) ->
  cbs_find_ber (S left) (der tag c ++ s) = cbs_find_ber (S left) s.
Proof.
  intros (Hv & Hc & Hk) Hb. rewrite find_ber_step by done.
  destruct (is_constructed tag); [|done]. by destruct (Hk eq_refl) as [-> ->].
Qed.

(** The first element of an input that needs no conversion needs none. *)
Lemma find_ber_head left tag c s : valid_tag tag -> len c < 2 ^ 32 -> bytes (der tag c ++ s) ->
  cbs_find_ber (S left) (der tag c ++ s) = Some false ->
  cbs_find_ber (S left) (der tag c) = Some false.
Proof.
  intros Hv Hc Hb H. rewrite find_ber_step in H by done. rewrite <- (app_nil_r (der tag c)).
  apply bytes_app in Hb as [Hb _]. rewrite find_ber_step by (try done; by rewrite app_nil_r).
  destruct (is_constructed tag); [|done]. destruct (is_string_type tag); [done|].
  by destruct (cbs_find_ber left c) as [[]|].
Qed.

(** ** The output of the conversion is DER *)

Lemma string_type_cases tag : is_string_type tag = true ->
  valid_tag (clear_constructed tag) /\ is_constructed (clear_constructed tag) = false /\
  clear_constructed tag <> 0.
Proof.
  unfold is_string_type. intros H. apply existsb_exists in H as (t & Hin & Heq).
  apply Z.eqb_eq in Heq. rewrite Heq.
  repeat (destruct Hin as [<-|Hin]; [split; [by vm_compute; split; [|intros [[=]]]|by vm_compute]|]).
  destruct Hin.
Qed.

Section conversion.
Context `{Malloc}.

Lemma refines_run {A} fs (m : cbb_op A) Q fs' st x st' :
  refines fs m Q fs' -> rep st fs -> m st = (Some x, st') -> rep st' fs' /\ Q.
Proof. intros Hr R E. specialize (Hr st R). rewrite E in Hr. naive_solver. Qed.

(** What a successful run of a conversion from [inp] appends. *)
Definition converts (left : nat) (inp : CBS) (out : handle) (tag : Z) (m : cbb_op CBS) : Prop :=
  forall fs st rest st', bytes inp -> word 64 (len inp) -> focus out fs -> rep st fs -> m st = (Some rest, st') ->
  exists c, rep st' (append c fs) /\ bytes rest /\ (length rest <= length inp)%nat /\
    (tag = 0 -> cbs_find_ber left c = Some false).

Lemma rep_bytes st c fs : fs <> [] -> rep st (append c fs) -> bytes c.
Proof.
  intros Hne R. assert (B := bytes_content _ (rep_ok _ _ R)).
  rewrite (rep_content _ _ R), flat_append, bytes_app in B by done. naive_solver.
Qed.

(** The contents of one element, wherever they go. *)
Lemma convert_contents_Some rec left out ctag e inp fs st rest st' :
  (forall i o t b, converts left i o t (rec i o t b)) ->
  bytes inp -> word 64 (len inp) -> bytes (el_cbs e) -> word 64 (len (el_cbs e)) ->
  focus out fs -> rep st fs ->
  (el_indefinite e = true -> is_constructed (el_tag e) = true) ->
  convert_contents rec out ctag e inp st = (Some rest, st') ->
  exists c, rep st' (append c fs) /\ bytes rest /\ (length rest <= length inp)%nat /\
    (ctag = 0 -> is_constructed (el_tag e) = true -> cbs_find_ber left c = Some false).
Proof.
  intros Hrec Hi Hiw He Hw Hf R Hind. unfold convert_contents. destruct (el_indefinite e).
  - intros E. destruct (Hrec _ _ _ _ fs _ _ _ Hi Hiw Hf R E) as (c & ? & ? & ? & ?). exists c. auto.
  - assert (Hskip : forall u l, CBS_skip (el_header_len e) (el_cbs e) = (Some u, l) ->
      bytes l /\ (length l <= length (el_cbs e))%nat).
    { intros u l E. unfold CBS_skip in E. parser_inv.
      destruct (ok_suffix _ _ _ E0) as [p Ep] || destruct (ok_suffix _ _ _ E) as [p Ep].
      rewrite Ep in *. apply bytes_app in He as [_ ?]. rewrite length_app. split; [done|lia]. }
    destruct (CBS_skip (el_header_len e) (el_cbs e)) as [[u|] contents] eqn:Es; [|done].
    destruct (Hskip u contents eq_refl) as [Hcb Hcl]. intros E.
    apply pbind_Some in E as (? & st1 & E & Ep). apply pret_Some in Ep as [-> ->].
    destruct (is_constructed (el_tag e)).
    + apply pbind_Some in E as (r & st2 & E & Ep). apply pret_Some in Ep as [_ ->].
      destruct (Hrec _ _ _ _ fs _ _ _ Hcb ltac:(unfold word in *; lia) Hf R E) as (c & ? & ? & ? & ?). exists c. auto.
    + eapply refines_run in E as [R1 _]; [|apply (refines_bytes fs out contents); try done|done].
      * exists contents. split_and!; done || lia.
      * unfold word in *. lia.
Qed.

Lemma focus_position h fs : focus h fs -> position h fs = Some (length fs - 1)%nat /\ fs <> [].
Proof. done. Qed.

Lemma close_focus h fs : focus h fs -> close (length fs - 1) fs = fs.
Proof. intros [_ Hne]. apply close_last. destruct fs; [done|simpl; lia]. Qed.

(** One element: it is appended in a form that needs no further conversion. *)
Lemma convert_element_Some rec left out tag e inp fs st rest st' :
  (forall i o t b, converts left i o t (rec i o t b)) ->
  bytes inp -> word 64 (len inp) -> bytes (el_cbs e) -> word 64 (len (el_cbs e)) ->
  focus out fs -> rep st fs ->
  valid_tag (el_tag e) -> (el_indefinite e = true -> is_constructed (el_tag e) = true) ->
  convert_element rec out tag e inp st = (Some rest, st') ->
  exists c, rep st' (append c fs) /\ bytes rest /\ (length rest <= length inp)%nat /\
    (tag = 0 -> forall s, bytes s -> cbs_find_ber (S left) (c ++ s) = cbs_find_ber (S left) s).
Proof.
  intros Hrec Hi Hiw He Hw Hf R Hv Hind E. unfold convert_element, with_local in E.
  apply pbind_Some in E as ([oc ctag] & st1 & Et & E).
  apply pbind_Some in E as (r & st2 & Ec & E). apply pbind_Some in E as (? & st3 & Efl & E).
  apply pret_Some in E as [-> ->]. unfold convert_target in Et.
  destruct (Z.eqb_spec tag 0) as [->|Hne]; cbn [negb] in Et.
  - set (p := if is_constructed (el_tag e) && is_string_type (el_tag e) then _ else _) in Et.
    assert (Hp : valid_tag (fst p) /\ (is_constructed (fst p) = true ->
      is_string_type (fst p) = false /\ snd p = 0 /\ is_constructed (el_tag e) = true)).
    { subst p. destruct (is_constructed (el_tag e)) eqn:Eco; cbn [andb fst snd].
      - destruct (is_string_type (el_tag e)) eqn:Est; cbn [fst snd]; [|done].
        destruct (string_type_cases _ Est) as (H1 & H2 & _). by rewrite H2.
      - split; [done|]. by rewrite Eco. }
    clearbody p. destruct p as [out_tag ct]. cbn [fst snd] in Hp. destruct Hp as [Hvo Hco].
    apply pbind_Some in Et as (? & st0 & Ea & Et). apply pret_Some in Et as [[= -> ->] ->].
    destruct (focus_position _ _ Hf) as [Hpos Hfne].
    assert (Ra : rep st0 (append (der_tag out_tag) fs ++ [mk_frame (stack_addr st) Asn1 []])).
    { eapply refines_run in Ea as [Ra _]; [|apply refines_add_asn1; [done|done|apply Hvo]|done].
      by rewrite (close_focus _ _ Hf) in Ra. }
    assert (Hfa : focus (Child (stack_addr st)) (append (der_tag out_tag) fs ++ [mk_frame (stack_addr st) Asn1 []])).
    { apply focus_push; [by apply append_ne|]. rewrite addrs_append.
      assert (F := fresh_close st fs (length fs - 1) R). by rewrite (close_focus _ _ Hf) in F. }
    eapply convert_contents_Some in Ec as (c & Rc & Hr & Hl & Hder); try done.
    rewrite append_push in Rc. unfold add_contents in Rc. simpl in Rc.
    eapply refines_run in Efl as [R3 Q]; [|eapply (refines_close_asn1 fs out); [done|done]|
      by rewrite (close_focus _ _ Hf)].
    rewrite (close_focus _ _ Hf) in R3. exists (der out_tag c). split; [done|]. split; [done|].
    split; [done|]. intros _ s Hs. apply Is_true_true, Z.leb_le in Q.
    apply find_ber_der.
    + split; [done|]. split; [lia|]. intros Hc'. destruct (Hco Hc') as (H1 & H2 & H3). auto.
    + apply bytes_app_2; [by eapply rep_bytes|done].
  - apply pbind_Some in Et as (? & st0 & Eg & Et). apply pguard_Some in Eg as [_ ->].
    apply pret_Some in Et as [[= -> ->] ->].
    eapply convert_contents_Some in Ec as (c & Rc & Hr & Hl & _); try done.
    eapply refines_run in Efl as [R3 _]; [|apply refines_flush_focus; by apply focus_append|done].
    exists c. split; [done|]. split; [done|]. split; [done|]. by intros ->.
Qed.

Lemma convert_loop_Some rec left out tag eoc :
  (forall i o t b, converts left i o t (rec i o t b)) ->
  forall fuel inp,
  converts (S left) inp out tag (convert_loop rec out tag eoc fuel inp).
Proof.
  intros Hrec. induction fuel as [|fuel IH]; intros inp fs st rest st' Hb Hlen Hf R E.
  { destruct inp; cbn [convert_loop] in E; [|done]. destruct eoc; [done|]. injection E as <- <-.
    exists []. rewrite append_nil. split_and!; done || apply bytes_nil. }
  destruct inp as [|b inp]; cbn [convert_loop] in E.
  { destruct eoc; [done|]. injection E as <- <-. exists []. rewrite append_nil.
    split_and!; done || apply bytes_nil. }
  set (p := if eoc then _ else _) in E.
  assert (Hp : match p with
               | (Some _, i) => bytes i /\ (length i <= length (b :: inp))%nat
               | _ => True end).
  { subst p. destruct eoc; [|done]. unfold cbs_get_eoc.
    destruct b as [| |]; try done. destruct inp as [|[| |] inp]; try done.
    apply bytes_cons_inv in Hb as [_ Hb]. apply bytes_cons_inv in Hb as [_ Hb].
    change (CBS_skip 2 (0 :: 0 :: inp)) with
      ((let* _ := cbs_get 2 in pret tt) ([0; 0] ++ inp)).
    rewrite (pbind_step _ _ _ [0; 0] inp) by (by apply cbs_get_app). simpl. split; [done|lia]. }
  clearbody p. destruct p as [[u|] i].
  { injection E as <- <-. exists []. rewrite append_nil. destruct Hp. split_and!; try done. }
  destruct (CBS_get_any_ber_asn1_element (b :: inp)) as [[e|] inp'] eqn:Ee; [|done].
  destruct (ber_element_shape _ _ _ Hb Ee) as (Hv & Es & Hl & Hind).
  apply pbind_Some in E as (r & st1 & E1 & E2).
  assert (L := f_equal length Es). rewrite length_app in L.
  rewrite Es in Hb. apply bytes_app in Hb as [Hb1 Hb2].
  eapply convert_element_Some in E1 as (c & Rc & Hr & Hrl & Hc); try done.
  2,3: unfold word in *; simpl in *; lia.
  destruct (IH r (append c fs) st1 rest st' Hr ltac:(unfold word in *; simpl in *; lia)
    (focus_append _ _ _ Hf) Rc E2) as (c2 & R2 & Hr2 & Hl2 & Hc2).
  rewrite append_append in R2. exists (c ++ c2). split; [done|]. split; [done|].
  split; [simpl in *; lia|]. intros Ht. rewrite Hc; [by apply Hc2|done|].
  assert (B := rep_bytes _ _ _ (proj2 Hf) R2). by apply bytes_app in B as [_ ?].
Qed.

Lemma convert_ber_Some left : forall inp out tag eoc,
  converts left inp out tag (cbs_convert_ber left inp out tag eoc).
Proof.
  induction left as [|left IH]; intros inp out tag eoc; cbn [cbs_convert_ber].
  - intros fs st rest st' _ _ _ _ E. done.
  - by apply convert_loop_Some.
Qed.

(** What [CBS_asn1_ber_to_der] returns needs no further conversion: a
    walk over the output finds no indefinite length, no long-form length that
    is not minimal and no constructed string, at any depth. *)
Theorem ber_to_der_is_der inp out rest : bytes inp -> word 64 (len inp) ->
  CBS_asn1_ber_to_der inp = Some (out, rest) ->
  cbs_find_ber (S kMaxDepth) out = Some false /\ bytes out.
Proof.
  intros Hb Hw E. unfold CBS_asn1_ber_to_der in E.
  destruct (cbs_find_ber (S kMaxDepth) inp) as [[]|] eqn:Hf; [| |done].
  2: { destruct (CBS_get_any_asn1_element inp) as [[[[o t] hl]|] inp'] eqn:Eg; [|done].
       injection E as -> ->. apply get_any_asn1_element_Some in Eg as (c & Hv & Hc & -> & _ & ->);
         [|done]. split; [by eapply find_ber_head|]. by apply bytes_app in Hb as [? _]. }
  destruct (CBB_init (CBS_len inp)) as [cbb|] eqn:Ei; [|done].
  assert (R : rep cbb [mk_frame 0 (Fixed 0) []]).
  { unfold CBB_init in Ei. destruct (OPENSSL_malloc (CBS_len inp)) as [b|] eqn:Em.
    - injection Ei as <-. apply OPENSSL_malloc_Some in Em as [E1 E2]; [|done].
      apply rep_init; [done|apply Hw|done].
    - destruct (Z.ltb_spec 0 (CBS_len inp)); [done|]. injection Ei as <-. destruct Hw.
      unfold CBS_len in *. apply rep_init; [simpl; lia|lia|apply bytes_nil]. }
  destruct (cbs_convert_ber _ inp Top 0 false cbb) as [[r|] st1] eqn:Ec; [|done].
  apply (convert_ber_Some _ inp Top 0 false [mk_frame 0 (Fixed 0) []]) in Ec
    as (c & Rc & Hr & Hl & Hc); [|done|done|done|done].
  assert (F := finish_rep st1 _ Rc). destruct (fst (CBB_finish Top true true st1)) as [o|]; [|done].
  injection E as -> ->. destruct F as [-> _].
  assert (Ef : flat (close 0 (append c [mk_frame 0 (Fixed 0) []])) = c)
    by (simpl; by rewrite !app_nil_r).
  rewrite Ef. split; [by apply Hc|]. by apply (rep_bytes st1 c [mk_frame 0 (Fixed 0) []]).
Qed.

End conversion.

(** A constructed, indefinite-length OCTET STRING inside an indefinite-length
    SEQUENCE. *)
Definition ber_example : list Z :=
  [0x30; 0x80; 0x24; 0x80; 4; 2; 1; 2; 4; 1; 3; 0; 0; 0; 0].
Definition der_example : list Z := [0x30; 5; 4; 3; 1; 2; 3].

Lemma ber_to_der_is_der_witness :
  @CBS_asn1_ber_to_der zero_malloc ber_example = Some (der_example, []) /\
  cbs_find_ber (S kMaxDepth) der_example = Some false.
Proof.
  split; [by vm_compute|].
  apply (@ber_to_der_is_der zero_malloc ber_example der_example []);
    [unfold ber_example; byte_list|by vm_compute|by vm_compute].
Defined.
