(* ===== verification/Base64.v ===== *)
(** * Base64

    Model of crypto/base64/base64.cc.  What a function writes to [out] or [dst]
    is the list it returns, without the terminating NUL of the encoders;
    [EVP_ENCODE_CTX] is a record whose [data] holds the [data_used] valid
    bytes of the 48-byte array.  Characters are their ASCII codes. *)

From S2P Require Import Prelude Internal.
Import Consttime.

(** ** Constant-time character classes *)

Definition constant_time_lt_args_8 (a b : Z) : Z := u8 (constant_time_msb_w (u64 (a - b))).

Definition constant_time_in_range_8 (a min max : Z) : Z :=
  constant_time_lt_args_8 (u8 (a - min)) (u8 (max - min + 1)).

(** ** Encoding *)

Definition conv_bin2ascii (a : Z) : Z :=
  let a := Z.land (u8 a) 0x3f in
  let ret := constant_time_select_8 (constant_time_eq_8 a 62) 43 47 in
  let ret := constant_time_select_8 (constant_time_lt_args_8 a 62) (u8 (a - 52 + 48)) ret in
  let ret := constant_time_select_8 (constant_time_lt_args_8 a 52) (u8 (a - 26 + 97)) ret in
  constant_time_select_8 (constant_time_lt_args_8 a 26) (u8 (a + 65)) ret.

Definition EVP_EncodedLength (n : Z) : option Z :=
  if u64 (n + 2) <? n then None
  else
    let n := u64 (n + 2) / 3 in
    if negb (Z.shiftr (u64 (Z.shiftl n 2)) 2 =? n) then None
    else
      let n := u64 (Z.shiftl n 2) in
      if u64 (n + 1) <? n then None else Some (u64 (n + 1)).

Record EVP_ENCODE_CTX := mk_ctx {
  data : list Z; eof_seen : bool; error_encountered : bool
}.

(** [sizeof(ctx->data)] *)
Definition sizeof_data : nat := 48.

Definition EVP_EncodeInit : EVP_ENCODE_CTX := mk_ctx [] false false.
Definition EVP_DecodeInit : EVP_ENCODE_CTX := mk_ctx [] false false.

(** The loop of [EVP_EncodeBlock], three bytes per round. *)
Fixpoint EVP_EncodeBlock (src : list Z) : list Z :=
  match src with
  | [] => []
  | [a] =>
      let l := Z.shiftl a 16 in
      [conv_bin2ascii (Z.shiftr l 18); conv_bin2ascii (Z.shiftr l 12); 61; 61]
  | [a; b] =>
      let l := Z.lor (Z.shiftl a 16) (Z.shiftl b 8) in
      [conv_bin2ascii (Z.shiftr l 18); conv_bin2ascii (Z.shiftr l 12);
       conv_bin2ascii (Z.shiftr l 6); 61]
  | a :: b :: c :: src' =>
      let l := Z.lor (Z.lor (Z.shiftl a 16) (Z.shiftl b 8)) c in
      conv_bin2ascii (Z.shiftr l 18) :: conv_bin2ascii (Z.shiftr l 12) ::
      conv_bin2ascii (Z.shiftr l 6) :: conv_bin2ascii l :: EVP_EncodeBlock src'
  end.

(** [while (in_len >= sizeof(ctx->data))]: the bytes written, [total] and the
    rest of the input; [None] is the overflow of [total].  Every round
    consumes 48 bytes, so the length of the input is enough fuel. *)
Fixpoint encode_lines_loop (fuel : nat) (inp : list Z) (total : Z) : option (list Z * Z * list Z) :=
  match fuel with
  | O => Some ([], total, inp)
  | S fuel' =>
      if (sizeof_data <=? length inp)%nat then
        let line := EVP_EncodeBlock (take sizeof_data inp) in
        let encoded := len line in
        if u64 (total + encoded + 1) <? total then None
        else match encode_lines_loop fuel' (drop sizeof_data inp) (u64 (total + encoded + 1)) with
             | None => None
             | Some (out, total, rest) => Some (line ++ 10 :: out, total, rest)
             end
      else Some ([], total, inp)
  end.

(** The new context, the bytes written and [*out_len]. *)
Definition EVP_EncodeUpdate (ctx : EVP_ENCODE_CTX) (inp : list Z) :
    EVP_ENCODE_CTX * list Z * Z :=
  let with_data d := mk_ctx d (eof_seen ctx) (error_encountered ctx) in
  if (length inp =? 0)%nat then (ctx, [], 0)
  else if (length inp <? sizeof_data - length (data ctx))%nat then
    (with_data (data ctx ++ inp), [], 0)
  else
    let '(first, total, inp) :=
      if negb (length (data ctx) =? 0)%nat then
        let todo := (sizeof_data - length (data ctx))%nat in
        let line := EVP_EncodeBlock (data ctx ++ take todo inp) in
        (line ++ [10], len line + 1, drop todo inp)
      else ([], 0, inp) in
    match encode_lines_loop (length inp) inp total with
    | None => (with_data [], first, 0)
    | Some (out, total, rest) =>
        (with_data rest, first ++ out, if INT_MAX <? total then 0 else total)
    end.

Definition EVP_EncodeFinal (ctx : EVP_ENCODE_CTX) : EVP_ENCODE_CTX * list Z * Z :=
  if (length (data ctx) =? 0)%nat then (ctx, [], 0)
  else
    let out := EVP_EncodeBlock (data ctx) ++ [10] in
    (mk_ctx [] (eof_seen ctx) (error_encountered ctx), out, len out).

(** ** Decoding *)

Definition EVP_DecodedLength (n : Z) : option Z :=
  if negb (n mod 4 =? 0) then None else Some (n / 4 * 3).

Definition base64_ascii_to_bin (a : Z) : Z :=
  let is_upper := constant_time_in_range_8 a 65 90 in
  let is_lower := constant_time_in_range_8 a 97 122 in
  let is_digit := constant_time_in_range_8 a 48 57 in
  let is_plus := constant_time_eq_8 a 43 in
  let is_slash := constant_time_eq_8 a 47 in
  let is_equals := constant_time_eq_8 a 61 in
  let ret := 0 in
  let ret := u8 (Z.lor ret (Z.land is_upper (a - 65))) in
  let ret := u8 (Z.lor ret (Z.land is_lower (a - 97 + 26))) in
  let ret := u8 (Z.lor ret (Z.land is_digit (a - 48 + 52))) in
  let ret := u8 (Z.lor ret (Z.land is_plus 62)) in
  let ret := u8 (Z.lor ret (Z.land is_slash 63)) in
  let is_valid := Z.lor (Z.lor (Z.lor (Z.lor (Z.lor is_upper is_lower) is_digit) is_plus)
                    is_slash) is_equals in
  u8 (Z.lor ret (Z.lnot is_valid)).

(** [(in[i] == '=') << k] *)
Definition pad_bit (c k : Z) : Z := if c =? 61 then Z.shiftl 1 k else 0.

(** The bytes written to [out]; their number is [*out_num_bytes]. *)
Definition base64_decode_quad (i0 i1 i2 i3 : Z) : option (list Z) :=
  let a := base64_ascii_to_bin i0 in
  let b := base64_ascii_to_bin i1 in
  let c := base64_ascii_to_bin i2 in
  let d := base64_ascii_to_bin i3 in
  if (a =? 0xff) || (b =? 0xff) || (c =? 0xff) || (d =? 0xff) then None
  else
    let v := Z.lor (Z.lor (Z.lor (Z.shiftl a 18) (Z.shiftl b 12)) (Z.shiftl c 6)) d in
    let padding_pattern :=
      Z.lor (Z.lor (Z.lor (pad_bit i0 3) (pad_bit i1 2)) (pad_bit i2 1)) (pad_bit i3 0) in
    match padding_pattern with
    | 0 => Some [u8 (Z.shiftr v 16); u8 (Z.shiftr v 8); u8 v]
    | 1 => Some [u8 (Z.shiftr v 16); u8 (Z.shiftr v 8)]
    | 3 => Some [u8 (Z.shiftr v 16)]
    | _ => None
    end.

Definition is_space (c : Z) : bool := (c =? 32) || (c =? 9) || (c =? 13) || (c =? 10).

(** The loop of [EVP_DecodeUpdate]: [inl] is the early return of -1. *)
Fixpoint decode_update_loop (ctx : EVP_ENCODE_CTX) (inp : list Z) (out : list Z) :
    EVP_ENCODE_CTX + EVP_ENCODE_CTX * list Z :=
  match inp with
  | [] => inr (ctx, out)
  | c :: inp' =>
      if is_space c then decode_update_loop ctx inp' out
      else if eof_seen ctx then inl (mk_ctx (data ctx) (eof_seen ctx) true)
      else
        let d := data ctx ++ [c] in
        match d with
        | [i0; i1; i2; i3] =>
            match base64_decode_quad i0 i1 i2 i3 with
            | None => inl (mk_ctx d (eof_seen ctx) true)
            | Some q =>
                decode_update_loop
                  (mk_ctx [] (if len q <? 3 then true else eof_seen ctx) (error_encountered ctx))
                  inp' (out ++ q)
            end
        | _ => decode_update_loop (mk_ctx d (eof_seen ctx) (error_encountered ctx)) inp' out
        end
  end.

(** The new context, the bytes written, [*out_len] and the return value. *)
Definition EVP_DecodeUpdate (ctx : EVP_ENCODE_CTX) (inp : list Z) :
    EVP_ENCODE_CTX * list Z * Z * Z :=
  if error_encountered ctx then (ctx, [], 0, -1)
  else match decode_update_loop ctx inp [] with
       | inl ctx => (ctx, [], 0, -1)
       | inr (ctx, out) =>
           if INT_MAX <? len out then (mk_ctx (data ctx) (eof_seen ctx) true, out, 0, -1)
           else (ctx, out, len out, if eof_seen ctx then 0 else 1)
       end.

Definition EVP_DecodeFinal (ctx : EVP_ENCODE_CTX) : Z :=
  if error_encountered ctx || negb (length (data ctx) =? 0)%nat then -1 else 1.

(** The loop of [EVP_DecodeBase64] over the quads of the input. *)
Fixpoint decode_quads (inp : list Z) : option (list Z) :=
  match inp with
  | [] => Some []
  | i0 :: i1 :: i2 :: i3 :: inp' =>
      match base64_decode_quad i0 i1 i2 i3 with
      | None => None
      | Some q =>
          if negb (len q =? 3) && negb (length inp' =? 0)%nat then None
          else match decode_quads inp' with Some out => Some (q ++ out) | None => None end
      end
  | _ => None
  end.

Definition EVP_DecodeBase64 (max_out : Z) (inp : list Z) : option (list Z) :=
  if negb (len inp mod 4 =? 0) then None
  else match EVP_DecodedLength (len inp) with
       | None => None
       | Some max_len => if max_out <? max_len then None else decode_quads inp
       end.

(** The two trimming loops of [EVP_DecodeBlock]. *)
Fixpoint trim_front (src : list Z) : list Z :=
  match src with
  | [] => []
  | c :: src' => if negb (c =? 32) && negb (c =? 9) then src else trim_front src'
  end.
Fixpoint drop_spaces (rsrc : list Z) : list Z :=
  match rsrc with
  | [] => []
  | c :: rsrc' => if is_space c then drop_spaces rsrc' else rsrc
  end.
Definition trim_end (src : list Z) : list Z := reverse (drop_spaces (reverse src)).

(** [while (dst_len % 3 != 0) dst[dst_len++] = 0]: at most two rounds. *)
Fixpoint pad_to_3 (fuel : nat) (dst : list Z) : list Z :=
  match fuel with
  | O => dst
  | S fuel' => if negb (len dst mod 3 =? 0) then pad_to_3 fuel' (dst ++ [0]) else dst
  end.

Definition EVP_DecodeBlock (src : list Z) : option (list Z) :=
  let src := trim_end (trim_front src) in
  match EVP_DecodedLength (len src) with
  | None => None
  | Some dst_len =>
      if INT_MAX <? dst_len then None
      else match EVP_DecodeBase64 dst_len src with
           | None => None
           | Some dst => Some (pad_to_3 2 dst)
           end
  end.

(** ** RFC 4648 *)

(** The character of a 6-bit value. *)
Definition alphabet (v : Z) : Z :=
  if v <? 26 then 65 + v else if v <? 52 then 97 + (v - 26)
  else if v <? 62 then 48 + (v - 52) else if v =? 62 then 43 else 47.

Lemma conv_bin2ascii_alphabet v : conv_bin2ascii v = alphabet (v mod 64).
Proof.
  assert (E : conv_bin2ascii v = conv_bin2ascii (v mod 256)).
  { unfold conv_bin2ascii, wrap. by rewrite Z.mod_mod. }
  rewrite E. replace (v mod 64) with ((v mod 256) mod 64) by div_lia.
  apply Z.eqb_eq. apply (all_from_spec 256 0 (fun v => conv_bin2ascii v =? alphabet (v mod 64)));
    [by vm_compute|]. assert (B := Z.mod_pos_bound v 256). lia.
Qed.

(** The decoder inverts the alphabet and rejects everything else but [=]. *)
Lemma ascii_to_bin_alphabet v : 0 <= v < 64 -> base64_ascii_to_bin (alphabet v) = v.
Proof.
  intros Hv. apply Z.eqb_eq.
  apply (all_from_spec 64 0 (fun v => base64_ascii_to_bin (alphabet v) =? v)); [by vm_compute|lia].
Qed.

Lemma ascii_to_bin_cases c : byte c ->
  (exists v, 0 <= v < 64 /\ c = alphabet v) \/ c = 61 \/ base64_ascii_to_bin c = 0xff.
Proof.
  intros Hc. apply byte_range in Hc.
  assert (A := all_from_spec 256 0 (fun c =>
    let v := base64_ascii_to_bin c in
    ((0 <=? v) && (v <? 64) && (alphabet v =? c)) || (c =? 61) || (v =? 0xff)) c).
  specialize (A ltac:(by vm_compute) ltac:(lia)). cbv beta zeta in A.
  apply orb_true_iff in A as [A|A]; [apply orb_true_iff in A as [A|A]|]; bool_to_prop; [left|auto|auto].
  exists (base64_ascii_to_bin c). done.
Qed.

Lemma alphabet_not_pad v : 0 <= v < 64 -> (alphabet v =? 61) = false /\ byte (alphabet v) /\
  is_space (alphabet v) = false.
Proof.
  intros Hv. assert (A := all_from_spec 64 0 (fun v =>
    negb (alphabet v =? 61) && (0 <=? alphabet v) && (alphabet v <? 256) && negb (is_space (alphabet v))) v).
  specialize (A ltac:(by vm_compute) ltac:(lia)). cbv beta in A. bool_to_prop.
  split_and!; try done. by apply Z.eqb_neq.
Qed.

Lemma alphabet_eqb_61 v : 0 <= v < 64 -> (alphabet v =? 61) = false.
Proof. intros Hv. by apply alphabet_not_pad. Qed.

Lemma lor_sextets a b c d : 0 <= a -> 0 <= b < 64 -> 0 <= c < 64 -> 0 <= d < 64 ->
  Z.lor (Z.lor (Z.lor (Z.shiftl a 18) (Z.shiftl b 12)) (Z.shiftl c 6)) d =
  a * 262144 + b * 4096 + c * 64 + d.
Proof.
  intros Ha Hb Hc Hd.
  change 18 with (6 + 12). change 12 with (6 + 6). rewrite <- !Z.shiftl_shiftl by lia.
  rewrite <- !Z.shiftl_lor. rewrite !lor_shiftl_add by (lia || done). lia.
Qed.

Lemma lor_octets a b c : 0 <= a -> byte b -> byte c ->
  Z.lor (Z.lor (Z.shiftl a 16) (Z.shiftl b 8)) c = a * 65536 + b * 256 + c.
Proof.
  intros Ha Hb Hc. change 16 with (8 + 8). rewrite <- Z.shiftl_shiftl by lia.
  rewrite <- Z.shiftl_lor, !lor_shiftl_add by (lia || done). lia.
Qed.

(** The three kinds of quads the decoder accepts. *)
Lemma decode_quad_full v0 v1 v2 v3 : 0 <= v0 < 64 -> 0 <= v1 < 64 -> 0 <= v2 < 64 -> 0 <= v3 < 64 ->
  let v := v0 * 262144 + v1 * 4096 + v2 * 64 + v3 in
  base64_decode_quad (alphabet v0) (alphabet v1) (alphabet v2) (alphabet v3) =
  Some [v / 65536; v / 256 mod 256; v mod 256].
Proof.
  intros H0 H1 H2 H3 v. unfold base64_decode_quad, pad_bit. rewrite !ascii_to_bin_alphabet by done.
  rewrite !alphabet_eqb_61 by done. rewrite lor_sextets by lia.
  assert (E : (v0 =? 255) || (v1 =? 255) || (v2 =? 255) || (v3 =? 255) = false) by lia.
  rewrite E. simpl. fold v. rewrite !Z.shiftr_div_pow2 by lia. unfold wrap.
  rewrite (Z.mod_small (v / 2 ^ 16)) by (subst v; div_lia). done.
Qed.

Lemma decode_quad_2 v0 v1 v2 : 0 <= v0 < 64 -> 0 <= v1 < 64 -> 0 <= v2 < 64 ->
  let v := v0 * 262144 + v1 * 4096 + v2 * 64 in
  base64_decode_quad (alphabet v0) (alphabet v1) (alphabet v2) 61 = Some [v / 65536; v / 256 mod 256].
Proof.
  intros H0 H1 H2 v. unfold base64_decode_quad, pad_bit. rewrite !ascii_to_bin_alphabet by done.
  rewrite !alphabet_eqb_61 by done. change (base64_ascii_to_bin 61) with 0.
  rewrite lor_sextets by lia.
  assert (E : (v0 =? 255) || (v1 =? 255) || (v2 =? 255) || (0 =? 255) = false) by lia.
  rewrite E. simpl. rewrite Z.add_0_r. fold v. rewrite !Z.shiftr_div_pow2 by lia. unfold wrap.
  rewrite (Z.mod_small (v / 2 ^ 16)) by (subst v; div_lia). done.
Qed.

Lemma decode_quad_1 v0 v1 : 0 <= v0 < 64 -> 0 <= v1 < 64 ->
  base64_decode_quad (alphabet v0) (alphabet v1) 61 61 = Some [(v0 * 64 + v1) / 16].
Proof.
  intros H0 H1. unfold base64_decode_quad, pad_bit. rewrite !ascii_to_bin_alphabet by done.
  rewrite !alphabet_eqb_61 by done. change (base64_ascii_to_bin 61) with 0.
  rewrite lor_sextets by lia.
  assert (E : (v0 =? 255) || (v1 =? 255) || (0 =? 255) || (0 =? 255) = false) by lia.
  rewrite E. simpl. rewrite !Z.shiftr_div_pow2 by lia. unfold wrap.
  do 2 f_equal. div_lia.
Qed.

(** The encoder in terms of sextets. *)
Lemma encode_block_3 a b c src : byte a -> byte b -> byte c ->
  let l := a * 65536 + b * 256 + c in
  EVP_EncodeBlock (a :: b :: c :: src) =
  [alphabet (l / 262144); alphabet (l / 4096 mod 64); alphabet (l / 64 mod 64); alphabet (l mod 64)]
    ++ EVP_EncodeBlock src.
Proof.
  intros Ha Hb Hc l. cbn [EVP_EncodeBlock]. rewrite lor_octets by (done || apply Ha). fold l.
  rewrite !conv_bin2ascii_alphabet, !Z.shiftr_div_pow2 by lia.
  apply byte_range in Ha, Hb, Hc.
  by rewrite (Z.mod_small (l / 2 ^ 18)) by (subst l; div_lia).
Qed.

Lemma encode_block_2 a b : byte a -> byte b ->
  let l := a * 65536 + b * 256 in
  EVP_EncodeBlock [a; b] =
  [alphabet (l / 262144); alphabet (l / 4096 mod 64); alphabet (l / 64 mod 64); 61].
Proof.
  intros Ha Hb l. cbn [EVP_EncodeBlock]. rewrite <- (Z.lor_0_r (Z.lor _ _)).
  rewrite lor_octets by (done || apply Ha || by vm_compute). rewrite Z.add_0_r. fold l.
  rewrite !conv_bin2ascii_alphabet, !Z.shiftr_div_pow2 by lia.
  apply byte_range in Ha, Hb. by rewrite (Z.mod_small (l / 2 ^ 18)) by (subst l; div_lia).
Qed.

Lemma encode_block_1 a : byte a ->
  EVP_EncodeBlock [a] = [alphabet (a / 4); alphabet (a * 16 mod 64); 61; 61].
Proof.
  intros Ha. cbn [EVP_EncodeBlock]. apply byte_range in Ha.
  rewrite !conv_bin2ascii_alphabet, Z.shiftl_mul_pow2, !Z.shiftr_div_pow2 by lia.
  replace ((a * 2 ^ 16 / 2 ^ 18) mod 64) with (a / 4) by div_lia.
  by replace ((a * 2 ^ 16 / 2 ^ 12) mod 64) with (a * 16 mod 64) by div_lia.
Qed.

(** Induction in steps of three. *)
Lemma list_ind_3 {A} (P : list A -> Prop) :
  P [] -> (forall a, P [a]) -> (forall a b, P [a; b]) ->
  (forall a b c l, P l -> P (a :: b :: c :: l)) -> forall l, P l.
Proof.
  intros H0 H1 H2 H3. fix IH 1. intros [|a [|b [|c l]]]; [done|apply H1|apply H2|].
  apply H3, IH.
Qed.

Lemma length_encode_block src : len (EVP_EncodeBlock src) = (len src + 2) / 3 * 4.
Proof.
  induction src as [| | |a b c l IH] using list_ind_3; try done.
  cbn [EVP_EncodeBlock length]. rewrite !Nat2Z.inj_succ, IH. div_lia.
Qed.

Lemma decode_encode_block src : bytes src -> decode_quads (EVP_EncodeBlock src) = Some src.
Proof.
  induction src as [|a|a b|a b c l IH] using list_ind_3; intros Hs.
  - done.
  - apply bytes_cons_inv in Hs as [Ha _]. rewrite encode_block_1 by done. apply byte_range in Ha.
    cbn [decode_quads]. rewrite decode_quad_1 by div_lia. simpl. do 2 f_equal. div_lia.
  - apply bytes_cons_inv in Hs as [Ha Hs]. apply bytes_cons_inv in Hs as [Hb _].
    rewrite encode_block_2 by done. apply byte_range in Ha, Hb.
    cbn [decode_quads]. rewrite decode_quad_2 by div_lia. simpl. do 2 f_equal; [|f_equal]; div_lia.
  - apply bytes_cons_inv in Hs as [Ha Hs]. apply bytes_cons_inv in Hs as [Hb Hs].
    apply bytes_cons_inv in Hs as [Hc Hs]. rewrite encode_block_3 by done.
    apply byte_range in Ha, Hb, Hc. cbn [app decode_quads]. rewrite decode_quad_full by div_lia.
    simpl andb. rewrite IH by done. cbn [app]. do 2 f_equal; [|f_equal; [|f_equal]]; div_lia.
Qed.

Lemma bytes_encode_block src : bytes src -> bytes (EVP_EncodeBlock src).
Proof.
  assert (A : forall v, 0 <= v < 64 -> byte (alphabet v)) by (intros; by apply alphabet_not_pad).
  assert (M : forall x, byte (alphabet (x mod 64))) by (intros; by apply A, Z.mod_pos_bound).
  induction src as [|a|a b|a b c l IH] using list_ind_3; intros Hs.
  - apply bytes_nil.
  - bytes_inv Hs. rewrite encode_block_1 by done. apply byte_range in Hb.
    apply bytes_cons; [apply A; div_lia|]. apply bytes_cons; [apply M|]. byte_list.
  - bytes_inv Hs. rewrite encode_block_2 by done. apply byte_range in Hb, Hb0.
    apply bytes_cons; [apply A; div_lia|]. apply bytes_cons; [apply M|].
    apply bytes_cons; [apply M|]. byte_list.
  - bytes_inv Hs. rewrite encode_block_3 by done. apply byte_range in Hb, Hb0, Hb1.
    apply bytes_app_2; [|by apply IH]. apply bytes_cons; [apply A; div_lia|].
    repeat (apply bytes_cons; [apply M|]). apply bytes_nil.
Qed.

Lemma encoded_length_spec n : 0 <= n < 2 ^ 62 -> EVP_EncodedLength n = Some ((n + 2) / 3 * 4 + 1).
Proof.
  intros Hn. unfold EVP_EncodedLength. rewrite (wrap_small 64 (n + 2)) by (unfold word; lia).
  destruct (Z.ltb_spec (n + 2) n); [lia|].
  assert (Hq : 0 <= (n + 2) / 3 < 2 ^ 61) by div_lia. cbv zeta.
  rewrite Z.shiftl_mul_pow2 by lia. change (2 ^ 2) with 4.
  rewrite (wrap_small 64) by (unfold word; lia). rewrite Z.shiftr_div_pow2 by lia.
  change (2 ^ 2) with 4. rewrite Z.div_mul by lia. rewrite Z.eqb_refl. cbn [negb].
  rewrite (wrap_small 64) by (unfold word; lia).
  by destruct (Z.ltb_spec ((n + 2) / 3 * 4 + 1) ((n + 2) / 3 * 4)); [lia|].
Qed.

(** Encoding a block and decoding it gives the block back; the encoding
    consists of bytes and has the length [EVP_EncodedLength] announces (which
    counts the terminating NUL), and the decoder needs no more room than
    [EVP_DecodedLength] says. *)
Theorem base64_roundtrip src : bytes src -> len src < 2 ^ 62 ->
  let enc := EVP_EncodeBlock src in
  bytes enc /\ EVP_EncodedLength (len src) = Some (len enc + 1) /\
  (forall m, EVP_DecodedLength (len enc) = Some m ->
     len src <= m /\ EVP_DecodeBase64 m enc = Some src) /\
  EVP_DecodedLength (len enc) <> None.
Proof.
  intros Hs Hl enc. assert (L := length_encode_block src). fold enc in L.
  split; [by apply bytes_encode_block|]. split; [by rewrite encoded_length_spec, L by lia|].
  unfold EVP_DecodeBase64, EVP_DecodedLength.
  assert (E4 : len enc mod 4 = 0) by (rewrite L; apply Z.mod_mul; lia). rewrite E4.
  cbn [Z.eqb negb]. split; [|done]. intros m [= <-]. split; [rewrite L; div_lia|].
  rewrite Z.ltb_irrefl. by apply decode_encode_block.
Qed.

Lemma base64_roundtrip_witness :
  EVP_EncodeBlock [77; 97; 110; 33] = [84; 87; 70; 117; 73; 81; 61; 61] /\
  EVP_DecodeBase64 6 [84; 87; 70; 117; 73; 81; 61; 61] = Some [77; 97; 110; 33].
Proof.
  split; [by vm_compute|].
  destruct (base64_roundtrip [77; 97; 110; 33] ltac:(byte_list) ltac:(by vm_compute)) as (_ & _ & H & _).
  apply (H 6). by vm_compute.
Defined.

(** ** The streaming encoder *)

(** The lines of a PEM body: 48 bytes per line, the last one shorter. *)
Fixpoint pem_lines (fuel : nat) (l : list Z) : list Z :=
  match fuel, l with
  | O, _ | _, [] => []
  | S fuel', _ => EVP_EncodeBlock (take 48 l) ++ 10 :: pem_lines fuel' (drop 48 l)
  end.
Definition pem_body (l : list Z) : list Z := pem_lines (length l) l.

Lemma pem_lines_fuel f : forall g l, (length l <= f)%nat -> (length l <= g)%nat ->
  pem_lines f l = pem_lines g l.
Proof.
  induction f as [|f IH]; intros g l Hf Hg; destruct l as [|a l]; [by destruct g|simpl in Hf; lia|by destruct g|].
  destruct g as [|g]; [simpl in Hg; lia|]. cbn [pem_lines]. do 2 f_equal.
  apply IH; rewrite length_drop; simpl in *; lia.
Qed.

Lemma pem_body_step l : l <> [] -> pem_body l = EVP_EncodeBlock (take 48 l) ++ 10 :: pem_body (drop 48 l).
Proof.
  intros Hne. unfold pem_body. destruct l as [|a l]; [done|]. cbn [length pem_lines]. do 2 f_equal.
  apply pem_lines_fuel; rewrite length_drop; simpl; lia.
Qed.

Lemma pem_body_full a l : length a = 48%nat -> pem_body (a ++ l) = EVP_EncodeBlock a ++ 10 :: pem_body l.
Proof.
  intros Ha. rewrite pem_body_step by (by destruct a). by rewrite take_app_exact, drop_app_exact.
Qed.

Lemma length_line a : length a = 48%nat -> len (EVP_EncodeBlock a) = 64.
Proof. intros Ha. rewrite length_encode_block, Ha. done. Qed.

Lemma encode_lines_spec fuel : forall inp total, (length inp <= fuel)%nat ->
  0 <= total -> total + 65 * len inp < 2 ^ 64 ->
  exists out rest, encode_lines_loop fuel inp total = Some (out, total + len out, rest) /\
    (forall t, pem_body (inp ++ t) = out ++ pem_body (rest ++ t)) /\ (length rest < 48)%nat /\
    len out <= 65 * len inp.
Proof.
  induction fuel as [|fuel IH]; intros inp total Hf Ht Hb.
  - destruct inp; [|simpl in Hf; lia]. exists [], []. simpl. rewrite Z.add_0_r. split_and!; done || lia.
  - cbn [encode_lines_loop]. unfold sizeof_data. destruct (Nat.leb_spec 48 (length inp)) as [H48|H48].
    + assert (Ha : length (take 48 inp) = 48%nat) by (rewrite length_take; lia).
      assert (L := length_line _ Ha). rewrite L.
      rewrite (wrap_small 64) by (unfold word; lia). destruct (Z.ltb_spec (total + 64 + 1) total); [lia|].
      destruct (IH (drop 48 inp) (total + 64 + 1)) as (out & rest & E & E1 & Hr & Hl).
      { rewrite length_drop. lia. } { lia. } { rewrite length_drop. lia. }
      rewrite E. exists (EVP_EncodeBlock (take 48 inp) ++ 10 :: out), rest.
      rewrite length_drop in Hl. rewrite length_app. cbn [length]. split_and!; [do 3 f_equal; lia| |done|lia].
      intros t. rewrite <- (take_drop 48 inp) at 1. rewrite <- app_assoc, pem_body_full, E1 by done.
      by rewrite <- app_assoc.
    + exists [], inp. simpl. rewrite Z.add_0_r. split_and!; done || lia.
Qed.

(** One update: its output and the buffered bytes continue the body. *)
Lemma encode_update_spec ctx inp : (length (data ctx) < 48)%nat -> len inp < 2 ^ 32 ->
  exists ctx' out n, EVP_EncodeUpdate ctx inp = (ctx', out, n) /\ (length (data ctx') < 48)%nat /\
    (forall t, pem_body (data ctx ++ inp ++ t) = out ++ pem_body (data ctx' ++ t)) /\
    n = (if INT_MAX <? len out then 0 else len out).
Proof.
  intros Hd Hi. unfold EVP_EncodeUpdate, sizeof_data.
  destruct (Nat.eqb_spec (length inp) 0) as [E0|E0].
  { destruct inp; [|done]. exists ctx, [], 0. split_and!; done. }
  destruct (Nat.ltb_spec (length inp) (48 - length (data ctx))) as [Hlt|Hge].
  { eexists _, [], 0. split; [done|]. simpl. rewrite length_app. split_and!; [lia| |done].
    intros t. by rewrite <- app_assoc. }
  destruct (Nat.eqb_spec (length (data ctx)) 0) as [Ed|Ed]; cbn [negb].
  - destruct (data ctx) eqn:Edata; [|done].
    destruct (encode_lines_spec (length inp) inp 0) as (out & rest & E & E1 & Hr & Hl); try lia.
    rewrite E. eexists _, _, _. split; [done|]. simpl. split; [done|]. split; [by apply E1|done].
  - set (todo := (48 - length (data ctx))%nat).
    assert (Ha : length (data ctx ++ take todo inp) = 48%nat)
      by (rewrite length_app, length_take; lia).
    assert (L := length_line _ Ha). rewrite L.
    destruct (encode_lines_spec (length (drop todo inp)) (drop todo inp) (64 + 1))
      as (out & rest & E & E1 & Hr & Hl); try (rewrite ?length_drop; lia).
    rewrite E. eexists _, _, _. split; [done|]. simpl. split; [done|]. split.
    + intros t. rewrite <- (take_drop todo inp) at 1. rewrite <- !app_assoc.
      rewrite (app_assoc (data ctx)), pem_body_full, E1 by done. simpl. by rewrite <- ?app_assoc.
    + rewrite !length_app. simpl length. replace (64 + 1 + len out) with
        (Z.of_nat (length (EVP_EncodeBlock (data ctx ++ take todo inp)) + 1 + length out)) by lia. done.
Qed.

(** The output of a sequence of updates and the final call. *)
Fixpoint encode_stream (ctx : EVP_ENCODE_CTX) (chunks : list (list Z)) : list Z :=
  match chunks with
  | [] => snd (fst (EVP_EncodeFinal ctx))
  | inp :: chunks' =>
      let '(ctx', out, _) := EVP_EncodeUpdate ctx inp in out ++ encode_stream ctx' chunks'
  end.

Lemma encode_stream_spec chunks : forall ctx, (length (data ctx) < 48)%nat ->
  Forall (fun c => len c < 2 ^ 32) chunks ->
  encode_stream ctx chunks = pem_body (data ctx ++ mjoin chunks).
Proof.
  induction chunks as [|inp chunks IH]; intros ctx Hd Hc; cbn [encode_stream].
  - simpl. rewrite app_nil_r. unfold EVP_EncodeFinal.
    destruct (Nat.eqb_spec (length (data ctx)) 0) as [E|E]; [by destruct (data ctx)|]. simpl.
    rewrite pem_body_step by (by destruct (data ctx)).
    by rewrite take_ge, drop_ge by lia.
  - inversion_clear Hc as [|? ? Hi Hc'].
    destruct (encode_update_spec ctx inp Hd Hi) as (ctx' & out & n & -> & Hd' & E & _).
    simpl. by rewrite E, IH.
Qed.

(** The streaming encoder writes the same lines however the input is cut
    into calls of [EVP_EncodeUpdate]. *)
Theorem encode_stream_chunks chunks : Forall (fun c => len c < 2 ^ 32) chunks ->
  encode_stream EVP_EncodeInit chunks = pem_body (mjoin chunks).
Proof. intros Hc. by apply (encode_stream_spec chunks EVP_EncodeInit); [simpl; lia|]. Qed.

Lemma encode_stream_chunks_witness :
  encode_stream EVP_EncodeInit [[77]; [97; 110]; []; [33]] = [84; 87; 70; 117; 73; 81; 61; 61; 10].
Proof.
  rewrite (encode_stream_chunks [[77]; [97; 110]; []; [33]] ltac:(repeat constructor)). by vm_compute.
Defined.

(** ** The streaming decoder *)

(** What the decoder still has to do in state [ctx] when the non-space
    characters [t] follow. *)
Definition decode_rest (ctx : EVP_ENCODE_CTX) (t : list Z) : option (list Z) :=
  if eof_seen ctx then match t with [] => Some [] | _ => None end
  else decode_quads (data ctx ++ t).

Definition no_spaces (l : list Z) : list Z := filter (fun c => is_space c = false) l.

Definition decode_ctx_ok (ctx : EVP_ENCODE_CTX) : Prop :=
  (length (data ctx) < 4)%nat /\ error_encountered ctx = false /\
  (eof_seen ctx = true -> data ctx = []).

Lemma quad_lengths i0 i1 i2 i3 q : base64_decode_quad i0 i1 i2 i3 = Some q ->
  len q = 1 \/ len q = 2 \/ len q = 3.
Proof.
  unfold base64_decode_quad. case_if; [done|]. cbv zeta.
  destruct (Z.lor _ (pad_bit i3 0)) as [|[[| |]|[| |]|]|]; intros E;
    (discriminate E || (injection E as <-; cbn [length]; lia)).
Qed.

Lemma decode_loop_spec inp : forall ctx out, decode_ctx_ok ctx ->
  match decode_update_loop ctx inp out with
  | inr (ctx', out') => decode_ctx_ok ctx' /\ exists q, out' = out ++ q /\ len q <= 3 * len inp /\
      forall t, decode_rest ctx (no_spaces inp ++ t) = app q <$> decode_rest ctx' t
  | inl ctx' => error_encountered ctx' = true /\
      forall t, decode_rest ctx (no_spaces inp ++ t) = None
  end.
Proof.
  induction inp as [|c inp IH]; intros ctx out Hok; cbn [decode_update_loop].
  { split; [done|]. exists []. rewrite app_nil_r. split; [done|]. split; [done|]. intros t. simpl.
    by destruct (decode_rest ctx t). }
  unfold no_spaces. rewrite filter_cons. destruct (is_space c) eqn:Ec.
  { rewrite decide_False by done. specialize (IH ctx out Hok).
    destruct (decode_update_loop ctx inp out) as [?|[? ?]]; [done|].
    destruct IH as (IH1 & q & IH2 & IH3 & IH4). split; [done|]. exists q. cbn [length].
    split_and!; try done. lia. }
  rewrite decide_True by done. destruct Hok as (Hl & He & Hd).
  destruct (eof_seen ctx) eqn:Eeof.
  { split; [done|]. intros t. unfold decode_rest. by rewrite Eeof. }
  assert (Short : forall d, d = data ctx ++ [c] -> (length d < 4)%nat ->
    match decode_update_loop (mk_ctx d false (error_encountered ctx)) inp out with
    | inr (ctx', out') => decode_ctx_ok ctx' /\ exists q, out' = out ++ q /\
        len q <= 3 * len (c :: inp) /\ forall t, decode_rest ctx (c :: no_spaces inp ++ t) = app q <$> decode_rest ctx' t
    | inl ctx' => error_encountered ctx' = true /\
        forall t, decode_rest ctx (c :: no_spaces inp ++ t) = None
    end).
  { intros d -> Hd4. specialize (IH (mk_ctx (data ctx ++ [c]) false (error_encountered ctx)) out).
    assert (Hdr : forall t, decode_rest (mk_ctx (data ctx ++ [c]) false (error_encountered ctx)) t =
      decode_rest ctx (c :: t)).
    { intros t. unfold decode_rest. simpl. rewrite Eeof. by rewrite <- app_assoc. }
    destruct (decode_update_loop _ inp out) as [ctx'|[ctx' out']];
      specialize (IH ltac:(by split)); destruct IH as [IH1 IH2]; (split; [done|]).
    - intros t. by rewrite <- Hdr.
    - destruct IH2 as (q & -> & Hlq & IH2). exists q. split; [done|].
      split; [cbn [length]; lia|]. intros t. by rewrite <- Hdr. }
  destruct (data ctx) as [|i0 [|i1 [|i2 [|]]]] eqn:Edata; cbn [app] in *;
    [by apply Short; [|simpl; lia] ..| |simpl in Hl; lia].
  clear Short.
  assert (Hq : forall t, decode_rest ctx (c :: no_spaces inp ++ t) =
     decode_quads (i0 :: i1 :: i2 :: c :: no_spaces inp ++ t)).
  { intros t. unfold decode_rest. by rewrite Eeof, Edata. }
  fold (no_spaces inp). destruct (base64_decode_quad i0 i1 i2 c) as [q|] eqn:Eq.
  2: { split; [done|]. intros t. rewrite Hq. cbn [decode_quads]. by rewrite Eq. }
  set (ctx1 := mk_ctx [] (if len q <? 3 then true else false) (error_encountered ctx)).
  assert (Hstep : forall t, decode_rest ctx (c :: no_spaces inp ++ t) =
    app q <$> decode_rest ctx1 (no_spaces inp ++ t)).
  { intros t. rewrite Hq. cbn [decode_quads]. rewrite Eq. unfold decode_rest. simpl.
    destruct (quad_lengths _ _ _ _ _ Eq) as [E|[E|E]]; rewrite E; simpl;
      destruct (no_spaces inp ++ t); try done; simpl; by rewrite ?app_nil_r. }
  specialize (IH ctx1 (out ++ q) ltac:(split; [simpl; lia|done])).
  destruct (decode_update_loop ctx1 inp (out ++ q)) as [ctx'|[ctx' out']];
    destruct IH as [IH1 IH2]; (split; [done|]).
  - intros t. by rewrite Hstep, IH2.
  - destruct IH2 as (q' & -> & Hlq & IH2). exists (q ++ q'). rewrite app_assoc. split; [done|].
    split; [rewrite length_app; cbn [length]; destruct (quad_lengths _ _ _ _ _ Eq) as [E|[E|E]]; lia|].
    intros t. rewrite Hstep, IH2. destruct (decode_rest ctx' t); [|done].
    simpl. by rewrite app_assoc.
Qed.

(** The result of a sequence of updates and the final call; [None] when one
    of them returns -1. *)
Fixpoint decode_stream (ctx : EVP_ENCODE_CTX) (chunks : list (list Z)) : option (list Z) :=
  match chunks with
  | [] => if EVP_DecodeFinal ctx =? 1 then Some [] else None
  | inp :: chunks' =>
      match EVP_DecodeUpdate ctx inp with
      | (ctx', out, _, ret) =>
          if ret =? -1 then None
          else match decode_stream ctx' chunks' with Some rest => Some (out ++ rest) | None => None end
      end
  end.

Lemma decode_stream_spec chunks : forall ctx, decode_ctx_ok ctx ->
  Forall (fun c => len c < 2 ^ 29) chunks ->
  decode_stream ctx chunks = decode_rest ctx (no_spaces (mjoin chunks)).
Proof.
  induction chunks as [|inp chunks IH]; intros ctx Hok Hc; cbn [decode_stream].
  - unfold EVP_DecodeFinal, decode_rest. destruct Hok as (Hl & -> & Hd). cbn [orb].
    change (no_spaces (mjoin [])) with (@nil Z). rewrite app_nil_r.
    destruct (eof_seen ctx); [by rewrite Hd|].
    by destruct (data ctx) as [|? [|? [|? [|]]]]; [| | | |simpl in Hl; lia].
  - inversion_clear Hc as [|? ? Hi Hc']. unfold EVP_DecodeUpdate. destruct (Hok) as (_ & -> & _).
    assert (S := decode_loop_spec inp ctx [] Hok).
    replace (no_spaces (mjoin (inp :: chunks))) with (no_spaces inp ++ no_spaces (mjoin chunks))
      by (unfold no_spaces; simpl; by rewrite filter_app).
    destruct (decode_update_loop ctx inp []) as [ctx'|[ctx' out]].
    + destruct S as [_ S]. by rewrite S.
    + destruct S as (Hok' & q & -> & Hq & S). simpl app. unfold INT_MAX.
      destruct (Z.ltb_spec (2 ^ 31 - 1) (len q)); [lia|].
      assert (E : ((if eof_seen ctx' then 0 else 1) =? -1) = false) by (by destruct (eof_seen ctx')).
      rewrite E, IH, S by done. by destruct (decode_rest ctx' _).
Qed.

(** The streaming decoder agrees with the one-shot decoder on the input
    without its white space, however the input is cut into calls of
    [EVP_DecodeUpdate]. *)
Theorem decode_stream_chunks chunks : Forall (fun c => len c < 2 ^ 29) chunks ->
  decode_stream EVP_DecodeInit chunks = decode_quads (no_spaces (mjoin chunks)).
Proof.
  intros Hc. apply (decode_stream_spec chunks EVP_DecodeInit); [|done].
  split; [simpl; lia|done].
Qed.

Lemma decode_stream_chunks_witness :
  decode_stream EVP_DecodeInit [[84; 87; 70]; [117; 10; 73]; [81; 61; 32; 61; 13; 10]] =
    Some [77; 97; 110; 33].
Proof.
  rewrite (decode_stream_chunks [[84; 87; 70]; [117; 10; 73]; [81; 61; 32; 61; 13; 10]]
    ltac:(repeat constructor)). by vm_compute.
Defined.
