(* ===== verification/Stack.v ===== *)
(** * Stacks of pointers

    Model of crypto/stack/stack.cc.  A pointer is its numerical value, 0 the
    null pointer; a stack is the record [stack_st] with the array [data] of
    [num_alloc] pointers.  A comparison function is a name, and the section
    variable [call_cmp_func] says what calling it on two pointers returns, so
    that function pointers can be compared the way [OPENSSL_sk_set_cmp_func]
    does.  [std::sort] of the C++ library is the class [StdSort].  A null
    [OPENSSL_STACK *] is not modelled: the functions return at once. *)

From Stdlib Require Import Sorting.Permutation Sorting.Sorted.
From S2P Require Import Prelude Internal Alloc.

Record stack_st := mk_stack {
  num : Z; sk_data : list Z; sorted : bool; num_alloc : Z; comp : option nat
}.

(** [std::sort]: a rearrangement that is sorted if [lt] is a strict weak
    order; the order of equivalent elements is not specified. *)
Class StdSort := {
  std_sort : (Z -> Z -> bool) -> list Z -> list Z;
  std_sort_perm : forall lt l, Permutation (std_sort lt l) l;
  std_sort_sorted : forall lt l,
    (forall a b, lt a b = true -> lt b a = false) ->
    (forall a b c, lt a b = false -> lt b c = false -> lt a c = false) ->
    StronglySorted (fun a b => lt b a = false) (std_sort lt l)
}.

Definition kMinSize : Z := 4.
Definition sizeof_ptr : Z := 8.
Definition sizeof_stack_st : Z := 40.

(** The pointers stored in a block of memory. *)
Fixpoint pointers (n : nat) (block : list Z) : list Z :=
  match n with
  | O => []
  | S n' => le_decode (take 8 block) :: pointers n' (drop 8 block)
  end.

Section stack.
Context `{Malloc} `{StdSort}.
Variable call_cmp_func : nat -> Z -> Z -> Z.

(** [New<OPENSSL_STACK>()] allocates the object with [OPENSSL_malloc]. *)
Definition OPENSSL_sk_new (cmp : option nat) : option stack_st :=
  match OPENSSL_malloc sizeof_stack_st with
  | None => None
  | Some _ =>
      match OPENSSL_calloc kMinSize sizeof_ptr with
      | None => None
      | Some block => Some (mk_stack 0 (pointers 4 block) false kMinSize cmp)
      end
  end.

Definition OPENSSL_sk_new_null : option stack_st := OPENSSL_sk_new None.

Definition OPENSSL_sk_num (sk : stack_st) : Z := num sk.

Definition OPENSSL_sk_zero (sk : stack_st) : stack_st :=
  if num sk =? 0 then sk
  else mk_stack 0 (mem_write (sk_data sk) 0 (replicate (Z.to_nat (num sk)) 0)) false
         (num_alloc sk) (comp sk).

Definition OPENSSL_sk_value (sk : stack_st) (i : Z) : Z :=
  if num sk <=? i then 0 else default 0 (sk_data sk !! Z.to_nat i).

Definition OPENSSL_sk_set (sk : stack_st) (i value : Z) : Z * stack_st :=
  if num sk <=? i then (0, sk)
  else (value, mk_stack (num sk) (<[Z.to_nat i := value]> (sk_data sk)) false
                 (num_alloc sk) (comp sk)).

(** The new array; [None] is an overflow or a failed allocation. *)
Definition sk_grow (sk : stack_st) : option (list Z * Z) :=
  let overflows n := (n <? num_alloc sk) || negb (u64 (n * sizeof_ptr) / sizeof_ptr =? n) in
  let new_alloc := u64 (Z.shiftl (num_alloc sk) 1) in
  let new_alloc := if overflows new_alloc then u64 (num_alloc sk + 1) else new_alloc in
  if overflows new_alloc then None
  else match OPENSSL_malloc (u64 (new_alloc * sizeof_ptr)) with
       | None => None
       | Some block =>
           Some (mem_write (pointers (Z.to_nat new_alloc) block) 0 (sk_data sk), new_alloc)
       end.

(** The return value is the new number of elements, 0 on failure. *)
Definition OPENSSL_sk_insert (sk : stack_st) (p whr : Z) : Z * stack_st :=
  if INT_MAX <=? num sk then (0, sk)
  else
    match (if num_alloc sk <=? num sk + 1 then sk_grow sk
           else Some (sk_data sk, num_alloc sk)) with
    | None => (0, sk)
    | Some (arr, alloc) =>
        let arr :=
          if num sk <=? whr then <[Z.to_nat (num sk) := p]> arr
          else
            let moved :=
              mem_write arr (Z.to_nat (whr + 1))
                (take (Z.to_nat (num sk - whr)) (drop (Z.to_nat whr) arr)) in
            <[Z.to_nat whr := p]> moved in
        (num sk + 1, mk_stack (num sk + 1) arr false alloc (comp sk))
    end.

Definition OPENSSL_sk_delete (sk : stack_st) (whr : Z) : Z * stack_st :=
  if num sk <=? whr then (0, sk)
  else
    let ret := default 0 (sk_data sk !! Z.to_nat whr) in
    let arr :=
      if negb (whr =? num sk - 1) then
        mem_write (sk_data sk) (Z.to_nat whr)
          (take (Z.to_nat (num sk - whr - 1)) (drop (Z.to_nat (whr + 1)) (sk_data sk)))
      else sk_data sk in
    (ret, mk_stack (num sk - 1) arr (sorted sk) (num_alloc sk) (comp sk)).

(** [for (i = 0; i < n; i++) if (f(data[i])) return i] *)
Fixpoint find_first (f : Z -> bool) (l : list Z) : option nat :=
  match l with
  | [] => None
  | x :: l' => if f x then Some O else S <$> find_first f l'
  end.

Definition valid (sk : stack_st) : list Z := take (Z.to_nat (num sk)) (sk_data sk).

Definition OPENSSL_sk_delete_ptr (sk : stack_st) (p : Z) : Z * stack_st :=
  match find_first (Z.eqb p) (valid sk) with
  | Some i => OPENSSL_sk_delete sk (Z.of_nat i)
  | None => (0, sk)
  end.

(** The loop of [OPENSSL_sk_delete_if]: [data[new_num++] = data[i]] for the
    elements that stay. *)
Fixpoint delete_if_loop (func : Z -> bool) (n i : nat) (arr : list Z) (new_num : nat) :
    list Z * nat :=
  match n with
  | O => (arr, new_num)
  | S n' =>
      let x := default 0 (arr !! i) in
      if negb (func x) then delete_if_loop func n' (S i) (<[new_num := x]> arr) (S new_num)
      else delete_if_loop func n' (S i) arr new_num
  end.

Definition OPENSSL_sk_delete_if (sk : stack_st) (func : Z -> bool) : stack_st :=
  let '(arr, new_num) := delete_if_loop func (Z.to_nat (num sk)) 0 (sk_data sk) 0 in
  mk_stack (Z.of_nat new_num) arr (sorted sk) (num_alloc sk) (comp sk).

Definition OPENSSL_sk_is_sorted (sk : stack_st) : bool :=
  sorted sk || (match comp sk with Some _ => true | None => false end && (num sk <? 2)).

(** The binary search: the interval shrinks in every round, so its length is
    enough fuel. *)
Fixpoint bsearch_loop (fuel : nat) (cmp : Z -> Z) (arr : list Z) (lo hi : Z) : option Z :=
  match fuel with
  | O => None
  | S fuel' =>
      if lo <? hi then
        let mid := lo + (hi - lo - 1) / 2 in
        let r := cmp (default 0 (arr !! Z.to_nat mid)) in
        if 0 <? r then bsearch_loop fuel' cmp arr (mid + 1) hi
        else if r <? 0 then bsearch_loop fuel' cmp arr lo mid
        else if hi - lo =? 1 then Some mid
        else bsearch_loop fuel' cmp arr lo (mid + 1)
      else None
  end.

(** The index of the element found ([*out_index]). *)
Definition OPENSSL_sk_find (sk : stack_st) (p : Z) : option Z :=
  match comp sk with
  | None => Z.of_nat <$> find_first (fun x => x =? p) (valid sk)
  | Some c =>
      if p =? 0 then None
      else if negb (OPENSSL_sk_is_sorted sk) then
        Z.of_nat <$> find_first (fun x => call_cmp_func c p x =? 0) (valid sk)
      else bsearch_loop (Z.to_nat (num sk) + 1) (call_cmp_func c p) (sk_data sk) 0 (num sk)
  end.

Definition OPENSSL_sk_shift (sk : stack_st) : Z * stack_st :=
  if num sk =? 0 then (0, sk) else OPENSSL_sk_delete sk 0.

Definition OPENSSL_sk_push (sk : stack_st) (p : Z) : Z * stack_st :=
  OPENSSL_sk_insert sk p (num sk).

Definition OPENSSL_sk_pop (sk : stack_st) : Z * stack_st :=
  if num sk =? 0 then (0, sk) else OPENSSL_sk_delete sk (num sk - 1).

(** [OPENSSL_memdup] of the array is an allocation and a copy. *)
Definition OPENSSL_sk_dup (sk : stack_st) : option stack_st :=
  match OPENSSL_malloc sizeof_stack_st with
  | None => None
  | Some _ =>
      if u64 (sizeof_ptr * num_alloc sk) =? 0 then None
      else match OPENSSL_malloc (u64 (sizeof_ptr * num_alloc sk)) with
           | None => None
           | Some _ => Some (mk_stack (num sk) (sk_data sk) (sorted sk) (num_alloc sk) (comp sk))
           end
  end.

Definition OPENSSL_sk_sort (sk : stack_st) : stack_st :=
  match comp sk with
  | None => sk
  | Some c =>
      if sorted sk then sk
      else mk_stack (num sk)
             (mem_write (sk_data sk) 0
                (std_sort (fun a b => call_cmp_func c a b <? 0) (valid sk)))
             true (num_alloc sk) (comp sk)
  end.

(** The loop of [OPENSSL_sk_sort_and_dedup]; the freed elements are dropped. *)
Fixpoint dedup_loop (cmp : Z -> Z -> Z) (n i : nat) (arr : list Z) (new_num : nat) :
    list Z * nat :=
  match n with
  | O => (arr, new_num)
  | S n' =>
      let x := default 0 (arr !! i) in
      if negb (cmp x (default 0 (arr !! (new_num - 1)%nat)) =? 0)
      then dedup_loop cmp n' (S i) (<[new_num := x]> arr) (S new_num)
      else dedup_loop cmp n' (S i) arr new_num
  end.

Definition OPENSSL_sk_sort_and_dedup (sk : stack_st) : stack_st :=
  let sk := OPENSSL_sk_sort sk in
  match comp sk with
  | None => sk
  | Some c =>
      if num sk <=? 1 then sk
      else
        let '(arr, new_num) :=
          dedup_loop (call_cmp_func c) (Z.to_nat (num sk) - 1) 1 (sk_data sk) 1 in
        mk_stack (Z.of_nat new_num) arr (sorted sk) (num_alloc sk) (comp sk)
  end.

Definition OPENSSL_sk_set_cmp_func (sk : stack_st) (cmp : option nat) : option nat * stack_st :=
  (comp sk, mk_stack (num sk) (sk_data sk)
              (if decide (comp sk = cmp) then sorted sk else false) (num_alloc sk) cmp).

(** The loop of [OPENSSL_sk_deep_copy]; [copy] returns the copy of a pointer,
    0 on failure. *)
Fixpoint deep_copy_loop (copy : Z -> Z) (n i : nat) (arr : list Z) : option (list Z) :=
  match n with
  | O => Some arr
  | S n' =>
      let x := default 0 (arr !! i) in
      if x =? 0 then deep_copy_loop copy n' (S i) arr
      else if copy x =? 0 then None
      else deep_copy_loop copy n' (S i) (<[i := copy x]> arr)
  end.

Definition OPENSSL_sk_deep_copy (sk : stack_st) (copy : Z -> Z) : option stack_st :=
  match OPENSSL_sk_dup sk with
  | None => None
  | Some ret =>
      match deep_copy_loop copy (Z.to_nat (num ret)) 0 (sk_data ret) with
      | None => None
      | Some arr => Some (mk_stack (num ret) arr (sorted ret) (num_alloc ret) (comp ret))
      end
  end.

End stack.
