(* ===== verification/StackFacts.v ===== *)
(** * Correctness of the stacks of stack.cc

    The operations as list operations on the valid elements, the invariant of
    the representation (bounds of the array and the meaning of the [sorted]
    flag), and the equivalence of binary and linear search. *)

From Stdlib Require Import Sorting.Permutation Sorting.Sorted.
From S2P Require Import Prelude Internal Alloc Stack.

(** What a comparison function promises. *)
Class CmpLaws (cmp : Z -> Z -> Z) : Prop := {
  cmp_antisym : forall a b, Z.sgn (cmp a b) = - Z.sgn (cmp b a);
  cmp_trans : forall a b c, cmp a b <= 0 -> cmp b c <= 0 -> cmp a c <= 0
}.

(** ** Arrays *)

Lemma length_pointers n block : length (pointers n block) = n.
Proof. revert block. induction n; intros; simpl; [done|]. by rewrite IHn. Qed.

Lemma take_mem_write_prefix n (arr src : list Z) : (n <= length src <= length arr)%nat ->
  take n (mem_write arr 0 src) = take n src.
Proof. intros Hn. unfold mem_write. simpl. by rewrite take_app_le by lia. Qed.

Lemma insert_at_end arr n (p : Z) : (n < length arr)%nat ->
  take (S n) (<[n := p]> arr) = take n arr ++ [p].
Proof.
  intros Hn. rewrite (take_S_r _ _ p) by (by apply list_lookup_insert_eq).
  by rewrite take_insert_ge.
Qed.

(** Moving the tail of the valid elements one place up. *)
Lemma insert_in_middle arr n w (p : Z) : (w < n)%nat -> (n < length arr)%nat ->
  take (S n) (<[w := p]> (mem_write arr (w + 1) (take (n - w) (drop w arr)))) =
  take w arr ++ p :: drop w (take n arr).
Proof.
  intros Hw Hn. set (tl := take (n - w) (drop w arr)).
  assert (Ltl : length tl = (n - w)%nat) by (subst tl; rewrite length_take, length_drop; lia).
  assert (Htl : drop w (take n arr) = tl) by (subst tl; by rewrite skipn_firstn_comm).
  unfold mem_write. rewrite Htl.
  rewrite insert_app_l by (rewrite length_take; lia).
  assert (E : <[w := p]> (take (w + 1) arr) = take w arr ++ [p]).
  { rewrite Nat.add_1_r. destruct (lookup_lt_is_Some_2 arr w) as [x Hx]; [lia|].
    rewrite (take_S_r arr w x Hx). rewrite insert_app_r_alt by (rewrite length_take; lia).
    rewrite length_take, Nat.min_l, Nat.sub_diag by lia. done. }
  rewrite E, <- app_assoc. simpl.
  rewrite take_app_ge, length_take by (rewrite length_take; lia).
  rewrite Nat.min_l by lia. f_equal.
  replace (S n - w)%nat with (S (length tl)) by lia. simpl. f_equal.
  apply take_app_exact. done.
Qed.

(** Moving the tail one place down. *)
Lemma delete_in_middle (arr : list Z) n w : (S w < n)%nat -> (n <= length arr)%nat ->
  take (n - 1) (mem_write arr w (take (n - w - 1) (drop (w + 1) arr))) =
  take w arr ++ drop (S w) (take n arr).
Proof.
  intros Hw Hn. set (tl := take (n - w - 1) (drop (w + 1) arr)).
  assert (Ltl : length tl = (n - w - 1)%nat) by (subst tl; rewrite length_take, length_drop; lia).
  assert (Htl : drop (S w) (take n arr) = tl).
  { subst tl. rewrite skipn_firstn_comm, Nat.add_1_r. f_equal. lia. }
  unfold mem_write. rewrite Htl, take_app_ge, length_take by (rewrite length_take; lia).
  rewrite Nat.min_l by lia. f_equal. apply take_app_exact. lia.
Qed.

(** ** The invariant *)

Section facts.
Context `{Malloc} `{StdSort}.
Variable call_cmp_func : nat -> Z -> Z -> Z.
Context {laws : forall c, CmpLaws (call_cmp_func c)}.

Abbreviation le c := (fun a b => call_cmp_func c a b <= 0).

Definition stack_ok (sk : stack_st) : Prop :=
  len (sk_data sk) = num_alloc sk /\ 0 <= num sk <= num_alloc sk /\ num sk <= INT_MAX /\
  kMinSize <= num_alloc sk <= 2 ^ 32 /\
  (sorted sk = true -> exists c, comp sk = Some c /\ StronglySorted (le c) (valid sk)).

Lemma length_valid sk : stack_ok sk -> len (valid sk) = num sk.
Proof. intros (H1 & H2 & _). unfold valid. rewrite length_take. lia. Qed.

Lemma sk_grow_Some sk arr alloc : stack_ok sk -> sk_grow sk = Some (arr, alloc) ->
  len arr = alloc /\ num_alloc sk < alloc <= 2 * num_alloc sk /\
  take (length (sk_data sk)) arr = sk_data sk.
Proof.
  intros (H1 & H2 & H3 & H4 & _). unfold sk_grow, sizeof_ptr, kMinSize in *.
  rewrite Z.shiftl_mul_pow2 by lia. change (2 ^ 1) with 2.
  rewrite (wrap_small 64 (num_alloc sk * 2)) by (unfold word; lia).
  rewrite (wrap_small 64 (num_alloc sk * 2 * 8)) by (unfold word; lia).
  rewrite Z.div_mul, Z.eqb_refl by lia.
  destruct (Z.ltb_spec (num_alloc sk * 2) (num_alloc sk)); [lia|]. cbn [negb orb].
  rewrite (wrap_small 64 (num_alloc sk * 2 * 8)) by (unfold word; lia).
  rewrite Z.div_mul, Z.eqb_refl by lia.
  destruct (Z.ltb_spec (num_alloc sk * 2) (num_alloc sk)); [lia|]. cbn [negb orb].
  destruct (OPENSSL_malloc _) as [block|]; [|done]. intros [= <- <-].
  rewrite length_mem_write by (rewrite length_pointers; lia). rewrite length_pointers.
  split; [lia|]. split; [lia|]. rewrite take_mem_write_prefix by (rewrite length_pointers; lia).
  by apply take_ge.
Qed.

(** Insertion puts the element before position [whr] (at the end if there is
    no such position), or fails and changes nothing. *)
Lemma insert_spec sk p whr r sk' : stack_ok sk -> 0 <= whr ->
  OPENSSL_sk_insert sk p whr = (r, sk') ->
  (r = 0 /\ sk' = sk /\ (num sk = INT_MAX \/ sk_grow sk = None)) \/
  (r = num sk + 1 /\ num sk' = r /\ sorted sk' = false /\ comp sk' = comp sk /\ stack_ok sk' /\
   let w := Z.to_nat (Z.min whr (num sk)) in
   valid sk' = take w (valid sk) ++ p :: drop w (valid sk)).
Proof.
  intros Hok Hw. assert (Hok' := Hok). destruct Hok' as (H1 & H2 & H3 & H4 & _).
  unfold OPENSSL_sk_insert. unfold kMinSize in H4.
  destruct (Z.leb_spec INT_MAX (num sk)); [intros [= <- <-]; left; split_and!; [done|done|left; lia]|].
  assert (Harr : forall arr alloc, (if num_alloc sk <=? num sk + 1 then sk_grow sk
      else Some (sk_data sk, num_alloc sk)) = Some (arr, alloc) ->
    len arr = alloc /\ num sk < alloc <= 2 ^ 32 /\ 4 <= alloc /\
    take (Z.to_nat (num sk)) arr = valid sk).
  { intros arr alloc. unfold INT_MAX in *. destruct (Z.leb_spec (num_alloc sk) (num sk + 1)).
    - intros E. apply sk_grow_Some in E as (E1 & E2 & E3); [|done]. split; [done|].
      split; [lia|]. split; [lia|]. unfold valid. rewrite <- E3 at 1. rewrite take_take. f_equal. lia.
    - intros [= <- <-]. split_and!; try lia. done. }
  destruct (if num_alloc sk <=? num sk + 1 then sk_grow sk else Some (sk_data sk, num_alloc sk))
    as [[arr alloc]|] eqn:Eg.
  2: { intros [= <- <-]. left. split; [done|]. split; [done|]. right.
       destruct (num_alloc sk <=? num sk + 1); done. }
  destruct (Harr _ _ eq_refl) as (L1 & L2 & L3 & Hv). intros [= <- <-]. right.
  unfold INT_MAX in *. split; [done|]. split; [done|]. split; [done|]. split; [done|].
  assert (Hdata : exists arr', (if num sk <=? whr then <[Z.to_nat (num sk):=p]> arr
      else <[Z.to_nat whr:=p]> (mem_write arr (Z.to_nat (whr + 1))
             (take (Z.to_nat (num sk - whr)) (drop (Z.to_nat whr) arr)))) = arr' /\
    length arr' = length arr /\ take (Z.to_nat (num sk + 1)) arr' =
      take (Z.to_nat (Z.min whr (num sk))) (valid sk) ++ p :: drop (Z.to_nat (Z.min whr (num sk))) (valid sk)).
  { eexists. split; [reflexivity|]. assert (Lv := length_valid sk Hok).
    replace (Z.to_nat (num sk + 1)) with (S (Z.to_nat (num sk))) by lia.
    destruct (Z.leb_spec (num sk) whr).
    - rewrite length_insert. split; [done|]. rewrite insert_at_end by lia. rewrite Hv, Z.min_r by lia.
      by rewrite take_ge, drop_ge by lia.
    - rewrite length_insert. split.
      { apply length_mem_write. rewrite length_take, length_drop. lia. }
      replace (Z.to_nat (whr + 1)) with (Z.to_nat whr + 1)%nat by lia.
      replace (Z.to_nat (num sk - whr)) with (Z.to_nat (num sk) - Z.to_nat whr)%nat by lia.
      rewrite insert_in_middle by lia. rewrite Hv, Z.min_l by lia. f_equal.
      rewrite <- Hv, take_take. f_equal. lia. }
  destruct Hdata as (arr' & -> & La & Hva). split; [|done].
  unfold stack_ok, kMinSize, INT_MAX. simpl. rewrite La. split_and!; done || lia.
Qed.

Lemma delete_spec sk whr : stack_ok sk -> 0 <= whr ->
  let '(ret, sk') := OPENSSL_sk_delete sk whr in
  if whr <? num sk then
    valid sk !! Z.to_nat whr = Some ret /\ num sk' = num sk - 1 /\ comp sk' = comp sk /\
    sorted sk' = sorted sk /\
    valid sk' = take (Z.to_nat whr) (valid sk) ++ drop (S (Z.to_nat whr)) (valid sk)
  else ret = 0 /\ sk' = sk.
Proof.
  intros Hok Hw. assert (Lv := length_valid sk Hok). destruct Hok as (H1 & H2 & _).
  unfold OPENSSL_sk_delete. destruct (Z.leb_spec (num sk) whr), (Z.ltb_spec whr (num sk)); try lia; [done|].
  destruct (lookup_lt_is_Some_2 (sk_data sk) (Z.to_nat whr)) as [x Hx]; [lia|].
  rewrite Hx. simpl. split; [unfold valid; rewrite lookup_take_lt by lia; done|].
  split; [done|]. split; [done|]. split; [done|]. unfold valid. simpl.
  rewrite take_take, Nat.min_l by lia. destruct (Z.eqb_spec whr (num sk - 1)); cbn [negb].
  - rewrite drop_ge by (rewrite length_take; lia). rewrite app_nil_r. f_equal. lia.
  - replace (Z.to_nat (num sk - 1)) with (Z.to_nat (num sk) - 1)%nat by lia.
    replace (Z.to_nat (num sk - whr - 1)) with (Z.to_nat (num sk) - Z.to_nat whr - 1)%nat by lia.
    replace (Z.to_nat (whr + 1)) with (Z.to_nat whr + 1)%nat by lia.
    apply delete_in_middle; lia.
Qed.

Lemma Forall_sub {A} (P : A -> Prop) l k : sublist l k -> Forall P k -> Forall P l.
Proof. induction 1; inversion_clear 1; auto. Qed.

Lemma elem_of_sub {A} (x : A) l k : sublist l k -> x ∈ l -> x ∈ k.
Proof.
  intros Hs. assert (F := Forall_sub (fun z => z ∈ k) l k Hs).
  rewrite !Forall_forall in F. apply F. done.
Qed.

Lemma StronglySorted_sub {A} (R : A -> A -> Prop) l k :
  sublist l k -> StronglySorted R k -> StronglySorted R l.
Proof.
  intros Hs Hk. induction Hs as [|x l k Hs IH|x l k Hs IH]; [done| |].
  - inversion_clear Hk as [|? ? Hk' Hx]. constructor; [by apply IH|]. by eapply Forall_sub.
  - inversion_clear Hk. by apply IH.
Qed.

(** Fewer elements in the same order: the invariant is kept, flag included. *)
Lemma stack_ok_sub sk sk' : stack_ok sk -> sublist (valid sk') (valid sk) ->
  length (sk_data sk') = length (sk_data sk) -> num_alloc sk' = num_alloc sk ->
  0 <= num sk' <= num sk -> sorted sk' = sorted sk -> comp sk' = comp sk -> stack_ok sk'.
Proof.
  intros (H1 & H2 & H3 & H4 & H5) Hs Hl Ha Hn Hso Hc. unfold stack_ok. rewrite Hl, Ha, Hso, Hc.
  split_and!; try lia. intros E. destruct (H5 E) as (c & Ec & Hsort). exists c. split; [done|].
  by eapply StronglySorted_sub.
Qed.

Lemma sublist_delete_middle (l : list Z) w : sublist (take w l ++ drop (S w) l) l.
Proof. rewrite <- delete_take_drop. apply sublist_delete. Qed.

Lemma delete_ok sk whr : stack_ok sk -> 0 <= whr -> stack_ok (snd (OPENSSL_sk_delete sk whr)).
Proof.
  intros Hok Hw. assert (S := delete_spec sk whr Hok Hw).
  assert (Hlen : length (sk_data (snd (OPENSSL_sk_delete sk whr))) = length (sk_data sk) /\
    num_alloc (snd (OPENSSL_sk_delete sk whr)) = num_alloc sk).
  { destruct Hok as (H1 & H2 & _). unfold OPENSSL_sk_delete.
    destruct (Z.leb_spec (num sk) whr); [done|]. simpl. split; [|done].
    destruct (Z.eqb_spec whr (num sk - 1)); cbn [negb]; [done|].
    apply length_mem_write. rewrite length_take, length_drop. lia. }
  destruct (OPENSSL_sk_delete sk whr) as [ret sk']. simpl in *.
  destruct (Z.ltb_spec whr (num sk)); [|by destruct S as [_ ->]].
  destruct S as (_ & Hn & Hc & Hso & Hv). eapply stack_ok_sub; try done; try (destruct Hlen; done).
  - rewrite Hv. apply sublist_delete_middle.
  - lia.
Qed.

(** ** Loops that compact the array in place *)

(** The reference of the two loops: [keep prev x] decides on [x] when [prev]
    was the last element kept. *)
Fixpoint compact (keep : Z -> Z -> bool) (prev : Z) (l : list Z) : list Z :=
  match l with
  | [] => []
  | x :: l' => if keep prev x then x :: compact keep x l' else compact keep prev l'
  end.

Lemma compact_sub keep l : forall prev, sublist (compact keep prev l) l.
Proof.
  induction l as [|x l IH]; intros prev; simpl; [constructor|].
  case_if; [by apply sublist_skip|by apply sublist_cons].
Qed.

Lemma take_drop_insert (arr : list Z) k i n x : (k < i)%nat ->
  take n (drop i (<[k := x]> arr)) = take n (drop i arr).
Proof.
  intros Hk. f_equal. apply list_eq. intros j. rewrite !lookup_drop.
  apply list_lookup_insert_ne. lia.
Qed.

Lemma take_insert_keep (arr : list Z) k x : (k < length arr)%nat ->
  take (S k) (<[k := x]> arr) = take k arr ++ [x].
Proof. apply insert_at_end. Qed.

Lemma drop_step (arr : list Z) i n x : arr !! i = Some x ->
  take (S n) (drop i arr) = x :: take n (drop (S i) arr).
Proof. intros Hx. by rewrite (drop_S _ _ _ Hx). Qed.

Lemma delete_if_loop_spec func n : forall i arr k, (k <= i)%nat -> (i + n <= length arr)%nat ->
  let '(arr', k') := delete_if_loop func n i arr k in
  length arr' = length arr /\ (k <= k' <= k + n)%nat /\
  take k' arr' = take k arr ++ filter (fun x => func x = false) (take n (drop i arr)).
Proof.
  induction n as [|n IH]; intros i arr k Hk Hl; cbn [delete_if_loop].
  { simpl. rewrite app_nil_r. split_and!; done || lia. }
  destruct (lookup_lt_is_Some_2 arr i) as [x Hx]; [lia|]. rewrite Hx. cbn [from_option id].
  rewrite (drop_step _ _ _ _ Hx), filter_cons.
  destruct (func x) eqn:Ef; cbn [negb].
  - rewrite decide_False by done. specialize (IH (S i) arr k ltac:(lia) ltac:(lia)).
    destruct (delete_if_loop func n (S i) arr k) as [arr' k']. destruct IH as (H1 & H2 & H3).
    split_and!; done || lia.
  - rewrite decide_True by done.
    specialize (IH (S i) (<[k:=x]> arr) (S k) ltac:(lia) ltac:(rewrite length_insert; lia)).
    destruct (delete_if_loop _ n (S i) _ _) as [arr' k']. rewrite length_insert in IH.
    destruct IH as (H1 & H2 & H3). split; [done|]. split; [lia|].
    rewrite H3, take_insert_keep, take_drop_insert, <- app_assoc by lia. done.
Qed.

Lemma dedup_loop_spec cmp n : forall i arr k y, (0 < k <= i)%nat -> (i + n <= length arr)%nat ->
  arr !! (k - 1)%nat = Some y ->
  let '(arr', k') := dedup_loop cmp n i arr k in
  length arr' = length arr /\ (k <= k' <= k + n)%nat /\
  take k' arr' = take k arr ++ compact (fun prev x => negb (cmp x prev =? 0)) y (take n (drop i arr)).
Proof.
  induction n as [|n IH]; intros i arr k y Hk Hl Hy; cbn [dedup_loop].
  { simpl. rewrite app_nil_r. split_and!; done || lia. }
  destruct (lookup_lt_is_Some_2 arr i) as [x Hx]; [lia|]. rewrite Hx, Hy. cbn [from_option id].
  rewrite (drop_step _ _ _ _ Hx). cbn [compact].
  destruct (cmp x y =? 0) eqn:Ef; cbn [negb].
  - specialize (IH (S i) arr k y ltac:(lia) ltac:(lia) Hy).
    destruct (dedup_loop _ n (S i) arr k) as [arr' k']. destruct IH as (H1 & H2 & H3).
    split_and!; done || lia.
  - specialize (IH (S i) (<[k:=x]> arr) (S k) x ltac:(lia) ltac:(rewrite length_insert; lia)).
    destruct (dedup_loop _ n (S i) _ _) as [arr' k']. rewrite length_insert in IH.
    destruct IH as (H1 & H2 & H3).
    { rewrite Nat.sub_1_r. simpl. apply list_lookup_insert_eq. lia. }
    split; [done|]. split; [lia|].
    rewrite H3, take_insert_keep, take_drop_insert, <- app_assoc by lia. done.
Qed.

(** ** Sorting *)

Lemma cmp_lt_asym c a b : (call_cmp_func c a b <? 0) = true -> (call_cmp_func c b a <? 0) = false.
Proof.
  intros E. apply Z.ltb_lt in E. apply Z.ltb_ge. assert (A := cmp_antisym (cmp := call_cmp_func c) a b).
  rewrite (Z.sgn_neg (call_cmp_func c a b)) in A by lia.
  assert (Z.sgn (call_cmp_func c b a) = 1) by lia.
  destruct (Z.sgn_spec (call_cmp_func c b a)) as [[? ?]|[[? ?]|[? ?]]]; lia.
Qed.

Lemma cmp_not_lt c a b : (call_cmp_func c b a <? 0) = false <-> call_cmp_func c a b <= 0.
Proof.
  assert (A := cmp_antisym (cmp := call_cmp_func c) a b). rewrite Z.ltb_ge.
  destruct (Z.sgn_spec (call_cmp_func c a b)) as [[? E1]|[[? E1]|[? E1]]];
    destruct (Z.sgn_spec (call_cmp_func c b a)) as [[? E2]|[[? E2]|[? E2]]]; lia.
Qed.

Lemma cmp_lt_trans c x y z : (call_cmp_func c x y <? 0) = false -> (call_cmp_func c y z <? 0) = false ->
  (call_cmp_func c x z <? 0) = false.
Proof. rewrite !cmp_not_lt. intros H1 H2. by eapply cmp_trans. Qed.

Lemma sort_spec sk c : stack_ok sk -> comp sk = Some c ->
  let sk' := OPENSSL_sk_sort call_cmp_func sk in
  stack_ok sk' /\ Permutation (valid sk') (valid sk) /\ StronglySorted (le c) (valid sk') /\
  num sk' = num sk /\ comp sk' = Some c /\ num_alloc sk' = num_alloc sk.
Proof.
  intros Hok Hc. assert (Hok' := Hok). destruct Hok' as (H1 & H2 & H3 & H4 & H5).
  unfold OPENSSL_sk_sort. rewrite Hc. destruct (sorted sk) eqn:Es.
  - destruct (H5 eq_refl) as (c' & Ec & Hs). rewrite Hc in Ec. injection Ec as <-. done.
  - set (l := std_sort _ (valid sk)).
    assert (Hp : Permutation l (valid sk)) by apply std_sort_perm.
    assert (Hl : length l = Z.to_nat (num sk)).
    { apply Permutation_length in Hp. assert (Lv := length_valid sk Hok). lia. }
    assert (Hv : take (Z.to_nat (num sk)) (mem_write (sk_data sk) 0 l) = l).
    { rewrite take_mem_write_prefix by lia. apply take_ge. lia. }
    assert (Hs : StronglySorted (le c) l).
    { assert (S := std_sort_sorted (fun a b => call_cmp_func c a b <? 0) (valid sk)
        (cmp_lt_asym c) (cmp_lt_trans c)). fold l in S. clear -S laws. induction S as [|a l S IH Ha]; constructor; [done|].
      eapply Forall_impl; [done|]. intros b Hb. by apply cmp_not_lt. }
    cbv zeta. unfold valid at 1 3. simpl. rewrite Hv. split_and!; try done.
    unfold stack_ok, valid. simpl. rewrite length_mem_write by lia. split_and!; try done; try lia.
    intros _. exists c. by rewrite Hv.
Qed.

(** ** Searching *)

Lemma find_first_Some f l i : find_first f l = Some i <->
  (exists x, l !! i = Some x /\ f x = true) /\ forall j y, (j < i)%nat -> l !! j = Some y -> f y = false.
Proof.
  revert i. induction l as [|a l IH]; intros i; simpl.
  { split; [done|]. by intros [(x & Hx & _) _]. }
  destruct (f a) eqn:Ea.
  - split.
    + intros [= <-]. split; [eauto|lia].
    + intros [_ Hlt]. destruct i; [done|]. rewrite (Hlt 0%nat a) in Ea by (done || lia). done.
  - destruct i as [|i].
    + split; [by destruct (find_first f l)|]. intros [(x & [= <-] & Hx) _]. congruence.
    + rewrite <- (IH i) || idtac. split.
      * destruct (find_first f l) as [k|] eqn:E; [|done]. simpl. intros [= <-].
        destruct (IH k) as [IH1 _]. specialize (IH1 eq_refl) as [H3 H4]. split; [done|].
        intros [|j] y Hj Hy; [simpl in Hy; congruence|]. by apply (H4 j); [lia|].
      * intros [H3 H4]. destruct (IH i) as [_ IH2]. rewrite IH2; [done|]. split; [done|].
        intros j y Hj Hy. apply (H4 (S j)); [lia|done].
Qed.

Lemma find_first_None f l : (forall i x, l !! i = Some x -> f x = false) -> find_first f l = None.
Proof.
  intros Hn. destruct (find_first f l) as [i|] eqn:E; [|done].
  apply find_first_Some in E as [(x & Hx & Hf) _]. rewrite (Hn i x Hx) in Hf. done.
Qed.

(** Comparisons of [p] with the elements of a sorted list never increase. *)
Lemma sorted_mono c l p i j x y : StronglySorted (le c) l -> (i <= j)%nat ->
  l !! i = Some x -> l !! j = Some y ->
  (call_cmp_func c p x <= 0 -> call_cmp_func c p y <= 0) /\
  (call_cmp_func c p x < 0 -> call_cmp_func c p y < 0).
Proof.
  intros Hs Hij Hx Hy. assert (Hxy : i = j \/ call_cmp_func c x y <= 0).
  { destruct (decide (i = j)); [by left|right]. revert i j Hij Hx Hy n.
    induction Hs as [|a l Hs IH Ha]; intros [|i] [|j] Hij Hx Hy Hn; try done; try lia.
    - simpl in *. injection Hx as ->. rewrite Forall_lookup in Ha. by apply (Ha j).
    - simpl in *. apply (IH i j); done || lia. }
  destruct Hxy as [->|Hxy]; [rewrite Hx in Hy; injection Hy as ->; done|].
  split; [intros Hp; by eapply cmp_trans|]. intros Hp.
  apply Z.nle_gt. intros Hge. assert (N := cmp_not_lt c y p).
  destruct N as [N _]. specialize (N ltac:(by apply Z.ltb_ge)).
  assert (T := cmp_trans (cmp := call_cmp_func c) x y p Hxy N).
  apply cmp_not_lt, Z.ltb_ge in T. lia.
Qed.

(** The interval invariant of the search: everything before [lo] is too low;
    beyond [hi] everything is too high, or a match lies just below it. *)
Lemma bsearch_spec c l p : StronglySorted (le c) l -> forall fuel lo hi,
  0 <= lo <= hi -> hi <= len l -> hi - lo < Z.of_nat fuel ->
  (forall i x, Z.of_nat i < lo -> l !! i = Some x -> 0 < call_cmp_func c p x) ->
  ((forall i x, hi <= Z.of_nat i -> l !! i = Some x -> call_cmp_func c p x < 0) \/
   (exists x, 0 < hi /\ l !! Z.to_nat (hi - 1) = Some x /\ call_cmp_func c p x = 0)) ->
  bsearch_loop fuel (call_cmp_func c p) l lo hi =
    Z.of_nat <$> find_first (fun x => call_cmp_func c p x =? 0) l.
Proof.
  intros Hs. induction fuel as [|fuel IH]; intros lo hi Hb Hh Hf Hlo Hhi; [lia|].
  cbn [bsearch_loop]. destruct (Z.ltb_spec lo hi) as [Hlt|Hge].
  2: { assert (lo = hi) as -> by lia. destruct Hhi as [Hhi|(x & Hpos & Hx & Hx0)].
       - rewrite find_first_None; [done|]. intros i x Hx. apply Z.eqb_neq.
         destruct (decide (Z.of_nat i < hi)); [specialize (Hlo i x)|specialize (Hhi i x)]; naive_solver lia.
       - specialize (Hlo (Z.to_nat (hi - 1)) x ltac:(lia) Hx). lia. }
  set (mid := lo + (hi - lo - 1) / 2). assert (Hm : lo <= mid < hi) by (subst mid; div_lia).
  destruct (lookup_lt_is_Some_2 l (Z.to_nat mid)) as [x Hx]; [lia|]. rewrite Hx. cbn [from_option id].
  destruct (Z.ltb_spec 0 (call_cmp_func c p x)) as [Hr|Hr].
  - apply IH; try lia; [|done]. intros i y Hi Hy.
    destruct (sorted_mono c l p i (Z.to_nat mid) y x Hs ltac:(lia) Hy Hx) as [M _]. lia.
  - destruct (Z.ltb_spec (call_cmp_func c p x) 0) as [Hr'|Hr'].
    + apply IH; try lia; [done|]. left. intros i y Hi Hy.
      destruct (sorted_mono c l p (Z.to_nat mid) i x y Hs ltac:(lia) Hx Hy) as [_ M]. lia.
    + assert (Hr0 : call_cmp_func c p x = 0) by lia.
      destruct (Z.eqb_spec (hi - lo) 1) as [H1|H1].
      * assert (mid = lo) as -> by (subst mid; rewrite H1; div_lia).
        assert (E : find_first (fun x => call_cmp_func c p x =? 0) l = Some (Z.to_nat lo)).
        { apply find_first_Some. split; [exists x; split; [done|by apply Z.eqb_eq]|].
          intros j y Hj Hy. apply Z.eqb_neq. specialize (Hlo j y ltac:(lia) Hy). lia. }
        rewrite E. simpl. f_equal. lia.
      * apply IH; try (subst mid; div_lia); [done|]. right. exists x.
        replace (mid + 1 - 1) with mid by lia. split_and!; done || lia.
Qed.

Lemma find_spec sk p c : stack_ok sk -> comp sk = Some c -> p <> 0 ->
  OPENSSL_sk_find call_cmp_func sk p =
    Z.of_nat <$> find_first (fun x => call_cmp_func c p x =? 0) (valid sk).
Proof.
  intros Hok Hc Hp. assert (Lv := length_valid sk Hok). destruct Hok as (H1 & H2 & H3 & H4 & H5).
  unfold OPENSSL_sk_find. rewrite Hc. destruct (Z.eqb_spec p 0); [done|].
  destruct (OPENSSL_sk_is_sorted sk) eqn:Es; cbn [negb]; [|done].
  assert (Hs : StronglySorted (le c) (valid sk)).
  { unfold OPENSSL_sk_is_sorted in Es. destruct (sorted sk) eqn:E.
    - destruct (H5 eq_refl) as (c' & E' & ?). rewrite Hc in E'. by injection E' as <-.
    - rewrite Hc in Es. simpl in Es. apply Z.ltb_lt in Es.
      destruct (valid sk) as [|x [|y l]]; [constructor|repeat constructor|simpl in Lv; lia]. }
  rewrite <- (bsearch_spec c (valid sk) p Hs (Z.to_nat (num sk) + 1) 0 (num sk)); try lia.
  - assert (Hext : forall fuel lo hi, 0 <= lo -> hi <= num sk ->
      bsearch_loop fuel (call_cmp_func c p) (sk_data sk) lo hi =
      bsearch_loop fuel (call_cmp_func c p) (valid sk) lo hi).
    { induction fuel as [|fuel IH]; intros lo hi Hl Hh; [done|]. cbn [bsearch_loop].
      destruct (Z.ltb_spec lo hi); [|done].
      assert (Hm : lo <= lo + (hi - lo - 1) / 2 < hi) by div_lia.
      assert (E : valid sk !! Z.to_nat (lo + (hi - lo - 1) / 2) =
                  sk_data sk !! Z.to_nat (lo + (hi - lo - 1) / 2)).
      { unfold valid. apply lookup_take_lt. lia. }
      rewrite E, !IH by lia. done. }
    apply Hext; lia.
  - left. intros i x Hi Hx. apply lookup_lt_Some in Hx. lia.
Qed.

Lemma delete_if_spec sk func : stack_ok sk ->
  let sk' := OPENSSL_sk_delete_if sk func in
  valid sk' = filter (fun x => func x = false) (valid sk) /\ stack_ok sk'.
Proof.
  intros Hok. assert (Hok' := Hok). destruct Hok' as (H1 & H2 & _). unfold OPENSSL_sk_delete_if.
  assert (S := delete_if_loop_spec func (Z.to_nat (num sk)) 0 (sk_data sk) 0 ltac:(lia) ltac:(lia)).
  destruct (delete_if_loop _ _ _ _ _) as [arr k]. destruct S as (L & K & V). simpl in V.
  assert (E : take k arr = filter (fun x => func x = false) (valid sk)) by done.
  cbv zeta. unfold valid at 1. simpl. rewrite Nat2Z.id. split; [done|].
  eapply stack_ok_sub; try done; simpl; [|lia]. unfold valid at 1. simpl. rewrite Nat2Z.id, E.
  apply sublist_filter || (clear; induction (valid sk) as [|x l IH]; [constructor|];
    rewrite filter_cons; case_decide; by constructor).
Qed.

(** ** Removing duplicates *)

Abbreviation lt c := (fun a b => call_cmp_func c a b < 0).

Lemma compact_strict c l : forall prev, StronglySorted (le c) (prev :: l) ->
  let r := compact (fun prev x => negb (call_cmp_func c x prev =? 0)) prev l in
  StronglySorted (lt c) (prev :: r) /\ (forall y, y ∈ l -> exists z, z ∈ prev :: r /\ call_cmp_func c y z = 0).
Proof.
  induction l as [|x l IH]; intros prev Hs; cbn [compact].
  { split; [repeat constructor|]. set_solver. }
  inversion_clear Hs as [|? ? Hs' Hx]. inversion_clear Hx as [|? ? Hx1 Hx2].
  assert (Hl : StronglySorted (le c) l) by (by inversion_clear Hs').
  assert (Hxl : Forall (le c x) l) by (by inversion_clear Hs').
  destruct (Z.eqb_spec (call_cmp_func c x prev) 0) as [E|E]; cbn [negb].
  - destruct (IH prev) as [IH1 IH2]; [by constructor|]. split; [done|].
    intros y Hy. apply elem_of_cons in Hy as [->|Hy]; [|by apply IH2].
    exists prev. split; [set_solver|done].
  - destruct (IH x Hs') as [IH1 IH2].
    assert (Hlt : forall a, call_cmp_func c x a <= 0 -> call_cmp_func c prev a < 0).
    { intros a Ha. assert (T := cmp_trans (cmp := call_cmp_func c) prev x a Hx1 Ha).
      apply Z.nle_gt. intros Hge. apply Z.ltb_ge, cmp_not_lt in Hge.
      assert (U := cmp_trans (cmp := call_cmp_func c) x a prev Ha Hge).
      apply cmp_not_lt, Z.ltb_ge in U. assert (A := cmp_antisym (cmp := call_cmp_func c) x prev).
      assert (call_cmp_func c prev x = 0) as E' by lia. rewrite E' in A. simpl in A.
      apply E, Z.sgn_null_iff. lia. }
    assert (Refl : call_cmp_func c x x <= 0).
    { assert (A := cmp_antisym (cmp := call_cmp_func c) x x).
      assert (E0 : Z.sgn (call_cmp_func c x x) = 0) by lia. apply Z.sgn_null_iff in E0. lia. }
    split.
    + constructor; [done|]. constructor; [by apply Hlt|].
      eapply Forall_sub; [apply compact_sub|]. eapply Forall_impl; [exact Hxl|]. done.
    + intros y Hy. apply elem_of_cons in Hy as [->|Hy].
      * exists x. split; [set_solver|]. assert (A := cmp_antisym (cmp := call_cmp_func c) x x).
        apply Z.sgn_null_iff. lia.
      * destruct (IH2 y Hy) as (z & Hz & ?). exists z. split; [set_solver|done].
Qed.

Lemma dedup_spec sk c : stack_ok sk -> comp sk = Some c ->
  let sk' := OPENSSL_sk_sort_and_dedup call_cmp_func sk in
  stack_ok sk' /\ StronglySorted (lt c) (valid sk') /\
  (forall x, x ∈ valid sk' -> x ∈ valid sk) /\
  (forall y, y ∈ valid sk -> exists z, z ∈ valid sk' /\ call_cmp_func c y z = 0).
Proof.
  intros Hok Hc. destruct (sort_spec sk c Hok Hc) as (Hok1 & Hp & Hs & Hn & Hc1 & Ha).
  unfold OPENSSL_sk_sort_and_dedup. set (sk1 := OPENSSL_sk_sort call_cmp_func sk) in *.
  rewrite Hc1. assert (Lv := length_valid sk1 Hok1).
  assert (Heq : forall y, call_cmp_func c y y = 0).
  { intros y. assert (A := cmp_antisym (cmp := call_cmp_func c) y y). apply Z.sgn_null_iff. lia. }
  destruct (Z.leb_spec (num sk1) 1) as [H1|H1].
  { split; [done|]. split.
    { destruct (valid sk1) as [|x [|]]; [constructor|repeat constructor|simpl in Lv; lia]. }
    split; [intros x Hx; by rewrite <- Hp|]. intros y Hy. rewrite <- Hp in Hy. eauto. }
  assert (Hok1' := Hok1). destruct Hok1' as (D1 & D2 & _).
  destruct (lookup_lt_is_Some_2 (sk_data sk1) 0) as [x0 Hx0]; [lia|].
  assert (S := dedup_loop_spec (call_cmp_func c) (Z.to_nat (num sk1) - 1) 1 (sk_data sk1) 1 x0
    ltac:(lia) ltac:(lia) Hx0).
  destruct (dedup_loop _ _ _ _ _) as [arr k]. destruct S as (L & K & V). cbv zeta.
  set (l := take (Z.to_nat (num sk1) - 1) (drop 1 (sk_data sk1))) in *.
  assert (Hv : valid sk1 = x0 :: l).
  { unfold valid. destruct (sk_data sk1) as [|a arr0]; [done|]. simpl in Hx0. injection Hx0 as ->.
    subst l. simpl. destruct (Z.to_nat (num sk1)) eqn:En; [lia|]. simpl. by rewrite Nat.sub_0_r. }
  assert (Hv' : take k arr = x0 :: compact (fun prev x => negb (call_cmp_func c x prev =? 0)) x0 l).
  { rewrite V. rewrite (take_S_r _ 0 x0 Hx0). done. }
  rewrite Hv in Hs. destruct (compact_strict c l x0 Hs) as [St Cov].
  set (sk2 := mk_stack _ _ _ _ _). assert (Ev : valid sk2 = take k arr) by (unfold valid; simpl; by rewrite Nat2Z.id).
  rewrite Ev, Hv'. split; [|split; [done|split]].
  - eapply (stack_ok_sub sk1); try done; simpl; [|lia]. rewrite Ev, Hv', Hv.
    apply sublist_skip, compact_sub.
  - intros x Hx. rewrite <- Hp, Hv. apply elem_of_cons in Hx as [->|Hx]; [set_solver|].
    apply elem_of_cons. right. by eapply elem_of_sub; [apply compact_sub|].
  - intros y Hy. rewrite <- Hp, Hv in Hy. apply elem_of_cons in Hy as [->|Hy]; [|by apply Cov].
    exists x0. split; [set_solver|done].
Qed.

(** ** Reachable stacks *)

Inductive sk_step : stack_st -> stack_st -> Prop :=
  | step_zero sk : sk_step sk (OPENSSL_sk_zero sk)
  | step_set sk i v : 0 <= i -> sk_step sk (snd (OPENSSL_sk_set sk i v))
  | step_insert sk p w : 0 <= w -> sk_step sk (snd (OPENSSL_sk_insert sk p w))
  | step_push sk p : sk_step sk (snd (OPENSSL_sk_push sk p))
  | step_delete sk w : 0 <= w -> sk_step sk (snd (OPENSSL_sk_delete sk w))
  | step_delete_ptr sk p : sk_step sk (snd (OPENSSL_sk_delete_ptr sk p))
  | step_delete_if sk f : sk_step sk (OPENSSL_sk_delete_if sk f)
  | step_shift sk : sk_step sk (snd (OPENSSL_sk_shift sk))
  | step_pop sk : sk_step sk (snd (OPENSSL_sk_pop sk))
  | step_dup sk sk' : OPENSSL_sk_dup sk = Some sk' -> sk_step sk sk'
  | step_sort sk : sk_step sk (OPENSSL_sk_sort call_cmp_func sk)
  | step_dedup sk : sk_step sk (OPENSSL_sk_sort_and_dedup call_cmp_func sk)
  | step_set_cmp sk c : sk_step sk (snd (OPENSSL_sk_set_cmp_func sk c)).

Inductive reachable : stack_st -> Prop :=
  | reach_new c sk : OPENSSL_sk_new c = Some sk -> reachable sk
  | reach_step sk sk' : reachable sk -> sk_step sk sk' -> reachable sk'.

Lemma new_ok c sk : OPENSSL_sk_new c = Some sk -> stack_ok sk.
Proof.
  unfold OPENSSL_sk_new. destruct (OPENSSL_malloc _); [|done]. destruct (OPENSSL_calloc _ _); [|done].
  intros [= <-]. unfold stack_ok, kMinSize, INT_MAX. simpl length. simpl num. simpl num_alloc.
  split_and!; done || lia.
Qed.

Lemma insert_ok sk p w : stack_ok sk -> 0 <= w -> stack_ok (snd (OPENSSL_sk_insert sk p w)).
Proof.
  intros Hok Hw. destruct (OPENSSL_sk_insert sk p w) as [r sk'] eqn:E.
  apply insert_spec in E as [(_ & -> & _)|(_ & _ & _ & _ & ? & _)]; done.
Qed.

Lemma step_ok sk sk' : stack_ok sk -> sk_step sk sk' -> stack_ok sk'.
Proof.
  intros Hok Hs. assert (Hok' := Hok). destruct Hok' as (H1 & H2 & H3 & H4 & H5).
  assert (Hsame : forall sk1 cmp, len (sk_data sk1) = num_alloc sk1 -> num_alloc sk1 = num_alloc sk ->
    0 <= num sk1 <= num sk -> sorted sk1 = false -> comp sk1 = cmp -> stack_ok sk1).
  { intros sk1 cmp A1 A2 A3 A4 A5. unfold stack_ok. rewrite A4. split_and!; done || lia. }
  destruct Hs as [sk|sk i v Hi|sk p w Hw|sk p|sk w Hw|sk p|sk f|sk|sk|sk sk' Hd|sk|sk|sk c].
  - unfold OPENSSL_sk_zero. destruct (Z.eqb_spec (num sk) 0); [done|].
    eapply Hsame; simpl; try done; [|lia]. rewrite length_mem_write; [done|].
    rewrite length_replicate. lia.
  - unfold OPENSSL_sk_set. destruct (Z.leb_spec (num sk) i); [done|]. simpl.
    eapply Hsame; simpl; try done; [by rewrite length_insert|lia].
  - by apply insert_ok.
  - apply insert_ok; [done|lia].
  - by apply delete_ok.
  - unfold OPENSSL_sk_delete_ptr. destruct (find_first _ _); [|done]. apply delete_ok; [done|lia].
  - by apply delete_if_spec.
  - unfold OPENSSL_sk_shift. destruct (Z.eqb_spec (num sk) 0); [done|]. by apply delete_ok.
  - unfold OPENSSL_sk_pop. destruct (Z.eqb_spec (num sk) 0); [done|]. apply delete_ok; [done|lia].
  - unfold OPENSSL_sk_dup in Hd. repeat case_match; try done. by injection Hd as <-.
  - destruct (comp sk) as [c|] eqn:Ec; [by apply (sort_spec sk c)|].
    unfold OPENSSL_sk_sort. by rewrite Ec.
  - destruct (comp sk) as [c|] eqn:Ec; [by apply (dedup_spec sk c)|].
    unfold OPENSSL_sk_sort_and_dedup, OPENSSL_sk_sort. by rewrite Ec, Ec.
  - unfold stack_ok, OPENSSL_sk_set_cmp_func. cbn [snd num sk_data num_alloc sorted comp].
    destruct (decide (comp sk = c)) as [<-|_];
      (split_and!; [done|lia|lia|done|lia|lia|done]).
Qed.

(** In every state a stack can reach, the array has room for the
    elements, their number stays below [INT_MAX], and if the [sorted] flag is
    set the elements are in ascending order of the current comparison
    function. *)
Theorem stack_invariant sk : reachable sk -> stack_ok sk.
Proof. induction 1 as [c sk E|sk sk' _ IH Hs]; [by eapply new_ok|by eapply step_ok]. Qed.

(** [OPENSSL_sk_find] returns the first element that compares equal, or
    nothing, on every reachable stack: the binary search it uses on sorted
    stacks agrees with the linear search. *)
Theorem stack_find_first sk p c : reachable sk -> comp sk = Some c -> p <> 0 ->
  OPENSSL_sk_find call_cmp_func sk p =
    Z.of_nat <$> find_first (fun x => call_cmp_func c p x =? 0) (valid sk).
Proof.
  intros Hr. apply find_spec. induction Hr as [c0 sk0 E|sk0 sk1 _ IH Hs]; [by eapply new_ok|by eapply step_ok].
Qed.

(** The operations on a reachable stack are the list operations on its
    elements: insertion before a position, deletion, filtering, and sorting
    with the removal of duplicates, whose result is strictly ascending and has
    an equal for every element. *)
Theorem stack_list_operations sk : reachable sk ->
  (forall p w r sk', 0 <= w -> OPENSSL_sk_insert sk p w = (r, sk') ->
     (r = 0 /\ sk' = sk) \/
     (r = len (valid sk') /\
      valid sk' = take (Z.to_nat w) (valid sk) ++ p :: drop (Z.to_nat w) (valid sk))) /\
  (forall w, 0 <= w < num sk ->
     valid (snd (OPENSSL_sk_delete sk w)) = delete (Z.to_nat w) (valid sk) /\
     valid sk !! Z.to_nat w = Some (fst (OPENSSL_sk_delete sk w))) /\
  (forall f, valid (OPENSSL_sk_delete_if sk f) = filter (fun x => f x = false) (valid sk)) /\
  (forall c, comp sk = Some c ->
     let sk' := OPENSSL_sk_sort_and_dedup call_cmp_func sk in
     StronglySorted (lt c) (valid sk') /\ (forall x, x ∈ valid sk' -> x ∈ valid sk) /\
     forall y, y ∈ valid sk -> exists z, z ∈ valid sk' /\ call_cmp_func c y z = 0).
Proof.
  intros Hr. assert (Hok : stack_ok sk).
  { induction Hr as [c0 sk0 E|sk0 sk1 _ IH Hs]; [by eapply new_ok|by eapply step_ok]. }
  assert (Lv := length_valid sk Hok). split_and!.
  - intros p w r sk' Hw E. apply insert_spec in E as [(-> & -> & _)|(-> & E1 & _ & _ & Hok' & Hv)];
      [by left|right|done|done]. split; [by rewrite length_valid|]. rewrite Hv. cbv zeta.
    destruct (decide (w <= num sk)); [by rewrite Z.min_l|]. rewrite Z.min_r by lia.
    by rewrite !take_ge, !drop_ge by lia.
  - intros w Hw. assert (S := delete_spec sk w Hok ltac:(lia)).
    destruct (OPENSSL_sk_delete sk w) as [ret sk']. destruct (Z.ltb_spec w (num sk)); [|lia].
    destruct S as (S1 & _ & _ & _ & S2). simpl. by rewrite S2, delete_take_drop.
  - intros f. by apply delete_if_spec.
  - intros c Hc. by apply (dedup_spec sk c).
Qed.

End facts.

(** ** Instances *)

Definition z_cmp (c : nat) (a b : Z) : Z := a - b.

#[export] Instance z_cmp_laws c : CmpLaws (z_cmp c).
Proof. unfold z_cmp. split; intros; lia. Qed.

(** Insertion sort is a [std::sort]. *)
Fixpoint sort_insert (lt : Z -> Z -> bool) (x : Z) (l : list Z) : list Z :=
  match l with
  | [] => [x]
  | y :: l' => if lt y x then y :: sort_insert lt x l' else x :: l
  end.

Lemma sort_insert_perm lt x l : Permutation (sort_insert lt x l) (x :: l).
Proof.
  induction l as [|y l IH]; simpl; [done|]. case_if; [|done]. rewrite IH. by constructor.
Qed.

Lemma sort_insert_sorted lt x l :
  (forall a b, lt a b = true -> lt b a = false) ->
  (forall a b c, lt a b = false -> lt b c = false -> lt a c = false) ->
  StronglySorted (fun a b => lt b a = false) l ->
  StronglySorted (fun a b => lt b a = false) (sort_insert lt x l).
Proof.
  intros Ha Ht. induction 1 as [|y l Hs IH Hy]; simpl; [repeat constructor|].
  destruct (lt y x) eqn:E.
  - constructor; [done|]. rewrite sort_insert_perm. constructor; [by rewrite (Ha y x)|done].
  - constructor; [by constructor|]. constructor; [done|]. eapply Forall_impl; [exact Hy|].
    intros z Hz. exact (Ht _ _ _ Hz E).
Qed.

Program Definition insertion_sort : StdSort := {| std_sort lt l := foldr (sort_insert lt) [] l |}.
Next Obligation.
  intros lt l. induction l as [|x l IH]; simpl; [done|]. rewrite sort_insert_perm. by constructor.
Qed.
Next Obligation.
  intros lt l Ha Ht. induction l as [|x l IH]; simpl; [constructor|]. by apply sort_insert_sorted.
Qed.

(** A stack with the elements 5, 3, 5, 4, sorted, and one removed. *)
Definition example_stack : stack_st :=
  let sk := mk_stack 0 [0; 0; 0; 0] false 4 (Some O) in
  let sk := snd (@OPENSSL_sk_push zero_malloc sk 5) in
  let sk := snd (@OPENSSL_sk_push zero_malloc sk 3) in
  let sk := snd (@OPENSSL_sk_push zero_malloc sk 5) in
  let sk := snd (@OPENSSL_sk_push zero_malloc sk 4) in
  snd (OPENSSL_sk_shift (@OPENSSL_sk_sort insertion_sort z_cmp sk)).

Lemma example_reachable : @reachable zero_malloc insertion_sort z_cmp example_stack.
Proof.
  unfold example_stack. repeat (eapply reach_step; [|first [apply step_shift|apply step_sort|apply step_push]]).
  apply (reach_new z_cmp (Some O)). by vm_compute.
Qed.

Lemma stack_invariant_witness :
  @stack_ok z_cmp example_stack /\ sorted example_stack = true.
Proof.
  split; [exact (@stack_invariant zero_malloc insertion_sort z_cmp _ example_stack example_reachable)|].
  by vm_compute.
Defined.

Lemma stack_find_first_witness : @OPENSSL_sk_find z_cmp example_stack 5 = Some 1.
Proof.
  rewrite (@stack_find_first zero_malloc insertion_sort z_cmp _ example_stack 5 O example_reachable);
    [by vm_compute|by vm_compute|done].
Defined.

Lemma stack_list_operations_witness :
  valid example_stack = [4; 5; 5] /\
  valid (OPENSSL_sk_delete_if example_stack (Z.eqb 4)) = [5; 5].
Proof.
  split; [by vm_compute|].
  destruct (@stack_list_operations zero_malloc insertion_sort z_cmp _ example_stack example_reachable)
    as (_ & _ & H & _).
  rewrite H. by vm_compute.
Defined.
