(* ===== verification/ByteString.v ===== *)
(** * CBS reads what CBB writes

    The contract between the two halves of crypto/bytestring: a reader of
    cbs.cc accepts a window exactly when it starts with the bytes the matching
    writer of cbb.cc produces, and reports the value that was written; no
    reader leaves its window; object identifiers survive the way to text and
    back.  At the end, the texts of times the readers accept. *)

From S2P Require Import Prelude Internal Alloc PosixTime Cbs CbsFacts Der Cbb CbbFacts CbbAsn1.
From S2P Require Import Oid Builder.
Import Endian Mem.

(** ** Programs of one value *)

Lemma output_one c e : call_ok c = true ->
  call_frames c [root_frame] = append e [root_frame] -> output [(Top, c)] = Some e.
Proof.
  intros Hok E. unfold output, meaning, step_meaning. cbn [fst snd position].
  change (drop 1 [root_frame]) with (@nil frame). cbn [closable andb]. rewrite Hok.
  change (close 0 [root_frame]) with [root_frame]. rewrite E. cbn. by rewrite !app_nil_r.
Qed.

(** A child with a fixed-width length prefix and its contents. *)
Lemma output_prefixed (k : nat) c data : c = AddU8Prefixed 1 /\ k = 1%nat \/
    c = AddU16Prefixed 1 /\ k = 2%nat \/ c = AddU24Prefixed 1 /\ k = 3%nat ->
  output [(Top, c); (Child 1, AddBytes data)] =
    if len data <? 256 ^ Z.of_nat k then Some (be_encode k (len data) ++ data) else None.
Proof.
  intros Hc. assert (E : call_ok c = true /\ call_frames c [root_frame] =
    [root_frame] ++ [mk_frame 1 (Fixed k) []]) by (destruct Hc as [[-> ->]|[[-> ->]|[-> ->]]]; done).
  destruct E as [E1 E2].
  assert (M1 : step_meaning (Top, c) [root_frame] = Some [root_frame; mk_frame 1 (Fixed k) []]).
  { unfold step_meaning. cbn [fst snd position]. change (drop 1 [root_frame]) with (@nil frame).
    cbn [closable andb]. rewrite E1. change (close 0 [root_frame]) with [root_frame]. by rewrite E2. }
  assert (M2 : step_meaning (Child 1, AddBytes data) [root_frame; mk_frame 1 (Fixed k) []] =
    Some [root_frame; mk_frame 1 (Fixed k) data]) by done.
  unfold output, meaning. rewrite M1, M2. cbn [tail closable andb f_prefix f_contents prefix_fits closed].
  rewrite app_nil_r. destruct (Z.ltb_spec (len data) (256 ^ Z.of_nat k)); [|done].
  unfold close. cbn [take drop append add_contents closed f_addr f_prefix f_contents root_frame flat
    prefix_len replicate encode_prefix app].
  by rewrite !app_nil_r.
Qed.

Section roundtrip.
Context `{Malloc}.

Lemma written_one c e : call_typed c -> call_ok c = true -> len e < 2 ^ 64 ->
  call_frames c [root_frame] = append e [root_frame] ->
  forall e', written [(Top, c)] e' <-> e' = e.
Proof.
  intros Ht Hok Hl E e'. rewrite written_iff by (repeat constructor; done).
  rewrite (output_one c e) by done. unfold word. split; [by intros [_ [= ->]]|intros ->].
  split; [lia|done].
Qed.

Lemma written_prefixed (k : nat) c data e : bytes data -> word 64 (len data) ->
  c = AddU8Prefixed 1 /\ k = 1%nat \/ c = AddU16Prefixed 1 /\ k = 2%nat \/
    c = AddU24Prefixed 1 /\ k = 3%nat ->
  written [(Top, c); (Child 1, AddBytes data)] e <->
  len data < 256 ^ Z.of_nat k /\ e = be_encode k (len data) ++ data.
Proof.
  intros Hd Hl Hc. assert (Hk : (k <= 3)%nat) by lia.
  assert (256 ^ Z.of_nat k <= 256 ^ 3) by (apply Z.pow_le_mono_r; lia).
  rewrite written_iff.
  2: { repeat constructor; [by destruct Hc as [[-> _]|[[-> _]|[-> _]]]|done|apply Hl|apply Hl]. }
  rewrite (output_prefixed k) by done.
  destruct (Z.ltb_spec (len data) (256 ^ Z.of_nat k)); [|split; [by intros [_ ?]|lia]].
  split; [by intros [_ [= ->]]|intros [_ ->]].
  split; [|done]. unfold word. rewrite length_app, length_be_encode. lia.
Qed.

Lemma get_length_prefixed_Some (k : nat) s data s' : bytes s -> (k <= 8)%nat ->
  cbs_get_length_prefixed (Z.of_nat k) s = (Some data, s') <->
  len data < 256 ^ Z.of_nat k /\ s = (be_encode k (len data) ++ data) ++ s'.
Proof.
  intros Hs Hk. unfold cbs_get_length_prefixed, CBS_get_bytes. rewrite pbind_Some. split.
  - intros (n & s1 & E1 & E2). apply cbs_get_u_Some in E1 as (d & -> & Hd & ->); [|lia|done].
    apply bytes_app in Hs as [Hb _]. assert (B := be_decode_bound d Hb).
    apply cbs_get_Some in E2 as [-> El]; [|lia]. rewrite El, <- Hd. split; [lia|].
    assert (Ek : k = length d) by lia. rewrite Ek, be_encode_decode by done. by rewrite <- app_assoc.
  - intros [Hl ->]. rewrite <- app_assoc in *. exists (len data), (data ++ s'). split.
    + apply cbs_get_u_encode; [done|lia|]. by apply bytes_app in Hs as [_ Hs].
    + by apply cbs_get_Some; [lia|].
Qed.

(** The readers of length-prefixed vectors accept a window exactly when
    it starts with what the builder writes for a length-prefixed child with
    these contents, and leave the rest; a vector too long for its prefix is
    neither read nor written. *)
Theorem length_prefixed_roundtrip s data s' : bytes s -> bytes data -> word 64 (len data) ->
  (CBS_get_u8_length_prefixed s = (Some data, s') <->
   exists e, written [(Top, AddU8Prefixed 1); (Child 1, AddBytes data)] e /\ s = e ++ s') /\
  (CBS_get_u16_length_prefixed s = (Some data, s') <->
   exists e, written [(Top, AddU16Prefixed 1); (Child 1, AddBytes data)] e /\ s = e ++ s') /\
  (CBS_get_u24_length_prefixed s = (Some data, s') <->
   exists e, written [(Top, AddU24Prefixed 1); (Child 1, AddBytes data)] e /\ s = e ++ s').
Proof.
  intros Hs Hd Hl.
  assert (G : forall (k : nat) c, (c = AddU8Prefixed 1 /\ k = 1%nat \/ c = AddU16Prefixed 1 /\ k = 2%nat \/
    c = AddU24Prefixed 1 /\ k = 3%nat) ->
    cbs_get_length_prefixed (Z.of_nat k) s = (Some data, s') <->
    exists e, written [(Top, c); (Child 1, AddBytes data)] e /\ s = e ++ s').
  { intros k c Hc. rewrite get_length_prefixed_Some by (done || lia). split.
    - intros [H1 H2]. exists (be_encode k (len data) ++ data). split; [|done].
      by apply (written_prefixed k).
    - intros (e & He & E). apply (written_prefixed k) in He as [? ->]; done. }
  split_and!; [apply (G 1%nat)|apply (G 2%nat)|apply (G 3%nat)]; auto.
Qed.

(** A reader and a writer of one value. *)
Lemma reads_written {A} (p : parser A) (v : A) c e s s' : call_typed c -> call_ok c = true ->
  word 64 (len e) -> call_frames c [root_frame] = append e [root_frame] ->
  (p s = (Some v, s') <-> s = e ++ s') ->
  p s = (Some v, s') <-> exists e, written [(Top, c)] e /\ s = e ++ s'.
Proof.
  intros Ht Hok Hl E ->. split.
  - intros ->. exists e. split; [|done]. apply (written_one c e); done || apply Hl.
  - intros (e' & He & ->). apply (written_one c e) in He as ->; done || apply Hl.
Qed.

Lemma len_der tag c : len (der tag c) <= 17 + len c.
Proof.
  unfold der, der_header. rewrite !length_app. assert (L1 := der_tag_nonempty tag).
  assert (L2 := length_der_len (len c) ltac:(lia)). lia.
Qed.

Lemma word64_der tag c : len c < 2 ^ 32 -> word 64 (len (der tag c)).
Proof. intros Hc. assert (L := len_der tag c). unfold word. lia. Qed.

(** [CBS_get_asn1] accepts exactly the elements [CBB_add_asn1_element]
    writes: one tag, the shortest length, the contents; and it leaves what
    follows.  [CBS_get_any_asn1] reports the tag with it. *)
Theorem der_element_roundtrip tag s c s' : bytes s -> bytes c -> valid_tag tag ->
  len c <= 0xfffffffe ->
  (CBS_get_asn1 tag s = (Some c, s') <->
   exists e, written [(Top, AddAsn1Element tag c)] e /\ s = e ++ s') /\
  (CBS_get_any_asn1 s = (Some (c, tag), s') <->
   exists e, written [(Top, AddAsn1Element tag c)] e /\ s = e ++ s').
Proof.
  intros Hs Hc Hv Hl. assert (Hok : call_ok (AddAsn1Element tag c) = true) by (by apply Z.leb_le).
  assert (Ht : call_typed (AddAsn1Element tag c)).
  { split; [apply Hv|]. split; [done|]. unfold word. lia. }
  split; apply (reads_written _ _ _ (der tag c)); try done; try (apply word64_der; lia).
  - rewrite CBS_get_asn1_Some by done. split; [by intros (_ & _ & ?)|]. intros ->. split_and!; done || lia.
  - unfold CBS_get_any_asn1. rewrite pbind_Some. split.
    + intros ([[out t] hl] & s1 & E & E1). apply get_any_asn1_element_Some in E as (c' & _ & _ & -> & -> & ->); [|done].
      rewrite CBS_skip_header in E1. apply pret_Some in E1 as [[= <- <-] ->]. done.
    + intros ->. exists (der tag c, tag, len (der_header tag (len c))), s'. split.
      * apply get_any_asn1_element_Some; [done|]. exists c. split_and!; done || lia.
      * by rewrite CBS_skip_header.
Qed.

(** The INTEGER and BOOLEAN readers return a value exactly on what the
    corresponding writer produces for it: reading inverts writing, and
    non-minimal, out-of-range and otherwise malformed contents are refused. *)
Theorem asn1_values_roundtrip s s' : bytes s ->
  (forall v, word 64 v -> CBS_get_asn1_uint64 s = (Some v, s') <->
     exists e, written [(Top, AddAsn1Uint64 v)] e /\ s = e ++ s') /\
  (forall v, INT64_MIN <= v <= INT64_MAX -> CBS_get_asn1_int64 s = (Some v, s') <->
     exists e, written [(Top, AddAsn1Int64 v)] e /\ s = e ++ s') /\
  (forall b : bool, CBS_get_asn1_bool s = (Some b, s') <->
     exists e, written [(Top, AddAsn1Bool (if b then 1 else 0))] e /\ s = e ++ s').
Proof.
  intros Hs. assert (Hv : valid_tag CBS_ASN1_INTEGER) by (split; [done|]; by intros [? _]).
  split_and!.
  - intros v Hw. apply (reads_written _ _ _ (der CBS_ASN1_INTEGER (der_int_contents v))); try done.
    + apply word64_der, length_der_int_contents, fits_uint64, Hw.
    + unfold CBS_get_asn1_uint64. rewrite get_asn1_uint64_Some by done.
      split; [by intros (_ & _ & ?)|]. by intros ->.
  - intros v Hw. assert (F : fits 9 v = true) by (apply (fits_mono 8); [lia|by apply fits_int64]).
    apply (reads_written _ _ _ (der CBS_ASN1_INTEGER (der_int_contents v))); try done.
    + by apply word64_der, length_der_int_contents.
    + unfold CBS_get_asn1_int64. rewrite get_asn1_int64_Some by done.
      split; [by intros (_ & _ & ?)|]. by intros ->.
  - intros b. apply (reads_written _ _ _ (der CBS_ASN1_BOOLEAN (der_bool b))); try done.
    + by destruct b.
    + by apply get_asn1_bool_Some.
Qed.

(** No reader leaves its window: whatever it returns, what it leaves is a
    suffix of what it was given, and a successful read depends on the bytes it
    consumed only, not on those after them. *)
Theorem readers_stay_in_window :
  (forall n, ParserOk (cbs_get n)) /\ (forall n, ParserOk (cbs_get_u n)) /\
  (forall n, ParserOk (cbs_get_length_prefixed n)) /\
  (forall ber_ok, ParserOk (cbs_get_any_asn1_element ber_ok)) /\
  (forall tag skip, ParserOk (cbs_get_asn1 tag skip)) /\
  (forall tag, ParserOk (CBS_get_asn1_uint64_with_tag tag)) /\
  (forall tag, ParserOk (CBS_get_asn1_int64_with_tag tag)) /\ ParserOk CBS_get_asn1_bool /\
  ParserOk parse_base128_integer /\
  (forall gen off, ParserOk (parse_time_fields gen off)).
Proof.
  split_and!; intros; apply _.
Qed.

(** ** Object identifiers *)

(** The octets a fresh builder holds after [CBB_add_asn1_oid_from_text]. *)
Definition oid_of_text (b text : list Z) : option (list Z) :=
  fst ((let* _ := CBB_add_asn1_oid_from_text Top text in CBB_finish Top true true)
         (CBB_init_fixed b)).

Lemma oid_of_text_eq b v cs : bytes b -> len b < 2 ^ 64 -> components (v :: cs) ->
  oid_of_text b (oid_text v cs) =
    if len (oid_octets (v :: cs)) <=? len b then Some (oid_octets (v :: cs)) else None.
Proof.
  intros Hb Hl Hc. unfold oid_of_text. rewrite (finish_fixed _ true (oid_octets (v :: cs))); [done..|].
  by apply (refines_oid_from_text [root_frame] Top 0 v cs).
Qed.

Lemma oid_to_text_spec cbs : bytes cbs -> len cbs < 2 ^ 32 ->
  (forall t, CBS_asn1_oid_to_text cbs = Some t -> exists v cs, components (v :: cs) /\
     cbs = oid_octets (v :: cs) /\ t = oid_text v cs ++ [0]) /\
  (forall v cs, malloc_never_fails -> components (v :: cs) -> cbs = oid_octets (v :: cs) ->
     CBS_asn1_oid_to_text cbs = Some (oid_text v cs ++ [0])).
Proof.
  intros Hb Hl.
  assert (T := text_of_octets
    (fun v => if 80 <=? v then let* _ := CBB_add_bytes Top [50; 46] in add_decimal Top (v - 80)
     else let* _ := add_decimal Top (v / 40) in
          let* _ := CBB_add_u8 Top 46 in add_decimal Top (v mod 40))
    (fun v => oid_text v []) cbs Hb Hl (fun v fs Hf Hv => refines_first fs v Hf Hv)).
  lapply T; [clear T; intros [T1 T2]|].
  - split.
    + intros t Ht. destruct (T1 t Ht) as (v & cs & Hc & E & ->). exists v, cs.
      split; [done|]. split; [done|]. by rewrite (oid_text_app v cs), <- app_assoc.
    + intros v cs Hm Hc E. rewrite (oid_text_app v cs), <- app_assoc. by apply T2.
  - intros v _. unfold oid_text, relative_oid_text.
    assert (D := fun x => proj2 (decimal_bytes x)). assert (L := fun c => len_dotted [c]).
    case_if; rewrite length_app;
      match goal with |- context [decimal ?a] => match goal with |- context [dotted [?c]] =>
        specialize (D a); specialize (L c) end end; simpl length in *; lia.
Qed.

(** Object identifiers survive the way to text and back: the text
    [CBS_asn1_oid_to_text] produces is parsed to the same octets by
    [CBB_add_asn1_oid_from_text], and every text that function accepts is
    printed again from the octets it wrote. *)
Theorem oid_text_roundtrip b : bytes b -> len b < 2 ^ 32 ->
  (forall cbs t, bytes cbs -> len cbs <= len b -> CBS_asn1_oid_to_text cbs = Some t ->
     exists text, t = text ++ [0] /\ oid_of_text b text = Some cbs) /\
  (forall text out, malloc_never_fails -> oid_of_text b text = Some out ->
     CBS_asn1_oid_to_text out = Some (text ++ [0])).
Proof.
  intros Hb Hl. split.
  - intros cbs t Hc Hcl Ht. apply oid_to_text_spec in Ht as (v & cs & Hv & -> & ->); [|done|lia].
    exists (oid_text v cs). split; [done|]. rewrite oid_of_text_eq by (done || lia).
    by destruct (Z.leb_spec (len (oid_octets (v :: cs))) (len b)); [|lia].
  - intros text out Hm E. assert (exists v cs, components (v :: cs) /\ text = oid_text v cs)
      as (v & cs & Hv & ->).
    { unfold oid_of_text, pbind in E. destruct (CBB_add_asn1_oid_from_text Top text _) as [[u|] st] eqn:E1;
        [|done]. by eapply oid_from_text_Some. }
    rewrite oid_of_text_eq in E by (done || lia).
    destruct (Z.leb_spec (len (oid_octets (v :: cs))) (len b)); [|done]. injection E as <-.
    apply oid_to_text_spec; [apply bytes_oid_octets|lia|done..].
Qed.

End roundtrip.

(** ** Instances *)

(** The server name [a.b] of a ClientHello, read back. *)
Lemma length_prefixed_roundtrip_witness :
  CBS_get_u16_length_prefixed [0; 3; 97; 46; 98; 7] = (Some [97; 46; 98], [7]) /\
  exists e, @written zero_malloc [(Top, AddU16Prefixed 1); (Child 1, AddBytes [97; 46; 98])] e /\
    [0; 3; 97; 46; 98; 7] = e ++ [7].
Proof.
  split; [by vm_compute|].
  apply (@length_prefixed_roundtrip zero_malloc [0; 3; 97; 46; 98; 7] [97; 46; 98] [7]
    ltac:(byte_list) ltac:(byte_list) ltac:(by vm_compute)). by vm_compute.
Defined.

(** An OCTET STRING. *)
Lemma der_element_roundtrip_witness :
  exists e, @written zero_malloc [(Top, AddAsn1Element 4 [1; 2])] e /\ [4; 2; 1; 2; 9] = e ++ [9].
Proof.
  apply (@der_element_roundtrip zero_malloc 4 [4; 2; 1; 2; 9] [1; 2] [9]
    ltac:(byte_list) ltac:(byte_list)); [split; [done|by intros [? _]]|by vm_compute|by vm_compute].
Defined.

(** -129 needs two octets. *)
Lemma asn1_values_roundtrip_witness :
  exists e, @written zero_malloc [(Top, AddAsn1Int64 (-129))] e /\
    [2; 2; 255; 127; 5; 0] = e ++ [5; 0].
Proof.
  apply (@asn1_values_roundtrip zero_malloc [2; 2; 255; 127; 5; 0] [5; 0] ltac:(byte_list));
    by vm_compute.
Defined.

(** 1.2.840.113549. *)
Lemma oid_text_roundtrip_witness :
  exists text, text = [49; 46; 50; 46; 56; 52; 48; 46; 49; 49; 51; 53; 52; 57] /\
    @oid_of_text zero_malloc (replicate 8 0) text = Some [42; 134; 72; 134; 247; 13].
Proof.
  destruct (@oid_text_roundtrip zero_malloc (replicate 8 0)
    (bytes_replicate 8 0 ltac:(by vm_compute)) ltac:(by vm_compute)) as [H _].
  destruct (H [42; 134; 72; 134; 247; 13]
    [49; 46; 50; 46; 56; 52; 48; 46; 49; 49; 51; 53; 52; 57; 0]) as (text & E & Ht);
    [byte_list|by vm_compute|by vm_compute|].
  exists text. split; [|done]. by apply (app_inj_2 [49; 46; 50; 46; 56; 52; 48; 46; 49; 49; 51; 53; 52; 57] text [0] [0]) in E as [-> _].
Defined.

(** ** UTCTime and GeneralizedTime

    What the time readers of crypto/bytestring/cbs.cc accept, exactly, as the
    texts of a printing function. *)

(** *** Printing *)

Definition two_digits (n : Z) : list Z := [48 + n / 10; 48 + n mod 10].

Definition year_text (is_gentime : bool) (y : Z) : list Z :=
  if is_gentime then two_digits (y / 100) ++ two_digits (y mod 100) else two_digits (y mod 100).

(** The fields of a time, without the zone. *)
Definition time_text (is_gentime : bool) (t : tm) : list Z :=
  year_text is_gentime (tm_year t + 1900) ++ two_digits (tm_mon t + 1) ++ two_digits (tm_mday t) ++
  two_digits (tm_hour t) ++ two_digits (tm_min t) ++ two_digits (tm_sec t).

(** An offset of [hh] hours and [mm] minutes with sign [sign] (1 or -1). *)
Definition offset_text (sign hh mm : Z) : list Z :=
  (if sign =? 1 then 43 else 45) :: two_digits hh ++ two_digits mm.

(** The times each form can carry. *)
Definition year_ok (is_gentime : bool) (y : Z) : bool :=
  if is_gentime then (0 <=? y) && (y <? 10000) else (1950 <=? y) && (y <? 2050).

Definition time_ok (is_gentime : bool) (t : tm) : bool :=
  year_ok is_gentime (tm_year t + 1900) && ((0 <=? tm_mon t) && (tm_mon t <? 12)) &&
  is_valid_day (tm_year t + 1900) (tm_mon t + 1) (tm_mday t) &&
  ((0 <=? tm_hour t) && (tm_hour t <? 24)) && ((0 <=? tm_min t) && (tm_min t <? 60)) &&
  ((0 <=? tm_sec t) && (tm_sec t <? 60)).

(** *** Reading *)

Lemma two_digits_Some s n s' :
  cbs_get_two_digits s = (Some n, s') <-> 0 <= n < 100 /\ s = two_digits n ++ s'.
Proof.
  unfold cbs_get_two_digits, OPENSSL_isdigit. split.
  - intros E. parser_inv. apply CBS_get_u8_Some in E0 as ->. apply CBS_get_u8_Some in E2 as ->.
    bool_to_prop. split; [lia|]. unfold two_digits. simpl. f_equal; [div_lia|]. f_equal. div_lia.
  - intros [Hn ->]. unfold two_digits. simpl app.
    assert (0 <= n / 10 < 10 /\ 0 <= n mod 10 < 10) by div_lia.
    rewrite (pbind_step _ _ _ _ _ (CBS_get_u8_cons _ _)), pcheck_true by (apply andb_true_iff; lia).
    rewrite (pbind_step _ _ _ _ _ (CBS_get_u8_cons _ _)), pcheck_true by (apply andb_true_iff; lia).
    unfold pret. do 2 f_equal. div_lia.
Qed.

Ltac digits_inv :=
  repeat match goal with
  | H : cbs_get_two_digits _ = (Some _, _) |- _ => apply two_digits_Some in H as [? ->]
  end.

Lemma get_two_digits n s : 0 <= n < 100 -> cbs_get_two_digits (two_digits n ++ s) = (Some n, s).
Proof. intros. by apply two_digits_Some. Qed.

Lemma parse_time_year_Some g s y s' :
  parse_time_year g s = (Some y, s') <-> year_ok g y = true /\ s = year_text g y ++ s'.
Proof.
  unfold parse_time_year, year_ok, year_text. destruct g.
  - rewrite andb_true_iff, Z.leb_le, Z.ltb_lt. split.
    + intros E. parser_inv. apply two_digits_Some in E0 as [? ->]. apply two_digits_Some in E1 as [? ->].
      split; [lia|]. rewrite <- app_assoc. f_equal; [f_equal; div_lia|]. do 2 f_equal. div_lia.
    + intros [? ->]. rewrite <- app_assoc.
      rewrite (pbind_step _ _ _ _ _ (get_two_digits (y / 100) _ ltac:(div_lia))).
      rewrite (pbind_step _ _ _ _ _ (get_two_digits (y mod 100) _ ltac:(div_lia))).
      unfold pret. do 2 f_equal. div_lia.
  - rewrite andb_true_iff, Z.leb_le, Z.ltb_lt. split.
    + intros E. parser_inv. apply two_digits_Some in E0 as [? ->]. bool_to_prop.
      destruct (Z.ltb_spec (1900 + x) 1950); (split; [lia|]; do 2 f_equal; div_lia).
    + intros [? ->]. rewrite (pbind_step _ _ _ _ _ (get_two_digits (y mod 100) _ ltac:(div_lia))).
      assert (E : (if 1900 + y mod 100 <? 1950 then 1900 + y mod 100 + 100 else 1900 + y mod 100) = y)
        by (destruct (Z.ltb_spec (1900 + y mod 100) 1950); div_lia).
      cbv zeta. rewrite E, pcheck_true by (apply negb_true_iff, Z.leb_gt; lia). done.
Qed.

(** The reader of the zone, when offsets are refused and when they are not. *)
Lemma parse_time_zone_Some allow s off s' :
  parse_time_zone allow s = (Some off, s') <->
  (off = 0 /\ s = 90 :: s') \/
  (allow = true /\ exists sign hh mm, (sign = 1 \/ sign = -1) /\ 0 <= hh < 24 /\ 0 <= mm < 60 /\
     off = sign * (hh * 3600 + mm * 60) /\ s = offset_text sign hh mm ++ s').
Proof.
  unfold parse_time_zone. split.
  - intros E. parser_inv. apply CBS_get_u8_Some in E0 as ->.
    destruct (Z.eqb_spec x 90) as [->|]; [parser_inv; simpl in E; parser_inv; by left|].
    right. destruct (Z.eqb_spec x 43) as [->|]; [|destruct (Z.eqb_spec x 45) as [->|]; [|done]];
      parser_inv; simpl in E; parser_inv; digits_inv; bool_to_prop; (split; [done|]).
    + exists 1. do 2 eexists. split; [by left|]. split; [|split; [|by split]]; lia.
    + exists (-1). do 2 eexists. split; [by right|]. split; [|split; [|by split]]; lia.
  - intros [[-> ->]|(-> & sign & hh & mm & Hs & Hh & Hm & -> & ->)];
      [by rewrite (pbind_step _ _ _ _ _ (CBS_get_u8_cons _ _))|].
    unfold offset_text. rewrite <- app_comm_cons, (pbind_step _ _ _ _ _ (CBS_get_u8_cons _ _)).
    assert (E : forall x, (if (if sign =? 1 then 43 else 45) =? 90 then pret 0
        else if (if sign =? 1 then 43 else 45) =? 43 then pret 1
        else if (if sign =? 1 then 43 else 45) =? 45 then pret (-1) else pfail) x
        = (Some sign, x : CBS)) by (by destruct Hs as [-> | ->]).
    rewrite (pbind_step _ _ _ _ _ (E _)). destruct (Z.eqb_spec sign 0); [lia|]. cbn [negb].
    rewrite pcheck_true by done. rewrite <- app_assoc.
    rewrite (pbind_step _ _ _ _ _ (get_two_digits hh _ ltac:(lia))), pcheck_true
      by (apply negb_true_iff, Z.ltb_ge; lia).
    rewrite (pbind_step _ _ _ _ _ (get_two_digits mm _ ltac:(lia))), pcheck_true
      by (apply negb_true_iff, Z.ltb_ge; lia). done.
Qed.

Lemma is_valid_day_range y m d : is_valid_day y m d = true -> 1 <= d <= 31.
Proof.
  unfold is_valid_day. destruct (Z.ltb_spec d 1); [done|].
  repeat case_match; intros ?; bool_to_prop; lia.
Qed.

Lemma time_ok_iff g t : time_ok g t = true <->
  year_ok g (tm_year t + 1900) = true /\ 0 <= tm_mon t < 12 /\
  is_valid_day (tm_year t + 1900) (tm_mon t + 1) (tm_mday t) = true /\
  0 <= tm_hour t < 24 /\ 0 <= tm_min t < 60 /\ 0 <= tm_sec t < 60.
Proof. unfold time_ok. rewrite !andb_true_iff, !Z.leb_le, !Z.ltb_lt. tauto. Qed.

Lemma parse_time_fields_Some g allow s t off s' :
  parse_time_fields g allow s = (Some (t, off), s') <->
  time_ok g t = true /\ exists z, s = time_text g t ++ z /\ parse_time_zone allow z = (Some off, s').
Proof.
  rewrite time_ok_iff. unfold parse_time_fields. split.
  - intros E. remember (t, off) as r eqn:Hr. parser_inv. injection Hr as <- <-. digits_inv.
    apply parse_time_year_Some in E0 as [Hy ->]. bool_to_prop.
    cbn [tm_year tm_mon tm_mday tm_hour tm_min tm_sec] in *.
    rewrite !Z.sub_add. split; [split_and!; done || lia|].
    eexists. split; [|done]. unfold time_text. cbn [tm_year tm_mon tm_mday tm_hour tm_min tm_sec].
    by rewrite !Z.sub_add, <- !app_assoc.
  - intros [(Hy & Hm & Hd & Hh & Hn & Hs) (z & -> & Hz)]. destruct t as [y mo d h mi sec].
    unfold time_text. cbn [tm_year tm_mon tm_mday tm_hour tm_min tm_sec] in *.
    rewrite <- !app_assoc. assert (R := is_valid_day_range _ _ _ Hd).
    rewrite (pbind_step _ _ _ (y + 1900) (two_digits (mo + 1) ++ two_digits d ++ two_digits h ++
      two_digits mi ++ two_digits sec ++ z)) by (by apply parse_time_year_Some).
    rewrite (pbind_step _ _ _ _ _ (get_two_digits (mo + 1) _ ltac:(lia))).
    rewrite pcheck_true by (apply negb_true_iff, orb_false_iff; rewrite !Z.ltb_ge; lia).
    rewrite (pbind_step _ _ _ _ _ (get_two_digits d _ ltac:(lia))), pcheck_true by done.
    rewrite (pbind_step _ _ _ _ _ (get_two_digits h _ ltac:(lia))), pcheck_true
      by (apply negb_true_iff, Z.ltb_ge; lia).
    rewrite (pbind_step _ _ _ _ _ (get_two_digits mi _ ltac:(lia))), pcheck_true
      by (apply negb_true_iff, Z.ltb_ge; lia).
    rewrite (pbind_step _ _ _ _ _ (get_two_digits sec _ ltac:(lia))), pcheck_true
      by (apply negb_true_iff, Z.ltb_ge; lia).
    rewrite (pbind_step _ _ _ _ _ Hz). unfold pret. do 2 f_equal. f_equal. f_equal; lia.
Qed.

Lemma parse_all_Some {A} (p : parser A) s x : parse_all p s = Some x <-> p s = (Some x, []).
Proof. unfold parse_all. destruct (p s) as [[y|] [|]]; naive_solver. Qed.

(** A parse with the zone designator [Z]. *)
Lemma parse_zulu g s t :
  CBS_parse_rfc5280_time_internal s g false true = Some (Some t) <->
  time_ok g t = true /\ s = time_text g t ++ [90].
Proof.
  unfold CBS_parse_rfc5280_time_internal. split.
  - destruct (parse_all _ s) as [[t0 off]|] eqn:E; [|done].
    apply parse_all_Some, parse_time_fields_Some in E as (Hok & z & -> & Hz).
    apply parse_time_zone_Some in Hz as [[-> ->]|[? _]]; [|done]. by intros [= <-].
  - intros [Hok ->]. assert (E : parse_all (parse_time_fields g false) (time_text g t ++ [90]) = Some (t, 0)).
    { apply parse_all_Some, parse_time_fields_Some. split; [done|]. exists [90]. split; [done|].
      apply parse_time_zone_Some. by left. }
    by rewrite E.
Qed.

(** Without timezone offsets, [CBS_parse_generalized_time] and
    [CBS_parse_utc_time] accept exactly the printed forms of the valid times of
    their range (years 0 to 9999, and 1950 to 2049) and return that time. *)
Theorem rfc5280_time_exact s t :
  (CBS_parse_generalized_time s true false = Some (Some t) <->
   time_ok true t = true /\ s = time_text true t ++ [90]) /\
  (CBS_parse_utc_time s true false = Some (Some t) <->
   time_ok false t = true /\ s = time_text false t ++ [90]).
Proof. split; apply parse_zulu. Qed.

(** A written timezone offset is added to the written time with its
    written sign ([+0100] gives a later time, [-0400] an earlier one), and the
    result is refused when it leaves the years 0 to 9999; if the caller does
    not ask for the time, that check is skipped and the string is accepted. *)
Theorem time_offset_added g t sign hh mm :
  time_ok g t = true -> sign = 1 \/ sign = -1 -> 0 <= hh < 24 -> 0 <= mm < 60 ->
  0 < hh + mm ->
  CBS_parse_rfc5280_time_internal (time_text g t ++ offset_text sign hh mm) g true true =
    Some <$> OPENSSL_gmtime_adj t 0 (sign * (hh * 3600 + mm * 60)) /\
  CBS_parse_rfc5280_time_internal (time_text g t ++ offset_text sign hh mm) g true false = Some None.
Proof.
  intros Hok Hs Hh Hm Hp. unfold CBS_parse_rfc5280_time_internal.
  assert (E : parse_all (parse_time_fields g true) (time_text g t ++ offset_text sign hh mm) =
    Some (t, sign * (hh * 3600 + mm * 60))).
  { apply parse_all_Some, parse_time_fields_Some. split; [done|]. eexists. split; [done|].
    apply parse_time_zone_Some. right. split; [done|]. exists sign, hh, mm. rewrite app_nil_r. done. }
  rewrite E. split; [|done]. cbn [negb].
  destruct (Z.eqb_spec (sign * (hh * 3600 + mm * 60)) 0); [lia|].
  by destruct (OPENSSL_gmtime_adj _ _ _).
Qed.

(** 2024-02-29 12:30:00 with the offset -0400: four hours earlier. *)
Lemma time_offset_added_witness :
  let t := mk_tm 124 1 29 12 30 0 in
  CBS_parse_rfc5280_time_internal (time_text true t ++ offset_text (-1) 4 0) true true true =
    Some (Some (mk_tm 124 1 29 8 30 0)).
Proof.
  intros t. destruct (time_offset_added true t (-1) 4 0) as [E _];
    [by vm_compute|by right|lia|lia|lia|]. rewrite E. by vm_compute.
Defined.
