(* ===== verification/LHash.v ===== *)
(** * lhash: the chained hash table

    Model of crypto/lhash/lhash.cc.  The table stores pointers ([Z], 0 is
    NULL).  A chain of [LHASH_ITEM] nodes is the list of the nodes; a node
    carries its address, so that the pointer to the next node that
    [OPENSSL_lh_doall_arg] keeps across a callback can be followed after the
    callback has changed the chain.  The two functions given to
    [OPENSSL_lh_new] are never changed: they are the section variables [hash]
    and [comp]. *)

From S2P Require Import Prelude Internal Alloc.
Import Mem.

Record LHASH_ITEM := mk_item { addr : nat; data : Z; item_hash : Z }.

(** [next_addr] supplies the addresses of new nodes. *)
Record LHASH := mk_lhash {
  num_items : Z; buckets : list (list LHASH_ITEM); num_buckets : Z; callback_depth : Z;
  next_addr : nat
}.

Definition kMinNumBuckets : Z := 16.
Definition kMaxAverageChainLength : Z := 2.
Definition kMinAverageChainLength : Z := 1.
Definition sizeof_bucket : Z := 8.
Definition sizeof_LHASH : Z := 48.
Definition sizeof_LHASH_ITEM : Z := 24.
Definition UINT_MAX : Z := 2 ^ 32 - 1.

(** The position the search loops stop at: the first node that compares equal,
    or the end of the chain. *)
Fixpoint search (equal : Z -> bool) (chain : list LHASH_ITEM) : nat :=
  match chain with
  | [] => 0
  | cur :: chain' => if equal (data cur) then 0 else S (search equal chain')
  end.

Definition chain_at (lh : LHASH) (i : nat) : list LHASH_ITEM := default [] (buckets lh !! i).

Definition bucket_of (n h : Z) : nat := Z.to_nat (h mod n).

Section lhash.
Context `{Malloc}.
Variable hash : Z -> Z.
Variable comp : Z -> Z -> Z.

Definition OPENSSL_lh_new : option LHASH :=
  match OPENSSL_malloc sizeof_LHASH with
  | None => None
  | Some _ =>
      match OPENSSL_calloc kMinNumBuckets sizeof_bucket with
      | None => None
      | Some _ => Some (mk_lhash 0 (replicate (Z.to_nat kMinNumBuckets) []) kMinNumBuckets 0 0)
      end
  end.

Definition OPENSSL_lh_num_items (lh : LHASH) : Z := num_items lh.

(** The pointer returned by the two search functions, as the bucket and the
    position in its chain. *)
Definition get_next_ptr_and_hash (lh : LHASH) (d : Z) : nat * nat * Z :=
  let h := hash d in
  let i := bucket_of (num_buckets lh) h in
  (i, search (fun x => comp x d =? 0) (chain_at lh i), h).

Definition get_next_ptr_by_key (lh : LHASH) (key_hash : Z) (cmp_key : Z -> Z) : nat * nat :=
  let i := bucket_of (num_buckets lh) key_hash in
  (i, search (fun x => cmp_key x =? 0) (chain_at lh i)).

Definition data_at (lh : LHASH) (i pos : nat) : Z :=
  match chain_at lh i !! pos with None => 0 | Some it => data it end.

Definition OPENSSL_lh_retrieve (lh : LHASH) (d : Z) : Z :=
  let '(i, pos, _) := get_next_ptr_and_hash lh d in data_at lh i pos.

(** [cmp_key] is the comparison with the key. *)
Definition OPENSSL_lh_retrieve_key (lh : LHASH) (key_hash : Z) (cmp_key : Z -> Z) : Z :=
  let '(i, pos) := get_next_ptr_by_key lh key_hash cmp_key in data_at lh i pos.

(** One round of the inner loop of [lh_rebucket]: the node becomes the head of
    its new chain. *)
Definition move_item (n : Z) (new_buckets : list (list LHASH_ITEM)) (cur : LHASH_ITEM) :=
  let b := bucket_of n (item_hash cur) in
  <[b := cur :: default [] (new_buckets !! b)]> new_buckets.

Definition lh_rebucket (lh : LHASH) (new_num_buckets : Z) : LHASH :=
  let alloc_size := u64 (sizeof_bucket * new_num_buckets) in
  if negb (alloc_size / sizeof_bucket =? new_num_buckets) then lh
  else match OPENSSL_zalloc alloc_size with
       | None => lh
       | Some _ =>
           mk_lhash (num_items lh)
             (foldl (fun new chain => foldl (move_item new_num_buckets) new chain)
                (replicate (Z.to_nat new_num_buckets) []) (buckets lh))
             new_num_buckets (callback_depth lh) (next_addr lh)
       end.

Definition lh_maybe_resize (lh : LHASH) : LHASH :=
  if 0 <? callback_depth lh then lh
  else
    let avg_chain_length := num_items lh / num_buckets lh in
    if kMaxAverageChainLength <? avg_chain_length then
      let new_num_buckets := u64 (num_buckets lh * 2) in
      if num_buckets lh <? new_num_buckets then lh_rebucket lh new_num_buckets else lh
    else if (avg_chain_length <? kMinAverageChainLength) && (kMinNumBuckets <? num_buckets lh) then
      let new_num_buckets := num_buckets lh / 2 in
      let new_num_buckets :=
        if new_num_buckets <? kMinNumBuckets then kMinNumBuckets else new_num_buckets in
      lh_rebucket lh new_num_buckets
    else lh.

Definition with_chain (lh : LHASH) (i : nat) (chain : list LHASH_ITEM) (n : Z) (next : nat) : LHASH :=
  mk_lhash n (<[i := chain]> (buckets lh)) (num_buckets lh) (callback_depth lh) next.

(** Returns the return value, [*old_data] and the table. *)
Definition OPENSSL_lh_insert (lh : LHASH) (d : Z) : bool * Z * LHASH :=
  let '(i, pos, h) := get_next_ptr_and_hash lh d in
  match chain_at lh i !! pos with
  | Some it =>
      (true, data it,
       with_chain lh i (<[pos := mk_item (addr it) d (item_hash it)]> (chain_at lh i))
         (num_items lh) (next_addr lh))
  | None =>
      match OPENSSL_malloc sizeof_LHASH_ITEM with
      | None => (false, 0, lh)
      | Some _ =>
          let item := mk_item (next_addr lh) d h in
          (true, 0,
           lh_maybe_resize
             (with_chain lh i (chain_at lh i ++ [item]) (u64 (num_items lh + 1)) (S (next_addr lh))))
      end
  end.

Definition OPENSSL_lh_delete (lh : LHASH) (d : Z) : Z * LHASH :=
  let '(i, pos, _) := get_next_ptr_and_hash lh d in
  match chain_at lh i !! pos with
  | None => (0, lh)
  | Some item =>
      (data item,
       lh_maybe_resize
         (with_chain lh i (delete pos (chain_at lh i)) (u64 (num_items lh - 1)) (next_addr lh)))
  end.

(** ** Iteration *)

Definition set_depth (lh : LHASH) (d : Z) : LHASH :=
  mk_lhash (num_items lh) (buckets lh) (num_buckets lh) d (next_addr lh).

(** [OPENSSL_lh_doall_arg] before and after its loops. *)
Definition doall_enter (lh : LHASH) : LHASH :=
  if callback_depth lh <? UINT_MAX then set_depth lh (callback_depth lh + 1) else lh.
Definition doall_leave (lh : LHASH) : LHASH :=
  lh_maybe_resize
    (if callback_depth lh <? UINT_MAX then set_depth lh (callback_depth lh - 1) else lh).

(** The chain from the node at address [a] on: [None] if there is no such node
    any more. *)
Fixpoint suffix_at (a : nat) (chain : list LHASH_ITEM) : option (LHASH_ITEM * list LHASH_ITEM) :=
  match chain with
  | [] => None
  | it :: chain' => if (addr it =? a)%nat then Some (it, chain') else suffix_at a chain'
  end.

Section doall.
Context {St : Type}.

(** The callback: it may read and change its own state and the table. *)
Variable func : Z -> St -> LHASH -> St * LHASH.

(** The inner loop; [cur] is the address of a node.  [None] stands for the
    access to a node that has been freed, and for the end of the fuel. *)
Fixpoint doall_chain (fuel : nat) (i : nat) (cur : option nat) (st : St) (lh : LHASH) :
    option (St * LHASH) :=
  match cur, fuel with
  | None, _ => Some (st, lh)
  | Some _, O => None
  | Some a, S fuel' =>
      match suffix_at a (chain_at lh i) with
      | None => None
      | Some (it, rest) =>
          let next := addr <$> head rest in
          let '(st', lh') := func (data it) st lh in
          doall_chain fuel' i next st' lh'
      end
  end.

(** The outer loop, from bucket [i] on, [n] buckets to go. *)
Fixpoint doall_buckets (fuel : nat) (n i : nat) (st : St) (lh : LHASH) : option (St * LHASH) :=
  match n with
  | O => Some (st, lh)
  | S n' =>
      match doall_chain fuel i (addr <$> head (chain_at lh i)) st lh with
      | None => None
      | Some (st', lh') => doall_buckets fuel n' (S i) st' lh'
      end
  end.

Definition OPENSSL_lh_doall_arg (fuel : nat) (lh : LHASH) (st : St) : option (St * LHASH) :=
  match doall_buckets fuel (Z.to_nat (num_buckets lh)) 0 st (doall_enter lh) with
  | None => None
  | Some (st', lh') => Some (st', doall_leave lh')
  end.

End doall.

End lhash.
