(* ===== verification/LHashFacts.v ===== *)
(** * The hash table is a map

    The invariant of lhash.cc's tables; every operation keeps it and acts on
    the abstract contents like the operation of a map whose keys are the
    classes of equal elements; resizing does not change the contents; the
    iteration visits every element once, also when the callback deletes the
    element it is given. *)

From Stdlib Require Import Sorting.Permutation Sorting.Sorted.
From S2P Require Import Prelude Internal Alloc LHash.
Import Mem.

(** What the functions given to [OPENSSL_lh_new] promise. *)
Class HashLaws (hash : Z -> Z) (comp : Z -> Z -> Z) : Prop := {
  hash_word : forall x, word 32 (hash x);
  comp_refl : forall x, comp x x = 0;
  comp_sym : forall x y, comp x y = 0 -> comp y x = 0;
  comp_trans : forall x y z, comp x y = 0 -> comp y z = 0 -> comp x z = 0;
  comp_hash : forall x y, comp x y = 0 -> hash x = hash y
}.

Definition items (lh : LHASH) : list LHASH_ITEM := mjoin (buckets lh).

Fixpoint find_item (equal : Z -> bool) (l : list LHASH_ITEM) : option LHASH_ITEM :=
  match l with
  | [] => None
  | it :: l' => if equal (data it) then Some it else find_item equal l'
  end.

(** ** Lists *)

(** Changing one chain. *)
Lemma join_insert_perm {A} (bs : list (list A)) i c : bs !! i = Some c ->
  exists rest, mjoin bs ≡ₚ c ++ rest /\ forall c', mjoin (<[i := c']> bs) ≡ₚ c' ++ rest.
Proof.
  intros Hi. exists (mjoin (take i bs) ++ mjoin (drop (S i) bs)). split.
  - rewrite <- (take_drop_middle bs i c Hi) at 1. rewrite join_app. cbn [mjoin list_join].
    apply Permutation_app_swap_app.
  - intros c'. rewrite insert_take_drop by (by eapply lookup_lt_Some).
    rewrite join_app. cbn [mjoin list_join]. apply Permutation_app_swap_app.
Qed.

Lemma search_find equal chain :
  chain !! search equal chain = find_item equal chain.
Proof. induction chain as [|it chain IH]; simpl; [done|]. by destruct (equal (data it)). Qed.

Lemma search_None equal chain : find_item equal chain = None -> search equal chain = length chain.
Proof.
  induction chain as [|it chain IH]; simpl; [done|]. destruct (equal (data it)); [done|].
  intros E. by rewrite IH.
Qed.

Lemma find_item_Some equal l it : find_item equal l = Some it -> it ∈ l /\ equal (data it) = true.
Proof.
  induction l as [|x l IH]; simpl; [done|]. destruct (equal (data x)) eqn:E.
  - intros [= <-]. split; [by left|done].
  - intros H. destruct (IH H). split; [by right|done].
Qed.

Lemma find_item_None equal l : find_item equal l = None <-> forall it, it ∈ l -> equal (data it) = false.
Proof.
  induction l as [|x l IH]; simpl; [split; [intros _ it Hit; by apply not_elem_of_nil in Hit|done]|].
  destruct (equal (data x)) eqn:E.
  - split; [done|]. intros H. specialize (H x ltac:(by left)). by rewrite E in H.
  - rewrite IH. split; [|intros H it Hit; apply H; by right].
    intros H it Hit. apply elem_of_cons in Hit as [->|Hit]; auto.
Qed.

Section facts.
Context `{Malloc}.
Variable hash : Z -> Z.
Variable comp : Z -> Z -> Z.
Context `{!HashLaws hash comp}.

Abbreviation distinct := (StronglySorted (fun a b : LHASH_ITEM => comp (data a) (data b) <> 0)).

Lemma comp_comm x y : comp x y <> 0 -> comp y x <> 0.
Proof. intros Hn E. by apply Hn, comp_sym. Qed.

#[local] Instance distinct_proper : Proper (Permutation ==> iff) (distinct : list LHASH_ITEM -> Prop).
Proof.
  assert (P : forall l l' : list LHASH_ITEM, l ≡ₚ l' -> distinct l -> distinct l').
  { induction 1 as [|x l l' Hl IH|x y l|l1 l2 l3 _ IH1 _ IH2]; intros Hd; auto.
    - apply StronglySorted_inv in Hd as [Hd Hx]. constructor; [auto|]. by rewrite <- Hl.
    - apply StronglySorted_inv in Hd as [Hd Hy]. apply StronglySorted_inv in Hd as [Hd Hx].
      inversion_clear Hy as [|? ? Hyx Hy']. repeat (constructor; auto). by apply comp_comm. }
  intros l l' Hl. split; apply P; [done|by symmetry].
Qed.

(** Equal elements of a table without duplicates are the same node. *)
Lemma find_unique l it d : distinct l -> it ∈ l -> comp (data it) d = 0 ->
  find_item (fun x => comp x d =? 0) l = Some it.
Proof.
  intros Hd Hit Hc. induction Hd as [|x l Hd IH Hx]; [by apply not_elem_of_nil in Hit|]. simpl.
  apply elem_of_cons in Hit as [->|Hit]; [by rewrite Hc|].
  destruct (Z.eqb_spec (comp (data x) d) 0) as [E|]; [|auto]. exfalso.
  rewrite Forall_forall in Hx. apply (Hx it Hit). eapply comp_trans; [exact E|by apply comp_sym].
Qed.

Lemma find_item_perm l l' d : l ≡ₚ l' -> distinct l ->
  find_item (fun x => comp x d =? 0) l = find_item (fun x => comp x d =? 0) l'.
Proof.
  intros Hl Hd. destruct (find_item _ l) as [it|] eqn:E; symmetry.
  - apply find_item_Some in E as [Hit Hc]. apply Z.eqb_eq in Hc.
    apply find_unique; [by rewrite <- Hl|by rewrite <- Hl|done].
  - rewrite find_item_None in *. intros it Hit. apply E. by rewrite Hl.
Qed.

(** ** The invariant *)

Definition placed (n : Z) (bs : list (list LHASH_ITEM)) : Prop :=
  forall i c it, bs !! i = Some c -> it ∈ c ->
    item_hash it = hash (data it) /\ bucket_of n (item_hash it) = i.

Definition lh_ok (lh : LHASH) : Prop :=
  len (buckets lh) = num_buckets lh /\ kMinNumBuckets <= num_buckets lh < 2 ^ 64 /\
  num_items lh = u64 (len (items lh)) /\ 0 <= callback_depth lh <= UINT_MAX /\
  placed (num_buckets lh) (buckets lh) /\ distinct (items lh) /\
  NoDup (addr <$> items lh) /\ Forall (fun it => addr it < next_addr lh)%nat (items lh).

(** The contents: the element equal to [d], if there is one. *)
Definition contents (lh : LHASH) (d : Z) : option Z :=
  data <$> find_item (fun x => comp x d =? 0) (items lh).

Lemma bucket_lt lh h : lh_ok lh -> 0 <= h -> (bucket_of (num_buckets lh) h < length (buckets lh))%nat.
Proof.
  intros (Hl & Hn & _) Hh. unfold bucket_of, kMinNumBuckets in *.
  assert (0 <= h mod num_buckets lh < num_buckets lh) by (apply Z.mod_pos_bound; lia). lia.
Qed.

Lemma chain_lookup lh h : lh_ok lh -> 0 <= h ->
  buckets lh !! bucket_of (num_buckets lh) h = Some (chain_at lh (bucket_of (num_buckets lh) h)).
Proof.
  intros Hok Hh. unfold chain_at.
  by destruct (lookup_lt_is_Some_2 (buckets lh) _ (bucket_lt lh h Hok Hh)) as [c ->].
Qed.

Lemma elem_of_items lh it : it ∈ items lh <-> exists i c, buckets lh !! i = Some c /\ it ∈ c.
Proof.
  unfold items. rewrite list_elem_of_join. split.
  - intros (c & Hit & Hc). apply list_elem_of_lookup in Hc as [i Hi]. eauto.
  - intros (i & c & Hi & Hit). exists c. split; [done|]. by eapply list_elem_of_lookup_2.
Qed.

(** Searching one chain is searching the table. *)
Lemma find_in_chain lh d : lh_ok lh ->
  find_item (fun x => comp x d =? 0) (chain_at lh (bucket_of (num_buckets lh) (hash d))) =
  find_item (fun x => comp x d =? 0) (items lh).
Proof.
  intros Hok. assert (Hc := chain_lookup lh (hash d) Hok (proj1 (hash_word d))).
  destruct Hok as (_ & _ & _ & _ & Hp & Hd & _).
  destruct (find_item _ (items lh)) as [it|] eqn:E.
  - apply find_item_Some in E as [Hit Eq]. apply Z.eqb_eq in Eq.
    apply elem_of_items in Hit as (i & c & Hi & Hit).
    destruct (Hp i c it Hi Hit) as [Hh Hb]. rewrite Hh, (comp_hash _ _ Eq) in Hb. rewrite Hb in *.
    rewrite Hc in Hi. injection Hi as <-.
    destruct (find_item _ (chain_at lh i)) as [it'|] eqn:E'.
    + apply find_item_Some in E' as [Hit' Eq']. apply Z.eqb_eq in Eq'.
      assert (F1 := find_unique (items lh) it d Hd
        (proj2 (elem_of_items lh it) (ex_intro _ i (ex_intro _ _ (conj Hc Hit)))) Eq).
      assert (F2 := find_unique (items lh) it' d Hd
        (proj2 (elem_of_items lh it') (ex_intro _ i (ex_intro _ _ (conj Hc Hit')))) Eq').
      congruence.
    + rewrite find_item_None in E'. specialize (E' it Hit). simpl in E'. apply Z.eqb_neq in E'. done.
  - apply find_item_None. intros it Hit. rewrite find_item_None in E. apply E.
    apply elem_of_items. eauto.
Qed.

Lemma retrieve_contents lh d : lh_ok lh ->
  OPENSSL_lh_retrieve hash comp lh d = default 0 (contents lh d).
Proof.
  intros Hok. unfold OPENSSL_lh_retrieve, get_next_ptr_and_hash, data_at, contents. cbv zeta.
  rewrite search_find, find_in_chain by done. by destruct (find_item _ _).
Qed.

(** ** Resizing *)

Lemma foldl_chains {A B} (f : B -> A -> B) (bs : list (list A)) b :
  foldl (fun new chain => foldl f new chain) b bs = foldl f b (mjoin bs).
Proof.
  revert b. induction bs as [|c bs IH]; intros b; [done|]. cbn [foldl mjoin list_join].
  by rewrite foldl_app, IH.
Qed.

Lemma move_item_spec n bs it : len bs = n -> 0 < n -> word 32 (item_hash it) ->
  item_hash it = hash (data it) -> placed n bs ->
  len (move_item n bs it) = n /\ mjoin (move_item n bs it) ≡ₚ it :: mjoin bs /\
  placed n (move_item n bs it).
Proof.
  intros Hl Hn [Hw _] Hh Hp. unfold move_item. cbv zeta. rewrite length_insert.
  set (b := bucket_of n (item_hash it)).
  assert (Hb : (b < length bs)%nat).
  { subst b. unfold bucket_of. assert (B := Z.mod_pos_bound (item_hash it) n Hn). lia. }
  destruct (lookup_lt_is_Some_2 bs b Hb) as [c Hc]. rewrite Hc. cbn [from_option id].
  destruct (join_insert_perm bs b c Hc) as (rest & E1 & E2).
  split; [done|]. split; [by rewrite E2, E1|].
  intros i c' it' Hi Hit. apply list_lookup_insert_Some in Hi as [(<- & <- & _)|[_ Hi]]; [|eauto].
  apply elem_of_cons in Hit as [->|Hit]; [done|]. eapply Hp; eauto.
Qed.

Lemma move_items_spec n l : forall bs, len bs = n -> 0 < n -> placed n bs ->
  Forall (fun it => item_hash it = hash (data it)) l ->
  let bs' := foldl (move_item n) bs l in
  len bs' = n /\ mjoin bs' ≡ₚ l ++ mjoin bs /\ placed n bs'.
Proof.
  induction l as [|it l IH]; intros bs Hl Hn Hp Hf; [done|]. cbn [foldl].
  inversion_clear Hf as [|? ? Hi Hf'].
  destruct (move_item_spec n bs it Hl Hn) as (L1 & P1 & Q1); [rewrite Hi; apply hash_word|done|done|].
  destruct (IH (move_item n bs it) L1 Hn Q1 Hf') as (L2 & P2 & Q2). split; [done|].
  split; [|done]. rewrite P2, P1. simpl. by rewrite Permutation_middle.
Qed.

Lemma placed_items lh : lh_ok lh -> Forall (fun it => item_hash it = hash (data it)) (items lh).
Proof.
  intros (_ & _ & _ & _ & Hp & _). apply Forall_forall. intros it Hit.
  apply elem_of_items in Hit as (i & c & Hi & Hit). by eapply Hp.
Qed.

Lemma mjoin_replicate_nil {A} n : mjoin (replicate n (@nil A)) = [].
Proof. induction n; simpl; auto. Qed.

(** Tables with the same nodes. *)
Record same_items (lh lh' : LHASH) : Prop := {
  si_items : items lh' ≡ₚ items lh;
  si_num : num_items lh' = num_items lh;
  si_depth : callback_depth lh' = callback_depth lh;
  si_next : next_addr lh' = next_addr lh
}.

Lemma same_items_refl lh : same_items lh lh.
Proof. by split. Qed.

Lemma same_items_ok lh lh' : same_items lh lh' -> lh_ok lh ->
  len (buckets lh') = num_buckets lh' -> kMinNumBuckets <= num_buckets lh' < 2 ^ 64 ->
  placed (num_buckets lh') (buckets lh') -> lh_ok lh'.
Proof.
  intros [E1 E2 E3 E4] (H1 & H2 & H3 & H4 & H5 & H6 & H7 & H8) L1 L2 L3.
  unfold lh_ok. rewrite E2, E3, E4, E1. split_and!; try done; try lia.
Qed.

Lemma rebucket_spec lh n : lh_ok lh -> kMinNumBuckets <= n < 2 ^ 64 ->
  same_items lh (lh_rebucket lh n) /\ lh_ok (lh_rebucket lh n).
Proof.
  intros Hok Hn. unfold lh_rebucket. cbv zeta. case_if; [by split; [apply same_items_refl|]|].
  destruct (OPENSSL_zalloc _); [|by split; [apply same_items_refl|]].
  rewrite foldl_chains. unfold kMinNumBuckets in Hn.
  destruct (move_items_spec n (mjoin (buckets lh)) (replicate (Z.to_nat n) [])) as (L & P & Q).
  - rewrite length_replicate. lia.
  - lia.
  - intros i c it Hi Hit. apply lookup_replicate in Hi as [-> _]. by apply not_elem_of_nil in Hit.
  - by apply placed_items.
  - rewrite mjoin_replicate_nil, app_nil_r in P. set (lh' := mk_lhash _ _ _ _ _).
    assert (S : same_items lh lh') by (by split). split; [done|].
    eapply same_items_ok; try done.
Qed.

Lemma maybe_resize_spec lh : lh_ok lh ->
  same_items lh (lh_maybe_resize lh) /\ lh_ok (lh_maybe_resize lh).
Proof.
  intros Hok. assert (Hn := proj1 (proj2 Hok)). unfold lh_maybe_resize, kMinNumBuckets in *. cbv zeta.
  repeat case_if; try (by split; [apply same_items_refl|]); apply rebucket_spec; try done;
    bool_to_prop; unfold kMinNumBuckets, wrap in *; div_lia.
Qed.

Lemma maybe_resize_suppressed lh : 0 < callback_depth lh -> lh_maybe_resize lh = lh.
Proof. intros Hd. unfold lh_maybe_resize. by destruct (Z.ltb_spec 0 (callback_depth lh)); [|lia]. Qed.

Lemma same_contents lh lh' d : lh_ok lh -> same_items lh lh' -> contents lh' d = contents lh d.
Proof.
  intros (_ & _ & _ & _ & _ & Hd & _) [E _ _ _]. unfold contents. f_equal. symmetry.
  apply find_item_perm; [by symmetry|done].
Qed.

(** ** Insertion and deletion *)

(** Changing the chain of bucket [i] of a well-formed table. *)
Lemma with_chain_ok lh i c c' n next : lh_ok lh -> buckets lh !! i = Some c ->
  let lh' := with_chain lh i c' n next in
  (forall it, it ∈ c' -> item_hash it = hash (data it) /\ bucket_of (num_buckets lh) (item_hash it) = i) ->
  n = u64 (len (items lh')) -> distinct (items lh') -> NoDup (addr <$> items lh') ->
  Forall (fun it => addr it < next)%nat (items lh') -> lh_ok lh'.
Proof.
  intros (H1 & H2 & _ & H4 & H5 & _) Hi lh' Hc Hn Hd Ha Hf. unfold lh_ok. subst lh'.
  cbn [with_chain num_items buckets num_buckets callback_depth next_addr] in *.
  rewrite length_insert. split_and!; try done; try lia.
  intros j cj it Hj Hit. apply list_lookup_insert_Some in Hj as [(<- & <- & _)|[_ Hj]]; eauto.
Qed.

(** A table with one more node. *)
Definition with_contents (lh lh' : LHASH) (d : Z) (v : option Z) : Prop :=
  forall x, contents lh' x = if comp d x =? 0 then v else contents lh x.

Lemma comp_eqb x y z : comp x y = 0 -> (comp x z =? 0) = (comp y z =? 0).
Proof.
  intros E. destruct (Z.eqb_spec (comp x z) 0), (Z.eqb_spec (comp y z) 0); try done; exfalso.
  - assert (comp y z = 0) by (eapply comp_trans; [by apply comp_sym|done]). done.
  - assert (comp x z = 0) by (by eapply comp_trans). done.
Qed.

Lemma contents_cons lh it r x : distinct (items lh) -> items lh ≡ₚ it :: r ->
  contents lh x = if comp (data it) x =? 0 then Some (data it)
                  else data <$> find_item (fun y => comp y x =? 0) r.
Proof.
  intros Hd E. unfold contents. rewrite (find_item_perm _ _ x E Hd). simpl. by case_if.
Qed.

Lemma distinct_inv x r : distinct (x :: r) -> forall it, it ∈ r -> comp (data x) (data it) <> 0.
Proof. intros Hd. apply StronglySorted_inv in Hd as [_ Hx]. by rewrite Forall_forall in Hx. Qed.

Lemma contents_rest lh it r x : distinct (items lh) -> items lh ≡ₚ it :: r ->
  comp (data it) x = 0 -> find_item (fun y => comp y x =? 0) r = None.
Proof.
  intros Hd E Hc. apply find_item_None. intros y Hy. apply Z.eqb_neq. intros Hyx.
  rewrite E in Hd. apply (distinct_inv _ _ Hd y Hy). eapply comp_trans; [done|by apply comp_sym].
Qed.

Lemma insert_replace_ok lh i pos it d :
  lh_ok lh -> i = bucket_of (num_buckets lh) (hash d) -> chain_at lh i !! pos = Some it ->
  comp (data it) d = 0 ->
  let lh' := with_chain lh i (<[pos := mk_item (addr it) d (item_hash it)]> (chain_at lh i))
               (num_items lh) (next_addr lh) in
  lh_ok lh' /\ with_contents lh lh' d (Some d) /\ len (items lh') = len (items lh).
Proof.
  intros Hok -> Hp Hc lh'. assert (Hi := chain_lookup lh (hash d) Hok (proj1 (hash_word d))).
  set (i := bucket_of _ _) in *. set (c := chain_at lh i) in *.
  set (it' := mk_item (addr it) d (item_hash it)) in *.
  destruct (join_insert_perm _ _ _ Hi) as (rest & E1 & E2). specialize (E2 (<[pos := it']> c)).
  destruct (insert_delete_perm c pos it it' Hp) as [P1 P2]. rewrite P1 in E1.
  change (items lh ≡ₚ it :: delete pos c ++ rest) in E1.
  assert (E3 : items lh' ≡ₚ it' :: delete pos c ++ rest) by (etransitivity; [exact E2|by rewrite P2]).
  clear E2. rename E3 into E2.
  assert (Hok' := Hok). destruct Hok' as (_ & _ & Hn & _ & Hpl & Hd & Ha & Hf).
  assert (Hd' : distinct (items lh')).
  { rewrite E2. assert (D := Hd). rewrite E1 in D. apply StronglySorted_inv in D as [D F].
    constructor; [done|]. eapply Forall_impl; [exact F|]. intros y Hy Hdy. apply Hy.
    by eapply comp_trans. }
  assert (Hlen : len (items lh') = len (items lh)) by (rewrite E2, E1; done).
  split; [|split; [|done]].
  - eapply with_chain_ok; try done; fold lh'.
    + intros y Hy. rewrite P2 in Hy. apply elem_of_cons in Hy as [->|Hy].
      * destruct (Hpl i c it Hi (list_elem_of_lookup_2 _ _ _ Hp)) as [Hh Hb].
        split; [|done]. simpl. rewrite Hh. by apply comp_hash.
      * eapply Hpl; [done|]. rewrite P1. by right.
    + by rewrite Hlen.
    + rewrite E2. rewrite E1 in Ha. done.
    + rewrite E2. rewrite E1 in Hf. inversion_clear Hf. by constructor.
  - intros x. rewrite (contents_cons lh' it' _ x Hd' E2), (contents_cons lh it _ x Hd E1).
    cbn [it' data]. rewrite (comp_eqb (data it) d x) by done. by case_if.
Qed.

Lemma insert_append_ok lh i d :
  lh_ok lh -> i = bucket_of (num_buckets lh) (hash d) -> contents lh d = None ->
  let lh' := with_chain lh i (chain_at lh i ++ [mk_item (next_addr lh) d (hash d)])
               (u64 (num_items lh + 1)) (S (next_addr lh)) in
  lh_ok lh' /\ with_contents lh lh' d (Some d) /\ len (items lh') = len (items lh) + 1.
Proof.
  intros Hok -> Hc lh'. assert (Hi := chain_lookup lh (hash d) Hok (proj1 (hash_word d))).
  set (i := bucket_of _ _) in *. set (c := chain_at lh i) in *.
  set (it' := mk_item (next_addr lh) d (hash d)) in *.
  destruct (join_insert_perm _ _ _ Hi) as (rest & E1 & E2). specialize (E2 (c ++ [it'])).
  assert (E : items lh' ≡ₚ it' :: items lh).
  { unfold items. simpl buckets. rewrite E2, E1. rewrite <- app_assoc. simpl.
    symmetry. apply Permutation_middle. }
  assert (Hok' := Hok). destruct Hok' as (_ & _ & Hn & _ & Hpl & Hd & Ha & Hf).
  assert (Hd' : distinct (items lh')).
  { rewrite E. constructor; [done|]. apply Forall_forall. intros y Hy. apply comp_comm.
    unfold contents in Hc. apply fmap_None in Hc. rewrite find_item_None in Hc.
    by apply Z.eqb_neq, Hc. }
  assert (Hlen : len (items lh') = len (items lh) + 1) by (rewrite E; simpl; lia).
  split; [|split; [|done]].
  - eapply with_chain_ok; try done; fold lh'.
    + intros y Hy. rewrite elem_of_app, list_elem_of_singleton in Hy. destruct Hy as [Hy| ->]; [|done].
      by eapply Hpl.
    + rewrite Hlen, Hn. unfold wrap. by rewrite Zplus_mod_idemp_l.
    + rewrite E. simpl. apply NoDup_cons. split; [|done]. rewrite list_elem_of_fmap.
      intros (y & Hy1 & Hy2). rewrite Forall_forall in Hf. specialize (Hf y Hy2). lia.
    + rewrite E. constructor; [simpl; lia|]. eapply Forall_impl; [exact Hf|]. intros y Hy. simpl in Hy. lia.
  - intros x. by rewrite (contents_cons lh' it' _ x Hd' E).
Qed.

Lemma lh_delete_ok lh i pos it d :
  lh_ok lh -> i = bucket_of (num_buckets lh) (hash d) -> chain_at lh i !! pos = Some it ->
  comp (data it) d = 0 ->
  let lh' := with_chain lh i (delete pos (chain_at lh i)) (u64 (num_items lh - 1)) (next_addr lh) in
  lh_ok lh' /\ with_contents lh lh' d None /\ items lh ≡ₚ it :: items lh'.
Proof.
  intros Hok -> Hp Hc lh'. assert (Hi := chain_lookup lh (hash d) Hok (proj1 (hash_word d))).
  set (i := bucket_of _ _) in *. set (c := chain_at lh i) in *.
  destruct (join_insert_perm _ _ _ Hi) as (rest & E1 & E2). specialize (E2 (delete pos c)).
  destruct (insert_delete_perm c pos it it Hp) as [P1 _]. rewrite P1 in E1.
  assert (E : items lh ≡ₚ it :: items lh') by (unfold items; simpl buckets; by rewrite E2, E1).
  assert (Hok' := Hok). destruct Hok' as (_ & _ & Hn & _ & Hpl & Hd & Ha & Hf).
  assert (Hd' : distinct (items lh')).
  { assert (D := Hd). rewrite E in D. by apply StronglySorted_inv in D as [D _]. }
  assert (Hlen : len (items lh) = len (items lh') + 1) by (rewrite E; simpl; lia).
  split; [|split; [|done]].
  - eapply with_chain_ok; try done; fold lh'.
    + intros y Hy. eapply Hpl; [done|]. rewrite P1. by right.
    + rewrite Hn, Hlen. unfold wrap. rewrite Zminus_mod_idemp_l. f_equal. lia.
    + rewrite E in Ha. by apply NoDup_cons in Ha as [_ ?].
    + rewrite E in Hf. by inversion_clear Hf.
  - intros x. rewrite (contents_cons lh it _ x Hd E), (comp_eqb (data it) d x) by done.
    destruct (Z.eqb_spec (comp d x) 0) as [Hx|]; [|done]. unfold contents.
    rewrite (contents_rest lh it _ x Hd E); [done|by eapply comp_trans].
Qed.

Definition insert_post (lh : LHASH) (d : Z) (r : bool * Z * LHASH) : Prop :=
  let '(ok, old, lh') := r in
  lh_ok lh' /\ callback_depth lh' = callback_depth lh /\
  if ok then old = default 0 (contents lh d) /\ with_contents lh lh' d (Some d) /\
             len (items lh') = len (items lh) + (match contents lh d with Some _ => 0 | None => 1 end)
  else lh' = lh /\ old = 0 /\ contents lh d = None /\ ~ malloc_never_fails.

Lemma lh_insert_spec lh d : lh_ok lh -> insert_post lh d (OPENSSL_lh_insert hash comp lh d).
Proof.
  intros Hok. unfold insert_post, OPENSSL_lh_insert, get_next_ptr_and_hash. cbv zeta.
  set (i := bucket_of _ _). rewrite search_find. subst i. rewrite find_in_chain by done.
  destruct (find_item _ (items lh)) as [it|] eqn:E.
  - assert (Ec : contents lh d = Some (data it)) by (unfold contents; by rewrite E). rewrite Ec.
    apply find_item_Some in E as F. destruct F as [_ F]. apply Z.eqb_eq in F.
    rewrite <- find_in_chain, <- search_find in E by done.
    destruct (insert_replace_ok lh _ _ it d Hok eq_refl E F) as (O1 & O2 & O3).
    split; [done|]. split; [done|]. split; [done|]. split; [done|]. lia.
  - assert (Ec : contents lh d = None) by (unfold contents; by rewrite E). rewrite Ec.
    destruct (OPENSSL_malloc sizeof_LHASH_ITEM) eqn:Em.
    2: { split_and!; try done. intros Hm.
         destruct (OPENSSL_malloc_total sizeof_LHASH_ITEM Hm) as [? E']; [by vm_compute|congruence]. }
    destruct (insert_append_ok lh _ d Hok eq_refl Ec) as (O1 & O2 & O3).
    destruct (maybe_resize_spec _ O1) as [S R]. split; [done|].
    split; [by rewrite (si_depth _ _ S)|]. split; [done|]. split.
    + intros x. rewrite (same_contents _ _ x O1 S). apply O2.
    + by rewrite (si_items _ _ S).
Qed.

Definition delete_post (lh : LHASH) (d : Z) (r : Z * LHASH) : Prop :=
  let '(ret, lh') := r in
  lh_ok lh' /\ callback_depth lh' = callback_depth lh /\ ret = default 0 (contents lh d) /\
  with_contents lh lh' d None /\
  len (items lh') = len (items lh) - (match contents lh d with Some _ => 1 | None => 0 end).

Lemma lh_delete_spec lh d : lh_ok lh -> delete_post lh d (OPENSSL_lh_delete hash comp lh d).
Proof.
  intros Hok. unfold delete_post, OPENSSL_lh_delete, get_next_ptr_and_hash. cbv zeta.
  set (i := bucket_of _ _). rewrite search_find. subst i. rewrite find_in_chain by done.
  destruct (find_item _ (items lh)) as [it|] eqn:E.
  - assert (Ec : contents lh d = Some (data it)) by (unfold contents; by rewrite E). rewrite Ec.
    apply find_item_Some in E as F. destruct F as [_ F]. apply Z.eqb_eq in F.
    rewrite <- find_in_chain, <- search_find in E by done.
    destruct (lh_delete_ok lh _ _ it d Hok eq_refl E F) as (O1 & O2 & O3).
    destruct (maybe_resize_spec _ O1) as [S R]. split; [done|].
    split; [by rewrite (si_depth _ _ S)|]. split; [done|]. split.
    + intros x. rewrite (same_contents _ _ x O1 S). apply O2.
    + rewrite (si_items _ _ S), O3. simpl. lia.
  - assert (Ec : contents lh d = None) by (unfold contents; by rewrite E). rewrite Ec.
    split_and!; try done; [|lia]. intros x. destruct (Z.eqb_spec (comp d x) 0) as [Hx|]; [|done].
    unfold contents. apply fmap_None, find_item_None. rewrite find_item_None in E.
    intros y Hy. specialize (E y Hy). apply Z.eqb_neq in E. apply Z.eqb_neq. intros Hyx. apply E.
    eapply comp_trans; [done|by apply comp_sym].
Qed.

(** ** Reachable tables *)

Inductive lh_step : LHASH -> LHASH -> Prop :=
  | step_insert lh d : lh_step lh (snd (OPENSSL_lh_insert hash comp lh d))
  | step_delete lh d : lh_step lh (snd (OPENSSL_lh_delete hash comp lh d))
  | step_enter lh : lh_step lh (doall_enter lh)
  | step_leave lh : 0 < callback_depth lh -> lh_step lh (doall_leave lh).

(** [step_enter] and [step_leave] are the start and the end of an iteration:
    what happens between them is what callbacks do. *)
Inductive reachable : LHASH -> Prop :=
  | reach_new lh : OPENSSL_lh_new = Some lh -> reachable lh
  | reach_step lh lh' : reachable lh -> lh_step lh lh' -> reachable lh'.

Lemma lh_new_ok lh : OPENSSL_lh_new = Some lh -> lh_ok lh /\ items lh = [].
Proof.
  unfold OPENSSL_lh_new. destruct (OPENSSL_malloc _); [|done]. destruct (OPENSSL_calloc _ _); [|done].
  intros Heq. apply (inj Some) in Heq as <-. set (lh := mk_lhash _ _ _ _ _).
  assert (E : items lh = []) by apply mjoin_replicate_nil.
  split; [|done]. unfold lh_ok. rewrite E.
  assert (Hp : placed (num_buckets lh) (buckets lh)).
  { intros i c it Hi Hit. apply lookup_replicate in Hi as [-> _]. by apply not_elem_of_nil in Hit. }
  split_and!; done || constructor.
Qed.

Lemma set_depth_ok lh d : lh_ok lh -> 0 <= d <= UINT_MAX -> lh_ok (set_depth lh d).
Proof. intros (H1 & H2 & H3 & _ & H5) Hd. exact (conj H1 (conj H2 (conj H3 (conj Hd H5)))). Qed.

Lemma enter_ok lh : lh_ok lh -> lh_ok (doall_enter lh) /\ 0 < callback_depth (doall_enter lh).
Proof.
  intros Hok. assert (Hd := proj1 (proj2 (proj2 (proj2 Hok)))). unfold doall_enter, UINT_MAX in *.
  destruct (Z.ltb_spec (callback_depth lh) (2 ^ 32 - 1)); [|split; [done|lia]].
  split; [|simpl; lia]. apply set_depth_ok; [done|]. unfold UINT_MAX. lia.
Qed.

Lemma leave_ok lh : lh_ok lh -> 0 < callback_depth lh ->
  lh_ok (doall_leave lh) /\ items (doall_leave lh) ≡ₚ items lh /\
  (callback_depth lh < UINT_MAX -> callback_depth (doall_leave lh) = callback_depth lh - 1).
Proof.
  intros Hok Hp. assert (Hd := proj1 (proj2 (proj2 (proj2 Hok)))). unfold doall_leave.
  set (lh1 := if callback_depth lh <? UINT_MAX then _ else _).
  assert (O1 : lh_ok lh1).
  { subst lh1. destruct (Z.ltb_spec (callback_depth lh) UINT_MAX); [|done].
    apply set_depth_ok; [done|lia]. }
  destruct (maybe_resize_spec lh1 O1) as [S R]. split; [done|]. split.
  - rewrite (si_items _ _ S). subst lh1. by destruct (_ <? _).
  - intros Hlt. rewrite (si_depth _ _ S). subst lh1.
    by destruct (Z.ltb_spec (callback_depth lh) UINT_MAX); [|lia].
Qed.

Lemma lh_step_ok lh lh' : lh_ok lh -> lh_step lh lh' -> lh_ok lh'.
Proof.
  intros Hok Hs. destruct Hs as [lh d|lh d|lh|lh Hd].
  - assert (I := lh_insert_spec lh d Hok). destruct (OPENSSL_lh_insert _ _ lh d) as [[r o] lh'].
    apply I.
  - assert (D := lh_delete_spec lh d Hok). destruct (OPENSSL_lh_delete _ _ lh d) as [r lh']. apply D.
  - by apply enter_ok.
  - by apply leave_ok.
Qed.

Lemma reachable_ok lh : reachable lh -> lh_ok lh.
Proof. induction 1 as [lh E|lh lh' _ IH Hs]; [by apply lh_new_ok|by eapply lh_step_ok]. Qed.

(** ** Iteration *)

(** A callback that records the element and deletes those [p] selects, the way
    SSL session caches drop expired entries. *)
Definition sweep (p : Z -> bool) (d : Z) (visited : list Z) (lh : LHASH) : list Z * LHASH :=
  (visited ++ [d], if p d then snd (OPENSSL_lh_delete hash comp lh d) else lh).

Abbreviation kept p := (filter (fun it : LHASH_ITEM => p (data it) = false)).

Lemma suffix_at_app c1 it c2 : NoDup (addr <$> c1 ++ it :: c2) ->
  suffix_at (addr it) (c1 ++ it :: c2) = Some (it, c2).
Proof.
  induction c1 as [|x c1 IH]; simpl; intros Hn; [by rewrite Nat.eqb_refl|].
  apply NoDup_cons in Hn as [Hx Hn]. destruct (Nat.eqb_spec (addr x) (addr it)) as [E|]; [|auto].
  destruct Hx. rewrite E, fmap_app. set_solver.
Qed.

Lemma search_app equal c1 it c2 : (forall x, x ∈ c1 -> equal (data x) = false) ->
  equal (data it) = true -> search equal (c1 ++ it :: c2) = length c1.
Proof.
  intros H1 H2. induction c1 as [|x c1 IH]; simpl; [by rewrite H2|].
  rewrite (H1 x) by (by left). f_equal. apply IH. intros y Hy. apply H1. by right.
Qed.

(** A chain inherits what holds of all nodes. *)
Lemma chain_facts lh i c : lh_ok lh -> buckets lh !! i = Some c ->
  distinct c /\ NoDup (addr <$> c) /\
  (forall it, it ∈ c -> bucket_of (num_buckets lh) (hash (data it)) = i).
Proof.
  intros (_ & _ & _ & _ & Hp & Hd & Ha & _) Hi.
  destruct (join_insert_perm _ _ _ Hi) as (rest & E & _). unfold items in *.
  rewrite E in Hd, Ha. rewrite fmap_app in Ha. apply NoDup_app in Ha as [Ha _].
  split; [|split; [done|]].
  - clear -Hd. induction c as [|x c IH]; [constructor|]. simpl in Hd.
    apply StronglySorted_inv in Hd as [Hd Hx]. constructor; [auto|]. by apply Forall_app in Hx as [? _].
  - intros it Hit. destruct (Hp i c it Hi Hit) as [E1 E2]. by rewrite <- E1.
Qed.

(** Deleting an element during an iteration takes its node out of its chain
    and leaves the rest of the table as it is. *)
Lemma delete_in_chain lh i c1 it c2 : lh_ok lh -> 0 < callback_depth lh ->
  buckets lh !! i = Some (c1 ++ it :: c2) ->
  snd (OPENSSL_lh_delete hash comp lh (data it)) =
    with_chain lh i (c1 ++ c2) (u64 (num_items lh - 1)) (next_addr lh).
Proof.
  intros Hok Hd Hi. destruct (chain_facts lh i _ Hok Hi) as (Hds & _ & Hb).
  assert (Ei := Hb it ltac:(set_solver)). unfold OPENSSL_lh_delete, get_next_ptr_and_hash. cbv zeta.
  rewrite Ei. unfold chain_at. rewrite Hi. cbn [from_option id].
  rewrite search_app.
  - rewrite list_lookup_middle by done. cbn [snd].
    rewrite delete_middle. by apply maybe_resize_suppressed.
  - intros x Hx. apply Z.eqb_neq. rewrite <- Permutation_middle in Hds.
    apply comp_comm. apply (distinct_inv _ _ Hds). set_solver.
  - apply Z.eqb_eq, comp_refl.
Qed.

Lemma sweep_chain p i todo : forall c1 visited lh fuel, lh_ok lh -> 0 < callback_depth lh ->
  buckets lh !! i = Some (c1 ++ todo) -> (length todo <= fuel)%nat ->
  exists lh', doall_chain (sweep p) fuel i (addr <$> head todo) visited lh =
      Some (visited ++ (data <$> todo), lh') /\
    lh_ok lh' /\ callback_depth lh' = callback_depth lh /\ num_buckets lh' = num_buckets lh /\
    buckets lh' = <[i := c1 ++ kept p todo]> (buckets lh).
Proof.
  induction todo as [|it todo IH]; intros c1 visited lh fuel Hok Hd Hi Hf.
  { exists lh. destruct fuel; simpl; rewrite !app_nil_r in *; by rewrite list_insert_id. }
  destruct fuel as [|fuel]; [simpl in Hf; lia|]. cbn [head fmap option_fmap option_map doall_chain].
  destruct (chain_facts lh i _ Hok Hi) as (_ & Ha & Hb). unfold chain_at at 1. rewrite Hi.
  cbn [from_option id]. rewrite suffix_at_app by done. unfold sweep at 1. rewrite filter_cons.
  destruct (p (data it)) eqn:Ep; (case_decide; [|try done]); try done.
  - rewrite (delete_in_chain lh i c1 it todo) by done. set (lh1 := with_chain _ _ _ _ _).
    assert (O1 : lh_ok lh1).
    { assert (S := lh_delete_spec lh (data it) Hok). assert (D := delete_in_chain lh i c1 it todo Hok Hd Hi).
      destruct (OPENSSL_lh_delete hash comp lh (data it)) as [r l]. simpl in D. subst l. apply S. }
    destruct (IH c1 (visited ++ [data it]) lh1 fuel) as (lh' & E1 & E2 & E3 & E4 & E5); try done.
    + simpl. apply list_lookup_insert_eq. by eapply lookup_lt_Some.
    + simpl in Hf. lia.
    + exists lh'. rewrite E1, E5. simpl. rewrite <- app_assoc, list_insert_insert_eq. done.
  - destruct (IH (c1 ++ [it]) (visited ++ [data it]) lh fuel) as (lh' & E1 & E2 & E3 & E4 & E5); try done.
    + by rewrite <- app_assoc.
    + simpl in Hf. lia.
    + exists lh'. rewrite E1, E5. rewrite <- !app_assoc. done.
Qed.

Lemma sweep_buckets p n : forall i visited lh fuel, lh_ok lh -> 0 < callback_depth lh ->
  (i + n = length (buckets lh))%nat -> (forall c, c ∈ buckets lh -> (length c <= fuel)%nat) ->
  exists lh', doall_buckets (sweep p) fuel n i visited lh =
      Some (visited ++ (data <$> mjoin (drop i (buckets lh))), lh') /\
    lh_ok lh' /\ callback_depth lh' = callback_depth lh /\
    buckets lh' = take i (buckets lh) ++ (kept p <$> drop i (buckets lh)).
Proof.
  induction n as [|n IH]; intros i visited lh fuel Hok Hd Hl Hf; cbn [doall_buckets].
  { exists lh. rewrite drop_ge, take_ge by lia. simpl. by rewrite !app_nil_r. }
  destruct (lookup_lt_is_Some_2 (buckets lh) i ltac:(lia)) as [c Hi].
  unfold chain_at. rewrite Hi. cbn [from_option id].
  destruct (sweep_chain p i c [] visited lh fuel) as (lh1 & E1 & O1 & D1 & N1 & B1); try done.
  { apply Hf. by eapply list_elem_of_lookup_2. }
  rewrite E1. simpl app in B1. assert (Hlt := lookup_lt_Some _ _ _ Hi).
  destruct (IH (S i) (visited ++ (data <$> c)) lh1 fuel) as (lh2 & E2 & O2 & D2 & B2); try done.
  - by rewrite D1.
  - rewrite B1, length_insert. lia.
  - intros c' Hc'. rewrite B1 in Hc'. apply list_elem_of_lookup in Hc' as [j Hj].
    apply list_lookup_insert_Some in Hj as [(_ & <- & _)|[_ Hj]].
    + etransitivity; [apply length_filter|]. apply Hf. by eapply list_elem_of_lookup_2.
    + apply Hf. by eapply list_elem_of_lookup_2.
  - exists lh2. rewrite E2, B2, D2, D1, B1. rewrite (drop_S _ _ _ Hi).
    rewrite insert_take_drop by done.
    assert (T : take (S i) (take i (buckets lh) ++ kept p c :: drop (S i) (buckets lh)) =
      take i (buckets lh) ++ [kept p c]).
    { rewrite cons_middle, app_assoc. apply take_app_length'. rewrite length_app, length_take. simpl. lia. }
    assert (T' : drop (S i) (take i (buckets lh) ++ kept p c :: drop (S i) (buckets lh)) =
      drop (S i) (buckets lh)).
    { rewrite cons_middle, app_assoc. apply drop_app_length'. rewrite length_app, length_take. simpl. lia. }
    rewrite T, T'. cbn [mjoin list_join]. rewrite fmap_app, <- !app_assoc, fmap_cons. done.
Qed.

Lemma kept_join p (bs : list (list LHASH_ITEM)) : mjoin (kept p <$> bs) = kept p (mjoin bs).
Proof. 
  induction bs as [|c bs IH]; [done|]. rewrite fmap_cons. cbn [mjoin list_join].
  rewrite filter_app. f_equal. exact IH.
Qed.

Lemma chain_length lh c : c ∈ buckets lh -> (length c <= length (items lh))%nat.
Proof.
  intros Hc. apply list_elem_of_lookup in Hc as [i Hi].
  destruct (join_insert_perm _ _ _ Hi) as (rest & E & _). unfold items. rewrite E, length_app. lia.
Qed.

Lemma contents_kept lh lh' p x : lh_ok lh -> items lh' ≡ₚ kept p (items lh) ->
  contents lh' x = contents lh x ≫= (fun y => if p y then None else Some y).
Proof.
  intros (_ & _ & _ & _ & _ & Hd & _) E.
  assert (Hk : distinct (kept p (items lh))).
  { clear E. induction Hd as [|it l Hd IH Hx]; [constructor|]. rewrite filter_cons.
    case_decide; [|done]. constructor; [done|]. rewrite Forall_forall in *. intros y Hy.
    apply Hx. by apply list_elem_of_filter in Hy as [_ Hy]. }
  unfold contents. rewrite <- (find_item_perm _ _ x (symmetry E) Hk).
  destruct (find_item _ (items lh)) as [it|] eqn:F; simpl.
  - apply find_item_Some in F as [Hit Hc]. apply Z.eqb_eq in Hc. destruct (p (data it)) eqn:Ep.
    + apply fmap_None, find_item_None. intros y Hy. apply list_elem_of_filter in Hy as [Py Hy].
      apply Z.eqb_neq. intros Hyx. assert (F1 := find_unique _ it x Hd Hit Hc).
      assert (F2 := find_unique _ y x Hd Hy Hyx). rewrite F1 in F2. injection F2 as ->. congruence.
    + rewrite (find_unique _ it x Hk); [done| |done]. by apply list_elem_of_filter.
  - apply fmap_None, find_item_None. intros y Hy. apply list_elem_of_filter in Hy as [_ Hy].
    rewrite find_item_None in F. by apply F.
Qed.

(** In every state a table can reach, inside iterations too, the chains
    hold exactly the nodes whose hash selects the bucket, no two elements are
    equal, no two nodes share an address, [num_items] is the number of
    elements and there are at least [kMinNumBuckets] buckets. *)
Theorem lhash_invariant lh : reachable lh -> lh_ok lh.
Proof. apply reachable_ok. Qed.

(** A reachable table is a map: [OPENSSL_lh_retrieve] returns the element
    equal to its argument; [OPENSSL_lh_insert] binds the class of its argument
    to it and reports what was there, or fails without a change for lack of
    memory; [OPENSSL_lh_delete] unbinds the class; and the resizing both may
    perform is invisible. *)
Theorem lhash_is_map lh d : reachable lh ->
  OPENSSL_lh_retrieve hash comp lh d = default 0 (contents lh d) /\
  (forall old lh', OPENSSL_lh_insert hash comp lh d = (true, old, lh') ->
     old = OPENSSL_lh_retrieve hash comp lh d /\
     forall x, contents lh' x = if comp d x =? 0 then Some d else contents lh x) /\
  (forall old lh', OPENSSL_lh_insert hash comp lh d = (false, old, lh') ->
     lh' = lh /\ ~ malloc_never_fails) /\
  (forall r lh', OPENSSL_lh_delete hash comp lh d = (r, lh') ->
     r = OPENSSL_lh_retrieve hash comp lh d /\
     forall x, contents lh' x = if comp d x =? 0 then None else contents lh x).
Proof.
  intros Hr. apply reachable_ok in Hr as Hok.
  assert (R := retrieve_contents lh d Hok). assert (I := lh_insert_spec lh d Hok).
  assert (D := lh_delete_spec lh d Hok). split; [done|]. rewrite R. split_and!.
  - intros old lh' E. rewrite E in I. destruct I as (_ & _ & -> & W & _). done.
  - intros old lh' E. rewrite E in I. by destruct I as (_ & _ & -> & _ & _ & ?).
  - intros r lh' E. rewrite E in D. destruct D as (_ & _ & -> & W & _). done.
Qed.

(** [OPENSSL_lh_doall_arg] with a callback that deletes some of the
    elements it is given calls it once for every element, follows no pointer to
    a freed node, ends, and leaves exactly the other elements. *)
Theorem lhash_sweep lh p fuel : reachable lh -> (length (items lh) <= fuel)%nat ->
  exists lh', OPENSSL_lh_doall_arg (sweep p) fuel lh [] = Some (data <$> items lh, lh') /\
    lh_ok lh' /\
    (forall x, contents lh' x = contents lh x ≫= (fun y => if p y then None else Some y)) /\
    (callback_depth lh < UINT_MAX - 1 -> callback_depth lh' = callback_depth lh).
Proof.
  intros Hr Hf. apply reachable_ok in Hr as Hok. destruct (enter_ok lh Hok) as [O1 D1].
  assert (B : buckets (doall_enter lh) = buckets lh) by (unfold doall_enter; by case_if).
  assert (N := proj1 Hok).
  destruct (sweep_buckets p (Z.to_nat (num_buckets lh)) 0 [] (doall_enter lh) fuel)
    as (lh2 & E2 & O2 & D2 & B2); try done.
  - rewrite B. lia.
  - intros c Hc. rewrite B in Hc. etransitivity; [by apply (chain_length lh)|done].
  - destruct (leave_ok lh2 O2) as (O3 & P3 & D3); [by rewrite D2|]. exists (doall_leave lh2).
    unfold OPENSSL_lh_doall_arg. rewrite E2, B. split; [done|]. split; [done|]. split.
    + intros x. apply contents_kept; [done|]. rewrite P3. unfold items. rewrite B2, B. simpl app.
      by rewrite kept_join.
    + intros Hlt. assert (Hc := proj1 (proj2 (proj2 (proj2 Hok)))).
      assert (E : callback_depth (doall_enter lh) = callback_depth lh + 1).
      { unfold doall_enter. by destruct (Z.ltb_spec (callback_depth lh) UINT_MAX); [|lia]. }
      rewrite D3 by (rewrite D2; lia). rewrite D2. lia.
Qed.

End facts.

(** ** Instances *)

(** Elements are equal if they agree modulo 100: 3 and 103 are, and 19 shares
    their bucket. *)
Definition mod_hash (x : Z) : Z := x mod 100.
Definition mod_comp (x y : Z) : Z := if x mod 100 =? y mod 100 then 0 else 1.

#[export] Instance mod_laws : HashLaws mod_hash mod_comp.
Proof.
  unfold mod_hash, mod_comp. split; intros; repeat case_if; bool_to_prop; try congruence.
  assert (0 <= x mod 100 < 100) by (by apply Z.mod_pos_bound). unfold word. lia.
Qed.

Definition example_table : LHASH :=
  let lh := mk_lhash 0 (replicate 16 []) 16 0 0 in
  let lh := snd (@OPENSSL_lh_insert zero_malloc mod_hash mod_comp lh 3) in
  let lh := snd (@OPENSSL_lh_insert zero_malloc mod_hash mod_comp lh 19) in
  let lh := snd (@OPENSSL_lh_insert zero_malloc mod_hash mod_comp lh 103) in
  snd (@OPENSSL_lh_insert zero_malloc mod_hash mod_comp lh 7).

Lemma example_lh_reachable : @reachable zero_malloc mod_hash mod_comp example_table.
Proof.
  unfold example_table. repeat (eapply reach_step; [|apply step_insert]).
  apply reach_new. by vm_compute.
Qed.

Lemma lhash_invariant_witness :
  @lh_ok mod_hash mod_comp example_table /\ num_items example_table = 3.
Proof.
  split; [exact (@lhash_invariant zero_malloc mod_hash mod_comp _ _ example_lh_reachable)|by vm_compute].
Defined.

Lemma lhash_is_map_witness :
  OPENSSL_lh_retrieve mod_hash mod_comp example_table 203 = 103 /\
  contents mod_comp example_table 203 = Some 103.
Proof.
  destruct (@lhash_is_map zero_malloc mod_hash mod_comp _ example_table 203 example_lh_reachable) as [E _].
  rewrite E. split; by vm_compute.
Defined.

Lemma lhash_sweep_witness :
  exists lh', @OPENSSL_lh_doall_arg zero_malloc _ (@sweep zero_malloc mod_hash mod_comp (Z.eqb 103))
      3 example_table [] = Some ([103; 19; 7], lh') /\
    contents mod_comp lh' 3 = None /\ contents mod_comp lh' 19 = Some 19.
Proof.
  destruct (@lhash_sweep zero_malloc mod_hash mod_comp _ example_table (Z.eqb 103) 3
    example_lh_reachable ltac:(vm_compute; lia)) as (lh' & E & _ & C & _).
  exists lh'. split; [exact E|]. rewrite !C. split; by vm_compute.
Defined.
