(* ===== verification/SslVersions.v ===== *)
(** * Protocol versions

    Model of ssl/ssl_versions.cc: the map between wire and protocol versions,
    the version bounds of the configuration, the range of enabled versions, the
    supported_versions lists and the negotiation.  A handshake is the record of
    the fields of [SSL], [SSL_CONFIG] and [SSL_HANDSHAKE] these functions
    read. *)

From S2P Require Import Prelude Internal Alloc PosixTime Cbs CbsFacts Der Cbb CbbFacts CbbAsn1.
From S2P Require Import Oid Builder.

Definition TLS1_VERSION : Z := 0x0301.
Definition TLS1_1_VERSION : Z := 0x0302.
Definition TLS1_2_VERSION : Z := 0x0303.
Definition TLS1_3_VERSION : Z := 0x0304.
Definition DTLS1_VERSION : Z := 0xfeff.
Definition DTLS1_2_VERSION : Z := 0xfefd.
Definition DTLS1_3_VERSION : Z := 0xfefc.

Definition SSL_OP_NO_TLSv1 : Z := 0x04000000.
Definition SSL_OP_NO_TLSv1_2 : Z := 0x08000000.
Definition SSL_OP_NO_TLSv1_1 : Z := 0x10000000.
Definition SSL_OP_NO_TLSv1_3 : Z := 0x20000000.
Definition SSL_OP_NO_DTLSv1 : Z := SSL_OP_NO_TLSv1.

Definition SSL_AD_DECODE_ERROR : Z := 50.
Definition SSL_AD_PROTOCOL_VERSION : Z := 70.

(** ** Versions and methods *)

Definition ssl_protocol_version_from_wire (version : Z) : option Z :=
  if (version =? TLS1_VERSION) || (version =? TLS1_1_VERSION) || (version =? TLS1_2_VERSION)
     || (version =? TLS1_3_VERSION) then Some version
  else if version =? DTLS1_VERSION then Some TLS1_1_VERSION
  else if version =? DTLS1_2_VERSION then Some TLS1_2_VERSION
  else if version =? DTLS1_3_VERSION then Some TLS1_3_VERSION
  else None.

Definition kTLSVersions : list Z := [TLS1_3_VERSION; TLS1_2_VERSION; TLS1_1_VERSION; TLS1_VERSION].
Definition kDTLSVersions : list Z := [DTLS1_3_VERSION; DTLS1_2_VERSION; DTLS1_VERSION].

(** A method is its [is_dtls]. *)
Definition get_method_versions (is_dtls : bool) : list Z :=
  if is_dtls then kDTLSVersions else kTLSVersions.

Definition ssl_method_supports_version (is_dtls : bool) (version : Z) : bool :=
  existsb (fun supported => supported =? version) (get_method_versions is_dtls).

Definition api_version_to_wire (version : Z) : option Z :=
  match ssl_protocol_version_from_wire version with
  | None => None
  | Some _ => Some version
  end.

(** The bound setters; [None] leaves the bound as it is. *)
Definition set_version_bound (is_dtls : bool) (version : Z) : option Z :=
  match api_version_to_wire version with
  | None => None
  | Some version => if negb (ssl_method_supports_version is_dtls version) then None else Some version
  end.

Definition set_min_version (is_dtls : bool) (version : Z) : option Z :=
  if version =? 0 then Some (if is_dtls then DTLS1_2_VERSION else TLS1_2_VERSION)
  else set_version_bound is_dtls version.

Definition set_max_version (is_dtls : bool) (version : Z) : option Z :=
  if version =? 0 then Some (if is_dtls then DTLS1_3_VERSION else TLS1_3_VERSION)
  else set_version_bound is_dtls version.

(** ** The enabled range *)

Record SSL_HANDSHAKE := mk_hs {
  is_dtls : bool; is_quic : bool; options : Z;
  conf_min_version : Z; conf_max_version : Z;
  min_version : Z; max_version : Z; apply_jdk11_workaround : bool
}.

Definition SSL_set_min_proto_version (hs : SSL_HANDSHAKE) (version : Z) : bool * SSL_HANDSHAKE :=
  match set_min_version (is_dtls hs) version with
  | None => (false, hs)
  | Some v => (true, mk_hs (is_dtls hs) (is_quic hs) (options hs) v (conf_max_version hs)
                       (min_version hs) (max_version hs) (apply_jdk11_workaround hs))
  end.

Definition SSL_set_max_proto_version (hs : SSL_HANDSHAKE) (version : Z) : bool * SSL_HANDSHAKE :=
  match set_max_version (is_dtls hs) version with
  | None => (false, hs)
  | Some v => (true, mk_hs (is_dtls hs) (is_quic hs) (options hs) (conf_min_version hs) v
                       (min_version hs) (max_version hs) (apply_jdk11_workaround hs))
  end.

Definition kProtocolVersions : list (Z * Z) :=
  [(TLS1_VERSION, SSL_OP_NO_TLSv1); (TLS1_1_VERSION, SSL_OP_NO_TLSv1_1);
   (TLS1_2_VERSION, SSL_OP_NO_TLSv1_2); (TLS1_3_VERSION, SSL_OP_NO_TLSv1_3)].

(** The loop over [kProtocolVersions]; [prev] is the version of the entry
    before the current one. *)
Fixpoint version_range_loop (options : Z) (table : list (Z * Z)) (prev : Z) (any_enabled : bool)
    (min_version max_version : Z) : bool * Z * Z :=
  match table with
  | [] => (any_enabled, min_version, max_version)
  | (version, flag) :: table' =>
      if version <? min_version then
        version_range_loop options table' version any_enabled min_version max_version
      else if max_version <? version then (any_enabled, min_version, max_version)
      else if Z.land options flag =? 0 then
        version_range_loop options table' version true
          (if negb any_enabled then version else min_version) max_version
      else if any_enabled then (any_enabled, min_version, prev)
      else version_range_loop options table' version any_enabled min_version max_version
  end.

(** [options &= ~SSL_OP_NO_TLSv1_1], and the alias of DTLS 1.0. *)
Definition effective_options (hs : SSL_HANDSHAKE) : Z :=
  if is_dtls hs then
    let o := Z.land (options hs) (u32 (Z.lnot SSL_OP_NO_TLSv1_1)) in
    if negb (Z.land o SSL_OP_NO_DTLSv1 =? 0) then Z.lor o SSL_OP_NO_TLSv1_1 else o
  else options hs.

Definition ssl_get_version_range (hs : SSL_HANDSHAKE) : option (Z * Z) :=
  match ssl_protocol_version_from_wire (conf_min_version hs),
        ssl_protocol_version_from_wire (conf_max_version hs) with
  | Some lo, Some hi =>
      let lo := if is_quic hs && (lo <? TLS1_3_VERSION) then TLS1_3_VERSION else lo in
      let '(any_enabled, lo, hi) :=
        version_range_loop (effective_options hs) kProtocolVersions 0 false lo hi in
      if any_enabled then Some (lo, hi) else None
  | _, _ => None
  end.

(** ** Support and negotiation *)

Definition ssl_supports_version (hs : SSL_HANDSHAKE) (version : Z) : bool :=
  if negb (ssl_method_supports_version (is_dtls hs) version) then false
  else match ssl_protocol_version_from_wire version with
       | None => false
       | Some protocol_version =>
           negb ((protocol_version <? min_version hs) || (max_version hs <? protocol_version))
       end.

(** The search of one version in the peer's list: [None] is a truncated
    entry. *)
Fixpoint peer_has_version (fuel : nat) (version : Z) (copy : CBS) : option bool :=
  match copy, fuel with
  | [], _ => Some false
  | _, O => None
  | _, S fuel' =>
      match CBS_get_u16 copy with
      | (None, _) => None
      | (Some peer_version, copy') =>
          if peer_version =? version then Some true else peer_has_version fuel' version copy'
      end
  end.

(** The loop over the method's versions: the version, or the alert. *)
Fixpoint negotiate_loop (hs : SSL_HANDSHAKE) (versions : list Z) (peer_versions : CBS) : Z + Z :=
  match versions with
  | [] => inr SSL_AD_PROTOCOL_VERSION
  | version :: versions' =>
      if negb (ssl_supports_version hs version) then negotiate_loop hs versions' peer_versions
      else if (version =? TLS1_3_VERSION) && apply_jdk11_workaround hs
      then negotiate_loop hs versions' peer_versions
      else match peer_has_version (length peer_versions) version peer_versions with
           | None => inr SSL_AD_DECODE_ERROR
           | Some true => inl version
           | Some false => negotiate_loop hs versions' peer_versions
           end
  end.

Definition ssl_negotiate_version (hs : SSL_HANDSHAKE) (peer_versions : CBS) : Z + Z :=
  negotiate_loop hs (get_method_versions (is_dtls hs)) peer_versions.

(** ** The version of a connection *)

(** The handshake in progress, if there is one. *)
Record early_hs := mk_early {
  in_early_data : bool; early_session_version : Z; is_early_version : bool
}.
Record SSL := mk_ssl { ssl_is_dtls : bool; server : bool; s3_version : Z; s3_hs : option early_hs }.

Definition ssl_version (ssl : SSL) : Z :=
  match s3_hs ssl with
  | Some hs => if in_early_data hs && negb (server ssl) then early_session_version hs
               else if negb (s3_version ssl =? 0) then s3_version ssl
               else if ssl_is_dtls ssl then DTLS1_2_VERSION else TLS1_2_VERSION
  | None => if negb (s3_version ssl =? 0) then s3_version ssl
            else if ssl_is_dtls ssl then DTLS1_2_VERSION else TLS1_2_VERSION
  end.

Definition ssl_has_final_version (ssl : SSL) : bool :=
  negb (s3_version ssl =? 0) &&
  match s3_hs ssl with None => true | Some hs => negb (is_early_version hs) end.

(** 0 for a version that is not valid. *)
Definition ssl_protocol_version (ssl : SSL) : Z :=
  default 0 (ssl_protocol_version_from_wire (s3_version ssl)).

Section supported.
Context `{Malloc}.

Fixpoint add_versions_loop (hs : SSL_HANDSHAKE) (cbb : handle) (extra_min_version : Z)
    (versions : list Z) : cbb_op unit :=
  match versions with
  | [] => pret tt
  | version :: versions' =>
      match ssl_supports_version hs version, ssl_protocol_version_from_wire version with
      | true, Some protocol_version =>
          if extra_min_version <=? protocol_version then
            let* _ := CBB_add_u16 cbb version in
            add_versions_loop hs cbb extra_min_version versions'
          else add_versions_loop hs cbb extra_min_version versions'
      | _, _ => add_versions_loop hs cbb extra_min_version versions'
      end
  end.

Definition ssl_add_supported_versions (hs : SSL_HANDSHAKE) (cbb : handle) (extra_min_version : Z) :
    cbb_op unit :=
  add_versions_loop hs cbb extra_min_version (get_method_versions (is_dtls hs)).

End supported.

(** ** The range is the lowest run of enabled versions *)

(** The bounds of the configuration as protocol versions. *)
Definition conf_range (hs : SSL_HANDSHAKE) : option (Z * Z) :=
  match ssl_protocol_version_from_wire (conf_min_version hs),
        ssl_protocol_version_from_wire (conf_max_version hs) with
  | Some lo, Some hi => Some (if is_quic hs then Z.max lo TLS1_3_VERSION else lo, hi)
  | _, _ => None
  end.

Definition flag_set (o v : Z) : bool :=
  existsb (fun '(version, flag) => (version =? v) && negb (Z.land o flag =? 0)) kProtocolVersions.

(** The bounds allow the version, and no option disables it. *)
Definition enabled (hs : SSL_HANDSHAKE) (v : Z) : bool :=
  match conf_range hs with
  | Some (lo, hi) => (lo <=? v) && (v <=? hi) && negb (flag_set (effective_options hs) v)
  | None => false
  end.

Lemma protocol_version_range v p : ssl_protocol_version_from_wire v = Some p ->
  TLS1_VERSION <= p <= TLS1_3_VERSION.
Proof.
  unfold ssl_protocol_version_from_wire, TLS1_VERSION, TLS1_1_VERSION, TLS1_2_VERSION, TLS1_3_VERSION.
  repeat case_if; intros [= <-]; bool_to_prop; lia.
Qed.

(** The loop only looks at the four option bits: sixteen words stand for all. *)
Definition option_words : list Z :=
  o1 ← [0; SSL_OP_NO_TLSv1]; o2 ← [0; SSL_OP_NO_TLSv1_1];
  o3 ← [0; SSL_OP_NO_TLSv1_2]; o4 ← [0; SSL_OP_NO_TLSv1_3];
  [Z.lor (Z.lor o1 o2) (Z.lor o3 o4)].

Definition same_flags (o w : Z) : Prop :=
  Forall (fun e => (Z.land o (snd e) =? 0) = (Z.land w (snd e) =? 0)) kProtocolVersions.

Lemma option_word_exists o : exists w, w ∈ option_words /\ same_flags o w.
Proof.
  set (pick := fun f => if Z.land o f =? 0 then 0 else f).
  exists (Z.lor (Z.lor (pick SSL_OP_NO_TLSv1) (pick SSL_OP_NO_TLSv1_1))
            (Z.lor (pick SSL_OP_NO_TLSv1_2) (pick SSL_OP_NO_TLSv1_3))).
  unfold pick, same_flags, kProtocolVersions.
  destruct (Z.land o SSL_OP_NO_TLSv1 =? 0) eqn:E1, (Z.land o SSL_OP_NO_TLSv1_1 =? 0) eqn:E2,
    (Z.land o SSL_OP_NO_TLSv1_2 =? 0) eqn:E3, (Z.land o SSL_OP_NO_TLSv1_3 =? 0) eqn:E4;
    (split; [by apply (bool_decide_unpack _); vm_compute|]);
    repeat constructor; cbn [snd]; rewrite ?E1, ?E2, ?E3, ?E4; by vm_compute.
Qed.

Lemma loop_same_flags o w table : Forall (fun e => (Z.land o (snd e) =? 0) = (Z.land w (snd e) =? 0)) table ->
  forall prev any lo hi, version_range_loop o table prev any lo hi = version_range_loop w table prev any lo hi.
Proof.
  induction 1 as [|[v f] table E _ IH]; intros prev any lo hi; [done|]. cbn [version_range_loop snd] in *.
  rewrite E, !IH. by repeat case_if.
Qed.

Lemma flag_set_same o w v : same_flags o w -> flag_set o v = flag_set w v.
Proof.
  unfold same_flags, flag_set. induction 1 as [|[v' f] table E _ IH]; [done|].
  cbn [existsb snd] in *. by rewrite E, IH.
Qed.

(** What the loop should return, for one word and one pair of bounds. *)
Definition range_checked (w lo hi : Z) : bool :=
  let en v := (lo <=? v) && (v <=? hi) && negb (flag_set w v) in
  match version_range_loop w kProtocolVersions 0 false lo hi with
  | (true, l, h) =>
      (TLS1_VERSION <=? l) && (l <=? h) && (h <=? TLS1_3_VERSION) &&
      all_from 4 TLS1_VERSION (fun v =>
        (if (l <=? v) && (v <=? h) then en v else true) && (if v <? l then negb (en v) else true)) &&
      negb (en (h + 1))
  | (false, _, _) => all_from 4 TLS1_VERSION (fun v => negb (en v))
  end.

Lemma ranges_checked :
  forallb (fun w => all_from 4 TLS1_VERSION (fun lo => all_from 4 TLS1_VERSION (fun hi => range_checked w lo hi)))
    option_words = true.
Proof. by vm_compute. Qed.

Lemma range_checked_true w lo hi : w ∈ option_words ->
  TLS1_VERSION <= lo <= TLS1_3_VERSION -> TLS1_VERSION <= hi <= TLS1_3_VERSION ->
  range_checked w lo hi = true.
Proof.
  intros Hw Hlo Hhi. assert (C := ranges_checked). rewrite forallb_forall in C.
  apply list_elem_of_In in Hw. specialize (C w Hw). cbv beta in C. unfold TLS1_3_VERSION in *.
  eapply all_from_spec in C; [|unfold TLS1_VERSION in *; instantiate (1 := lo); lia]. cbv beta in C.
  eapply all_from_spec in C; [|unfold TLS1_VERSION in *; instantiate (1 := hi); lia]. exact C.
Qed.

(** [ssl_get_version_range] returns the lowest run of enabled versions:
    its bounds are enabled and so is everything between them, nothing below
    is, and the version after it is not; it fails exactly if no version is
    enabled. *)
Theorem version_range_is_lowest_run hs :
  match ssl_get_version_range hs with
  | Some (lo, hi) =>
      TLS1_VERSION <= lo <= hi /\ hi <= TLS1_3_VERSION /\
      (forall v, lo <= v <= hi -> enabled hs v = true) /\
      (forall v, v < lo -> enabled hs v = false) /\ enabled hs (hi + 1) = false
  | None => forall v, enabled hs v = false
  end.
Proof.
  unfold ssl_get_version_range, enabled, conf_range.
  destruct (ssl_protocol_version_from_wire (conf_min_version hs)) as [lo0|] eqn:El; [|done].
  destruct (ssl_protocol_version_from_wire (conf_max_version hs)) as [hi|] eqn:Eh; [|done].
  apply protocol_version_range in El, Eh. cbv zeta.
  set (lo := if is_quic hs && (lo0 <? TLS1_3_VERSION) then _ else _).
  assert (E : (if is_quic hs then Z.max lo0 TLS1_3_VERSION else lo0) = lo).
  { subst lo. destruct (is_quic hs); [|done]. destruct (Z.ltb_spec lo0 TLS1_3_VERSION); simpl; lia. }
  rewrite E. assert (Hlo : TLS1_VERSION <= lo <= TLS1_3_VERSION).
  { rewrite <- E. destruct (is_quic hs); [|done]. unfold TLS1_VERSION, TLS1_3_VERSION in *. lia. }
  destruct (option_word_exists (effective_options hs)) as (w & Hw & Hs).
  rewrite (loop_same_flags _ w) by done. assert (C := range_checked_true w lo hi Hw Hlo Eh).
  assert (F : forall v, flag_set (effective_options hs) v = flag_set w v) by (intros; by apply flag_set_same).
  assert (Out : forall v, v < TLS1_VERSION \/ TLS1_3_VERSION < v -> (lo <=? v) && (v <=? hi) = false).
  { intros v Hv. apply andb_false_iff. rewrite !Z.leb_gt. lia. }
  unfold range_checked in C. unfold TLS1_VERSION, TLS1_3_VERSION in *.
  destruct (version_range_loop _ _ _ _ _ _) as [[[] l] h].
  - rewrite !andb_true_iff, !Z.leb_le in C. destruct C as ((((C1 & C2) & C3) & C4) & C5).
    split; [lia|]. split; [lia|]. split_and!.
    + intros v Hv. rewrite F. eapply all_from_spec in C4; [|instantiate (1 := v); lia].
      cbv beta in C4. rewrite andb_true_iff in C4. destruct C4 as [C4 _].
      destruct (Z.leb_spec l v), (Z.leb_spec v h); lia || done.
    + intros v Hv. rewrite F. destruct (decide (v < 769)); [by rewrite Out by lia|].
      eapply all_from_spec in C4; [|instantiate (1 := v); lia].
      cbv beta in C4. rewrite andb_true_iff in C4. destruct C4 as [_ C4].
      destruct (Z.ltb_spec v l); [|lia]. by apply negb_true_iff.
    + rewrite F. by apply negb_true_iff.
  - intros v. rewrite F. destruct (decide (v < 769 \/ 772 < v)); [by rewrite Out by lia|].
    eapply all_from_spec in C; [|instantiate (1 := v); lia]. by apply negb_true_iff.
Qed.

(** ** Negotiation *)

Definition encode_versions (ps : list Z) : list Z := mjoin (be_encode 2 <$> ps).

(** The versions the server side is willing to pick. *)
Definition acceptable (hs : SSL_HANDSHAKE) (v : Z) : bool :=
  ssl_supports_version hs v && negb ((v =? TLS1_3_VERSION) && apply_jdk11_workaround hs).

Abbreviation has_version ps := (fun v : Z => existsb (fun p => p =? v) ps).

Lemma bytes_encode_versions ps : bytes (encode_versions ps).
Proof.
  induction ps as [|p ps IH]; [apply bytes_nil|].
  change (encode_versions (p :: ps)) with (be_encode 2 p ++ encode_versions ps). auto with bytes_db.
Qed.

Lemma get_u16_encode p s : word 16 p -> bytes s -> CBS_get_u16 (be_encode 2 p ++ s) = (Some p, s).
Proof.
  intros Hp Hs. unfold CBS_get_u16. destruct Hp as [H0 H1].
  rewrite (pbind_step _ _ _ p s) by (apply (cbs_get_u_encode 2 p); [lia|change (256 ^ Z.of_nat 2) with (2 ^ 16); lia|done]).
  unfold pret. by rewrite (wrap_small 16).
Qed.

Lemma peer_has_version_eq v rest : bytes rest -> (length rest <= 1)%nat -> forall ps fuel,
  Forall (word 16) ps -> (length (encode_versions ps ++ rest) <= fuel)%nat ->
  peer_has_version fuel v (encode_versions ps ++ rest) =
    if has_version ps v then Some true else match rest with [] => Some false | _ => None end.
Proof.
  intros Hr Hl. induction ps as [|p ps IH]; intros fuel Hp Hf.
  - simpl app in *. destruct rest as [|b [|]]; [by destruct fuel| |simpl in Hl; lia].
    destruct fuel; [simpl in Hf; lia|]. done.
  - change (encode_versions (p :: ps)) with (be_encode 2 p ++ encode_versions ps) in *.
    rewrite <- app_assoc in *. inversion_clear Hp as [|? ? Hp1 Hp2].
    assert (Hb : bytes (encode_versions ps ++ rest)) by (apply bytes_app_2; [apply bytes_encode_versions|done]).
    rewrite length_app, length_be_encode in Hf. destruct fuel as [|fuel]; [lia|].
    assert (E := get_u16_encode p (encode_versions ps ++ rest) Hp1 Hb).
    destruct (be_encode 2 p ++ encode_versions ps ++ rest) as [|x xs] eqn:Ex.
    { apply (f_equal length) in Ex. rewrite length_app, length_be_encode in Ex. simpl in Ex. lia. }
    cbn [peer_has_version existsb]. rewrite E. destruct (p =? v); [done|]. apply IH; [done|lia].
Qed.

Lemma negotiate_loop_eq hs ps rest versions : Forall (word 16) ps -> bytes rest -> (length rest <= 1)%nat ->
  negotiate_loop hs versions (encode_versions ps ++ rest) =
    match rest with
    | [] => match List.find (fun v => acceptable hs v && has_version ps v) versions with
            | Some v => inl v | None => inr SSL_AD_PROTOCOL_VERSION end
    | _ => match List.find (acceptable hs) versions with
           | Some v => if has_version ps v then inl v else inr SSL_AD_DECODE_ERROR
           | None => inr SSL_AD_PROTOCOL_VERSION end
    end.
Proof.
  intros Hp Hr Hl. induction versions as [|v versions IH]; [by destruct rest|].
  cbn [negotiate_loop List.find]. rewrite IH.
  assert (EA : acceptable hs v = ssl_supports_version hs v &&
    negb ((v =? TLS1_3_VERSION) && apply_jdk11_workaround hs)) by done. rewrite EA.
  destruct (ssl_supports_version hs v); cbn [negb andb]; [|done].
  destruct ((v =? TLS1_3_VERSION) && apply_jdk11_workaround hs); cbn [negb andb]; [done|].
  rewrite peer_has_version_eq by done. destruct (has_version ps v); by destruct rest.
Qed.

(** Given the peer's list of versions, [ssl_negotiate_version] picks the
    first acceptable version of its own preference order that the list
    contains, and refuses with a protocol_version alert if there is none; if
    the list ends in half an entry, the only version it can pick is its
    most preferred one, and otherwise it refuses with a decode_error alert. *)
Theorem negotiate_picks_preferred hs ps b : Forall (word 16) ps -> byte b ->
  ssl_negotiate_version hs (encode_versions ps) =
    match List.find (fun v => acceptable hs v && has_version ps v) (get_method_versions (is_dtls hs)) with
    | Some v => inl v | None => inr SSL_AD_PROTOCOL_VERSION end /\
  ssl_negotiate_version hs (encode_versions ps ++ [b]) =
    match List.find (acceptable hs) (get_method_versions (is_dtls hs)) with
    | Some v => if has_version ps v then inl v else inr SSL_AD_DECODE_ERROR
    | None => inr SSL_AD_PROTOCOL_VERSION end.
Proof.
  intros Hp Hb. unfold ssl_negotiate_version. split.
  - rewrite <- (app_nil_r (encode_versions ps)) at 1. by rewrite negotiate_loop_eq by (apply bytes_nil || (simpl; lia) || done).
  - apply (negotiate_loop_eq hs ps [b]); [done|by apply bytes_cons; [|apply bytes_nil]|done].
Qed.

(** ** Both ends *)

(** The versions a client offers. *)
Definition offered (hs : SSL_HANDSHAKE) (extra_min_version v : Z) : bool :=
  ssl_supports_version hs v &&
  match ssl_protocol_version_from_wire v with
  | Some p => extra_min_version <=? p
  | None => false
  end.

Section both_ends.
Context `{Malloc}.

Lemma refines_u16 fs h v : focus h fs -> word 16 v ->
  refines fs (CBB_add_u16 h v) true (append (be_encode 2 v) fs).
Proof.
  intros [Hp Hne] Hv. unfold CBB_add_u16. rewrite (wrap_small 16) by done.
  eapply refines_ext; [apply (refines_add_word fs h (length fs - 1) v 2 16); done || lia| |].
  - by rewrite drop_ge by lia.
  - f_equal. apply close_last. destruct fs; [done|]. simpl. lia.
Qed.

Lemma refines_add_versions hs extra h versions : Forall (word 16) versions -> forall fs, focus h fs ->
  refines fs (add_versions_loop hs h extra versions) true
    (append (encode_versions (List.filter (offered hs extra) versions)) fs).
Proof.
  induction 1 as [|v versions Hv _ IH]; intros fs Hf; cbn [add_versions_loop List.filter].
  - rewrite append_nil. apply refines_ret.
  - unfold offered at 1. destruct (ssl_supports_version hs v); cbn [andb]; [|by apply IH].
    destruct (ssl_protocol_version_from_wire v) as [p|]; [|by apply IH].
    destruct (extra <=? p); [|by apply IH].
    apply (refines_then fs _ (be_encode 2 v)); [by apply refines_u16|]. intros _.
    apply IH. by apply focus_append.
Qed.

Lemma method_versions_word d : Forall (word 16) (get_method_versions d).
Proof. destruct d; repeat constructor; by vm_compute. Qed.

(** The protocol versions of a method's versions descend. *)
Lemma find_is_highest d (P : Z -> bool) v : List.find P (get_method_versions d) = Some v ->
  P v = true /\ forall v', v' ∈ get_method_versions d -> P v' = true ->
    default 0 (ssl_protocol_version_from_wire v') <= default 0 (ssl_protocol_version_from_wire v).
Proof.
  unfold get_method_versions, kDTLSVersions, kTLSVersions. intros E. split; [by apply List.find_some in E as [_ ?]|].
  intros v' Hv' Pv'. apply list_elem_of_In in Hv'.
  destruct d; cbn [List.find List.In] in *; repeat case_match; simplify_eq;
    repeat (destruct Hv' as [<-|Hv']; [first [congruence|vm_compute; congruence]|]); done.
Qed.

Lemma has_version_filter (P : Z -> bool) l v : has_version (List.filter P l) v = true <-> P v = true /\ v ∈ l.
Proof.
  rewrite existsb_exists, list_elem_of_In. split.
  - intros (x & Hx & E). apply Z.eqb_eq in E as ->. by apply List.filter_In in Hx as [? ?].
  - intros [HP Hl]. exists v. split; [by apply List.filter_In|apply Z.eqb_refl].
Qed.

(** A server that negotiates with the list a client's
    [ssl_add_supported_versions] wrote picks a version that both ends have
    enabled, and the highest one; it refuses only if there is none. *)
Theorem versions_agree client server extra b out : bytes b -> len b < 2 ^ 64 ->
  is_dtls client = is_dtls server ->
  fst ((let* _ := ssl_add_supported_versions client Top extra in CBB_finish Top true true)
         (CBB_init_fixed b)) = Some out ->
  let common v := acceptable server v && offered client extra v in
  match ssl_negotiate_version server out with
  | inl v => common v = true /\
      forall v', common v' = true ->
        default 0 (ssl_protocol_version_from_wire v') <= default 0 (ssl_protocol_version_from_wire v)
  | inr alert => alert = SSL_AD_PROTOCOL_VERSION /\ forall v, common v = false
  end.
Proof.
  intros Hb Hl Hd E common. unfold ssl_add_supported_versions in E.
  set (vs := get_method_versions (is_dtls client)) in *.
  assert (Hvs : Forall (word 16) vs) by apply method_versions_word.
  rewrite (finish_fixed _ true (encode_versions (List.filter (offered client extra) vs))) in E; [|done..|].
  2: by apply refines_add_versions.
  cbn [andb] in E. case_if; [|done]. injection E as <-.
  assert (Hf : Forall (word 16) (List.filter (offered client extra) vs)).
  { rewrite Forall_forall in *. intros x Hx. apply Hvs. apply list_elem_of_In in Hx.
    apply List.filter_In in Hx as [Hx _]. by apply list_elem_of_In. }
  unfold ssl_negotiate_version. rewrite <- (app_nil_r (encode_versions _)).
  rewrite negotiate_loop_eq by (apply bytes_nil || (simpl; lia) || done). rewrite <- Hd. fold vs.
  assert (Com : forall v, common v = true -> v ∈ vs /\
    acceptable server v && has_version (List.filter (offered client extra) vs) v = true).
  { intros v Hv. unfold common in Hv. apply andb_true_iff in Hv as [Ha Ho].
    assert (Hin : v ∈ vs).
    { unfold offered, ssl_supports_version in Ho. destruct (ssl_method_supports_version _ v) eqn:Em; [|done].
      unfold ssl_method_supports_version in Em. apply existsb_exists in Em as (x & Hx & Ex).
      apply Z.eqb_eq in Ex as ->. by apply list_elem_of_In. }
    split; [done|]. rewrite Ha. by apply has_version_filter. }
  destruct (List.find _ vs) as [v|] eqn:Ef.
  - apply find_is_highest in Ef as [Hv Hmax]. split.
    + apply andb_true_iff in Hv as [Ha Hv]. apply has_version_filter in Hv as [Hv _].
      unfold common. by rewrite Ha.
    + intros v' Hv'. destruct (Com v' Hv'). by apply Hmax.
  - split; [done|]. intros v. destruct (common v) eqn:Ev; [|done].
    destruct (Com v Ev) as [Hin Hv]. apply list_elem_of_In in Hin.
    eapply List.find_none in Ef; [|done]. cbv beta in Ef. congruence.
Qed.

End both_ends.

(** ** Instances *)

(** A TLS client with TLS 1.2 and 1.3, and a server without TLS 1.3. *)
Definition example_client : SSL_HANDSHAKE := mk_hs false false 0 0x303 0x304 0x303 0x304 false.
Definition example_server : SSL_HANDSHAKE := mk_hs false false 0 0x301 0x303 0x301 0x303 false.

Lemma negotiate_picks_preferred_witness :
  ssl_negotiate_version example_server [3; 4; 3; 3] = inl 0x303 /\
  ssl_negotiate_version example_server [3; 4; 3; 3; 3] = inl 0x303.
Proof.
  change [3; 4; 3; 3; 3] with (encode_versions [0x304; 0x303] ++ [3]).
  change [3; 4; 3; 3] with (encode_versions [0x304; 0x303]).
  destruct (negotiate_picks_preferred example_server [0x304; 0x303] 3) as [E1 E2];
    [repeat constructor; by vm_compute|by vm_compute|].
  rewrite E1, E2. split; by vm_compute.
Defined.

Lemma versions_agree_witness :
  acceptable example_server 0x303 && offered example_client 0 0x303 = true /\
  exists v, ssl_negotiate_version example_server [3; 4; 3; 3] = inl v /\
    acceptable example_server v && offered example_client 0 v = true.
Proof.
  split; [by vm_compute|].
  assert (A := @versions_agree zero_malloc example_client example_server 0 (replicate 8 0) [3; 4; 3; 3]
    (bytes_replicate 8 0 ltac:(by vm_compute)) ltac:(by vm_compute) eq_refl ltac:(by vm_compute)).
  cbv zeta in A. destruct (ssl_negotiate_version example_server [3; 4; 3; 3]) as [v|alert].
  - exists v. split; [done|apply A].
  - destruct A as [_ A]. specialize (A 0x303). by vm_compute in A.
Defined.
