(* ===== verification/SslBuffer.v ===== *)
(** * Record buffers

    Model of ssl/ssl_buffer.cc and of the class [SSLBuffer] of ssl/internal.h:
    the buffer between the transport and the record layer.  The memory is a
    list of bytes; the three 16-bit fields are words, with their wrap-around.
    [abort()] is [None].  The transport is an interface, the class [Bio]. *)

From S2P Require Import Prelude Internal Alloc.
Import Mem.

Definition SSL3_ALIGN_PAYLOAD : Z := 8.
Definition SSL3_RT_HEADER_LENGTH : Z := 5.
Definition DTLS1_RT_MAX_HEADER_LENGTH : Z := 13.
Definition SSL3_RT_MAX_ENCRYPTED_LENGTH : Z := (256 + 64) + 16384.
Definition SSL_ERROR_WANT_READ : Z := 2.
Definition SSL_ERROR_WANT_WRITE : Z := 3.
Definition SSL_ERROR_ZERO_RETURN : Z := 6.
Definition SSL3_AL_FATAL : Z := 2.

(** ** SSLBuffer *)

(** [buf_]: null, the inline buffer, or a block from [malloc]. *)
Inductive storage := Null | Inline | Heap (block : list Z).

Record SSLBuffer := mk_buffer {
  buf_ : storage; offset_ : Z; size_ : Z; cap_ : Z; inline_buf_ : list Z
}.

Definition memory (b : SSLBuffer) : list Z :=
  match buf_ b with Null => [] | Inline => inline_buf_ b | Heap block => block end.

Definition empty_buffer : SSLBuffer := mk_buffer Null 0 0 0 (replicate 5 0).

(** [span()]: the bytes in the buffer. *)
Definition span (b : SSLBuffer) : list Z :=
  take (Z.to_nat (size_ b)) (drop (Z.to_nat (offset_ b)) (memory b)).

Definition Clear (b : SSLBuffer) : SSLBuffer := mk_buffer Null 0 0 0 (inline_buf_ b).

Section buffer.
Context `{Malloc}.

(** [address] is the address of the block [malloc] returns. *)
Definition EnsureCap (b : SSLBuffer) (header_len new_cap address : Z) : bool * SSLBuffer :=
  if 0xffff <? new_cap then (false, b)
  else if new_cap <=? cap_ b then (true, b)
  else if new_cap <=? 5 then
    (true, mk_buffer Inline 0 (size_ b) new_cap (mem_write (inline_buf_ b) 0 (span b)))
  else match malloc (new_cap + SSL3_ALIGN_PAYLOAD - 1) with
       | None => (false, b)
       | Some new_buf =>
           let new_offset := Z.land (u64 (0 - header_len - address)) (SSL3_ALIGN_PAYLOAD - 1) in
           (true, mk_buffer (Heap (mem_write new_buf (Z.to_nat new_offset) (span b)))
                    new_offset (size_ b) new_cap (inline_buf_ b))
       end.

(** The caller writes [data] at [data() + size()]. *)
Definition fill (b : SSLBuffer) (data : list Z) : SSLBuffer :=
  let m := mem_write (memory b) (Z.to_nat (offset_ b + size_ b)) data in
  match buf_ b with
  | Null => b
  | Inline => mk_buffer Inline (offset_ b) (size_ b) (cap_ b) m
  | Heap _ => mk_buffer (Heap m) (offset_ b) (size_ b) (cap_ b) (inline_buf_ b)
  end.

Definition DidWrite (b : SSLBuffer) (new_size : Z) : option SSLBuffer :=
  if u64 (cap_ b - size_ b) <? new_size then None
  else Some (mk_buffer (buf_ b) (offset_ b) (u16 (size_ b + new_size)) (cap_ b) (inline_buf_ b)).

Definition Consume (b : SSLBuffer) (n : Z) : option SSLBuffer :=
  if size_ b <? n then None
  else Some (mk_buffer (buf_ b) (u16 (offset_ b + u16 n)) (u16 (size_ b - u16 n))
               (u16 (cap_ b - u16 n)) (inline_buf_ b)).

Definition DiscardConsumed (b : SSLBuffer) : SSLBuffer :=
  if size_ b =? 0 then Clear b else b.

End buffer.

(** ** Transport *)

(** [BIO_read] of at most [n] bytes: the return value and, if it is positive,
    that many bytes; [BIO_write]: the return value, how much was taken.  A
    [BIO] never moves more than it is asked to.  [received] and [sent] are the
    bytes that have come out of and gone into the transport. *)
Class Bio (T : Type) := {
  bio_read : T -> Z -> Z * list Z * T;
  bio_write : T -> list Z -> Z * T;
  received : T -> list Z;
  sent : T -> list Z;
  bio_read_ok : forall t n r data t', bio_read t n = (r, data, t') ->
    if 0 <? r then r <= n /\ len data = r /\ bytes data /\ received t' = received t ++ data
    else received t' = received t;
  bio_write_ok : forall t data r t', bio_write t data = (r, t') ->
    if 0 <? r then r <= len data /\ sent t' = sent t ++ take (Z.to_nat r) data
    else sent t' = sent t
}.

Section io.
Context `{Malloc} {T : Type} `{Bio T}.

(** The fields of an [SSL] these functions use; [rbio] and [wbio] may be
    null. *)
Record SSL := mk_ssl {
  ssl_is_dtls : bool; rbio : option T; wbio : option T;
  read_buffer : SSLBuffer; write_buffer : SSLBuffer; rwstate : Z
}.

Definition with_read (ssl : SSL) (t : T) (b : SSLBuffer) : SSL :=
  mk_ssl (ssl_is_dtls ssl) (Some t) (wbio ssl) b (write_buffer ssl) (rwstate ssl).
Definition with_read_buffer (ssl : SSL) (b : SSLBuffer) : SSL :=
  mk_ssl (ssl_is_dtls ssl) (rbio ssl) (wbio ssl) b (write_buffer ssl) (rwstate ssl).
Definition with_write (ssl : SSL) (t : T) (b : SSLBuffer) : SSL :=
  mk_ssl (ssl_is_dtls ssl) (rbio ssl) (Some t) (read_buffer ssl) b (rwstate ssl).
Definition with_rwstate (ssl : SSL) (s : Z) : SSL :=
  mk_ssl (ssl_is_dtls ssl) (rbio ssl) (wbio ssl) (read_buffer ssl) (write_buffer ssl) s.

(** The functions return [None] if the process aborts (or, for the loops, if
    the fuel runs out). *)
Definition dtls_read_buffer_next_packet (ssl : SSL) (t : T) : option (Z * SSL) :=
  let buf := read_buffer ssl in
  if negb (size_ buf =? 0) then Some (-1, ssl)
  else
    let '(ret, data, t') := bio_read t (cap_ buf) in
    if ret <=? 0 then Some (ret, with_rwstate (with_read ssl t' buf) SSL_ERROR_WANT_READ)
    else match DidWrite (fill buf data) ret with
         | None => None
         | Some buf' => Some (1, with_read ssl t' buf')
         end.

Fixpoint tls_read_loop (fuel : nat) (n : Z) (ssl : SSL) (t : T) : option (Z * SSL) :=
  let buf := read_buffer ssl in
  if size_ buf <? n then
    match fuel with
    | O => None
    | S fuel' =>
        let '(ret, data, t') := bio_read t (n - size_ buf) in
        if ret <=? 0 then Some (ret, with_rwstate (with_read ssl t' buf) SSL_ERROR_WANT_READ)
        else match DidWrite (fill buf data) ret with
             | None => None
             | Some buf' => tls_read_loop fuel' n (with_read ssl t' buf') t'
             end
    end
  else Some (1, ssl).

Definition tls_read_buffer_extend_to (ssl : SSL) (t : T) (n : Z) : option (Z * SSL) :=
  if cap_ (read_buffer ssl) <? n then Some (-1, ssl)
  else tls_read_loop (Z.to_nat n) n ssl t.

Definition ssl_read_buffer_extend_to (ssl : SSL) (n address : Z) : option (Z * SSL) :=
  let ssl := with_read_buffer ssl (DiscardConsumed (read_buffer ssl)) in
  let n := if ssl_is_dtls ssl then DTLS1_RT_MAX_HEADER_LENGTH + SSL3_RT_MAX_ENCRYPTED_LENGTH else n in
  let '(ok, buf) := EnsureCap (read_buffer ssl) DTLS1_RT_MAX_HEADER_LENGTH n address in
  if negb ok then Some (-1, ssl)
  else
    let ssl := with_read_buffer ssl buf in
    match rbio ssl with
    | None => Some (-1, ssl)
    | Some t =>
        match (if ssl_is_dtls ssl then dtls_read_buffer_next_packet ssl t
               else tls_read_buffer_extend_to ssl t n) with
        | None => None
        | Some (ret, ssl) =>
            if ret <=? 0 then
              Some (ret, with_read_buffer ssl (DiscardConsumed (read_buffer ssl)))
            else Some (ret, ssl)
        end
    end.

Inductive ssl_open_record_t :=
  | ssl_open_record_success | ssl_open_record_discard | ssl_open_record_partial
  | ssl_open_record_close_notify | ssl_open_record_error.

(** [send_alert] is [ssl_send_alert] of ssl/s3_pkt.cc.  Returns the return
    value, [*out_retry] and the connection. *)
Definition ssl_handle_open_record (send_alert : SSL -> Z -> Z -> SSL) (ssl : SSL)
    (ret : ssl_open_record_t) (consumed alert address : Z) : option (Z * bool * SSL) :=
  match (match ret with
         | ssl_open_record_partial => Some (read_buffer ssl)
         | _ => Consume (read_buffer ssl) consumed
         end) with
  | None => None
  | Some buf =>
      let buf := match ret with ssl_open_record_success => buf | _ => DiscardConsumed buf end in
      let ssl := with_read_buffer ssl buf in
      match ret with
      | ssl_open_record_success => Some (1, false, ssl)
      | ssl_open_record_partial =>
          match ssl_read_buffer_extend_to ssl consumed address with
          | None => None
          | Some (read_ret, ssl) => if read_ret <=? 0 then Some (read_ret, false, ssl) else Some (1, true, ssl)
          end
      | ssl_open_record_discard => Some (1, true, ssl)
      | ssl_open_record_close_notify => Some (0, false, with_rwstate ssl SSL_ERROR_ZERO_RETURN)
      | ssl_open_record_error =>
          Some (-1, false, if negb (alert =? 0) then send_alert ssl SSL3_AL_FATAL alert else ssl)
      end
  end.

Fixpoint tls_write_loop (fuel : nat) (ssl : SSL) (t : T) : option (Z * SSL) :=
  let buf := write_buffer ssl in
  if size_ buf =? 0 then Some (1, with_write ssl t (Clear buf))
  else match fuel with
       | O => None
       | S fuel' =>
           let '(ret, t') := bio_write t (span buf) in
           if ret <=? 0 then Some (ret, with_rwstate (with_write ssl t' buf) SSL_ERROR_WANT_WRITE)
           else match Consume buf ret with
                | None => None
                | Some buf' => tls_write_loop fuel' (with_write ssl t' buf') t'
                end
       end.

Definition tls_write_buffer_flush (ssl : SSL) (t : T) : option (Z * SSL) :=
  tls_write_loop (Z.to_nat (size_ (write_buffer ssl))) ssl t.

Definition dtls_write_buffer_flush (ssl : SSL) (t : T) : option (Z * SSL) :=
  let buf := write_buffer ssl in
  if size_ buf =? 0 then Some (1, ssl)
  else
    let '(ret, t') := bio_write t (span buf) in
    if ret <=? 0 then Some (ret, with_rwstate (with_write ssl t' (Clear buf)) SSL_ERROR_WANT_WRITE)
    else Some (1, with_write ssl t' (Clear buf)).

Definition ssl_write_buffer_flush (ssl : SSL) : option (Z * SSL) :=
  match wbio ssl with
  | None => Some (-1, ssl)
  | Some t => if ssl_is_dtls ssl then dtls_write_buffer_flush ssl t else tls_write_buffer_flush ssl t
  end.

End io.
