(* ===== verification/SslBufferFacts.v ===== *)
(** * Record buffers are queues

    The invariant of [SSLBuffer] and its operations as operations on the
    queue of bytes it holds; the transport loops of ssl/ssl_buffer.cc neither
    lose nor repeat a byte. *)

From S2P Require Import Prelude Internal Alloc SslBuffer.
Import Mem.

(** ** The invariant *)

Definition buf_ok (b : SSLBuffer) : Prop :=
  length (inline_buf_ b) = 5%nat /\ bytes (inline_buf_ b) /\ bytes (memory b) /\
  0 <= size_ b <= cap_ b /\ 0 <= offset_ b /\ offset_ b + cap_ b <= len (memory b) /\
  offset_ b + cap_ b <= 0xffff.

Lemma empty_buffer_ok : buf_ok empty_buffer.
Proof. split_and!; try done; byte_list. Qed.

Lemma clear_ok b : buf_ok b -> buf_ok (Clear b) /\ span (Clear b) = [].
Proof. intros (H1 & H2 & _). split; [|done]. split_and!; try done; try (simpl; lia). byte_list. Qed.

Lemma length_span b : buf_ok b -> len (span b) = size_ b.
Proof.
  intros (_ & _ & _ & H4 & H5 & H6 & _). unfold span. rewrite length_take, length_drop. lia.
Qed.

Lemma bytes_span b : buf_ok b -> bytes (span b).
Proof. intros (_ & _ & H3 & _). unfold span. auto with bytes_db. Qed.

Lemma discard_ok b : buf_ok b -> buf_ok (DiscardConsumed b) /\ span (DiscardConsumed b) = span b.
Proof.
  intros Hok. unfold DiscardConsumed. destruct (Z.eqb_spec (size_ b) 0) as [E|]; [|done].
  destruct (clear_ok b Hok) as [H1 H2]. split; [done|]. rewrite H2. unfold span. by rewrite E.
Qed.

Section facts.
Context `{Malloc}.

Lemma ensure_cap_spec b h n a : buf_ok b -> 0 <= n <= 0xfff8 ->
  match EnsureCap b h n a with
  | (true, b') => buf_ok b' /\ span b' = span b /\ n <= cap_ b'
  | (false, b') => b' = b /\ malloc (n + SSL3_ALIGN_PAYLOAD - 1) = None
  end.
Proof.
  intros Hok Hn. assert (L := length_span b Hok). assert (B := bytes_span b Hok).
  assert (Hok' := Hok). destruct Hok as (H1 & H2 & H3 & H4 & H5 & H6 & H7). unfold EnsureCap.
  destruct (Z.ltb_spec 65535 n); [lia|]. destruct (Z.leb_spec n (cap_ b)).
  { done. }
  destruct (Z.leb_spec n 5).
  - assert (W := mem_write_read (inline_buf_ b) 0 (span b) ltac:(lia)).
    assert (Lw := length_mem_write (inline_buf_ b) 0 (span b) ltac:(lia)).
    split; [|split; [|simpl; lia]].
    + split_and!; cbn [inline_buf_ memory buf_ size_ cap_ offset_]; try lia; auto with bytes_db.
    + rewrite <- W at 2. unfold span at 1. cbn [size_ offset_ memory buf_ inline_buf_].
      f_equal. lia.
  - destruct (malloc (n + SSL3_ALIGN_PAYLOAD - 1)) as [m|] eqn:Em; [|done]. cbv zeta.
    assert (Lm := malloc_length (n + SSL3_ALIGN_PAYLOAD - 1) m ltac:(unfold SSL3_ALIGN_PAYLOAD; lia) Em).
    assert (Bm := malloc_bytes _ _ Em).
    set (off := Z.land _ _). assert (Ho : 0 <= off < 8).
    { subst off. change (SSL3_ALIGN_PAYLOAD - 1) with (2 ^ 3 - 1). rewrite land_ones_mod by lia.
      by apply Z.mod_pos_bound. }
    unfold SSL3_ALIGN_PAYLOAD in Lm.
    assert (W := mem_write_read m (Z.to_nat off) (span b) ltac:(lia)).
    assert (Lw := length_mem_write m (Z.to_nat off) (span b) ltac:(lia)).
    split; [|split; [|simpl; lia]].
    + split_and!; cbn [inline_buf_ memory buf_ size_ cap_ offset_]; try lia; auto with bytes_db.
    + rewrite <- W at 2. unfold span at 1. cbn [size_ offset_ memory buf_ inline_buf_].
      f_equal. lia.
Qed.

End facts.

(** Writing behind the contents and reporting it. *)
Lemma fill_did_write b data : buf_ok b -> bytes data -> len data <= cap_ b - size_ b ->
  exists b', DidWrite (fill b data) (len data) = Some b' /\ buf_ok b' /\ span b' = span b ++ data /\
    cap_ b' = cap_ b.
Proof.
  intros Hok Hd Hl. assert (L := length_span b Hok).
  destruct Hok as (H1 & H2 & H3 & H4 & H5 & H6 & H7).
  set (m := mem_write (memory b) (Z.to_nat (offset_ b + size_ b)) data).
  assert (Lw : length m = length (memory b)) by (apply length_mem_write; lia).
  assert (Bw : bytes m) by (subst m; auto with bytes_db).
  assert (W : take (Z.to_nat (size_ b + len data)) (drop (Z.to_nat (offset_ b)) m) = span b ++ data).
  { assert (W := mem_write_append (memory b) (Z.to_nat (offset_ b)) (Z.to_nat (size_ b)) data ltac:(lia)).
    subst m. unfold span. rewrite <- W. do 3 f_equal; lia. }
  unfold DidWrite, fill. fold m.
  assert (Es : size_ b + len data <= 0xffff) by lia.
  destruct (buf_ b) as [| |block] eqn:Eb;
    cbn [cap_ size_ offset_ inline_buf_ buf_]; rewrite (wrap_small 64) by (unfold word; lia);
    (destruct (Z.ltb_spec (cap_ b - size_ b) (len data)); [lia|]);
    rewrite (wrap_small 16) by (unfold word; lia); (eexists; split; [reflexivity|]);
    unfold memory in *; rewrite Eb in *; subst m.
  - assert (length data = 0)%nat by (simpl in H6; lia). destruct data; [|done]. simpl len in *.
    rewrite Z.add_0_r, app_nil_r.
    split; [|split; [|done]]; [by split_and!; unfold memory; rewrite ?Eb; try done; simpl in *; lia|].
    unfold span, memory. simpl. by rewrite Eb.
  - split; [|split; [exact W|done]].
    split_and!; cbn [inline_buf_ memory buf_ size_ cap_ offset_]; try lia; try done.
  - split; [|split; [exact W|done]].
    split_and!; cbn [inline_buf_ memory buf_ size_ cap_ offset_]; try lia; try done.
Qed.

(** Overfilling aborts. *)
Lemma did_write_abort b n : buf_ok b -> 0 <= n -> cap_ b - size_ b < n -> DidWrite b n = None.
Proof.
  intros (_ & _ & _ & H4 & H5 & _ & H7) Hn Hl. unfold DidWrite.
  rewrite (wrap_small 64) by (unfold word; lia).
  by destruct (Z.ltb_spec (cap_ b - size_ b) n); [|lia].
Qed.

Lemma consume_spec b n : buf_ok b -> 0 <= n ->
  match Consume b n with
  | Some b' => n <= size_ b /\ buf_ok b' /\ span b' = drop (Z.to_nat n) (span b)
  | None => size_ b < n
  end.
Proof.
  intros Hok Hn. destruct Hok as (H1 & H2 & H3 & H4 & H5 & H6 & H7). unfold Consume.
  destruct (Z.ltb_spec (size_ b) n); [done|]. rewrite (wrap_small 16 n) by (unfold word; lia).
  rewrite !(wrap_small 16) by (unfold word; lia). split; [lia|].
  split; [split_and!; cbn [inline_buf_ memory buf_ size_ cap_ offset_]; try done; unfold memory in *; simpl; lia|].
  unfold span. cbn [size_ offset_].
  change (memory (mk_buffer _ _ _ _ _)) with (memory b).
  transitivity (take (Z.to_nat (size_ b - n)) (drop (Z.to_nat n) (drop (Z.to_nat (offset_ b)) (memory b)))).
  - rewrite drop_drop. do 2 f_equal. lia.
  - rewrite take_drop_commute. do 2 f_equal. lia.
Qed.

(** ** The queue *)

Inductive buf_op :=
  | OpEnsureCap (header_len new_cap address : Z)
  | OpWrite (data : list Z)
  | OpConsume (n : Z)
  | OpDiscardConsumed
  | OpClear.

Definition op_ok (op : buf_op) : Prop :=
  match op with
  | OpEnsureCap _ n _ => 0 <= n <= 0xfff8
  | OpWrite data => bytes data
  | OpConsume n => 0 <= n
  | _ => True
  end.

(** The queue the operations stand for. *)
Definition queue_step (q : list Z) (op : buf_op) : list Z :=
  match op with
  | OpWrite data => q ++ data
  | OpConsume n => drop (Z.to_nat n) q
  | OpClear => []
  | _ => q
  end.

Section queue.
Context `{Malloc}.

Definition run_op (b : SSLBuffer) (op : buf_op) : option SSLBuffer :=
  match op with
  | OpEnsureCap h n a => Some (snd (EnsureCap b h n a))
  | OpWrite data => DidWrite (fill b data) (len data)
  | OpConsume n => Consume b n
  | OpDiscardConsumed => Some (DiscardConsumed b)
  | OpClear => Some (Clear b)
  end.

Fixpoint run_ops (b : SSLBuffer) (ops : list buf_op) : option SSLBuffer :=
  match ops with
  | [] => Some b
  | op :: ops' => match run_op b op with Some b' => run_ops b' ops' | None => None end
  end.

Lemma fill_fields b data : cap_ (fill b data) = cap_ b /\ size_ (fill b data) = size_ b.
Proof. unfold fill. by destruct (buf_ b). Qed.

Lemma run_op_spec b op b' : buf_ok b -> op_ok op -> run_op b op = Some b' ->
  buf_ok b' /\ span b' = queue_step (span b) op.
Proof.
  intros Hok Ho. destruct op as [h n a|data|n| |]; cbn [run_op queue_step op_ok] in *.
  - intros [= <-]. assert (E := ensure_cap_spec b h n a Hok Ho).
    destruct (EnsureCap b h n a) as [[] b'']; [by destruct E as (? & ? & _)|by destruct E as [-> _]].
  - destruct (decide (len data <= cap_ b - size_ b)) as [Hl|Hl].
    + destruct (fill_did_write b data Hok Ho Hl) as (b2 & -> & ? & ? & _). by intros [= <-].
    + unfold DidWrite. destruct (fill_fields b data) as [-> ->].
      destruct Hok as (_ & _ & _ & H4 & H5 & _ & H7).
      rewrite (wrap_small 64) by (unfold word; lia).
      by destruct (Z.ltb_spec (cap_ b - size_ b) (len data)); [|lia].
  - intros E. assert (C := consume_spec b n Hok Ho). rewrite E in C. by destruct C as (_ & ? & ?).
  - intros [= <-]. by apply discard_ok.
  - intros [= <-]. by apply clear_ok.
Qed.

Lemma run_ops_spec ops : forall b b', buf_ok b -> Forall op_ok ops -> run_ops b ops = Some b' ->
  buf_ok b' /\ span b' = foldl queue_step (span b) ops.
Proof.
  induction ops as [|op ops IH]; intros b b' Hok Ho; cbn [run_ops foldl]; [by intros [= <-]|].
  inversion_clear Ho as [|? ? Ho1 Ho2]. destruct (run_op b op) as [b1|] eqn:E; [|done].
  apply run_op_spec in E as [Hok1 E1]; [|done..]. rewrite <- E1. by apply IH.
Qed.

(** After any sequence of operations that does not abort, through every
    move between the inline buffer and the heap, an [SSLBuffer] holds exactly
    the queue of bytes the operations stand for, and its fields stay in
    bounds; capacities up to [0xfff8] are requested. *)
Theorem ssl_buffer_is_queue ops b : Forall op_ok ops -> run_ops empty_buffer ops = Some b ->
  buf_ok b /\ span b = foldl queue_step [] ops.
Proof. intros Ho E. by apply run_ops_spec in E; [|apply empty_buffer_ok|]. Qed.

End queue.

(** With a capacity of [0xffff], which [EnsureCap] accepts, the 16-bit
    [offset_] can wrap around: after 65530 of 65535 bytes have been consumed
    the buffer shows five bytes from the start of the block instead of the
    last five. *)
Theorem ssl_buffer_offset_wraps :
  let data := replicate (Z.to_nat 65530) 1 ++ [2; 2; 2; 2; 2] in
  let b := @run_ops zero_malloc empty_buffer
             [OpEnsureCap 9 0xffff 16; OpWrite data; OpConsume 65530] in
  (offset_ <$> b) = Some 1 /\ (span <$> b) = Some [0; 0; 0; 0; 0] /\
  drop (Z.to_nat 65530) data = [2; 2; 2; 2; 2].
Proof. by vm_compute. Qed.

(** ** The transport loops *)

Section io.
Context `{Malloc} {T : Type} `{Bio T}.

Lemma write_loop_spec fuel : forall ssl t, buf_ok (write_buffer ssl) ->
  size_ (write_buffer ssl) <= Z.of_nat fuel ->
  exists ret ssl' t', tls_write_loop fuel ssl t = Some (ret, ssl') /\ wbio ssl' = Some t' /\
    buf_ok (write_buffer ssl') /\
    sent t' ++ span (write_buffer ssl') = sent t ++ span (write_buffer ssl) /\
    read_buffer ssl' = read_buffer ssl /\
    (ret = 1 /\ span (write_buffer ssl') = [] \/
     ret <= 0 /\ span (write_buffer ssl') <> [] /\ rwstate ssl' = SSL_ERROR_WANT_WRITE).
Proof.
  induction fuel as [|fuel IH]; intros ssl t Hok Hf; cbn [tls_write_loop];
    assert (L := length_span _ Hok);
    (destruct (Z.eqb_spec (size_ (write_buffer ssl)) 0) as [E0|E0];
     [destruct (clear_ok _ Hok) as [Hc Hs];
      assert (En : span (write_buffer ssl) = []) by (apply nil_length_inv; lia);
      do 3 eexists; split; [done|]; split; [done|]; split; [done|]; cbn [with_write write_buffer];
      rewrite Hs, En; split; [done|]; split; [done|by left]|]).
  - destruct Hok as (_ & _ & _ & ? & _). lia.
  - destruct (bio_write t (span (write_buffer ssl))) as [r t'] eqn:Ew.
    assert (W := bio_write_ok _ _ _ _ Ew). destruct (Z.leb_spec r 0).
    + destruct (Z.ltb_spec 0 r); [lia|]. do 3 eexists. split; [done|]. split; [done|].
      split; [done|]. cbn [with_write with_rwstate write_buffer rwstate]. rewrite W.
      split; [done|]. split; [done|]. right. split; [done|]. split; [|done].
      intros En. rewrite En in L. simpl in L. lia.
    + destruct (Z.ltb_spec 0 r); [|lia]. destruct W as [Hr Hs].
      assert (C := consume_spec (write_buffer ssl) r Hok ltac:(lia)).
      destruct (Consume (write_buffer ssl) r) as [b'|]; [|lia]. destruct C as (_ & Hok' & Hsp).
      assert (L' := length_span _ Hok'). rewrite Hsp, length_drop in L'.
      destruct (IH (with_write ssl t' b') t') as (ret & ssl' & t2 & E1 & E2 & E3 & E4 & E5 & E6);
        [done|simpl; lia|].
      exists ret, ssl', t2. split; [done|]. split; [done|]. split; [done|]. split; [|by split].
      rewrite E4, Hs. simpl. rewrite Hsp, <- app_assoc, take_drop. done.
Qed.

(** Flushing the write buffer of a TLS connection always returns, and no
    byte is lost, repeated or reordered: what the transport has taken followed
    by what is still in the buffer is the same before and after; it reports 1
    exactly when nothing is left. *)
Theorem write_flush_exact ssl t : ssl_is_dtls ssl = false -> wbio ssl = Some t ->
  buf_ok (write_buffer ssl) ->
  exists ret ssl' t', ssl_write_buffer_flush ssl = Some (ret, ssl') /\ wbio ssl' = Some t' /\
    buf_ok (write_buffer ssl') /\
    sent t' ++ span (write_buffer ssl') = sent t ++ span (write_buffer ssl) /\
    read_buffer ssl' = read_buffer ssl /\
    (ret = 1 /\ span (write_buffer ssl') = [] \/
     ret <= 0 /\ span (write_buffer ssl') <> [] /\ rwstate ssl' = SSL_ERROR_WANT_WRITE).
Proof.
  intros Hd Hw Hok. unfold ssl_write_buffer_flush. rewrite Hw, Hd. unfold tls_write_buffer_flush.
  apply write_loop_spec; [done|]. destruct Hok as (_ & _ & _ & ? & _). lia.
Qed.

(** What [r] new bytes change: they leave the transport and join the buffer. *)
Definition moved (t t' : T) (b b' : SSLBuffer) : Prop :=
  exists r, received t' = received t ++ r /\ span b' = span b ++ r.

Lemma moved_refl t b : moved t t b b.
Proof. exists []. by rewrite !app_nil_r. Qed.

Lemma moved_trans t1 t2 t3 b1 b2 b3 : moved t1 t2 b1 b2 -> moved t2 t3 b2 b3 -> moved t1 t3 b1 b3.
Proof.
  intros (r1 & E1 & E2) (r2 & E3 & E4). exists (r1 ++ r2). rewrite E3, E1, E4, E2. by rewrite !app_assoc.
Qed.

Lemma read_loop_spec fuel n : forall ssl t, buf_ok (read_buffer ssl) -> rbio ssl = Some t ->
  n <= cap_ (read_buffer ssl) -> n - size_ (read_buffer ssl) <= Z.of_nat fuel ->
  exists ret ssl' t', tls_read_loop fuel n ssl t = Some (ret, ssl') /\ rbio ssl' = Some t' /\
    buf_ok (read_buffer ssl') /\ write_buffer ssl' = write_buffer ssl /\
    moved t t' (read_buffer ssl) (read_buffer ssl') /\
    (ret = 1 /\ size_ (read_buffer ssl') = Z.max n (size_ (read_buffer ssl)) \/
     ret <= 0 /\ size_ (read_buffer ssl') < n).
Proof.
  induction fuel as [|fuel IH]; intros ssl t Hok Hb Hc Hf; cbn [tls_read_loop];
    (destruct (Z.ltb_spec (size_ (read_buffer ssl)) n);
     [|exists 1, ssl, t; split_and!; try done; [apply moved_refl|left; split; [done|lia]]]); [lia|].
  set (b := read_buffer ssl) in *.
  destruct (bio_read t (n - size_ b)) as [[r data] t'] eqn:Er.
  assert (W := bio_read_ok _ _ _ _ _ Er). destruct (Z.leb_spec r 0).
  - destruct (Z.ltb_spec 0 r); [lia|]. do 3 eexists. split; [done|]. split; [done|]. split; [done|].
    split; [done|]. split; [exists []; by rewrite W, !app_nil_r|]. right. split; [done|]. done.
  - destruct (Z.ltb_spec 0 r); [|lia]. destruct W as (Hr & Hl & Hd & Hrec).
    destruct (fill_did_write b data Hok Hd ltac:(lia)) as (b' & Ew & Hok' & Hs & Hcap).
    rewrite Hl in Ew. rewrite Ew.
    assert (Ls : size_ b' = size_ b + r).
    { rewrite <- (length_span b' Hok'), Hs, length_app, Nat2Z.inj_add, (length_span b Hok). lia. }
    destruct (IH (with_read ssl t' b') t') as (ret & ssl' & t2 & E1 & E2 & E3 & E4 & E5 & E6);
      [done|done|simpl; lia|simpl; lia|].
    exists ret, ssl', t2. split_and!; try done.
    + eapply moved_trans; [|exact E5]. by exists data.
    + simpl in E6. lia.
Qed.

(** [ssl_read_buffer_extend_to] of a TLS connection always returns.  The
    buffer afterwards is the buffer before followed by what was taken from the
    transport; it reports 1 when at least [n] bytes are there, and has then
    taken none beyond the [n]-th. *)
Theorem read_extend_exact ssl t n a : ssl_is_dtls ssl = false -> rbio ssl = Some t ->
  buf_ok (read_buffer ssl) -> 0 <= n <= 0xfff8 -> malloc_never_fails ->
  exists ret ssl' t', ssl_read_buffer_extend_to ssl n a = Some (ret, ssl') /\ rbio ssl' = Some t' /\
    buf_ok (read_buffer ssl') /\ write_buffer ssl' = write_buffer ssl /\
    moved t t' (read_buffer ssl) (read_buffer ssl') /\
    (ret = 1 /\ size_ (read_buffer ssl') = Z.max n (size_ (read_buffer ssl)) \/
     ret <= 0 /\ size_ (read_buffer ssl') < n).
Proof.
  intros Hd Hb Hok Hn Hm. unfold ssl_read_buffer_extend_to. cbv zeta.
  cbn [with_read_buffer ssl_is_dtls read_buffer rbio]. rewrite Hd.
  destruct (discard_ok _ Hok) as [Hok1 Hs1].
  assert (C := ensure_cap_spec (DiscardConsumed (read_buffer ssl)) DTLS1_RT_MAX_HEADER_LENGTH n a Hok1 Hn).
  destruct (EnsureCap _ _ n a) as [[] b1].
  2: { destruct C as [_ C]. destruct (Hm (n + SSL3_ALIGN_PAYLOAD - 1)); [|done].
       unfold SSL3_ALIGN_PAYLOAD. lia. }
  destruct C as (Hok2 & Hs2 & Hc2). cbn [negb rbio]. rewrite Hb.
  assert (Hsz : size_ b1 = size_ (read_buffer ssl)).
  { rewrite <- (length_span _ Hok2), <- (length_span _ Hok). by rewrite Hs2, Hs1. }
  unfold tls_read_buffer_extend_to. cbn [read_buffer].
  match goal with |- context [tls_read_loop _ _ ?s _] => set (ssl1 := s) end.
  destruct (read_loop_spec (Z.to_nat n) n ssl1 t) as (ret & ssl2 & t2 & E1 & E2 & E3 & E4 & E5 & E6);
    [done|done|done|simpl; destruct Hok2 as (_ & _ & _ & ? & _); lia|].
  assert (M : moved t t2 (read_buffer ssl) (read_buffer ssl2)).
  { destruct E5 as (r & R1 & R2). exists r. split; [done|]. rewrite R2. simpl. by rewrite Hs2, Hs1. }
  assert (Ec : (cap_ (read_buffer ssl1) <? n) = false) by (by apply Z.ltb_ge).
  rewrite Ec, E1. simpl in E6. rewrite Hsz in E6. destruct (Z.leb_spec ret 0) as [Hr|Hr].
  - destruct (discard_ok _ E3) as [Hok3 Hs3].
    exists ret, (with_read_buffer ssl2 (DiscardConsumed (read_buffer ssl2))), t2.
    cbn [with_read_buffer read_buffer rbio write_buffer].
    assert (size_ (DiscardConsumed (read_buffer ssl2)) = size_ (read_buffer ssl2)).
    { rewrite <- (length_span _ Hok3), <- (length_span _ E3). by rewrite Hs3. }
    split_and!; try done; [|lia]. destruct M as (r & R1 & R2). exists r. by rewrite Hs3.
  - exists ret, ssl2, t2. split_and!; done.
Qed.

End io.

(** ** Instances *)

(** A transport that hands out its input and takes its output in pieces of at
    most three bytes. *)
Record pipe := mk_pipe { input : list Z; taken : list Z; output : list Z }.

Definition pipe_read (t : pipe) (n : Z) : Z * list Z * pipe :=
  let k := Z.to_nat (Z.min 3 n) in
  let data := List.map (fun b => b mod 256) (take k (input t)) in
  (len data, data, mk_pipe (drop k (input t)) (taken t ++ data) (output t)).

Definition pipe_write (t : pipe) (data : list Z) : Z * pipe :=
  (len (take 3 data), mk_pipe (input t) (taken t) (output t ++ take 3 data)).

#[export] Program Instance pipe_bio : Bio pipe :=
  {| bio_read := pipe_read; bio_write := pipe_write; received := taken; sent := output |}.
Next Obligation.
  intros t n r data t' [= <- <- <-]. cbn [taken]. set (d := List.map _ _).
  assert (L : len d <= Z.max 0 n) by (subst d; rewrite length_map, length_take; lia).
  destruct (Z.ltb_spec 0 (len d)).
  - split_and!; try done; [lia|]. subst d. apply Forall_forall. intros x Hx.
    apply list_elem_of_In, in_map_iff in Hx as (y & <- & _). unfold word.
    by apply Z.mod_pos_bound.
  - assert (d = []) as -> by (apply nil_length_inv; lia). by rewrite app_nil_r.
Qed.
Next Obligation.
  intros t data r t' [= <- <-]. cbn [output]. destruct (Z.ltb_spec 0 (len (take 3 data))) as [H|H].
  - rewrite length_take in *. split; [lia|]. f_equal.
    destruct (decide (3 <= length data)%nat).
    + f_equal. lia.
    + rewrite !take_ge by lia. done.
  - assert (take 3 data = []) as -> by (apply nil_length_inv; lia). by rewrite app_nil_r.
Qed.

Lemma ssl_buffer_is_queue_witness :
  exists b, @run_ops zero_malloc empty_buffer
      [OpEnsureCap 5 5 0; OpWrite [1; 2; 3; 4; 5]; OpConsume 3; OpEnsureCap 5 20 48; OpWrite [6; 7]] = Some b /\
    span b = [4; 5; 6; 7].
Proof.
  destruct (@run_ops zero_malloc empty_buffer [OpEnsureCap 5 5 0; OpWrite [1; 2; 3; 4; 5]; OpConsume 3;
    OpEnsureCap 5 20 48; OpWrite [6; 7]]) as [b|] eqn:E; [|by vm_compute in E].
  exists b. split; [done|]. apply (@ssl_buffer_is_queue zero_malloc) in E as [_ E]; [by rewrite E|].
  repeat constructor; try byte_list; simpl; lia.
Defined.

Definition five_bytes : SSLBuffer := mk_buffer Inline 0 5 5 [1; 2; 3; 4; 5].

Lemma five_bytes_ok : buf_ok five_bytes.
Proof. split_and!; try done; byte_list. Qed.

(** Five bytes go out in two writes. *)
Lemma write_flush_exact_witness :
  exists ssl', ssl_write_buffer_flush (mk_ssl false None (Some (mk_pipe [] [] [9])) empty_buffer five_bytes 0) =
      Some (1, ssl') /\ (output <$> wbio ssl') = Some [9; 1; 2; 3; 4; 5].
Proof.
  destruct (write_flush_exact (mk_ssl false None (Some (mk_pipe [] [] [9])) empty_buffer five_bytes 0)
    (mk_pipe [] [] [9]) eq_refl eq_refl five_bytes_ok) as (ret & ssl' & t' & E & E1 & _ & E2 & _ & E3).
  assert (E' := E). vm_compute in E'. injection E' as <- _.
  exists ssl'. split; [done|]. rewrite E1. destruct E3 as [[_ E3]|[? _]]; [|lia].
  rewrite E3, app_nil_r in E2. simpl in *. by rewrite E2.
Defined.

(** Four bytes are wanted, three arrive, then the end of the input. *)
Lemma read_extend_exact_witness :
  exists ssl', @ssl_read_buffer_extend_to zero_malloc pipe _
      (mk_ssl false (Some (mk_pipe [7; 8; 9] [] [])) None empty_buffer empty_buffer 0) 4 0 = Some (0, ssl') /\
    buf_ok (read_buffer ssl') /\ span (read_buffer ssl') = [7; 8; 9].
Proof.
  destruct (@read_extend_exact zero_malloc pipe _
    (mk_ssl false (Some (mk_pipe [7; 8; 9] [] [])) None empty_buffer empty_buffer 0)
    (mk_pipe [7; 8; 9] [] []) 4 0 eq_refl eq_refl empty_buffer_ok ltac:(lia) zero_malloc_total)
    as (ret & ssl' & t' & E & _ & Hok & _).
  assert (E' := E). vm_compute in E'. injection E' as <- E''. exists ssl'. split; [done|].
  split; [done|]. by rewrite <- E''.
Defined.
