(* ===== verification/SslExtensions.v ===== *)
(** * The extensions of a ClientHello

    Model of the parts of ssl/extensions.cc and ssl/ssl_lib.cc that decide
    which extensions a ClientHello has and in which order: the extension table,
    [SSL_set1_extension_order] and the other per-connection controls of the
    browser profiles, the permutation, the writers of the delegated_credential
    and record_size_limit extensions, the main loop of
    [ssl_add_clienthello_tlsext] and its padding.  The [add_clienthello]
    callbacks of the table are an interface; connections offer no PSK and do
    not use ECH. *)

From Stdlib Require Import Sorting.Permutation.
From S2P Require Import Prelude Internal Alloc PosixTime Cbs CbsFacts Der Cbb CbbFacts CbbAsn1.
From S2P Require Import Oid Builder SslVersions.

(** ** The table *)

(** The [value] of each entry of [kExtensions], in order. *)
Definition kExtensions : list Z :=
  [0 (* server_name *); 0xfe0d (* encrypted_client_hello *); 23 (* extended_master_secret *);
   0xff01 (* renegotiate *); 10 (* supported_groups *); 11 (* ec_point_formats *);
   35 (* session_ticket *); 16 (* application_layer_protocol_negotiation *); 5 (* status_request *);
   13 (* signature_algorithms *); 13172 (* next_proto_neg *); 18 (* certificate_timestamp *);
   30032 (* channel_id *); 14 (* srtp *); 51 (* key_share *); 45 (* psk_key_exchange_modes *);
   42 (* early_data *); 43 (* supported_versions *); 44 (* cookie *);
   57 (* quic_transport_parameters *); 0xffa5 (* quic_transport_parameters_legacy *);
   27 (* cert_compression *); 34 (* delegated_credential *); 28 (* record_size_limit *);
   17613 (* application_settings *); 17513 (* application_settings_old *);
   47 (* certificate_authorities *); 0x8a3b (* pake *); 0xca34 (* trust_anchors *);
   19 (* client_cert_type *); 20 (* server_cert_type *); 4832 (* server_padding *)].

Definition kNumExtensions : nat := length kExtensions.

Definition UINT8_MAX : Z := 255.
Definition TLSEXT_TYPE_padding : Z := 21.
Definition TLSEXT_TYPE_delegated_credential : Z := 34.
Definition SSL3_HM_HEADER_LENGTH : Z := 4.
Definition SSL_AD_UNSUPPORTED_EXTENSION : Z := 110.

Fixpoint find_index (value : Z) (table : list Z) (i : nat) : option nat :=
  match table with
  | [] => None
  | v :: table' => if v =? value then Some i else find_index value table' (S i)
  end.

Definition tls_extension_find (value : Z) : option nat := find_index value kExtensions 0.

(** ** The order *)

Section order.
Context `{Malloc}.

(** [Array<uint16_t>::CopyFrom]: no memory is needed for an empty array. *)
Definition copy_array (xs : list Z) : option (list Z) :=
  match xs with
  | [] => Some []
  | _ => match OPENSSL_malloc (2 * len xs) with None => None | Some _ => Some xs end
  end.

(** The checks of one element against the table and the elements before it. *)
Fixpoint check_order (before types : list Z) : bool :=
  match types with
  | [] => true
  | t :: types' =>
      match tls_extension_find t with
      | None => false
      | Some _ => if existsb (Z.eqb t) before then false else check_order (before ++ [t]) types'
      end
  end.

(** The new [extension_order], or [None] (return value 0). *)
Definition SSL_set1_extension_order (extension_types : list Z) : option (list Z) :=
  if UINT8_MAX <? len extension_types then None
  else if negb (check_order [] extension_types) then None
  else copy_array extension_types.

(** The loop over [extension_order]: the used flags and the permutation. *)
Fixpoint explicit_loop (order : list Z) (used : list bool) (permutation : list nat) :
    option (list bool * list nat) :=
  match order with
  | [] => Some (used, permutation)
  | type :: order' =>
      match tls_extension_find type with
      | None => None
      | Some index =>
          if default false (used !! index) then None
          else explicit_loop order' (<[index := true]> used) (permutation ++ [index])
      end
  end.

(** The loop that appends the unused indices. *)
Definition unused_indices (used : list bool) : list nat :=
  List.filter (fun index => negb (default false (used !! index))) (seq 0 kNumExtensions).

Definition swap (l : list nat) (i j : nat) : list nat :=
  match l !! i, l !! j with
  | Some x, Some y => <[j := x]> (<[i := y]> l)
  | _, _ => l
  end.

(** [for (size_t i = n; i > 0; i--) swap(permutation[i],
    permutation[seeds[i - 1] % (i + 1)])]. *)
Fixpoint shuffle (seeds : list Z) (i : nat) (permutation : list nat) : list nat :=
  match i with
  | O => permutation
  | S i' =>
      let j := Z.to_nat (default 0 (seeds !! i') mod Z.of_nat (S i)) in
      shuffle seeds i' (swap permutation i j)
  end.

(** [seeds] is what [RAND_bytes] fills in, [None] if it fails.  The result is
    [hs->extension_permutation], [None] for failure. *)
Definition ssl_setup_extension_permutation (extension_order : list Z) (permute_extensions : bool)
    (seeds : option (list Z)) : option (list nat) :=
  match extension_order with
  | _ :: _ =>
      match OPENSSL_malloc (Z.of_nat kNumExtensions) with
      | None => None
      | Some _ =>
          match explicit_loop extension_order (replicate kNumExtensions false) [] with
          | None => None
          | Some (used, permutation) => Some (permutation ++ unused_indices used)
          end
      end
  | [] =>
      if negb permute_extensions then Some []
      else match seeds with
           | None => None
           | Some seeds =>
               match OPENSSL_malloc (Z.of_nat kNumExtensions) with
               | None => None
               | Some _ => Some (shuffle seeds (kNumExtensions - 1) (seq 0 kNumExtensions))
               end
           end
  end.

End order.

(** ** Facts about the table and the order *)

Lemma kExtensions_NoDup : NoDup kExtensions.
Proof. apply (bool_decide_unpack _). by vm_compute. Qed.

Lemma find_index_Some v table : forall i j, find_index v table i = Some j ->
  (i <= j)%nat /\ table !! (j - i)%nat = Some v.
Proof.
  induction table as [|w table IH]; intros i j; cbn [find_index]; [done|].
  destruct (Z.eqb_spec w v) as [->|].
  - intros [= <-]. by rewrite Nat.sub_diag.
  - intros H. apply IH in H as [Hl H]. split; [lia|].
    replace (j - i)%nat with (S (j - S i)) by lia. done.
Qed.

Lemma find_index_None v table : forall i, find_index v table i = None <-> v ∉ table.
Proof.
  induction table as [|w table IH]; intros i; cbn [find_index]; [split; [intros _ H; by apply not_elem_of_nil in H|done]|].
  destruct (Z.eqb_spec w v) as [->|Hne]; [split; [done|]; intros H; destruct H; by left|].
  rewrite IH. rewrite not_elem_of_cons. naive_solver.
Qed.

Lemma tls_extension_find_Some v i : tls_extension_find v = Some i -> kExtensions !! i = Some v.
Proof. intros H. apply find_index_Some in H as [_ H]. by rewrite Nat.sub_0_r in H. Qed.

Lemma check_order_iff types : forall before,
  check_order before types = true <->
  Forall (fun t => t ∈ kExtensions /\ t ∉ before) types /\ NoDup types.
Proof.
  induction types as [|t types IH]; intros before; cbn [check_order].
  { split; [by split; constructor|done]. }
  destruct (tls_extension_find t) as [i|] eqn:E.
  2: { apply find_index_None in E. split; [done|]. intros [H _]. by inversion_clear H as [|? ? [? _]]. }
  apply tls_extension_find_Some, list_elem_of_lookup_2 in E.
  destruct (existsb (Z.eqb t) before) eqn:Eb.
  - split; [done|]. intros [H _]. inversion_clear H as [|? ? [_ H'] _]. destruct H'.
    apply existsb_exists in Eb as (x & Hx & Ex). apply Z.eqb_eq in Ex as ->. by apply list_elem_of_In.
  - assert (Hn : t ∉ before).
    { intros Hin. apply not_true_iff_false in Eb. apply Eb, existsb_exists. exists t.
      split; [by apply list_elem_of_In|apply Z.eqb_refl]. }
    rewrite IH, NoDup_cons, Forall_cons. setoid_rewrite not_elem_of_app. setoid_rewrite list_elem_of_singleton.
    rewrite !Forall_forall. split.
    + intros [H1 H2]. split_and!; try done; [naive_solver|]. intros Hin. destruct (H1 t Hin) as (_ & _ & Hne). done.
    + intros [[_ H1] [H2 H3]]. split; [|done]. intros x Hx. destruct (H1 x Hx).
      split_and!; try done. by intros ->.
Qed.

Lemma explicit_loop_spec order : forall used perm, length used = kNumExtensions ->
  Forall (fun t => t ∈ kExtensions) order -> NoDup order ->
  (forall i t, kExtensions !! i = Some t -> t ∈ order -> used !! i = Some false) ->
  exists used' added, explicit_loop order used perm = Some (used', perm ++ added) /\
    length used' = kNumExtensions /\
    Forall2 (fun t i => kExtensions !! i = Some t) order added /\
    (forall i, (i < kNumExtensions)%nat -> used' !! i = Some true <-> used !! i = Some true \/ i ∈ added).
Proof.
  induction order as [|t order IH]; intros used perm Hl Hk Hn Hu; cbn [explicit_loop].
  { exists used, []. rewrite app_nil_r. split_and!; try done. intros i _. set_solver. }
  inversion_clear Hk as [|? ? Hk1 Hk2]. apply NoDup_cons in Hn as [Hn1 Hn2].
  destruct (tls_extension_find t) as [i|] eqn:E.
  2: { by apply find_index_None in E. }
  apply tls_extension_find_Some in E. rewrite (Hu i t E) by (by left). cbn [from_option id].
  assert (Hi : (i < length used)%nat) by (rewrite Hl; by eapply lookup_lt_Some).
  destruct (IH (<[i := true]> used) (perm ++ [i])) as (used' & added & E1 & E2 & E3 & E4); try done.
  - by rewrite length_insert.
  - intros j t' Hj Hin. destruct (decide (j = i)) as [->|]; [rewrite E in Hj; by injection Hj as <-|].
    rewrite list_lookup_insert_ne by done. eapply Hu; [done|by right].
  - exists used', (i :: added). rewrite E1, <- app_assoc. split_and!; try done; [by constructor|].
    intros j Hj. rewrite (E4 j Hj). destruct (decide (j = i)) as [->|Hne].
    + rewrite list_lookup_insert_eq by done. set_solver.
    + rewrite list_lookup_insert_ne by done. set_solver.
Qed.

(** The indices a test selects, against the values it selects. *)
Lemma filter_seq_values (P : nat -> bool) (Q : Z -> bool) l : forall k,
  (forall i t, l !! i = Some t -> P (k + i)%nat = Q t) ->
  Forall2 (fun t i => exists j, i = (k + j)%nat /\ l !! j = Some t)
    (List.filter Q l) (List.filter P (seq k (length l))).
Proof.
  induction l as [|t l IH]; intros k H; cbn [List.filter length seq]; [constructor|].
  assert (E := H 0%nat t eq_refl). rewrite Nat.add_0_r in E. rewrite E.
  assert (R : Forall2 (fun t' i => exists j, i = (k + j)%nat /\ (t :: l) !! j = Some t')
    (List.filter Q l) (List.filter P (seq (S k) (length l)))).
  { eapply Forall2_impl; [apply (IH (S k))|].
    - intros i t' Hi. rewrite <- (H (S i) t' Hi). f_equal. lia.
    - intros t' i (j & -> & Hj). exists (S j). split; [lia|done]. }
  destruct (Q t); [|done]. constructor; [|done]. exists 0%nat. split; [lia|done].
Qed.

Definition at_index (t : Z) (i : nat) : Prop := kExtensions !! i = Some t.

(** Distinct values have distinct indices and back. *)
Lemma at_index_NoDup ts js : Forall2 at_index ts js -> NoDup ts -> NoDup js.
Proof.
  induction 1 as [|t i ts js Hti H IH]; [constructor|]. rewrite !NoDup_cons. intros [Hn Hd].
  split; [|auto]. intros Hin. apply Hn. apply list_elem_of_lookup in Hin as [k Hk].
  destruct (Forall2_lookup_r _ _ _ _ _ H Hk) as (t' & Ht & Hi). unfold at_index in *.
  rewrite Hti in Hi. injection Hi as <-. by eapply list_elem_of_lookup_2.
Qed.

Lemma at_index_iff ts js t i : Forall2 at_index ts js -> at_index t i -> i ∈ js <-> t ∈ ts.
Proof.
  intros H Ht. split; intros Hin; apply list_elem_of_lookup in Hin as [k Hk].
  - destruct (Forall2_lookup_r _ _ _ _ _ H Hk) as (t' & Ht' & Hi). unfold at_index in *.
    rewrite Ht in Hi. injection Hi as <-. by eapply list_elem_of_lookup_2.
  - destruct (Forall2_lookup_l _ _ _ _ _ H Hk) as (i' & Hi' & Hi). unfold at_index in *.
    assert (i' = i) as -> by (by eapply (NoDup_lookup kExtensions); [apply kExtensions_NoDup|..]).
    by eapply list_elem_of_lookup_2.
Qed.

(** Indices whose values are all of the table form a permutation. *)
Lemma at_index_perm ts js : Forall2 at_index ts js -> NoDup ts ->
  (forall t, t ∈ kExtensions -> t ∈ ts) -> js ≡ₚ seq 0 kNumExtensions.
Proof.
  intros H Hn Hall. apply NoDup_Permutation; [by eapply at_index_NoDup|apply NoDup_seq|].
  intros i. rewrite elem_of_seq. split.
  - intros Hin. apply list_elem_of_lookup in Hin as [k Hk].
    destruct (Forall2_lookup_r _ _ _ _ _ H Hk) as (t' & _ & Hi). apply lookup_lt_Some in Hi.
    unfold kNumExtensions. lia.
  - intros [_ Hi]. destruct (lookup_lt_is_Some_2 kExtensions i Hi) as [t Ht].
    eapply at_index_iff; [done|done|]. apply Hall. by eapply list_elem_of_lookup_2.
Qed.

Definition unlisted (types : list Z) : list Z :=
  List.filter (fun t => negb (existsb (Z.eqb t) types)) kExtensions.

Lemma elem_existsb t types : existsb (Z.eqb t) types = true <-> t ∈ types.
Proof.
  rewrite existsb_exists, list_elem_of_In. split.
  - intros (x & Hx & E). by apply Z.eqb_eq in E as ->.
  - intros Hx. exists t. split; [done|apply Z.eqb_refl].
Qed.

Lemma elem_of_unlisted t types : t ∈ unlisted types <-> t ∈ kExtensions /\ t ∉ types.
Proof.
  unfold unlisted. rewrite !list_elem_of_In, List.filter_In, negb_true_iff, <- not_true_iff_false.
  by rewrite elem_existsb, list_elem_of_In.
Qed.

Section claims.
Context `{Malloc}.

Lemma setup_explicit types permute seeds : malloc_never_fails -> types <> [] ->
  Forall (fun t => t ∈ kExtensions) types -> NoDup types ->
  exists perm, ssl_setup_extension_permutation types permute seeds = Some perm /\
    Forall2 at_index (types ++ unlisted types) perm.
Proof.
  intros Hm Hne Hk Hn. destruct types as [|t0 ts]; [done|].
  unfold ssl_setup_extension_permutation.
  destruct (OPENSSL_malloc_total (Z.of_nat kNumExtensions) Hm) as [? ->]; [by vm_compute|].
  destruct (explicit_loop_spec (t0 :: ts) (replicate kNumExtensions false) []) as (used & added & E & Hl & F & U);
    try done.
  - intros i t Hi _. apply lookup_replicate. split; [done|]. by eapply lookup_lt_Some.
  - rewrite E. simpl app at 1. eexists. split; [done|]. apply Forall2_app; [exact F|].
    unfold unused_indices, unlisted. eapply Forall2_impl.
    + apply (filter_seq_values _ _ kExtensions 0). intros i t Hi. simpl. f_equal.
      assert (Hlt : (i < kNumExtensions)%nat) by (by eapply lookup_lt_Some).
      specialize (U i Hlt). assert (Hu : used !! i = Some true <-> t ∈ t0 :: ts).
      { rewrite U. rewrite lookup_replicate. rewrite (at_index_iff _ _ t i F Hi). naive_solver. }
      destruct (lookup_lt_is_Some_2 used i) as [b Eb]; [lia|]. rewrite Eb in *. cbn [from_option id].
      destruct b, (existsb (Z.eqb t) (t0 :: ts)) eqn:Ex; try done.
      * apply not_true_iff_false in Ex. rewrite elem_existsb in Ex. naive_solver.
      * apply elem_existsb in Ex. apply Hu in Ex. done.
    + intros t i (j & -> & Hj). exact Hj.
Qed.

(** [SSL_set1_extension_order] accepts exactly the lists of distinct
    known extensions, and the order set with it is then followed to the
    letter: the permutation is one of the whole table, it starts with the
    requested extensions in the requested order, and the others follow in
    table order. *)
Theorem extension_order_exact types : malloc_never_fails ->
  (SSL_set1_extension_order types = Some types <->
   Forall (fun t => t ∈ kExtensions) types /\ NoDup types) /\
  (forall permute seeds, types <> [] -> SSL_set1_extension_order types = Some types ->
   exists perm, ssl_setup_extension_permutation types permute seeds = Some perm /\
     perm ≡ₚ seq 0 kNumExtensions /\
     Forall2 at_index (types ++ unlisted types) perm).
Proof.
  intros Hm. assert (Iff : SSL_set1_extension_order types = Some types <->
    Forall (fun t => t ∈ kExtensions) types /\ NoDup types).
  { unfold SSL_set1_extension_order. assert (C := check_order_iff types []).
    assert (Fe : Forall (fun t => t ∈ kExtensions /\ t ∉ []) types <-> Forall (fun t => t ∈ kExtensions) types).
    { rewrite !Forall_forall. split; intros F x Hx; [by apply F|].
      split; [by apply F|apply not_elem_of_nil]. }
    rewrite Fe in C. split.
    - case_if; [done|]. destruct (check_order [] types); [|done]. intros _. by apply C.
    - intros HC. assert (L : (length types <= 32)%nat).
      { change 32%nat with (length kExtensions). apply submseteq_length, NoDup_submseteq; [apply HC|].
        destruct HC as [HF _]. rewrite Forall_forall in HF. exact HF. }
      unfold UINT8_MAX. destruct (Z.ltb_spec 255 (len types)); [lia|].
      apply C in HC as ->. cbn [negb]. unfold copy_array. destruct types as [|t ts] eqn:Et; [done|].
      rewrite <- Et in *. destruct (OPENSSL_malloc_total (2 * len types) Hm) as [? ->]; [lia|done]. }
  split; [done|]. intros permute seeds Hne Hs. apply Iff in Hs as [Hk Hn].
  destruct (setup_explicit types permute seeds Hm Hne Hk Hn) as (perm & E & F). exists perm.
  split; [done|]. split; [|done]. apply (at_index_perm _ _ F).
  - apply NoDup_app. split_and!; [done| |apply NoDup_ListNoDup, List.NoDup_filter, NoDup_ListNoDup, kExtensions_NoDup].
    intros t Ht Hu. by apply elem_of_unlisted in Hu as [_ ?].
  - intros t Ht. apply elem_of_app. destruct (decide (t ∈ types)); [by left|right].
    by apply elem_of_unlisted.
Qed.

End claims.

(** ** The random permutation *)

Lemma swap_perm l i j : (i < length l)%nat -> (j < length l)%nat -> swap l i j ≡ₚ l.
Proof.
  intros Hi Hj. unfold swap. destruct (lookup_lt_is_Some_2 l i Hi) as [x Hx].
  destruct (lookup_lt_is_Some_2 l j Hj) as [y Hy]. rewrite Hx, Hy.
  destruct (decide (i = j)) as [->|Hne].
  { rewrite Hx in Hy. injection Hy as <-. rewrite list_insert_insert_eq. by rewrite list_insert_id. }
  assert (H2 : <[i := y]> l !! j = Some y) by (by rewrite list_lookup_insert_ne).
  destruct (insert_delete_perm (<[i := y]> l) j y x H2) as [P1 P2].
  destruct (insert_delete_perm l i x y Hx) as [P3 P4].
  apply (Permutation_cons_inv (a := y)). rewrite P2. rewrite Permutation_swap, <- P1, P4.
  rewrite Permutation_swap. f_equiv. by symmetry.
Qed.

Lemma shuffle_perm seeds i : forall l, (i < length l)%nat -> shuffle seeds i l ≡ₚ l.
Proof.
  induction i as [|i IH]; intros l Hi; cbn [shuffle]; [done|]. cbv zeta.
  set (j := Z.to_nat _). assert (Hj : (j < length l)%nat).
  { subst j. assert (B := Z.mod_pos_bound (default 0 (seeds !! i)) (Z.of_nat (S (S i))) ltac:(lia)). lia. }
  assert (P := swap_perm l (S i) j Hi Hj). rewrite IH; [done|]. rewrite P. lia.
Qed.

(** Only the first [i] seeds are used. *)
Lemma shuffle_app seeds s i : forall l, (i <= length seeds)%nat ->
  shuffle (seeds ++ [s]) i l = shuffle seeds i l.
Proof.
  induction i as [|i IH]; intros l Hi; cbn [shuffle]; [done|].
  rewrite lookup_app_l by lia. apply IH. lia.
Qed.

Lemma swap_last a x s j y : (j <= length a)%nat -> (a ++ [x]) !! j = Some y ->
  exists a', swap ((a ++ [x]) ++ s) (length a) j = (a' ++ [y]) ++ s /\ a' ++ [y] ≡ₚ a ++ [x].
Proof.
  intros Hj Hy. unfold swap.
  assert (Hx : ((a ++ [x]) ++ s) !! length a = Some x).
  { rewrite <- app_assoc. by rewrite lookup_app_r, Nat.sub_diag by done. }
  assert (Hy' : ((a ++ [x]) ++ s) !! j = Some y).
  { rewrite lookup_app_l by (rewrite length_app; simpl; lia). done. }
  rewrite Hx, Hy'. assert (Ei : <[length a := y]> ((a ++ [x]) ++ s) = (a ++ [y]) ++ s).
  { rewrite <- !app_assoc, insert_app_r_alt, Nat.sub_diag by done. done. }
  rewrite Ei. destruct (decide (j = length a)) as [->|Hne].
  - exists a. rewrite lookup_app_r, Nat.sub_diag in Hy by done. injection Hy as <-.
    split; [|done]. rewrite <- !app_assoc, insert_app_r_alt, Nat.sub_diag by done. done.
  - exists (<[j := x]> a). assert (Ha : a !! j = Some y) by (by rewrite lookup_app_l in Hy by lia).
    split; [rewrite <- !app_assoc; by rewrite insert_app_l by lia|].
    destruct (insert_delete_perm a j y x Ha) as [P1 P2]. rewrite P2.
    rewrite P1 at 2. simpl. rewrite <- !Permutation_cons_append. apply Permutation_swap.
Qed.

Lemma shuffle_onto i : forall p q s, length p = S i -> q ≡ₚ p -> Z.of_nat i < 2 ^ 32 ->
  exists seeds, length seeds = i /\ Forall (word 32) seeds /\ shuffle seeds i (p ++ s) = q ++ s.
Proof.
  induction i as [|i IH]; intros p q s Hp Hq Hi.
  { exists []. destruct p as [|x [|]]; try done. apply Permutation_singleton_r in Hq as ->. done. }
  assert (Hq' : length q = S (S i)) by (by rewrite Hq).
  destruct (exists_last (l := p)) as (a & x & Ep); [by intros ->|].
  destruct (exists_last (l := q)) as (b & y & Eq); [by intros ->|]. subst p q.
  assert (La : length a = S i) by (rewrite length_app in Hp; simpl in Hp; lia).
  assert (Hy : y ∈ a ++ [x]) by (rewrite <- Hq; set_solver).
  apply list_elem_of_lookup in Hy as [j Hj]. assert (Hlt := lookup_lt_Some _ _ _ Hj).
  rewrite length_app in Hlt. simpl in Hlt.
  destruct (swap_last a x s j y ltac:(lia) Hj) as (a' & E & P).
  assert (P' : b ≡ₚ a').
  { rewrite <- Hq in P. apply (Permutation_app_inv_r [y]). by symmetry. }
  assert (La' : length a' = S i).
  { apply Permutation_length in P. rewrite !length_app in P. simpl in P. lia. }
  destruct (IH a' b ([y] ++ s) La' P' ltac:(lia)) as (seeds & L & F & S).
  exists (seeds ++ [Z.of_nat j]). split_and!.
  - rewrite length_app. simpl. lia.
  - apply Forall_app. split; [done|]. constructor; [|constructor]. unfold word. lia.
  - cbn [shuffle]. rewrite lookup_app_r, L, Nat.sub_diag by lia. cbn [from_option id list_lookup lookup].
    rewrite Z.mod_small, Nat2Z.id by lia. rewrite <- La, E, <- !app_assoc. rewrite shuffle_app by lia.
    exact S.
Qed.

Section random.
Context `{Malloc}.

(** Without an explicit order, every outcome of the random generator
    gives a permutation of the whole table, and every permutation is the result
    of some outcome. *)
Theorem random_permutation_exact : malloc_never_fails ->
  (forall seeds, exists perm,
     ssl_setup_extension_permutation [] true (Some seeds) = Some perm /\ perm ≡ₚ seq 0 kNumExtensions) /\
  (forall perm, perm ≡ₚ seq 0 kNumExtensions ->
   exists seeds, length seeds = (kNumExtensions - 1)%nat /\ Forall (word 32) seeds /\
     ssl_setup_extension_permutation [] true (Some seeds) = Some perm).
Proof.
  intros Hm. unfold ssl_setup_extension_permutation. cbn [negb].
  destruct (OPENSSL_malloc_total (Z.of_nat kNumExtensions) Hm) as [? ->]; [by vm_compute|]. split.
  - intros seeds. eexists. split; [done|]. apply shuffle_perm. rewrite length_seq. by vm_compute.
  - intros perm Hp. destruct (shuffle_onto (kNumExtensions - 1) (seq 0 kNumExtensions) perm []) as (seeds & L & F & E).
    + rewrite length_seq. by vm_compute.
    + done.
    + by vm_compute.
    + exists seeds. rewrite !app_nil_r in E. by rewrite E.
Qed.

End random.

(** ** Padding *)

(** [msg_len] is the length of the whole message without padding. *)
Definition padding_length (msg_len psk_len : Z) (last_was_empty : bool) : Z :=
  let '(padding_len, msg_len) :=
    if last_was_empty && (psk_len =? 0) then (1, u64 (msg_len + (4 + 1))) else (0, msg_len) in
  if (0xff <? msg_len) && (msg_len <? 0x200) then
    let msg_len := if negb (padding_len =? 0) then u64 (msg_len - (4 + padding_len)) else msg_len in
    let padding_len := u64 (0x200 - msg_len) in
    if 4 + 1 <=? padding_len then padding_len - 4 else 1
  else padding_len.

(** The length of the padding extension. *)
Definition padding_extension_len (padding_len : Z) : Z :=
  if padding_len =? 0 then 0 else 4 + padding_len.

Lemma padding_bound msg_len psk_len last : 0 <= msg_len < 2 ^ 62 ->
  0 <= padding_length msg_len psk_len last <= 512.
Proof.
  intros Hm. unfold padding_length. destruct (last && (psk_len =? 0)).
  - rewrite (wrap_small 64 (msg_len + _)) by (unfold word; lia). case_if; [|lia]. bool_to_prop.
    cbn [negb Z.eqb]. rewrite (wrap_small 64 (_ - (4 + 1))) by (unfold word; lia).
    rewrite (wrap_small 64) by (unfold word; lia). case_if; bool_to_prop; lia.
  - case_if; [|lia]. bool_to_prop. cbn [negb Z.eqb].
    rewrite (wrap_small 64) by (unfold word; lia). case_if; bool_to_prop; lia.
Qed.

(** The padded message never has between 256 and 511 bytes, the last
    extension is not empty unless a PSK follows, the padding has at most 512
    bytes, and there is none if the message was fine. *)
Theorem padding_avoids_bugs msg_len psk_len last_was_empty : 0 <= msg_len < 2 ^ 62 ->
  let p := padding_length msg_len psk_len last_was_empty in
  let total := msg_len + padding_extension_len p in
  ~ (0xff < total < 0x200) /\ (last_was_empty = true -> psk_len = 0 -> 0 < p) /\ 0 <= p <= 0x200 /\
  (~ (0xff < msg_len < 0x200) -> last_was_empty && (psk_len =? 0) = false -> p = 0).
Proof.
  intros Hm. cbv zeta. unfold padding_length, padding_extension_len.
  destruct (last_was_empty && (psk_len =? 0)) eqn:El.
  - rewrite (wrap_small 64) by (unfold word; lia).
    destruct (Z.ltb_spec 255 (msg_len + (4 + 1))); destruct (Z.ltb_spec (msg_len + (4 + 1)) 512); cbn [andb].
    2-4: by (split_and!; [simpl; lia|done..]).
    cbn [negb Z.eqb Pos.eqb]. rewrite !(wrap_small 64) by (unfold word; rewrite ?(wrap_small 64); unfold word; lia).
    destruct (Z.leb_spec (4 + 1) (512 - (msg_len + (4 + 1) - (4 + 1)))).
    + destruct (Z.eqb_spec (512 - (msg_len + (4 + 1) - (4 + 1)) - 4) 0); [lia|]. split_and!; intros; try lia; done.
    + simpl. split_and!; intros; try lia; done.
  - assert (Hl : last_was_empty = true -> psk_len = 0 -> False).
    { intros -> ->. done. }
    destruct (Z.ltb_spec 255 msg_len), (Z.ltb_spec msg_len 512); cbn [andb].
    2-4: simpl; split_and!; intros; try lia; by exfalso; apply Hl.
    cbn [negb Z.eqb]. rewrite (wrap_small 64) by (unfold word; lia).
    destruct (Z.leb_spec (4 + 1) (512 - msg_len)).
    + destruct (Z.eqb_spec (512 - msg_len - 4) 0); [lia|]. split_and!; intros; try lia.
    + simpl. split_and!; intros; try lia.
Qed.

(** ** Instances *)

(** A prefix of a browser's order: server_name, extended_master_secret,
    key_share. *)
Lemma extension_order_exact_witness :
  exists perm, @ssl_setup_extension_permutation zero_malloc [0; 23; 51] false None = Some perm /\
    perm ≡ₚ seq 0 kNumExtensions /\ take 4 perm = [0; 2; 14; 1]%nat.
Proof.
  destruct (@extension_order_exact zero_malloc [0; 23; 51] zero_malloc_total) as [_ E].
  destruct (E false None) as (perm & E1 & E2 & _); [done|by vm_compute|].
  exists perm. split; [done|]. split; [done|]. vm_compute in E1. by injection E1 as <-.
Defined.

Lemma random_permutation_exact_witness :
  exists perm, @ssl_setup_extension_permutation zero_malloc [] true (Some (replicate 31 7)) = Some perm /\
    perm ≡ₚ seq 0 kNumExtensions.
Proof. apply (proj1 (@random_permutation_exact zero_malloc zero_malloc_total)). Defined.

(** A message of 300 bytes is padded to 512. *)
Lemma padding_avoids_bugs_witness :
  let total := 300 + padding_extension_len (padding_length 300 0 true) in
  total = 512 /\ ~ (0xff < total < 0x200).
Proof. split; [by vm_compute|]. apply (padding_avoids_bugs 300 0 true). lia. Defined.
