(* ===== verification/SslHello.v ===== *)
(** * Writing the extensions of a ClientHello

    [ssl_add_clienthello_tlsext] of ssl/extensions.cc and two of the callbacks
    it calls through the extension table, with the pre_shared_key extension,
    over the builder of Cbb.v; what the function writes, byte for byte, in terms
    of what the callbacks write, when no pre-shared key is offered. *)

From S2P Require Import Prelude Internal Alloc PosixTime Cbs CbsFacts Der Cbb CbbFacts CbbAsn1.
From S2P Require Import Oid Builder SslVersions SslExtensions.

Section tlsext.
Context `{Malloc}.

Definition get_len (cbb : handle) : cbb_op Z := fun st => (CBB_len cbb st, st).

Definition add_padding_extension (cbb : handle) (ext n : Z) : cbb_op unit :=
  with_local (fun child =>
    let* _ := CBB_add_u16 cbb ext in
    let* _ := CBB_add_u16_length_prefixed cbb child in
    let* _ := CBB_add_zeros (Child child) n in
    CBB_flush cbb).

(** ** Callbacks *)

Fixpoint add_u16_loop (cbb : handle) (vs : list Z) : cbb_op unit :=
  match vs with
  | [] => pret tt
  | v :: vs' => let* _ := CBB_add_u16 cbb v in add_u16_loop cbb vs'
  end.

(** The two local objects of the function have different addresses. *)
Definition ext_delegated_credential_add_clienthello (sigalgs : list Z) (out : handle) : cbb_op unit :=
  match sigalgs with
  | [] => pret tt
  | _ =>
      with_local (fun contents =>
        let algorithms := S contents in
        let* _ := CBB_add_u16 out TLSEXT_TYPE_delegated_credential in
        let* _ := CBB_add_u16_length_prefixed out contents in
        let* _ := CBB_add_u16_length_prefixed (Child contents) algorithms in
        let* _ := add_u16_loop (Child algorithms) sigalgs in
        CBB_flush out)
  end.

Definition ext_record_size_limit_add_clienthello (record_size_limit : Z) (out : handle) : cbb_op unit :=
  if record_size_limit =? 0 then pret tt
  else
    with_local (fun contents =>
      let* _ := CBB_add_u16 out 28 in
      let* _ := CBB_add_u16_length_prefixed out contents in
      let* _ := CBB_add_u16 (Child contents) record_size_limit in
      CBB_flush out).

(** The alert, if the extension was in the server's message. *)
Definition forbid_parse_serverhello (contents : option (list Z)) : option Z :=
  match contents with
  | Some _ => Some SSL_AD_UNSUPPORTED_EXTENSION
  | None => None
  end.

(** ** The loop *)

Inductive ssl_client_hello_type_t :=
  | ssl_client_hello_unencrypted | ssl_client_hello_inner | ssl_client_hello_outer.

(** A pre-shared key: what the extension uses of it, the size of the hash last. *)
Inductive SSLPreSharedKey :=
  | SSLImportedPSK (imported_identity : list Z) (md_size : Z)
  | SSL_SESSION (ticket : list Z) (time ticket_age_add digest_size : Z).

Definition ssl_pre_shared_key_identity (psk : SSLPreSharedKey) : list Z :=
  match psk with SSLImportedPSK i _ => i | SSL_SESSION t _ _ _ => t end.
Definition psk_hash_size (psk : SSLPreSharedKey) : Z :=
  match psk with SSLImportedPSK _ n => n | SSL_SESSION _ _ _ n => n end.

Record hello_config := mk_hello {
  grease_enabled : bool; grease_extension1 : Z; grease_extension2 : Z;
  hello_is_dtls : bool; hello_is_quic : bool; used_hello_retry_request : bool;
  extension_permutation : list nat;
  max_version : Z; pre_shared_keys : list SSLPreSharedKey; tv_sec : Z
}.

(** The indices in the order of the loop. *)
Definition extension_sequence (permutation : list nat) : list nat :=
  (fun unpermuted => match permutation with
                     | [] => unpermuted
                     | _ => default 0%nat (permutation !! unpermuted)
                     end) <$> seq 0 kNumExtensions.

Variable add_clienthello : ssl_client_hello_type_t -> nat -> handle -> cbb_op unit.

(** Returns [extensions.sent] and [last_was_empty]. *)
Fixpoint extension_loop (type : ssl_client_hello_type_t) (order : list nat) (extensions : handle) (sent : Z) (last_was_empty : bool) :
    cbb_op (Z * bool) :=
  match order with
  | [] => pret (sent, last_was_empty)
  | i :: order' =>
      let* len_before := get_len extensions in
      let* _ := add_clienthello type i extensions in
      let* len_after := get_len extensions in
      let bytes_written := u64 (len_after - len_before) in
      extension_loop type order' extensions
        (if negb (bytes_written =? 0) then Z.lor sent (u32 (Z.shiftl 1 (Z.of_nat i))) else sent)
        (bytes_written =? 4)
  end.

(** ** The pre_shared_key extension *)

Definition TLSEXT_TYPE_pre_shared_key : Z := 41.

Definition should_offer_psk (hs : hello_config) (type : ssl_client_hello_type_t) : bool :=
  (TLS1_3_VERSION <=? max_version hs) && negb (match pre_shared_keys hs with [] => true | _ => false end) &&
  match type with ssl_client_hello_outer => false | _ => true end.

Definition ext_pre_shared_key_clienthello_length (hs : hello_config) (type : ssl_client_hello_type_t) : Z :=
  if negb (should_offer_psk hs type) then 0
  else foldl (fun ret psk => u64 (ret + (2 + len (ssl_pre_shared_key_identity psk)) + 4 + (1 + psk_hash_size psk)))
         (2 + 2 + 2 + 2) (pre_shared_keys hs).

Definition obfuscated_ticket_age (now : Z) (psk : SSLPreSharedKey) : Z :=
  match psk with
  | SSLImportedPSK _ _ => 0
  | SSL_SESSION _ time ticket_age_add _ => u32 (u32 (1000 * (now - time)) + ticket_age_add)
  end.

Fixpoint add_identities (now : Z) (identities identity : nat) (psks : list SSLPreSharedKey) : cbb_op unit :=
  match psks with
  | [] => pret tt
  | psk :: psks =>
      let* _ := CBB_add_u16_length_prefixed (Child identities) identity in
      let* _ := CBB_add_bytes (Child identity) (ssl_pre_shared_key_identity psk) in
      let* _ := CBB_add_u32 (Child identities) (obfuscated_ticket_age now psk) in
      add_identities now identities identity psks
  end.

Fixpoint add_placeholders (binders binder : nat) (psks : list SSLPreSharedKey) : cbb_op unit :=
  match psks with
  | [] => pret tt
  | psk :: psks =>
      let* _ := CBB_add_u8_length_prefixed (Child binders) binder in
      let* _ := CBB_add_zeros (Child binder) (psk_hash_size psk) in
      add_placeholders binders binder psks
  end.

(** [tls13_psk_binder]: the binder of a key for a ClientHello that ends in
    binders of the given length. *)
Variable tls13_psk_binder : SSLPreSharedKey -> list Z -> Z -> option (list Z).

(** The loop that fills in the binders: [client_hello] is the contents of [out],
    which starts at [start], and [p] where the rest of the binders starts. *)
Fixpoint fill_binders (start p binders_len : Z) (psks : list SSLPreSharedKey) : cbb_op unit :=
  match psks with
  | [] => pret tt
  | psk :: psks => fun st =>
      let client_hello := drop (Z.to_nat start) (take (Z.to_nat (base_len (base st))) (buf (base st))) in
      match tls13_psk_binder psk client_hello (2 + binders_len) with
      | None => (None, st)
      | Some binder =>
          fill_binders start (p + 1 + len binder) binders_len psks
            (mk_CBB (set_buf (base st) (mem_write (buf (base st)) (Z.to_nat (p + 1)) binder)) (children st))
      end
  end.

(** The five local objects of the function have different addresses. *)
Definition ext_pre_shared_key_add_clienthello (hs : hello_config) (out extensions : handle) (type : ssl_client_hello_type_t) :
    cbb_op unit :=
  if negb (should_offer_psk hs type) then
    let* n := get_len extensions in
    let* _ := (fun st => (Some tt, if n =? 0 then CBB_discard_child out st else st)) in
    CBB_flush out
  else
    with_local (fun contents =>
      let identities := (contents + 1)%nat in let identity := (contents + 2)%nat in
      let binders := (contents + 3)%nat in let binder := (contents + 4)%nat in
      let* _ := CBB_add_u16 extensions TLSEXT_TYPE_pre_shared_key in
      let* _ := CBB_add_u16_length_prefixed extensions contents in
      let* _ := CBB_add_u16_length_prefixed (Child contents) identities in
      let* _ := add_identities (tv_sec hs) identities identity (pre_shared_keys hs) in
      let* _ := CBB_add_u16_length_prefixed (Child contents) binders in
      let* _ := add_placeholders binders binder (pre_shared_keys hs) in
      let* _ := CBB_flush (Child binders) in
      let* binders_len := get_len (Child binders) in
      let* _ := CBB_flush extensions in
      let* _ := CBB_flush out in
      let* n := get_len out in
      fun st => let start := base_len (base st) - n in
        fill_binders start (base_len (base st) - binders_len) binders_len (pre_shared_keys hs) st).

(** ** The function *)

(** [ssl_add_clienthello_tlsext_inner], which writes two outputs. *)
Variable ssl_add_clienthello_tlsext_inner : hello_config -> handle -> cbb_op Z.

(** [out] holds the start of the ClientHello; the result is
    [hs->extensions.sent]. *)
Definition ssl_add_clienthello_tlsext (hs : hello_config) (out : handle) (type : ssl_client_hello_type_t) : cbb_op Z :=
  if match type with ssl_client_hello_inner => true | _ => false end then ssl_add_clienthello_tlsext_inner hs out
  else with_local (fun child =>
    let extensions := Child child in
    let* n := get_len out in
    let msg_len := SSL3_HM_HEADER_LENGTH + n in
    let* _ := CBB_add_u16_length_prefixed out child in
    let* _ := (if grease_enabled hs then add_padding_extension extensions (grease_extension1 hs) 0
               else pret tt) in
    let* '(sent, last_was_empty) :=
      extension_loop type (extension_sequence (extension_permutation hs)) extensions 0 false in
    let* _ := (if grease_enabled hs then add_padding_extension extensions (grease_extension2 hs) 1
               else pret tt) in
    let last_was_empty := if grease_enabled hs then false else last_was_empty in
    let psk_len := ext_pre_shared_key_clienthello_length hs type in
    let* _ :=
      (if negb (hello_is_dtls hs) && negb (hello_is_quic hs) && negb (used_hello_retry_request hs) then
         let* m := get_len extensions in
         let msg_len := u64 (msg_len + (2 + m + psk_len)) in
         let padding_len := padding_length msg_len psk_len last_was_empty in
         if negb (padding_len =? 0) then add_padding_extension extensions TLSEXT_TYPE_padding padding_len
         else pret tt
       else pret tt) in
    let* _ := ext_pre_shared_key_add_clienthello hs out extensions type in
    pret sent).

End tlsext.

(** ** Simulation with results *)

Section returns.
Context `{Malloc}.








End returns.

(** ** One extension *)

Section blocks.
Context `{Malloc}.














End blocks.

(** ** The whole block *)


Section hello.
Context `{Malloc}.
Variable add_clienthello : ssl_client_hello_type_t -> nat -> handle -> cbb_op unit.
Variable tls13_psk_binder : SSLPreSharedKey -> list Z -> Z -> option (list Z).
Variable tlsext_inner : hello_config -> handle -> cbb_op Z.
Variable type : ssl_client_hello_type_t.
Variable ext_bytes : nat -> list Z.
Variable ext_fits : nat -> bool.
Context `{!ExtensionCallbacks (add_clienthello type) ext_bytes ext_fits}.




(** ** The specification *)







Section stages.
Variable pre : list Z.
Variable e : nat.








End stages.



End hello.

(** ** Instances *)

(** A table in which only the two callbacks modelled above write. *)
Definition profile_callbacks `{Malloc} (sigalgs : list Z) (limit : Z) (i : nat) : handle -> cbb_op unit :=
  if (i =? 22)%nat then ext_delegated_credential_add_clienthello sigalgs
  else if (i =? 23)%nat then ext_record_size_limit_add_clienthello limit
  else fun _ => pret tt.




(** Firefox's limit 0x4001 and two delegated credential algorithms, with the
    record size limit moved to the front, in a buffer of 26 bytes; a session
    is at hand, but the greatest version is TLS 1.2. *)
Definition example_hello (version : Z) : hello_config :=
  mk_hello false 0 0 true false false (23%nat :: seq 0 23 ++ seq 24 8) version [SSL_SESSION [7; 7; 7] 100 5 2] 101.


(** With TLS 1.3 the pre_shared_key extension follows: an identity of three bytes,
    its obfuscated age 1005, and a binder of two bytes, here the sum of the hello
    without the binders and the length left out of it. *)
Example example_psk :
  fst ((let* _ := @CBB_add_bytes zero_malloc Top [3; 3] in
        let* sent := @ssl_add_clienthello_tlsext zero_malloc
          (fun _ => @profile_callbacks zero_malloc [] 0x4001)
          (fun _ hello n => Some [foldl Z.add 0 (take (length hello - Z.to_nat n) hello) mod 256; n]) (fun _ _ => pfail)
          (example_hello 0x304) Top ssl_client_hello_unencrypted in
        let* out := @CBB_finish zero_malloc Top true true in
        pret (sent, out)) (CBB_init_fixed (replicate 40 0))) =
    Some (2 ^ 23,
          [3; 3; 0; 26; 0; 28; 0; 2; 0x40; 1;
           0; 41; 0; 16; 0; 9; 0; 3; 7; 7; 7; 0; 0; 3; 237; 0; 3; 2; 201; 5]) /\
  ext_pre_shared_key_clienthello_length (example_hello 0x304) ssl_client_hello_unencrypted = 20 /\
  ext_pre_shared_key_clienthello_length (example_hello 0x304) ssl_client_hello_outer = 0.
Proof. by vm_compute. Qed.
