(* ===== verification/Buf.v ===== *)
(** * BUF_MEM and the i2d calling convention

    Model of crypto/buf/buf.cc: the growable buffer, which holds the handshake
    messages and the pending flight of the TLS stack; and of
    crypto/bytestring/asn1_compat.cc, the old calling convention of the
    encoders. *)

From S2P Require Import Prelude Internal Alloc PosixTime Cbs CbsFacts Der Cbb CbbFacts CbbAsn1.
From S2P Require Import Oid Builder.
Import Mem.

Record BUF_MEM := mk_buf_mem { buf_length : Z; buf_data : option (list Z); buf_max : Z }.

Section buf.
Context `{Malloc}.

Definition BUF_MEM_new : option BUF_MEM :=
  match OPENSSL_malloc 24 with None => None | Some _ => Some (mk_buf_mem 0 None 0) end.

Definition BUF_MEM_reserve (buf : BUF_MEM) (cap : Z) : bool * BUF_MEM :=
  if cap <=? buf_max buf then (true, buf)
  else
    let n := u64 (cap + 3) in
    if n <? cap then (false, buf)
    else
      let n := n / 3 in
      let alloc_size := u64 (n * 4) in
      if negb (alloc_size / 4 =? n) then (false, buf)
      else match OPENSSL_realloc (buf_data buf) alloc_size with
           | None => (false, buf)
           | Some new_buf => (true, mk_buf_mem (buf_length buf) (Some new_buf) alloc_size)
           end.

Definition buf_bytes (buf : BUF_MEM) : list Z := default [] (buf_data buf).

Definition BUF_MEM_grow (buf : BUF_MEM) (n : Z) : Z * BUF_MEM :=
  match BUF_MEM_reserve buf n with
  | (false, buf) => (0, buf)
  | (true, buf) =>
      let d := if buf_length buf <? n then
                 mem_write (buf_bytes buf) (Z.to_nat (buf_length buf))
                   (replicate (Z.to_nat (n - buf_length buf)) 0)
               else buf_bytes buf in
      (n, mk_buf_mem n (match buf_data buf with None => None | Some _ => Some d end) (buf_max buf))
  end.

Definition BUF_MEM_grow_clean (buf : BUF_MEM) (n : Z) : Z * BUF_MEM := BUF_MEM_grow buf n.

Definition BUF_MEM_append (buf : BUF_MEM) (src : list Z) : bool * BUF_MEM :=
  if len src =? 0 then (true, buf)
  else
    let new_len := u64 (buf_length buf + len src) in
    if new_len <? len src then (false, buf)
    else match BUF_MEM_reserve buf new_len with
         | (false, buf) => (false, buf)
         | (true, buf) =>
             (true, mk_buf_mem new_len
                (match buf_data buf with
                 | None => None
                 | Some d => Some (mem_write d (Z.to_nat (buf_length buf)) src)
                 end) (buf_max buf))
         end.

(** [CBB_finish_i2d]: [outp] is [None] for a null pointer, and otherwise the
    buffer [*outp] points to ([None] if it is null) with its position.  Returns
    the return value and the new [*outp]: the allocated bytes, or the buffer
    with the bytes written at the position and the position behind them. *)
Inductive i2d_out := NoOut | NullOut | Out (buffer : list Z) (position : Z).

Definition CBB_finish_i2d (cbb : CBB) (outp : i2d_out) : Z * i2d_out :=
  match fst (CBB_finish Top true true cbb) with
  | None => (-1, outp)
  | Some der =>
      if INT_MAX <? len der then (-1, outp)
      else
        (len der,
         match outp with
         | NoOut => NoOut
         | NullOut => Out der 0
         | Out buffer position => Out (mem_write buffer (Z.to_nat position) der) (position + len der)
         end)
  end.

(** ** A growable list of bytes *)

Definition mem_ok (buf : BUF_MEM) : Prop :=
  0 <= buf_length buf <= buf_max buf /\ buf_max buf < 2 ^ 64 /\
  match buf_data buf with None => buf_max buf = 0 | Some d => len d = buf_max buf /\ bytes d end.

(** The contents. *)
Definition value (buf : BUF_MEM) : list Z := take (Z.to_nat (buf_length buf)) (buf_bytes buf).

Lemma len_buf_bytes buf : mem_ok buf -> len (buf_bytes buf) = buf_max buf.
Proof. unfold mem_ok, buf_bytes. intros (_ & _ & H3). destruct (buf_data buf); simpl; [apply H3|lia]. Qed.

Lemma buf_reserve_spec buf cap : mem_ok buf -> word 64 cap ->
  match BUF_MEM_reserve buf cap with
  | (true, buf') => mem_ok buf' /\ buf_length buf' = buf_length buf /\ value buf' = value buf /\ cap <= buf_max buf' /\
      (buf_data buf' = None -> cap <= 0)
  | (false, buf') => buf' = buf /\ ~ (malloc_never_fails /\ cap < 2 ^ 62)
  end.
Proof.
  intros Hok [C0 C1]. assert (Hok' := Hok). destruct Hok' as (H1 & H2 & H3). unfold BUF_MEM_reserve.
  destruct (Z.leb_spec cap (buf_max buf)).
  { split; [done|]. split; [done|]. split; [done|]. split; [done|]. destruct (buf_data buf); [done|lia]. }
  cbv zeta. unfold wrap at 1.
  destruct (Z.ltb_spec ((cap + 3) mod 2 ^ 64) cap) as [Hov|Hov].
  { split; [done|]. intros [_ Hc]. rewrite Z.mod_small in Hov by lia. lia. }
  assert (E3 : u64 (cap + 3) = cap + 3) by (unfold wrap; div_lia). rewrite E3.
  set (n := (cap + 3) / 3). assert (Hn : cap < 3 * n <= cap + 3) by (subst n; div_lia).
  assert (Hn2 : (4 * n) / 4 = n) by div_lia.
  destruct (Z.eqb_spec (u64 (n * 4) / 4) n) as [En|En]; cbn [negb].
  2: { split; [done|]. intros [_ Hc]. apply En. rewrite (wrap_small 64) by (unfold word; lia).
       by rewrite Z.mul_comm. }
  assert (Ea : u64 (n * 4) = n * 4).
  { unfold wrap in *. assert (B := Z.mod_pos_bound (n * 4) (2 ^ 64) ltac:(lia)). div_lia. }
  assert (Hw : word 64 (n * 4)) by (rewrite <- Ea; by apply wrap_word). rewrite Ea.
  destruct (OPENSSL_realloc (buf_data buf) (n * 4)) as [d|] eqn:Er.
  - assert (Hd : len d = n * 4 /\ bytes d /\ take (length (buf_bytes buf)) d = buf_bytes buf).
    { unfold buf_bytes. destruct (buf_data buf) as [o|] eqn:Ed; cbn [default from_option id].
      - destruct H3 as [H3 H4]. apply OPENSSL_realloc_Some in Er; [done|done|lia|done].
      - simpl in Er. apply OPENSSL_malloc_Some in Er as [E1 E2]; [|done]. done. }
    destruct Hd as (D1 & D2 & D3). assert (L := len_buf_bytes buf Hok).
    split; [split_and!; simpl; try done; try lia; apply Hw|]. split; [done|]. split.
    + unfold value at 1. cbn [buf_length]. unfold buf_bytes at 1. cbn [buf_data default from_option id].
      unfold value. rewrite <- D3, take_take. f_equal. lia.
    + simpl. split; [lia|done].
  - split; [done|]. intros [Hm Hc].
    assert (T := OPENSSL_malloc_total (n * 4) Hm ltac:(lia)). destruct T as [r T].
    unfold OPENSSL_realloc in Er. rewrite T in Er. by destruct (buf_data buf).
Qed.

Lemma append_spec buf src : mem_ok buf -> bytes src -> word 64 (len src) ->
  match BUF_MEM_append buf src with
  | (true, buf') => mem_ok buf' /\ value buf' = value buf ++ src
  | (false, buf') => buf' = buf /\ ~ (malloc_never_fails /\ buf_length buf + len src < 2 ^ 62)
  end.
Proof.
  intros Hok Hs [S0 S1]. unfold BUF_MEM_append. destruct (Z.eqb_spec (len src) 0) as [E|E].
  { destruct src; [|done]. by rewrite app_nil_r. }
  assert (Hok' := Hok). destruct Hok' as (H1 & H2 & _). cbv zeta. unfold wrap at 1.
  destruct (Z.ltb_spec ((buf_length buf + len src) mod 2 ^ 64) (len src)) as [Hov|Hov].
  { split; [done|]. intros [_ Hc]. rewrite Z.mod_small in Hov by lia. lia. }
  assert (Ew : u64 (buf_length buf + len src) = buf_length buf + len src) by (unfold wrap; div_lia).
  rewrite Ew. assert (Hw : word 64 (buf_length buf + len src)) by (rewrite <- Ew; by apply wrap_word).
  assert (R := buf_reserve_spec buf (buf_length buf + len src) Hok Hw).
  destruct (BUF_MEM_reserve buf (buf_length buf + len src)) as [[] buf1]; [|done].
  destruct R as (Hok1 & E1 & E2 & E3 & E4). assert (L := len_buf_bytes buf1 Hok1).
  destruct Hok1 as (K1 & K2 & K3). unfold buf_bytes in L.
  destruct (buf_data buf1) as [d|] eqn:Ed; [|specialize (E4 eq_refl); lia].
  destruct K3 as [K3 K4]. rewrite E1.
  assert (Lw : length (mem_write d (Z.to_nat (buf_length buf)) src) = length d) by (apply length_mem_write; lia).
  split.
  - split_and!; cbn [buf_length buf_max buf_data]; try lia. split; [lia|by apply bytes_mem_write].
  - unfold value at 1, buf_bytes. cbn [buf_length buf_data default from_option id].
    assert (W := mem_write_append d 0 (Z.to_nat (buf_length buf)) src ltac:(lia)).
    rewrite !drop_0 in W. simpl Nat.add in W. rewrite Z2Nat.inj_add, Nat2Z.id by lia. rewrite W, <- E2. f_equal.
    unfold value, buf_bytes. rewrite Ed, E1. done.
Qed.

Lemma grow_spec buf n : mem_ok buf -> word 64 n ->
  match BUF_MEM_grow buf n with
  | (r, buf') =>
      (r = n /\ mem_ok buf' /\
       value buf' = take (Z.to_nat n) (value buf) ++ replicate (Z.to_nat (n - buf_length buf)) 0) \/
      (r = 0 /\ buf' = buf /\ ~ (malloc_never_fails /\ n < 2 ^ 62))
  end.
Proof.
  intros Hok Hn. unfold BUF_MEM_grow. assert (R := buf_reserve_spec buf n Hok Hn).
  destruct (BUF_MEM_reserve buf n) as [[] buf1]; [left|right; by destruct R as [-> ?]].
  destruct R as (Hok1 & E1 & E2 & E3 & E4). assert (L := len_buf_bytes buf1 Hok1).
  destruct Hn as [N0 N1]. destruct Hok1 as (K1 & K2 & K3). rewrite E1 in *. cbv zeta.
  unfold value at 1. rewrite <- E2. unfold value, buf_bytes in *. cbn [buf_length buf_data].
  split; [done|]. destruct (buf_data buf1) as [d|] eqn:Ed; cbn [default from_option id] in *.
  - destruct K3 as [K3 K4]. rewrite E1, take_take. destruct (Z.ltb_spec (buf_length buf) n).
    + assert (Lw : length (mem_write d (Z.to_nat (buf_length buf)) (replicate (Z.to_nat (n - buf_length buf)) 0)) =
        length d) by (apply length_mem_write; rewrite length_replicate; lia).
      split.
      { split_and!; cbn [buf_length buf_max buf_data]; try lia.
        split; [lia|]. apply bytes_mem_write; [done|by apply bytes_replicate]. }
      assert (W := mem_write_append d 0 (Z.to_nat (buf_length buf)) (replicate (Z.to_nat (n - buf_length buf)) 0)).
      rewrite length_replicate in W. specialize (W ltac:(lia)). rewrite !drop_0 in W.
      rewrite Nat.min_r by lia. rewrite <- W. f_equal. lia.
    + split; [split_and!; cbn [buf_length buf_max buf_data]; done || lia|].
      rewrite Nat.min_l by lia. replace (Z.to_nat (n - buf_length buf)) with 0%nat by lia.
      by rewrite app_nil_r.
  - assert (n = 0) as -> by lia. assert (buf_length buf = 0) as -> by lia.
    split; [split_and!; cbn [buf_length buf_max buf_data]; try done; rewrite ?Ed; lia|]. done.
Qed.

(** [BUF_MEM] is a growable list of bytes: [BUF_MEM_append] appends to its
    contents and [BUF_MEM_grow] cuts or zero-extends them to the requested
    length; both fail without changing anything, and only for lack of memory or
    above [2^62] bytes. *)
Theorem buf_mem_is_list buf : mem_ok buf ->
  (forall src, bytes src -> word 64 (len src) ->
     match BUF_MEM_append buf src with
     | (true, buf') => mem_ok buf' /\ value buf' = value buf ++ src
     | (false, buf') => buf' = buf /\ ~ (malloc_never_fails /\ buf_length buf + len src < 2 ^ 62)
     end) /\
  (forall n, word 64 n ->
     match BUF_MEM_grow buf n with
     | (r, buf') =>
         (r = n /\ mem_ok buf' /\
          value buf' = take (Z.to_nat n) (value buf) ++ replicate (Z.to_nat (n - buf_length buf)) 0) \/
         (r = 0 /\ buf' = buf /\ ~ (malloc_never_fails /\ n < 2 ^ 62))
     end).
Proof. intros Hok. split; intros; [by apply append_spec|by apply grow_spec]. Qed.

End buf.

(** Three bytes, cut to one and extended to four. *)
Lemma buf_mem_is_list_witness :
  let b := mk_buf_mem 3 (Some [1; 2; 3; 9]) 4 in
  value (snd (@BUF_MEM_append zero_malloc b [4; 5])) = [1; 2; 3; 4; 5].
Proof.
  intros b. assert (Hok : mem_ok b) by (split_and!; try done; split; [done|byte_list]).
  destruct (@buf_mem_is_list zero_malloc b Hok) as [A _].
  specialize (A [4; 5] ltac:(byte_list) ltac:(by vm_compute)).
  destruct (@BUF_MEM_append zero_malloc b [4; 5]) as [[] b'] eqn:E; [cbn [snd]; destruct A as [_ A]; by rewrite A|].
  by vm_compute in E.
Defined.
