(* ===== verification/Straightline.v ===== *)
(** * Straight-line word arithmetic

    A function that is a sequence of assignments of machine words is translated
    to nested [let]s in which every operation wraps around at the width of its
    C type.  The tactic [sl_step] runs one assignment: interval arithmetic on
    the facts in the context shows that nothing wraps, and the variable is left
    with its exact value and a range. *)

From S2P Require Import Prelude.

Class InRange (hi x : Z) := in_range : 0 <= x <= hi.

(** The word expression [e] has the exact value [e'], at most [hi]. *)
Class Exact (e e' hi : Z) := exact_pf : e = e' /\ 0 <= e' <= hi.
#[global] Hint Mode Exact ! - - : typeclass_instances.
#[global] Hint Mode InRange - ! : typeclass_instances.

(** Closed numerals. *)
Class Numeral (c : Z) := numeral : 0 <= c.
Ltac is_numeral c :=
  match c with
  | Z0 => idtac
  | Zpos ?p => is_pos p
  end
with is_pos p :=
  match p with
  | xH => idtac
  | xO ?q => is_pos q
  | xI ?q => is_pos q
  end.
#[global] Hint Extern 0 (Numeral ?c) => is_numeral c; unfold Numeral; lia : typeclass_instances.

#[export] Instance exact_numeral c : Numeral c -> Exact c c c | 0.
Proof. unfold Numeral. split; lia. Qed.

#[export] Instance exact_var x hi : InRange hi x -> Exact x x hi | 1.
Proof. by split. Qed.

#[export] Instance exact_add a a' A b b' B : Exact a a' A -> Exact b b' B ->
  Exact (a + b) (a' + b') (A + B) | 5.
Proof. intros [-> ?] [-> ?]. split; lia. Qed.

#[export] Instance exact_mul a a' A b b' B : Exact a a' A -> Exact b b' B ->
  Exact (a * b) (a' * b') (A * B) | 5.
Proof. intros [-> ?] [-> ?]. split; nia. Qed.

#[export] Instance exact_wrap w e e' hi : Exact e e' hi -> TCEq (hi <? 2 ^ w) true ->
  Exact (wrap w e) e' hi | 5.
Proof.
  intros [-> ?] E. apply TCEq_eq, Z.ltb_lt in E. split; [|done]. apply Z.mod_small. lia.
Qed.

#[export] Instance exact_shiftr e e' hi k : Exact e e' hi -> Numeral k ->
  Exact (Z.shiftr e k) (e' / 2 ^ k) (hi / 2 ^ k) | 5.
Proof.
  intros [-> ?] Hk. unfold Numeral in Hk. rewrite Z.shiftr_div_pow2 by done.
  assert (0 < 2 ^ k) by (apply Z.pow_pos_nonneg; lia).
  split; [done|]. split; [apply Z.div_pos; lia|apply Z.div_le_mono; lia].
Qed.

#[export] Instance exact_shiftl e e' hi k : Exact e e' hi -> Numeral k ->
  Exact (Z.shiftl e k) (2 ^ k * e') (2 ^ k * hi) | 5.
Proof.
  intros [-> ?] Hk. unfold Numeral in Hk. rewrite Z.shiftl_mul_pow2 by done.
  assert (0 < 2 ^ k) by (apply Z.pow_pos_nonneg; lia). split; nia.
Qed.

(** A mask of the form [2^k - 1]. *)
#[export] Instance exact_mask e e' hi m : Exact e e' hi -> TCEq (m =? Z.ones (Z.log2 m + 1)) true ->
  Exact (Z.land e m) (e' mod (m + 1)) m | 5.
Proof.
  intros [-> ?] E. apply TCEq_eq, Z.eqb_eq in E.
  assert (0 <= Z.log2 m) by apply Z.log2_nonneg.
  assert (Hm : m + 1 = 2 ^ (Z.log2 m + 1)) by (rewrite Z.ones_equiv in E; lia).
  rewrite E at 1. rewrite Z.land_ones, <- Hm by lia.
  assert (0 < m + 1) by (rewrite Hm; apply Z.pow_pos_nonneg; lia).
  split; [done|]. pose proof (Z.mod_pos_bound e' (m + 1)). lia.
Qed.

Lemma sl_let {B} (P : B -> Prop) (e e' hi : Z) (b : Z -> B) :
  Exact e e' hi -> (forall x, x = e' -> InRange hi x -> P (b x)) -> P (let x := e in b x).
Proof. intros [-> ?] K. by apply K. Qed.

Lemma sl_pair {B} (P : B -> Prop) (e : Z * Z) (Q : Z -> Z -> Prop) (b : Z -> Z -> B) :
  (let '(x, y) := e in Q x y) -> (forall x y, Q x y -> P (b x y)) -> P (let '(x, y) := e in b x y).
Proof. destruct e. auto. Qed.

Lemma sl_eq {B} (P : B -> Prop) (e e' : Z) (b : Z -> B) :
  e = e' -> (forall x, x = e' -> P (b x)) -> P (let x := e in b x).
Proof. intros -> K. by apply K. Qed.

(** [post P x] is [P x], kept folded while the assignments of [x] run. *)
Definition post {A} (P : A -> Prop) (x : A) : Prop := P x.

(** Numerals for [2 ^ k] and [m + 1]. *)
Ltac sl_numerals E :=
  repeat match type of E with
  | context [2 ^ ?k] => is_numeral k; let v := eval vm_compute in (2 ^ k) in change (2 ^ k) with v in E
  | context [_ mod (?m + 1)] =>
      is_numeral m; let v := eval vm_compute in (m + 1) in change (m + 1) with v in E
  end.

(** Run one assignment. *)
Ltac sl_step :=
  lazymatch goal with
  | |- ?P (let x := ?e in @?b x) =>
      refine (sl_let P e _ _ b _ _);
      cbv beta; let x' := fresh x in let E := fresh "E" x' in let R := fresh "R" x' in
      intros x' E R; sl_numerals E;
      lazymatch type of R with
      | InRange ?hi _ => let v := eval vm_compute in hi in change (InRange v x') in R
      end
  end.
Ltac sl_run := repeat sl_step.

(** Express remainders by the quotient variables, forget what the quotients are
    and substitute everything else. *)
Ltac sl_divmod :=
  repeat match goal with
  | E : context [?e mod ?m] |- _ => rewrite (Z.mod_eq e m) in E by lia
  end.
Ltac sl_elim :=
  sl_divmod;
  repeat match goal with
  | Eq : ?q = ?e / ?m, Er : context [?e / ?m] |- _ => rewrite <- Eq in Er
  end;
  repeat match goal with Eq : _ = _ / _ |- _ => clear Eq end;
  repeat match goal with Eq : ?x = _ |- _ => is_var x; subst x end.

Lemma mod_congr m x y k : x = y + m * k -> x mod m = y mod m.
Proof. intros ->. by rewrite Z.mul_comm, Z_mod_plus_full. Qed.
