(* ===== verification/Fiat25519.v ===== *)
(** * Field arithmetic modulo 2^255 - 19

    third_party/fiat/curve25519_64.h: field elements as five limbs of 51 bits
    in 64-bit words, with 128-bit products.  Every operation is translated
    assignment by assignment, at the width of its C type. *)

From S2P Require Import Prelude Straightline.

Abbreviation u128 := (wrap 128).

(** Conversion to a signed w-bit type. *)
Definition swrap (w z : Z) : Z :=
  let r := z mod 2 ^ w in if r <? 2 ^ (w - 1) then r else r - 2 ^ w.

(** [fiat_25519_tight_field_element] and [fiat_25519_loose_field_element]. *)
Record fe := mk_fe { l0 : Z; l1 : Z; l2 : Z; l3 : Z; l4 : Z }.

(** ** Words *)

Definition fiat_25519_addcarryx_u51 (arg1 arg2 arg3 : Z) : Z * Z :=
  let x1 := u64 (u64 (arg1 + arg2) + arg3) in
  let x2 := Z.land x1 0x7ffffffffffff in
  let x3 := u8 (Z.shiftr x1 51) in
  (x2, x3).

Definition fiat_25519_subborrowx_u51 (arg1 arg2 arg3 : Z) : Z * Z :=
  let x1 := swrap 64 (swrap 64 (u64 (arg2 - arg1)) - swrap 64 arg3) in
  let x2 := swrap 8 (Z.shiftr x1 51) in
  let x3 := Z.land (u64 x1) 0x7ffffffffffff in
  (x3, u8 (0 - x2)).

Definition fiat_25519_cmovznz_u64 (arg1 arg2 arg3 : Z) : Z :=
  let x1 := if arg1 =? 0 then 0 else 1 in
  let x2 := Z.land (u64 (swrap 8 (0 - x1))) 0xffffffffffffffff in
  let x3 := Z.lor (Z.land x2 arg3) (Z.land (u64 (Z.lnot x2)) arg2) in
  x3.

(** ** Field elements *)

Definition fiat_25519_carry_mul (arg1 arg2 : fe) : fe :=
  let x1 := u128 (l4 arg1 * u64 (l4 arg2 * 0x13)) in
  let x2 := u128 (l4 arg1 * u64 (l3 arg2 * 0x13)) in
  let x3 := u128 (l4 arg1 * u64 (l2 arg2 * 0x13)) in
  let x4 := u128 (l4 arg1 * u64 (l1 arg2 * 0x13)) in
  let x5 := u128 (l3 arg1 * u64 (l4 arg2 * 0x13)) in
  let x6 := u128 (l3 arg1 * u64 (l3 arg2 * 0x13)) in
  let x7 := u128 (l3 arg1 * u64 (l2 arg2 * 0x13)) in
  let x8 := u128 (l2 arg1 * u64 (l4 arg2 * 0x13)) in
  let x9 := u128 (l2 arg1 * u64 (l3 arg2 * 0x13)) in
  let x10 := u128 (l1 arg1 * u64 (l4 arg2 * 0x13)) in
  let x11 := u128 (l4 arg1 * l0 arg2) in
  let x12 := u128 (l3 arg1 * l1 arg2) in
  let x13 := u128 (l3 arg1 * l0 arg2) in
  let x14 := u128 (l2 arg1 * l2 arg2) in
  let x15 := u128 (l2 arg1 * l1 arg2) in
  let x16 := u128 (l2 arg1 * l0 arg2) in
  let x17 := u128 (l1 arg1 * l3 arg2) in
  let x18 := u128 (l1 arg1 * l2 arg2) in
  let x19 := u128 (l1 arg1 * l1 arg2) in
  let x20 := u128 (l1 arg1 * l0 arg2) in
  let x21 := u128 (l0 arg1 * l4 arg2) in
  let x22 := u128 (l0 arg1 * l3 arg2) in
  let x23 := u128 (l0 arg1 * l2 arg2) in
  let x24 := u128 (l0 arg1 * l1 arg2) in
  let x25 := u128 (l0 arg1 * l0 arg2) in
  let x26 := u128 (x25 + u128 (x10 + u128 (x9 + u128 (x7 + x4)))) in
  let x27 := u64 (Z.shiftr x26 51) in
  let x28 := u64 (Z.land x26 0x7ffffffffffff) in
  let x29 := u128 (x21 + u128 (x17 + u128 (x14 + u128 (x12 + x11)))) in
  let x30 := u128 (x22 + u128 (x18 + u128 (x15 + u128 (x13 + x1)))) in
  let x31 := u128 (x23 + u128 (x19 + u128 (x16 + u128 (x5 + x2)))) in
  let x32 := u128 (x24 + u128 (x20 + u128 (x8 + u128 (x6 + x3)))) in
  let x33 := u128 (x27 + x32) in
  let x34 := u64 (Z.shiftr x33 51) in
  let x35 := u64 (Z.land x33 0x7ffffffffffff) in
  let x36 := u128 (x34 + x31) in
  let x37 := u64 (Z.shiftr x36 51) in
  let x38 := u64 (Z.land x36 0x7ffffffffffff) in
  let x39 := u128 (x37 + x30) in
  let x40 := u64 (Z.shiftr x39 51) in
  let x41 := u64 (Z.land x39 0x7ffffffffffff) in
  let x42 := u128 (x40 + x29) in
  let x43 := u64 (Z.shiftr x42 51) in
  let x44 := u64 (Z.land x42 0x7ffffffffffff) in
  let x45 := u64 (x43 * 0x13) in
  let x46 := u64 (x28 + x45) in
  let x47 := Z.shiftr x46 51 in
  let x48 := Z.land x46 0x7ffffffffffff in
  let x49 := u64 (x47 + x35) in
  let x50 := u8 (Z.shiftr x49 51) in
  let x51 := Z.land x49 0x7ffffffffffff in
  let x52 := u64 (x50 + x38) in
  mk_fe x48 x51 x52 x41 x44.

Definition fiat_25519_carry_square (arg1 : fe) : fe :=
  let x1 := u64 (l4 arg1 * 0x13) in
  let x2 := u64 (x1 * 0x2) in
  let x3 := u64 (l4 arg1 * 0x2) in
  let x4 := u64 (l3 arg1 * 0x13) in
  let x5 := u64 (x4 * 0x2) in
  let x6 := u64 (l3 arg1 * 0x2) in
  let x7 := u64 (l2 arg1 * 0x2) in
  let x8 := u64 (l1 arg1 * 0x2) in
  let x9 := u128 (l4 arg1 * x1) in
  let x10 := u128 (l3 arg1 * x2) in
  let x11 := u128 (l3 arg1 * x4) in
  let x12 := u128 (l2 arg1 * x2) in
  let x13 := u128 (l2 arg1 * x5) in
  let x14 := u128 (l2 arg1 * l2 arg1) in
  let x15 := u128 (l1 arg1 * x2) in
  let x16 := u128 (l1 arg1 * x6) in
  let x17 := u128 (l1 arg1 * x7) in
  let x18 := u128 (l1 arg1 * l1 arg1) in
  let x19 := u128 (l0 arg1 * x3) in
  let x20 := u128 (l0 arg1 * x6) in
  let x21 := u128 (l0 arg1 * x7) in
  let x22 := u128 (l0 arg1 * x8) in
  let x23 := u128 (l0 arg1 * l0 arg1) in
  let x24 := u128 (x23 + u128 (x15 + x13)) in
  let x25 := u64 (Z.shiftr x24 51) in
  let x26 := u64 (Z.land x24 0x7ffffffffffff) in
  let x27 := u128 (x19 + u128 (x16 + x14)) in
  let x28 := u128 (x20 + u128 (x17 + x9)) in
  let x29 := u128 (x21 + u128 (x18 + x10)) in
  let x30 := u128 (x22 + u128 (x12 + x11)) in
  let x31 := u128 (x25 + x30) in
  let x32 := u64 (Z.shiftr x31 51) in
  let x33 := u64 (Z.land x31 0x7ffffffffffff) in
  let x34 := u128 (x32 + x29) in
  let x35 := u64 (Z.shiftr x34 51) in
  let x36 := u64 (Z.land x34 0x7ffffffffffff) in
  let x37 := u128 (x35 + x28) in
  let x38 := u64 (Z.shiftr x37 51) in
  let x39 := u64 (Z.land x37 0x7ffffffffffff) in
  let x40 := u128 (x38 + x27) in
  let x41 := u64 (Z.shiftr x40 51) in
  let x42 := u64 (Z.land x40 0x7ffffffffffff) in
  let x43 := u64 (x41 * 0x13) in
  let x44 := u64 (x26 + x43) in
  let x45 := Z.shiftr x44 51 in
  let x46 := Z.land x44 0x7ffffffffffff in
  let x47 := u64 (x45 + x33) in
  let x48 := u8 (Z.shiftr x47 51) in
  let x49 := Z.land x47 0x7ffffffffffff in
  let x50 := u64 (x48 + x36) in
  mk_fe x46 x49 x50 x39 x42.

Definition fiat_25519_carry (arg1 : fe) : fe :=
  let x1 := l0 arg1 in
  let x2 := u64 (Z.shiftr x1 51 + l1 arg1) in
  let x3 := u64 (Z.shiftr x2 51 + l2 arg1) in
  let x4 := u64 (Z.shiftr x3 51 + l3 arg1) in
  let x5 := u64 (Z.shiftr x4 51 + l4 arg1) in
  let x6 := u64 (Z.land x1 0x7ffffffffffff + u64 (Z.shiftr x5 51 * 0x13)) in
  let x7 := u64 (u8 (Z.shiftr x6 51) + Z.land x2 0x7ffffffffffff) in
  let x8 := Z.land x6 0x7ffffffffffff in
  let x9 := Z.land x7 0x7ffffffffffff in
  let x10 := u64 (u8 (Z.shiftr x7 51) + Z.land x3 0x7ffffffffffff) in
  let x11 := Z.land x4 0x7ffffffffffff in
  let x12 := Z.land x5 0x7ffffffffffff in
  mk_fe x8 x9 x10 x11 x12.

Definition fiat_25519_add (arg1 arg2 : fe) : fe :=
  let x1 := u64 (l0 arg1 + l0 arg2) in
  let x2 := u64 (l1 arg1 + l1 arg2) in
  let x3 := u64 (l2 arg1 + l2 arg2) in
  let x4 := u64 (l3 arg1 + l3 arg2) in
  let x5 := u64 (l4 arg1 + l4 arg2) in
  mk_fe x1 x2 x3 x4 x5.

Definition fiat_25519_sub (arg1 arg2 : fe) : fe :=
  let x1 := u64 (u64 (0xfffffffffffda + l0 arg1) - l0 arg2) in
  let x2 := u64 (u64 (0xffffffffffffe + l1 arg1) - l1 arg2) in
  let x3 := u64 (u64 (0xffffffffffffe + l2 arg1) - l2 arg2) in
  let x4 := u64 (u64 (0xffffffffffffe + l3 arg1) - l3 arg2) in
  let x5 := u64 (u64 (0xffffffffffffe + l4 arg1) - l4 arg2) in
  mk_fe x1 x2 x3 x4 x5.

Definition fiat_25519_opp (arg1 : fe) : fe :=
  let x1 := u64 (0xfffffffffffda - l0 arg1) in
  let x2 := u64 (0xffffffffffffe - l1 arg1) in
  let x3 := u64 (0xffffffffffffe - l2 arg1) in
  let x4 := u64 (0xffffffffffffe - l3 arg1) in
  let x5 := u64 (0xffffffffffffe - l4 arg1) in
  mk_fe x1 x2 x3 x4 x5.

Definition fiat_25519_to_bytes (arg1 : fe) : list Z :=
  let '(x1, x2) := fiat_25519_subborrowx_u51 0x0 (l0 arg1) 0x7ffffffffffed in
  let '(x3, x4) := fiat_25519_subborrowx_u51 x2 (l1 arg1) 0x7ffffffffffff in
  let '(x5, x6) := fiat_25519_subborrowx_u51 x4 (l2 arg1) 0x7ffffffffffff in
  let '(x7, x8) := fiat_25519_subborrowx_u51 x6 (l3 arg1) 0x7ffffffffffff in
  let '(x9, x10) := fiat_25519_subborrowx_u51 x8 (l4 arg1) 0x7ffffffffffff in
  let x11 := fiat_25519_cmovznz_u64 x10 0x0 0xffffffffffffffff in
  let '(x12, x13) := fiat_25519_addcarryx_u51 0x0 x1 (Z.land x11 0x7ffffffffffed) in
  let '(x14, x15) := fiat_25519_addcarryx_u51 x13 x3 (Z.land x11 0x7ffffffffffff) in
  let '(x16, x17) := fiat_25519_addcarryx_u51 x15 x5 (Z.land x11 0x7ffffffffffff) in
  let '(x18, x19) := fiat_25519_addcarryx_u51 x17 x7 (Z.land x11 0x7ffffffffffff) in
  let '(x20, x21) := fiat_25519_addcarryx_u51 x19 x9 (Z.land x11 0x7ffffffffffff) in
  let x22 := u64 (Z.shiftl x20 4) in
  let x23 := u64 (x18 * 0x2) in
  let x24 := u64 (Z.shiftl x16 6) in
  let x25 := u64 (Z.shiftl x14 3) in
  let x26 := u8 (Z.land x12 0xff) in
  let x27 := Z.shiftr x12 8 in
  let x28 := u8 (Z.land x27 0xff) in
  let x29 := Z.shiftr x27 8 in
  let x30 := u8 (Z.land x29 0xff) in
  let x31 := Z.shiftr x29 8 in
  let x32 := u8 (Z.land x31 0xff) in
  let x33 := Z.shiftr x31 8 in
  let x34 := u8 (Z.land x33 0xff) in
  let x35 := Z.shiftr x33 8 in
  let x36 := u8 (Z.land x35 0xff) in
  let x37 := u8 (Z.shiftr x35 8) in
  let x38 := u64 (x25 + x37) in
  let x39 := u8 (Z.land x38 0xff) in
  let x40 := Z.shiftr x38 8 in
  let x41 := u8 (Z.land x40 0xff) in
  let x42 := Z.shiftr x40 8 in
  let x43 := u8 (Z.land x42 0xff) in
  let x44 := Z.shiftr x42 8 in
  let x45 := u8 (Z.land x44 0xff) in
  let x46 := Z.shiftr x44 8 in
  let x47 := u8 (Z.land x46 0xff) in
  let x48 := Z.shiftr x46 8 in
  let x49 := u8 (Z.land x48 0xff) in
  let x50 := u8 (Z.shiftr x48 8) in
  let x51 := u64 (x24 + x50) in
  let x52 := u8 (Z.land x51 0xff) in
  let x53 := Z.shiftr x51 8 in
  let x54 := u8 (Z.land x53 0xff) in
  let x55 := Z.shiftr x53 8 in
  let x56 := u8 (Z.land x55 0xff) in
  let x57 := Z.shiftr x55 8 in
  let x58 := u8 (Z.land x57 0xff) in
  let x59 := Z.shiftr x57 8 in
  let x60 := u8 (Z.land x59 0xff) in
  let x61 := Z.shiftr x59 8 in
  let x62 := u8 (Z.land x61 0xff) in
  let x63 := Z.shiftr x61 8 in
  let x64 := u8 (Z.land x63 0xff) in
  let x65 := u8 (Z.shiftr x63 8) in
  let x66 := u64 (x23 + x65) in
  let x67 := u8 (Z.land x66 0xff) in
  let x68 := Z.shiftr x66 8 in
  let x69 := u8 (Z.land x68 0xff) in
  let x70 := Z.shiftr x68 8 in
  let x71 := u8 (Z.land x70 0xff) in
  let x72 := Z.shiftr x70 8 in
  let x73 := u8 (Z.land x72 0xff) in
  let x74 := Z.shiftr x72 8 in
  let x75 := u8 (Z.land x74 0xff) in
  let x76 := Z.shiftr x74 8 in
  let x77 := u8 (Z.land x76 0xff) in
  let x78 := u8 (Z.shiftr x76 8) in
  let x79 := u64 (x22 + x78) in
  let x80 := u8 (Z.land x79 0xff) in
  let x81 := Z.shiftr x79 8 in
  let x82 := u8 (Z.land x81 0xff) in
  let x83 := Z.shiftr x81 8 in
  let x84 := u8 (Z.land x83 0xff) in
  let x85 := Z.shiftr x83 8 in
  let x86 := u8 (Z.land x85 0xff) in
  let x87 := Z.shiftr x85 8 in
  let x88 := u8 (Z.land x87 0xff) in
  let x89 := Z.shiftr x87 8 in
  let x90 := u8 (Z.land x89 0xff) in
  let x91 := u8 (Z.shiftr x89 8) in
  [x26; x28; x30; x32; x34; x36; x39; x41; x43; x45; x47; x49; x52; x54; x56; x58; x60; x62;
   x64; x67; x69; x71; x73; x75; x77; x80; x82; x84; x86; x88; x90; x91].

Definition fiat_25519_from_bytes (arg1 : list Z) : fe :=
  let x1 := u64 (Z.shiftl (nth 31 arg1 0) 44) in
  let x2 := u64 (Z.shiftl (nth 30 arg1 0) 36) in
  let x3 := u64 (Z.shiftl (nth 29 arg1 0) 28) in
  let x4 := u64 (Z.shiftl (nth 28 arg1 0) 20) in
  let x5 := u64 (Z.shiftl (nth 27 arg1 0) 12) in
  let x6 := u64 (Z.shiftl (nth 26 arg1 0) 4) in
  let x7 := u64 (Z.shiftl (nth 25 arg1 0) 47) in
  let x8 := u64 (Z.shiftl (nth 24 arg1 0) 39) in
  let x9 := u64 (Z.shiftl (nth 23 arg1 0) 31) in
  let x10 := u64 (Z.shiftl (nth 22 arg1 0) 23) in
  let x11 := u64 (Z.shiftl (nth 21 arg1 0) 15) in
  let x12 := u64 (Z.shiftl (nth 20 arg1 0) 7) in
  let x13 := u64 (Z.shiftl (nth 19 arg1 0) 50) in
  let x14 := u64 (Z.shiftl (nth 18 arg1 0) 42) in
  let x15 := u64 (Z.shiftl (nth 17 arg1 0) 34) in
  let x16 := u64 (Z.shiftl (nth 16 arg1 0) 26) in
  let x17 := u64 (Z.shiftl (nth 15 arg1 0) 18) in
  let x18 := u64 (Z.shiftl (nth 14 arg1 0) 10) in
  let x19 := u64 (Z.shiftl (nth 13 arg1 0) 2) in
  let x20 := u64 (Z.shiftl (nth 12 arg1 0) 45) in
  let x21 := u64 (Z.shiftl (nth 11 arg1 0) 37) in
  let x22 := u64 (Z.shiftl (nth 10 arg1 0) 29) in
  let x23 := u64 (Z.shiftl (nth 9 arg1 0) 21) in
  let x24 := u64 (Z.shiftl (nth 8 arg1 0) 13) in
  let x25 := u64 (Z.shiftl (nth 7 arg1 0) 5) in
  let x26 := u64 (Z.shiftl (nth 6 arg1 0) 48) in
  let x27 := u64 (Z.shiftl (nth 5 arg1 0) 40) in
  let x28 := u64 (Z.shiftl (nth 4 arg1 0) 32) in
  let x29 := u64 (Z.shiftl (nth 3 arg1 0) 24) in
  let x30 := u64 (Z.shiftl (nth 2 arg1 0) 16) in
  let x31 := u64 (Z.shiftl (nth 1 arg1 0) 8) in
  let x32 := nth 0 arg1 0 in
  let x33 := u64 (x31 + x32) in
  let x34 := u64 (x30 + x33) in
  let x35 := u64 (x29 + x34) in
  let x36 := u64 (x28 + x35) in
  let x37 := u64 (x27 + x36) in
  let x38 := u64 (x26 + x37) in
  let x39 := Z.land x38 0x7ffffffffffff in
  let x40 := u8 (Z.shiftr x38 51) in
  let x41 := u64 (x25 + x40) in
  let x42 := u64 (x24 + x41) in
  let x43 := u64 (x23 + x42) in
  let x44 := u64 (x22 + x43) in
  let x45 := u64 (x21 + x44) in
  let x46 := u64 (x20 + x45) in
  let x47 := Z.land x46 0x7ffffffffffff in
  let x48 := u8 (Z.shiftr x46 51) in
  let x49 := u64 (x19 + x48) in
  let x50 := u64 (x18 + x49) in
  let x51 := u64 (x17 + x50) in
  let x52 := u64 (x16 + x51) in
  let x53 := u64 (x15 + x52) in
  let x54 := u64 (x14 + x53) in
  let x55 := u64 (x13 + x54) in
  let x56 := Z.land x55 0x7ffffffffffff in
  let x57 := u8 (Z.shiftr x55 51) in
  let x58 := u64 (x12 + x57) in
  let x59 := u64 (x11 + x58) in
  let x60 := u64 (x10 + x59) in
  let x61 := u64 (x9 + x60) in
  let x62 := u64 (x8 + x61) in
  let x63 := u64 (x7 + x62) in
  let x64 := Z.land x63 0x7ffffffffffff in
  let x65 := u8 (Z.shiftr x63 51) in
  let x66 := u64 (x6 + x65) in
  let x67 := u64 (x5 + x66) in
  let x68 := u64 (x4 + x67) in
  let x69 := u64 (x3 + x68) in
  let x70 := u64 (x2 + x69) in
  let x71 := u64 (x1 + x70) in
  mk_fe x39 x47 x56 x64 x71.

Definition fiat_25519_carry_scmul_121666 (arg1 : fe) : fe :=
  let x1 := u128 (0x1db42 * l4 arg1) in
  let x2 := u128 (0x1db42 * l3 arg1) in
  let x3 := u128 (0x1db42 * l2 arg1) in
  let x4 := u128 (0x1db42 * l1 arg1) in
  let x5 := u128 (0x1db42 * l0 arg1) in
  let x6 := u64 (Z.shiftr x5 51) in
  let x7 := u64 (Z.land x5 0x7ffffffffffff) in
  let x8 := u128 (x6 + x4) in
  let x9 := u64 (Z.shiftr x8 51) in
  let x10 := u64 (Z.land x8 0x7ffffffffffff) in
  let x11 := u128 (x9 + x3) in
  let x12 := u64 (Z.shiftr x11 51) in
  let x13 := u64 (Z.land x11 0x7ffffffffffff) in
  let x14 := u128 (x12 + x2) in
  let x15 := u64 (Z.shiftr x14 51) in
  let x16 := u64 (Z.land x14 0x7ffffffffffff) in
  let x17 := u128 (x15 + x1) in
  let x18 := u64 (Z.shiftr x17 51) in
  let x19 := u64 (Z.land x17 0x7ffffffffffff) in
  let x20 := u64 (x18 * 0x13) in
  let x21 := u64 (x7 + x20) in
  let x22 := u8 (Z.shiftr x21 51) in
  let x23 := Z.land x21 0x7ffffffffffff in
  let x24 := u64 (x22 + x10) in
  let x25 := u8 (Z.shiftr x24 51) in
  let x26 := Z.land x24 0x7ffffffffffff in
  let x27 := u64 (x25 + x13) in
  mk_fe x23 x26 x27 x16 x19.
