(* ===== verification/Fiat25519Facts.v ===== *)
(** * Correctness of the field arithmetic

    The operations of Fiat25519.v compute in the integers modulo [2^255 - 19]
    and keep the bounds that curve25519_64.h states for tight and loose
    elements: no assignment wraps around. *)

From S2P Require Import Prelude Straightline Fiat25519.

Definition p25519 : Z := 2 ^ 255 - 19.

Definition feval (f : fe) : Z :=
  l0 f + 2 ^ 51 * l1 f + 2 ^ 102 * l2 f + 2 ^ 153 * l3 f + 2 ^ 204 * l4 f.

Definition bounded (hi : Z) (f : fe) : Prop :=
  InRange hi (l0 f) /\ InRange hi (l1 f) /\ InRange hi (l2 f) /\ InRange hi (l3 f) /\
  InRange hi (l4 f).
Abbreviation tight := (bounded 0x8000000000000).
Abbreviation loose := (bounded 0x18000000000000).

Lemma tight_loose f : tight f -> loose f.
Proof. unfold bounded, InRange. lia. Qed.

(** [h] represents [v] modulo [2^255 - 19]. *)
Definition congr (h : fe) (v : Z) : Prop := feval h mod p25519 = v mod p25519.

(** Split the bounds of the arguments and run the assignments of [f]. *)
Ltac fe_bounds :=
  repeat match goal with H : bounded _ _ |- _ => destruct H as (? & ? & ? & ? & ?) end.
Ltac fe_finish :=
  unfold post, bounded, congr, feval; cbn [l0 l1 l2 l3 l4]; split;
  [unfold InRange in *; repeat split; lia|].

Lemma carry_mul_spec f g : loose f -> loose g ->
  post (fun h => tight h /\ congr h (feval f * feval g)) (fiat_25519_carry_mul f g).
Proof.
  intros. fe_bounds. cbv delta [fiat_25519_carry_mul] beta. sl_run. fe_finish.
  sl_elim. apply (mod_congr p25519 _ _ (-
   (l1 f * l4 g + l2 f * l3 g + l3 f * l2 g + l4 f * l1 g
    + 2 ^ 51 * (l2 f * l4 g + l3 f * l3 g + l4 f * l2 g)
    + 2 ^ 102 * (l3 f * l4 g + l4 f * l3 g) + 2 ^ 153 * (l4 f * l4 g) + x43))).
  unfold p25519. ring.
Qed.

Lemma carry_square_spec f : loose f ->
  post (fun h => tight h /\ congr h (feval f * feval f)) (fiat_25519_carry_square f).
Proof.
  intros. fe_bounds. cbv delta [fiat_25519_carry_square] beta. sl_run. fe_finish.
  sl_elim. apply (mod_congr p25519 _ _ (-
   (2 * (l1 f * l4 f + l2 f * l3 f) + 2 ^ 51 * (2 * l2 f * l4 f + l3 f * l3 f)
    + 2 ^ 102 * (2 * l3 f * l4 f) + 2 ^ 153 * (l4 f * l4 f) + x41))).
  unfold p25519. ring.
Qed.

Lemma carry_scmul_spec f : loose f ->
  post (fun h => tight h /\ congr h (121666 * feval f)) (fiat_25519_carry_scmul_121666 f).
Proof.
  intros. fe_bounds. cbv delta [fiat_25519_carry_scmul_121666] beta. sl_run. fe_finish.
  sl_elim. apply (mod_congr p25519 _ _ (- x18)). unfold p25519. ring.
Qed.

Lemma carry_spec f : loose f -> post (fun h => tight h /\ congr h (feval f)) (fiat_25519_carry f).
Proof.
  intros. fe_bounds. cbv delta [fiat_25519_carry] beta. sl_run. fe_finish.
  sl_divmod. apply (mod_congr p25519 _ _ (- (x5 / 2251799813685248))).
  unfold p25519. lia.
Qed.

Lemma add_spec25519 f g : tight f -> tight g ->
  post (fun h => loose h /\ congr h (feval f + feval g)) (fiat_25519_add f g).
Proof.
  intros. fe_bounds. cbv delta [fiat_25519_add] beta. sl_run. fe_finish. subst. f_equal. ring.
Qed.

(** Subtraction adds [2 * p25519] limb by limb first. *)
Lemma sub_spec25519 f g : tight f -> tight g ->
  post (fun h => loose h /\ congr h (feval f - feval g)) (fiat_25519_sub f g).
Proof.
  intros. fe_bounds. unfold InRange in *.
  assert (K : forall c a b, 0 <= a <= 0x8000000000000 -> 0 <= b <= 0x8000000000000 ->
    0xfffffffffffda <= c <= 0xffffffffffffe -> u64 (u64 (c + a) - b) = c + a - b).
  { intros. unfold wrap. rewrite (Z.mod_small (c + a)), Z.mod_small; lia. }
  unfold fiat_25519_sub. rewrite !K by lia. unfold InRange in *. fe_finish.
  apply (mod_congr p25519 _ _ 2). unfold p25519. ring.
Qed.

Lemma opp_spec25519 f : tight f ->
  post (fun h => loose h /\ congr h (- feval f)) (fiat_25519_opp f).
Proof.
  intros. fe_bounds. unfold InRange in *. unfold fiat_25519_opp, wrap.
  rewrite !Z.mod_small by lia. fe_finish.
  apply (mod_congr p25519 _ _ 2). unfold p25519. ring.
Qed.

(** ** Encoding *)

Lemma swrap_small w z : 0 < w -> - 2 ^ (w - 1) <= z < 2 ^ (w - 1) -> swrap w z = z.
Proof.
  intros Hw [H1 H2]. unfold swrap.
  assert (E : 2 ^ w = 2 * 2 ^ (w - 1)) by (rewrite <- Z.pow_succ_r by lia; f_equal; lia).
  destruct (Z.leb_spec 0 z).
  - rewrite Z.mod_small by lia. destruct (Z.ltb_spec z (2 ^ (w - 1))); lia.
  - rewrite <- (Z_mod_plus_full z 1), Z.mod_small by lia.
    destruct (Z.ltb_spec (z + 1 * 2 ^ w) (2 ^ (w - 1))); lia.
Qed.

Lemma subborrow_spec b x y : 0 <= b <= 1 -> 0 <= x <= 2 ^ 51 -> 1 <= y < 2 ^ 51 ->
  let '(o, b') := fiat_25519_subborrowx_u51 b x y in
  o = x - b - y + 2 ^ 51 * b' /\ InRange (2 ^ 51 - 1) o /\ InRange 1 b'.
Proof.
  intros. unfold fiat_25519_subborrowx_u51, InRange.
  assert (E : swrap 64 (swrap 64 (u64 (x - b)) - swrap 64 y) = x - b - y).
  { rewrite (swrap_small 64 y) by lia. destruct (Z.leb_spec 0 (x - b)).
    - rewrite wrap_small by (unfold word; lia). rewrite (swrap_small 64 (x - b)) by lia.
      apply swrap_small; lia.
    - assert (x = 0 /\ b = 1) as [-> ->] by lia.
      change (swrap 64 (u64 (0 - 1))) with (-1). apply swrap_small; lia. }
  rewrite E. set (d := x - b - y) in *. assert (- 2 ^ 51 <= d < 2 ^ 51) by lia.
  assert (Em : Z.land (u64 d) 0x7ffffffffffff = d mod 2 ^ 51).
  { change 0x7ffffffffffff with (Z.ones 51). unfold wrap.
    by rewrite Z.land_ones, Z.mod_mod_divide by (lia || by exists (2 ^ 13)). }
  rewrite Em, Z.shiftr_div_pow2 by lia. clearbody d. destruct (Z.ltb_spec d 0).
  - assert (d / 2 ^ 51 = -1) as ->
      by (symmetry; apply (Z.div_unique d (2 ^ 51) (-1) (d + 2 ^ 51)); lia).
    assert (d mod 2 ^ 51 = d + 2 ^ 51) as ->
      by (symmetry; apply (Z.mod_unique d (2 ^ 51) (-1) (d + 2 ^ 51)); lia).
    change (u8 (0 - swrap 8 (-1))) with 1. lia.
  - rewrite Z.div_small, Z.mod_small by lia. change (u8 (0 - swrap 8 0)) with 0. lia.
Qed.

Lemma addcarry_spec c x y : 0 <= c <= 1 -> InRange (2 ^ 51 - 1) x -> InRange (2 ^ 51 - 1) y ->
  let '(o, c') := fiat_25519_addcarryx_u51 c x y in
  o = c + x + y - 2 ^ 51 * c' /\ InRange (2 ^ 51 - 1) o /\ InRange 1 c'.
Proof.
  unfold InRange. intros. unfold fiat_25519_addcarryx_u51, wrap.
  rewrite (Z.mod_small (c + x)), (Z.mod_small (c + x + y)) by lia.
  change 0x7ffffffffffff with (Z.ones 51). rewrite Z.land_ones, Z.shiftr_div_pow2 by lia.
  rewrite (Z.mod_small ((c + x + y) / 2 ^ 51)) by div_lia. div_lia.
Qed.

(** The mask that selects between [0] and the limbs of the modulus. *)
Lemma cmov_mask c m : 0 <= c <= 1 -> 0 <= m < 2 ^ 64 ->
  Z.land (fiat_25519_cmovznz_u64 c 0 0xffffffffffffffff) m = m * c.
Proof.
  intros Hc Hm. assert (c = 0 \/ c = 1) as [-> | ->] by lia.
  - change (fiat_25519_cmovznz_u64 0 0 0xffffffffffffffff) with 0. by rewrite Z.land_0_l, Z.mul_0_r.
  - change (fiat_25519_cmovznz_u64 1 0 0xffffffffffffffff) with (Z.ones 64).
    rewrite Z.land_comm, Z.land_ones, Z.mod_small by lia. lia.
Qed.

(** The conditional subtraction of [fiat_25519_to_bytes]: canonical limbs. *)
Lemma canonical_limbs v b c : 0 <= v < 2 * p25519 -> 0 <= b <= 1 ->
  0 <= v - p25519 + 2 ^ 255 * b < 2 ^ 255 ->
  0 <= v - p25519 + 2 ^ 255 * b + p25519 * b - 2 ^ 255 * c < 2 ^ 255 -> 
  v - p25519 + 2 ^ 255 * b + p25519 * b - 2 ^ 255 * c = v mod p25519.
Proof.
  intros Hv Hb H1 H2. assert (b = 0 \/ b = 1) as [-> | ->] by lia.
  - apply (Z.mod_unique v p25519 1); unfold p25519 in *; lia.
  - assert (c = 1) as -> by (unfold p25519 in *; lia).
    apply (Z.mod_unique v p25519 0); unfold p25519 in *; lia.
Qed.

Definition limbs (x0 x1 x2 x3 x4 : Z) : Z :=
  x0 + 2 ^ 51 * x1 + 2 ^ 102 * x2 + 2 ^ 153 * x3 + 2 ^ 204 * x4.

(** Run a call that returns a word and a carry. *)
Ltac sl_call lem :=
  lazymatch goal with
  | |- ?P (let '(x, y) := ?e in @?b x y) =>
      eapply (sl_pair P e _ b);
      [apply lem; unfold InRange in *; lia|];
      let x' := fresh x in let y' := fresh y in
      let E := fresh "E" x' in let R := fresh "R" x' in let R' := fresh "R" y' in
      intros x' y' (E & R & R'); change (2 ^ 51 - 1) with 0x7ffffffffffff in R
  end.

Lemma to_bytes_spec f : tight f ->
  post (fun s => bytes s /\ length s = 32%nat /\ le_decode s = feval f mod p25519)
    (fiat_25519_to_bytes f).
Proof.
  intros. fe_bounds. cbv delta [fiat_25519_to_bytes] beta.
  do 5 sl_call subborrow_spec.
  match goal with |- ?P (let x := ?e in @?b x) => apply (sl_eq P e e b eq_refl) end.
  intros x11 ->. rewrite !cmov_mask by (unfold InRange in *; lia).
  do 5 sl_call addcarry_spec.
  assert (V : limbs x12 x14 x16 x18 x20 = feval f mod p25519).
  { assert (Hv : 0 <= feval f < 2 * p25519)
      by (unfold feval, p25519, InRange in *; lia).
    assert (Hw : limbs x1 x3 x5 x7 x9 = feval f - p25519 + 2 ^ 255 * x10)
      by (unfold feval, limbs, p25519; lia).
    assert (E : limbs x12 x14 x16 x18 x20 =
              feval f - p25519 + 2 ^ 255 * x10 + p25519 * x10 - 2 ^ 255 * x21).
    { rewrite <- Hw. unfold limbs, p25519. subst x12 x14 x16 x18 x20. ring. }
    rewrite E. apply canonical_limbs; [done|by destruct Rx10|rewrite <- Hw|rewrite <- E];
      unfold limbs, InRange in *; lia. }
  clear - V Rx12 Rx14 Rx16 Rx18 Rx20. sl_run. unfold post. split; [|split; [done|]].
  - repeat constructor; unfold byte, InRange in *; lia.
  - rewrite <- V, !le_decode_cons. sl_elim. unfold limbs. change (le_decode []) with 0. ring.
Qed.

Lemma nth_byte s i : bytes s -> InRange 0xff (nth i s 0).
Proof.
  intros Hs. destruct (nth_in_or_default i s 0) as [Hi| ->]; [|done].
  apply list_elem_of_In in Hi. unfold bytes in Hs. rewrite Forall_forall in Hs.
  apply Hs in Hi. unfold byte in Hi. unfold InRange. lia.
Qed.

Lemma from_bytes_spec s : bytes s -> length s = 32%nat -> nth 31 s 0 <= 0x7f ->
  post (fun h => tight h /\ feval h = le_decode s) (fiat_25519_from_bytes s).
Proof.
  intros Hs Hl H31. pose proof (fun i => nth_byte s i Hs) as R.
  assert (R31 : InRange 0x7f (nth 31 s 0)) by (split; [apply R|done]).
  assert (Hd : s = map (fun i => nth i s 0) (seq 0 32)).
  { rewrite <- Hl. clear. induction s as [|x s IH] using rev_ind; [done|].
    rewrite length_app, seq_app, map_app. cbn [length Nat.add seq map].
    rewrite app_nth2, Nat.sub_diag by lia. f_equal. rewrite IH at 1.
    apply map_ext_in. intros i Hi%in_seq. rewrite app_nth1; [done|lia]. }
  cbv delta [fiat_25519_from_bytes] beta.
  sl_run. fe_finish. rewrite Hd at 1. cbn [map seq]. rewrite !le_decode_cons.
  sl_elim. change (le_decode []) with 0. ring.
Qed.
