(* ===== verification/X25519.v ===== *)
(** * X25519

    The field layer, the Montgomery ladder and the entry points of
    crypto/curve25519/curve25519.cc on 64-bit targets without NEON and ADX.
    [declassify_assert] has no effect in release builds; that the asserted
    bounds hold is part of the theorems. *)

From S2P Require Import Prelude Internal Straightline Fiat25519 Fiat25519Facts.
Import Mem MemFacts.

(** ** Field elements *)

Definition assert_fe (f : fe) : bool :=
  (l0 f <=? 0x8cccccccccccc) && (l1 f <=? 0x8cccccccccccc) && (l2 f <=? 0x8cccccccccccc) &&
  (l3 f <=? 0x8cccccccccccc) && (l4 f <=? 0x8cccccccccccc).
Definition assert_fe_loose (f : fe) : bool :=
  (l0 f <=? 0x1a666666666664) && (l1 f <=? 0x1a666666666664) && (l2 f <=? 0x1a666666666664) &&
  (l3 f <=? 0x1a666666666664) && (l4 f <=? 0x1a666666666664).

Definition fe_frombytes_strict (s : list Z) : fe := fiat_25519_from_bytes s.
Definition fe_frombytes (s : list Z) : fe :=
  fe_frombytes_strict (<[31%nat := Z.land (nth 31 s 0) 0x7f]> s).
Definition fe_tobytes (f : fe) : list Z := fiat_25519_to_bytes f.
Definition fe_0 : fe := mk_fe 0 0 0 0 0.
Definition fe_1 : fe := mk_fe 1 0 0 0 0.
Definition fe_add (f g : fe) : fe := fiat_25519_add f g.
Definition fe_sub (f g : fe) : fe := fiat_25519_sub f g.
Definition fe_carry (f : fe) : fe := fiat_25519_carry f.
Definition fe_mul_impl (in1 in2 : fe) : fe := fiat_25519_carry_mul in1 in2.
Definition fe_mul_ttt (f g : fe) : fe := fe_mul_impl f g.
Definition fe_mul_tlt (f g : fe) : fe := fe_mul_impl f g.
Definition fe_mul_tll (f g : fe) : fe := fe_mul_impl f g.
Definition fe_sq_tl (f : fe) : fe := fiat_25519_carry_square f.
Definition fe_sq_tt (f : fe) : fe := fiat_25519_carry_square f.
Definition fe_mul121666 (f : fe) : fe := fiat_25519_carry_scmul_121666 f.
Definition fe_neg (f : fe) : fe := fiat_25519_opp f.
Definition fe_copy (f : fe) : fe := f.
Definition fe_copy_lt (f : fe) : fe := f.

(** One round of the loops of [fe_cswap] and [fe_cmov]; [b] is the mask. *)
Definition cswap_limb (b f g : Z) : Z * Z :=
  let x := Z.land (Z.lxor f g) b in (Z.lxor f x, Z.lxor g x).

Definition fe_cswap (f g : fe) (b : Z) : fe * fe :=
  let b := u64 (0 - b) in
  let '(f0, g0) := cswap_limb b (l0 f) (l0 g) in
  let '(f1, g1) := cswap_limb b (l1 f) (l1 g) in
  let '(f2, g2) := cswap_limb b (l2 f) (l2 g) in
  let '(f3, g3) := cswap_limb b (l3 f) (l3 g) in
  let '(f4, g4) := cswap_limb b (l4 f) (l4 g) in
  (mk_fe f0 f1 f2 f3 f4, mk_fe g0 g1 g2 g3 g4).

Definition fe_cmov (f g : fe) (b : Z) : fe := fst (fe_cswap f g b).

(** [fe_sq_tt(&t, &f)] and [n] more squarings of [t]. *)
Definition fe_sq_times (n : nat) (f : fe) : fe := Nat.iter n fe_sq_tt (fe_sq_tt f).

Definition fe_loose_invert (z : fe) : fe :=
  let t0 := fe_sq_tl z in
  let t1 := fe_sq_times 1 t0 in
  let t1 := fe_mul_tlt z t1 in
  let t0 := fe_mul_ttt t0 t1 in
  let t2 := fe_sq_tt t0 in
  let t1 := fe_mul_ttt t1 t2 in
  let t2 := fe_sq_times 4 t1 in
  let t1 := fe_mul_ttt t2 t1 in
  let t2 := fe_sq_times 9 t1 in
  let t2 := fe_mul_ttt t2 t1 in
  let t3 := fe_sq_times 19 t2 in
  let t2 := fe_mul_ttt t3 t2 in
  let t2 := fe_sq_times 9 t2 in
  let t1 := fe_mul_ttt t2 t1 in
  let t2 := fe_sq_times 49 t1 in
  let t2 := fe_mul_ttt t2 t1 in
  let t3 := fe_sq_times 99 t2 in
  let t2 := fe_mul_ttt t3 t2 in
  let t2 := fe_sq_times 49 t2 in
  let t1 := fe_mul_ttt t2 t1 in
  let t1 := fe_sq_times 4 t1 in
  fe_mul_ttt t1 t0.

Definition fe_invert (z : fe) : fe := fe_loose_invert (fe_copy_lt z).

Definition fe_isnonzero (f : fe) : bool :=
  negb (CRYPTO_memcmp (fe_tobytes (fe_carry f)) (replicate 32 0) =? 0).

Definition fe_isnegative (f : fe) : Z := Z.land (nth 0 (fe_tobytes f) 0) 1.

(** ** The ladder *)

Record ladder := mk_ladder { x2 : fe; z2 : fe; x3 : fe; z3 : fe; swap : Z }.

(** The body of the loop for the bit [b]. *)
Definition ladder_step (x1 : fe) (b : Z) (st : ladder) : ladder :=
  let swap := Z.lxor (swap st) b in
  let '(x2, x3) := fe_cswap (x2 st) (x3 st) swap in
  let '(z2, z3) := fe_cswap (z2 st) (z3 st) swap in
  let swap := b in
  let tmp0l := fe_sub x3 z3 in
  let tmp1l := fe_sub x2 z2 in
  let x2l := fe_add x2 z2 in
  let z2l := fe_add x3 z3 in
  let z3 := fe_mul_tll tmp0l x2l in
  let z2 := fe_mul_tll z2l tmp1l in
  let tmp0 := fe_sq_tl tmp1l in
  let tmp1 := fe_sq_tl x2l in
  let x3l := fe_add z3 z2 in
  let z2l := fe_sub z3 z2 in
  let x2 := fe_mul_ttt tmp1 tmp0 in
  let tmp1l := fe_sub tmp1 tmp0 in
  let z2 := fe_sq_tl z2l in
  let z3 := fe_mul121666 tmp1l in
  let x3 := fe_sq_tl x3l in
  let tmp0l := fe_add tmp0 z3 in
  let z3 := fe_mul_ttt x1 z2 in
  let z2 := fe_mul_tll tmp1l tmp0l in
  mk_ladder x2 z2 x3 z3 swap.

(** [1 & (e[pos / 8] >> (pos & 7))]. *)
Definition scalar_bit (e : list Z) (pos : Z) : Z :=
  Z.land 1 (Z.shiftr (nth (Z.to_nat (pos / 8)) e 0) (Z.land pos 7)).

(** The rounds for [pos = n - 1] down to [0]. *)
Fixpoint ladder_loop (e : list Z) (x1 : fe) (n : nat) (st : ladder) : ladder :=
  match n with
  | O => st
  | S pos => ladder_loop e x1 pos (ladder_step x1 (scalar_bit e (Z.of_nat pos)) st)
  end.

(** [e[0] &= 248; e[31] &= 127; e[31] |= 64]. *)
Definition clamp (scalar : list Z) : list Z :=
  let e := <[0%nat := Z.land (nth 0 scalar 0) 248]> scalar in
  <[31%nat := Z.lor (Z.land (nth 31 e 0) 127) 64]> e.

Definition x25519_scalar_mult_generic (scalar point : list Z) : list Z :=
  let e := clamp scalar in
  let x1 := fe_frombytes point in
  let st := ladder_loop e x1 255 (mk_ladder fe_1 fe_0 (fe_copy x1) fe_1 0) in
  let '(x2, x3) := fe_cswap (x2 st) (x3 st) (swap st) in
  let '(z2, z3) := fe_cswap (z2 st) (z3 st) (swap st) in
  let z2 := fe_invert z2 in
  let x2 := fe_mul_ttt x2 z2 in
  fe_tobytes x2.

(** How the library was built, and what the processor it runs on can do: the
    routines written in assembly language are parameters. *)
Inductive x25519_build :=
  | BORINGSSL_X25519_PORTABLE
  | BORINGSSL_X25519_NEON (CRYPTO_is_NEON_capable : bool) (x25519_NEON : list Z -> list Z -> list Z)
  | BORINGSSL_FE25519_ADX (CRYPTO_is_BMI1_capable CRYPTO_is_BMI2_capable CRYPTO_is_ADX_capable : bool)
      (x25519_scalar_mult_adx : list Z -> list Z -> list Z).

Definition x25519_scalar_mult (build : x25519_build) (scalar point : list Z) : list Z :=
  match build with
  | BORINGSSL_X25519_NEON neon x25519_NEON =>
      if neon then x25519_NEON scalar point else x25519_scalar_mult_generic scalar point
  | BORINGSSL_FE25519_ADX bmi1 bmi2 adx x25519_scalar_mult_adx =>
      if bmi1 && bmi2 && adx then x25519_scalar_mult_adx scalar point else x25519_scalar_mult_generic scalar point
  | BORINGSSL_X25519_PORTABLE => x25519_scalar_mult_generic scalar point
  end.

(** Returns the shared key and the return value. *)
Definition X25519 (build : x25519_build) (private_key peer_public_value : list Z) : list Z * bool :=
  let out_shared_key := x25519_scalar_mult build private_key peer_public_value in
  (out_shared_key, negb (CRYPTO_memcmp (replicate 32 0) out_shared_key =? 0)).

(** [X25519_keypair]: the private key made from 32 random bytes; the public
    value is computed from it by [public_from_private]. *)
Definition X25519_keypair (public_from_private : list Z -> list Z) (random : list Z) :
    list Z * list Z :=
  let k := <[0%nat := u8 (Z.lor (nth 0 random 0) (Z.lnot 248))]> random in
  let k := <[31%nat := u8 (Z.land (nth 31 k 0) (Z.lnot 64))]> k in
  let k := <[31%nat := u8 (Z.lor (nth 31 k 0) (Z.lnot 127))]> k in
  (public_from_private k, k).
