(* ===== verification/X25519Facts.v ===== *)
(** * X25519 is the function of RFC 7748

    The reference is the pseudo-code of RFC 7748, section 5, over integers
    modulo [2^255 - 19].  The limbs of the implementation represent its values
    and stay in the bounds the field functions need, so that the shared key is
    the encoding of the reference result. *)

From Stdlib Require Import Zpow_facts Morphisms.
From S2P Require Import Prelude Internal Straightline Fiat25519 Fiat25519Facts X25519.
Import Mem MemFacts.

(** ** The reference *)

Definition fmul (a b : Z) : Z := (a * b) mod p25519.
Definition fadd (a b : Z) : Z := (a + b) mod p25519.
Definition fsub (a b : Z) : Z := (a - b) mod p25519.
Definition finv (a : Z) : Z := Zpow_mod a (p25519 - 2) p25519.

Definition decodeScalar25519 (k : list Z) : Z := 2 ^ 254 + 8 * (le_decode k / 8 mod 2 ^ 251).
Definition decodeUCoordinate (u : list Z) : Z := le_decode u mod 2 ^ 255.

Record xz := mk_xz { rx2 : Z; rz2 : Z; rx3 : Z; rz3 : Z; rswap : bool }.

Definition cond_swap {A} (b : bool) (x y : A) : A * A := if b then (y, x) else (x, y).

Definition rfc_step (x1 : Z) (k_t : bool) (s : xz) : xz :=
  let swap := xorb (rswap s) k_t in
  let '(x2, x3) := cond_swap swap (rx2 s) (rx3 s) in
  let '(z2, z3) := cond_swap swap (rz2 s) (rz3 s) in
  let A := fadd x2 z2 in
  let AA := fmul A A in
  let B := fsub x2 z2 in
  let BB := fmul B B in
  let E := fsub AA BB in
  let C := fadd x3 z3 in
  let D := fsub x3 z3 in
  let DA := fmul D A in
  let CB := fmul C B in
  mk_xz (fmul AA BB) (fmul E (fadd AA (fmul 121665 E)))
    (fmul (fadd DA CB) (fadd DA CB)) (fmul x1 (fmul (fsub DA CB) (fsub DA CB))) k_t.

Fixpoint rfc_ladder (k x1 : Z) (n : nat) (s : xz) : xz :=
  match n with
  | O => s
  | S t => rfc_ladder k x1 t (rfc_step x1 (Z.testbit k (Z.of_nat t)) s)
  end.

Definition rfc_x25519 (k u : list Z) : Z :=
  let x1 := decodeUCoordinate u in
  let s := rfc_ladder (decodeScalar25519 k) x1 255 (mk_xz 1 0 x1 1 false) in
  let '(x2, _) := cond_swap (rswap s) (rx2 s) (rx3 s) in
  let '(z2, _) := cond_swap (rswap s) (rz2 s) (rz3 s) in
  fmul x2 (finv z2).

(** ** Equality modulo the prime *)

Definition eqp (a b : Z) : Prop := a mod p25519 = b mod p25519.

#[local] Instance eqp_equiv : Equivalence eqp.
Proof. split; unfold eqp; congruence. Qed.
#[local] Instance eqp_add : Proper (eqp ==> eqp ==> eqp) Z.add.
Proof. intros a a' Ha b b' Hb. unfold eqp in *. by rewrite Zplus_mod, Ha, Hb, <- Zplus_mod. Qed.
#[local] Instance eqp_sub : Proper (eqp ==> eqp ==> eqp) Z.sub.
Proof. intros a a' Ha b b' Hb. unfold eqp in *. by rewrite Zminus_mod, Ha, Hb, <- Zminus_mod. Qed.
#[local] Instance eqp_mul : Proper (eqp ==> eqp ==> eqp) Z.mul.
Proof. intros a a' Ha b b' Hb. unfold eqp in *. by rewrite Zmult_mod, Ha, Hb, <- Zmult_mod. Qed.

Lemma eqp_mod a : eqp (a mod p25519) a.
Proof. unfold eqp. by rewrite Z.mod_mod. Qed.
Lemma eqp_fadd a b : eqp (fadd a b) (a + b).
Proof. apply eqp_mod. Qed.
Lemma eqp_fsub a b : eqp (fsub a b) (a - b).
Proof. apply eqp_mod. Qed.
Lemma eqp_fmul a b : eqp (fmul a b) (a * b).
Proof. apply eqp_mod. Qed.

(** ** Representation *)

(** [f] represents [v], with limbs as they come out of a carried operation, or
    of an addition. *)
Definition rep (f : fe) (v : Z) : Prop := tight f /\ eqp (feval f) v.
Definition repl (f : fe) (v : Z) : Prop := loose f /\ eqp (feval f) v.

Lemma rep_repl f v : rep f v -> repl f v.
Proof. intros [? ?]. split; [by apply tight_loose | done]. Qed.

Lemma rep_eqp f v v' : rep f v -> eqp v v' -> rep f v'.
Proof. intros [? H] E. split; [done | by rewrite H]. Qed.

Lemma rep_mul f g a b : repl f a -> repl g b -> rep (fiat_25519_carry_mul f g) (fmul a b).
Proof.
  intros [? Ha] [? Hb]. destruct (carry_mul_spec f g) as [? E]; [done..|]. split; [done|].
  etransitivity; [exact E|]. by rewrite eqp_fmul, Ha, Hb.
Qed.
Lemma rep_sq f a : repl f a -> rep (fiat_25519_carry_square f) (fmul a a).
Proof.
  intros [? Ha]. destruct (carry_square_spec f) as [? E]; [done..|]. split; [done|].
  etransitivity; [exact E|]. by rewrite eqp_fmul, Ha.
Qed.
Lemma rep_mul121666 f a : repl f a -> rep (fe_mul121666 f) (121666 * a).
Proof.
  intros [? Ha]. destruct (carry_scmul_spec f) as [? E]; [done..|]. split; [done|].
  etransitivity; [exact E|]. by rewrite Ha.
Qed.
Lemma repl_add f g a b : rep f a -> rep g b -> repl (fe_add f g) (fadd a b).
Proof.
  intros [? Ha] [? Hb]. destruct (add_spec25519 f g) as [? E]; [done..|]. split; [done|].
  etransitivity; [exact E|]. by rewrite eqp_fadd, Ha, Hb.
Qed.
Lemma repl_sub f g a b : rep f a -> rep g b -> repl (fe_sub f g) (fsub a b).
Proof.
  intros [? Ha] [? Hb]. destruct (sub_spec25519 f g) as [? E]; [done..|]. split; [done|].
  etransitivity; [exact E|]. by rewrite eqp_fsub, Ha, Hb.
Qed.

(** ** Conditional swaps *)

Lemma cswap_limb_spec (b : bool) f g : InRange 0x8000000000000 f -> InRange 0x8000000000000 g ->
  cswap_limb (u64 (0 - Z.b2z b)) f g = cond_swap b f g.
Proof.
  unfold InRange, cswap_limb. intros Hf Hg. destruct b; cbn [Z.b2z cond_swap].
  - replace (u64 (0 - 1)) with (Z.ones 64) by reflexivity. rewrite Z.land_ones by lia.
    assert (0 <= Z.lxor f g < 2 ^ 64).
    { pose proof (Z.lxor_nonneg f g). split; [lia|].
      destruct (Z.eq_dec (Z.lxor f g) 0) as [->|]; [lia|]. apply Z.log2_lt_pow2; [lia|].
      pose proof (Z.log2_lxor f g ltac:(lia) ltac:(lia)).
      pose proof (Z.log2_le_mono f 0x8000000000000 ltac:(lia)).
      pose proof (Z.log2_le_mono g 0x8000000000000 ltac:(lia)).
      change (Z.log2 0x8000000000000) with 51 in *. lia. }
    rewrite Z.mod_small by done. f_equal.
    + by rewrite <- Z.lxor_assoc, Z.lxor_nilpotent, Z.lxor_0_l.
    + by rewrite (Z.lxor_comm f g), <- Z.lxor_assoc, Z.lxor_nilpotent, Z.lxor_0_l.
  - change (u64 (0 - 0)) with 0. by rewrite Z.land_0_r, !Z.lxor_0_r.
Qed.

Lemma fe_cswap_spec b f g : tight f -> tight g -> fe_cswap f g (Z.b2z b) = cond_swap b f g.
Proof.
  intros (? & ? & ? & ? & ?) (? & ? & ? & ? & ?). unfold fe_cswap.
  rewrite !cswap_limb_spec by done. by destruct b, f, g.
Qed.

(** ** The ladder *)

Record rep_ladder (st : ladder) (s : xz) : Prop := {
  rl_x2 : rep (x2 st) (rx2 s); rl_z2 : rep (z2 st) (rz2 s);
  rl_x3 : rep (x3 st) (rx3 s); rl_z3 : rep (z3 st) (rz3 s); rl_swap : swap st = Z.b2z (rswap s)
}.

Lemma rep_swap b f g a c : rep f a -> rep g c ->
  rep (fst (fe_cswap f g (Z.b2z b))) (fst (cond_swap b a c)) /\
  rep (snd (fe_cswap f g (Z.b2z b))) (snd (cond_swap b a c)).
Proof. intros Hf Hg. rewrite fe_cswap_spec by (apply Hf || apply Hg). by destruct b. Qed.

Lemma b2z_lxor a b : Z.lxor (Z.b2z a) (Z.b2z b) = Z.b2z (xorb a b).
Proof. by destruct a, b. Qed.

Create HintDb x25519.
#[local] Hint Resolve rep_mul rep_sq rep_mul121666 repl_add repl_sub rep_repl : x25519.

(** [BB + 121666 E] for [AA + 121665 E]. *)
Lemma eqp_z2 AA BB : eqp (fmul (fsub AA BB) (fadd BB (121666 * fsub AA BB)))
  (fmul (fsub AA BB) (fadd AA (fmul 121665 (fsub AA BB)))).
Proof.
  rewrite (eqp_fmul _ (fadd BB _)), (eqp_fmul _ (fadd AA _)), !eqp_fadd, (eqp_fmul 121665), !eqp_fsub.
  unfold eqp. f_equal. ring.
Qed.

Lemma ladder_step_spec x1 v1 b st s : rep x1 v1 -> rep_ladder st s ->
  rep_ladder (ladder_step x1 (Z.b2z b) st) (rfc_step v1 b s).
Proof.
  intros H1 [Hx2 Hz2 Hx3 Hz3 Hs]. unfold ladder_step, rfc_step. rewrite Hs, b2z_lxor.
  destruct (rep_swap (xorb (rswap s) b) _ _ _ _ Hx2 Hx3) as [Ha Hb].
  destruct (rep_swap (xorb (rswap s) b) _ _ _ _ Hz2 Hz3) as [Hc Hd].
  destruct (fe_cswap (x2 st) _ _) as [fx2 fx3], (fe_cswap (z2 st) _ _) as [fz2 fz3].
  destruct (cond_swap _ (rx2 s) _) as [vx2 vx3], (cond_swap _ (rz2 s) _) as [vz2 vz3]. simpl in *.
  split; simpl; try done; unfold fe_mul_ttt, fe_mul_tll, fe_mul_impl, fe_sq_tl.
  - auto 12 with x25519.
  - eapply rep_eqp.
    { pose proof (rep_sq _ _ (repl_sub _ _ _ _ Ha Hc)) as HBB. pose proof (rep_sq _ _ (repl_add _ _ _ _ Ha Hc)) as HAA.
      pose proof (repl_sub _ _ _ _ HAA HBB) as HE.
      exact (rep_mul _ _ _ _ HE (repl_add _ _ _ _ HBB (rep_mul121666 _ _ HE))). }
    apply eqp_z2.
  - auto 12 with x25519.
  - auto 12 with x25519.
Qed.

Lemma scalar_bit_spec e pos : bytes e -> 0 <= pos ->
  scalar_bit e pos = Z.b2z (Z.testbit (le_decode e) pos).
Proof.
  intros He Hp. unfold scalar_bit.
  rewrite Z.land_comm. change 1 with (Z.ones 1). rewrite Z.land_ones, Z.shiftr_div_pow2 by (try apply Z.land_nonneg; lia).
  change (2 ^ 1) with 2. change 7 with (Z.ones 3). rewrite Z.land_ones by lia. change (2 ^ 3) with 8.
  rewrite <- Z.testbit_spec' by (apply Z.mod_pos_bound; lia). f_equal.
  revert pos Hp. induction e as [|x e IH]; intros pos Hp.
  - destruct (Z.to_nat _); change (le_decode []) with 0; by rewrite !Z.testbit_0_l.
  - apply Forall_cons in He as [Hx He]. rewrite le_decode_cons.
    destruct (Z.ltb_spec pos 8).
    + rewrite (Z.div_small pos 8), (Z.mod_small pos 8) by lia. simpl.
      symmetry. rewrite <- (Z.mod_pow2_bits_low _ 8) by lia. change (2 ^ 8) with 256.
      rewrite (Z.mul_comm 256), Z_mod_plus_full. rewrite Z.mod_small by (unfold byte in Hx; lia). done.
    + replace pos with ((pos - 8) + 1 * 8) at 1 2 by lia. rewrite Z.div_add, Z_mod_plus_full by lia.
      replace (Z.to_nat ((pos - 8) / 8 + 1)) with (S (Z.to_nat ((pos - 8) / 8))) by (pose proof (Z.div_pos (pos - 8) 8); lia).
      simpl. rewrite IH by (done || lia). replace pos with ((pos - 8) + 8) at 2 by lia.
      rewrite <- Z.div_pow2_bits by lia. change (2 ^ 8) with 256. f_equal.
      rewrite (Z.mul_comm 256), Z.div_add by lia. rewrite Z.div_small by (unfold byte in Hx; lia). lia.
Qed.

Lemma ladder_loop_spec e x1 v1 n : bytes e -> rep x1 v1 -> forall st s, rep_ladder st s ->
  rep_ladder (ladder_loop e x1 n st) (rfc_ladder (le_decode e) v1 n s).
Proof.
  intros He H1. induction n as [|n IH]; intros st s Hst; simpl; [done|].
  rewrite scalar_bit_spec by (done || lia). by apply IH, ladder_step_spec.
Qed.

(** ** Inversion *)

Lemma rep_pow_mul f g v a b : rep f (v ^ a) -> rep g (v ^ b) -> 0 <= a -> 0 <= b ->
  rep (fe_mul_ttt f g) (v ^ (a + b)).
Proof.
  intros Hf Hg ? ?. eapply rep_eqp; [apply rep_mul; apply rep_repl; eassumption|].
  by rewrite eqp_fmul, Z.pow_add_r.
Qed.

Lemma rep_pow_sq f v a : rep f (v ^ a) -> 0 <= a -> rep (fe_sq_tt f) (v ^ (a * 2)).
Proof.
  intros Hf ?. eapply rep_eqp; [apply rep_sq, rep_repl; eassumption|].
  rewrite eqp_fmul, <- Z.pow_add_r by done. by replace (a + a) with (a * 2) by lia.
Qed.

Lemma rep_sq_times n f v a : rep f (v ^ a) -> 0 <= a -> rep (fe_sq_times n f) (v ^ (a * 2 ^ (Z.of_nat n + 1))).
Proof.
  intros Hf Ha. unfold fe_sq_times. induction n as [|n IH]; simpl Nat.iter.
  - by apply rep_pow_sq.
  - replace (Z.of_nat (S n) + 1) with (Z.succ (Z.of_nat n + 1)) by lia. rewrite Z.pow_succ_r by lia.
    replace (a * (2 * 2 ^ (Z.of_nat n + 1))) with (a * 2 ^ (Z.of_nat n + 1) * 2) by lia.
    apply rep_pow_sq; [done|]. apply Z.mul_nonneg_nonneg; [done | apply Z.pow_nonneg; lia].
Qed.

(** [n + 1] squarings shift the ones of the exponent, the multiplication fills
    in more. *)
Lemma rep_ones f g v n k : rep f (v ^ (2 ^ k - 1)) -> rep g (v ^ (2 ^ (Z.of_nat n + 1) - 1)) -> 0 <= k ->
  rep (fe_mul_ttt (fe_sq_times n f) g) (v ^ (2 ^ (k + (Z.of_nat n + 1)) - 1)).
Proof.
  intros Hf Hg Hk.
  assert (Hp : 0 < 2 ^ k /\ 0 < 2 ^ (Z.of_nat n + 1)) by (clear - Hk; split; apply Z.pow_pos_nonneg; lia).
  assert (E : 2 ^ (k + (Z.of_nat n + 1)) - 1 =
    (2 ^ k - 1) * 2 ^ (Z.of_nat n + 1) + (2 ^ (Z.of_nat n + 1) - 1)).
  { clear - Hk. rewrite Z.pow_add_r by lia. lia. }
  rewrite E. apply rep_pow_mul; [apply rep_sq_times; [done|] | done | |]; clear - Hp; nia.
Qed.

(** The chain of squarings and multiplications raises to [p - 2]. *)
Lemma fe_invert_spec z v : rep z v -> rep (fe_invert z) (v ^ (p25519 - 2)).
Proof.
  intros Hz. assert (Hz1 : rep z (v ^ 1)) by (by rewrite Z.pow_1_r). clear Hz.
  unfold fe_invert, fe_copy_lt, fe_loose_invert. cbv zeta.
  change fe_mul_tlt with fe_mul_ttt. change fe_sq_tl with fe_sq_tt.
  assert (H0 : rep (fe_sq_tt z) (v ^ 2)) by (by apply (rep_pow_sq z v 1)).
  set (t0 := fe_sq_tt z) in *. clearbody t0.
  assert (H1 : rep (fe_mul_ttt z (fe_sq_times 1 t0)) (v ^ 9)).
  { by apply (rep_pow_mul _ _ v 1 8); [..|done|done]; [|apply (rep_sq_times 1 t0 v 2)]. }
  set (t1 := fe_mul_ttt z _) in *. clearbody t1.
  assert (H2 : rep (fe_mul_ttt t0 t1) (v ^ 11)) by (by apply (rep_pow_mul _ _ v 2 9)).
  set (t2 := fe_mul_ttt t0 t1) in *. clearbody t2.
  assert (H3 : rep (fe_mul_ttt t1 (fe_sq_tt t2)) (v ^ (2 ^ 5 - 1))).
  { by apply (rep_pow_mul _ _ v 9 22); [..|done|done]; [|apply (rep_pow_sq _ v 11)]. }
  set (t3 := fe_mul_ttt t1 _) in *. clearbody t3.
  pose proof (rep_ones _ _ v 4 5 H3 H3 ltac:(discriminate)) as H4.
  set (t4 := fe_mul_ttt (fe_sq_times 4 t3) t3) in *. clearbody t4.
  pose proof (rep_ones _ _ v 9 10 H4 H4 ltac:(discriminate)) as H5.
  set (t5 := fe_mul_ttt (fe_sq_times 9 t4) t4) in *. clearbody t5.
  pose proof (rep_ones _ _ v 19 20 H5 H5 ltac:(discriminate)) as H6.
  set (t6 := fe_mul_ttt (fe_sq_times 19 t5) t5) in *. clearbody t6.
  pose proof (rep_ones _ _ v 9 40 H6 H4 ltac:(discriminate)) as H7.
  set (t7 := fe_mul_ttt (fe_sq_times 9 t6) t4) in *. clearbody t7.
  pose proof (rep_ones _ _ v 49 50 H7 H7 ltac:(discriminate)) as H8.
  set (t8 := fe_mul_ttt (fe_sq_times 49 t7) t7) in *. clearbody t8.
  pose proof (rep_ones _ _ v 99 100 H8 H8 ltac:(discriminate)) as H9.
  set (t9 := fe_mul_ttt (fe_sq_times 99 t8) t8) in *. clearbody t9.
  pose proof (rep_ones _ _ v 49 200 H9 H7 ltac:(discriminate)) as H10.
  set (t10 := fe_mul_ttt (fe_sq_times 49 t9) t7) in *. clearbody t10.
  change (p25519 - 2) with ((2 ^ 250 - 1) * 2 ^ (Z.of_nat 4 + 1) + 11).
  apply rep_pow_mul; [by apply rep_sq_times | done | discriminate | discriminate].
Qed.

(** ** Decoding the inputs *)

Lemma le_decode_snoc l x : le_decode (l ++ [x]) = le_decode l + 256 ^ len l * x.
Proof.
  induction l as [|y l IH]; [simpl app; rewrite le_decode_cons; change (le_decode []) with 0; simpl; lia|].
  simpl app. rewrite !le_decode_cons, IH, length_cons, Nat2Z.inj_succ, Z.pow_succ_r by lia. lia.
Qed.

Lemma le_decode_range l : bytes l -> 0 <= le_decode l < 256 ^ len l.
Proof.
  induction 1 as [|x l Hx Hl IH]; [by simpl|].
  rewrite le_decode_cons, length_cons, Nat2Z.inj_succ, Z.pow_succ_r by lia. unfold byte in Hx. lia.
Qed.

(** The last byte of a list of 32. *)
Lemma last_byte (s : list Z) : length s = 32%nat -> exists l x, s = l ++ [x] /\ length l = 31%nat.
Proof.
  intros Hl. destruct s as [|x s _] using rev_ind; [done|]. exists s, x.
  rewrite length_app in Hl. simpl in Hl. split; [done|lia].
Qed.

Lemma fe_frombytes_spec s : bytes s -> length s = 32%nat -> rep (fe_frombytes s) (decodeUCoordinate s).
Proof.
  intros Hb Hl. destruct (last_byte s Hl) as (l & x & -> & Hl').
  apply Forall_app in Hb as [Hb [Hx _]%Forall_cons].
  unfold fe_frombytes, fe_frombytes_strict, decodeUCoordinate.
  assert (E : <[31%nat := Z.land (nth 31 (l ++ [x]) 0) 127]> (l ++ [x]) = l ++ [x mod 128]).
  { rewrite app_nth2, Hl' by lia. rewrite insert_app_r_alt, Hl' by lia. simpl.
    change 127 with (Z.ones 7). by rewrite Z.land_ones. }
  assert (Hm : 0 <= x mod 128 < 128) by (apply Z.mod_pos_bound; lia).
  rewrite E. destruct (from_bytes_spec (l ++ [x mod 128])) as [Ht Hv].
  - apply Forall_app; split; [done|]. constructor; [unfold byte; lia | done].
  - rewrite length_app; simpl; lia.
  - rewrite app_nth2, Hl' by lia. simpl. lia.
  - split; [done|]. rewrite Hv, !le_decode_snoc, Hl'. change (256 ^ Z.of_nat 31) with (2 ^ 248).
    pose proof (le_decode_range l Hb) as Hr. rewrite Hl' in Hr. change (256 ^ Z.of_nat 31) with (2 ^ 248) in Hr.
    unfold eqp. f_equal. apply (Z.mod_unique _ _ (x / 128)); [lia|]. pose proof (Z.div_mod x 128). lia.
Qed.

Lemma clamp_bytes k : bytes k -> bytes (clamp k).
Proof.
  intros Hb. assert (H : forall l i, bytes l -> byte (nth i l 0)).
  { intros l i Hl. destruct (nth_byte l i Hl). unfold word. lia. }
  unfold clamp, bytes. assert (bytes (<[0%nat := Z.land (nth 0 k 0) 248]> k)).
  { apply Forall_insert; [done | apply word_land; [lia | by apply H]]. }
  apply Forall_insert; [done|]. apply word_lor; [lia | apply word_land; [lia | by apply H] | by vm_compute].
Qed.

(** The bits of the first and of the last byte that the masks keep. *)
Lemma clamp_ends x : byte x -> Z.land x 248 = 8 * (x / 8) /\ Z.lor (Z.land x 127) 64 = 64 + x mod 64.
Proof.
  intros Hx. pose proof (all_from_spec 256 0 (fun x =>
    (Z.land x 248 =? 8 * (x / 8)) && (Z.lor (Z.land x 127) 64 =? 64 + x mod 64)) x ltac:(vm_compute; reflexivity) Hx) as E.
  apply andb_true_iff in E as [E1 E2]. split; by apply Z.eqb_eq.
Qed.

(** The masks of the code make the number that the RFC decodes. *)
Lemma clamp_spec k : bytes k -> length k = 32%nat -> le_decode (clamp k) = decodeScalar25519 k.
Proof.
  intros Hb Hl. destruct (last_byte k Hl) as (l & y & -> & Hl'). destruct l as [|x l]; [done|].
  apply Forall_app in Hb as [[Hx Hb]%Forall_cons [Hy _]%Forall_cons]. injection Hl' as Hl'.
  assert (E : clamp ((x :: l) ++ [y]) = Z.land x 248 :: l ++ [Z.lor (Z.land y 127) 64]).
  { unfold clamp. cbn [app nth]. change (<[0%nat:=Z.land x 248]> (x :: l ++ [y])) with (Z.land x 248 :: l ++ [y]). cbn [nth].
    rewrite app_nth2, Hl' by lia. change (<[31%nat:=?v]> (?a :: ?q)) with (a :: <[30%nat:=v]> q). rewrite insert_app_r_alt, Hl' by lia. done. }
  rewrite E. destruct (clamp_ends x Hx) as [-> _], (clamp_ends y Hy) as [_ ->]. unfold decodeScalar25519.
  cbn [app]. rewrite !le_decode_cons, !le_decode_snoc, Hl'. change (256 ^ Z.of_nat 30) with (2 ^ 240).
  pose proof (le_decode_range l Hb) as Hr. rewrite Hl' in Hr. change (256 ^ Z.of_nat 30) with (2 ^ 240) in Hr.
  pose proof (Z.div_mod x 8). pose proof (Z.mod_pos_bound x 8). pose proof (Z.div_mod y 64). pose proof (Z.mod_pos_bound y 64). unfold byte in *.
  replace ((x + 256 * (le_decode l + 2 ^ 240 * y)) / 8) with (x / 8 + 32 * le_decode l + 2 ^ 245 * y) by (apply (Z.div_unique _ _ _ (x mod 8)); lia).
  replace ((x / 8 + 32 * le_decode l + 2 ^ 245 * y) mod 2 ^ 251) with (x / 8 + 32 * le_decode l + 2 ^ 245 * (y mod 64))
    by (apply (Z.mod_unique _ _ (y / 64)); lia). lia.
Qed.

(** ** The theorem *)

Lemma finv_spec a : eqp (finv a) (a ^ (p25519 - 2)).
Proof. unfold finv. rewrite Zpow_mod_correct by (by vm_compute). apply eqp_mod. Qed.

Lemma rep_fe_1 : rep fe_1 1 /\ rep fe_0 0.
Proof. by repeat split; vm_compute. Qed.

Lemma scalar_mult_spec k u : bytes k -> length k = 32%nat -> bytes u -> length u = 32%nat ->
  let out := x25519_scalar_mult_generic k u in
  bytes out /\ length out = 32%nat /\ le_decode out = rfc_x25519 k u.
Proof.
  intros Hk Hlk Hu Hlu. pose proof (fe_frombytes_spec u Hu Hlu) as H1. destruct rep_fe_1 as [R1 R0].
  unfold x25519_scalar_mult_generic, rfc_x25519. rewrite <- clamp_spec by done.
  assert (Hl : rep_ladder (ladder_loop (clamp k) (fe_frombytes u) 255 (mk_ladder fe_1 fe_0 (fe_copy (fe_frombytes u)) fe_1 0))
    (rfc_ladder (le_decode (clamp k)) (decodeUCoordinate u) 255 (mk_xz 1 0 (decodeUCoordinate u) 1 false))).
  { apply ladder_loop_spec; [by apply clamp_bytes | done|]. by split. }
  set (st := ladder_loop _ _ _ _) in *. set (s := rfc_ladder _ _ _ _) in *. clearbody st s.
  destruct Hl as [Hx2 Hz2 Hx3 Hz3 Hs]. rewrite Hs.
  destruct (rep_swap (rswap s) _ _ _ _ Hx2 Hx3) as [Ha _], (rep_swap (rswap s) _ _ _ _ Hz2 Hz3) as [Hc _].
  destruct (fe_cswap (x2 st) _ _) as [fx2 fx3], (fe_cswap (z2 st) _ _) as [fz2 fz3].
  destruct (cond_swap _ (rx2 s) _) as [vx2 vx3], (cond_swap _ (rz2 s) _) as [vz2 vz3]. simpl fst in *.
  assert (Hr : rep (fe_mul_ttt fx2 (fe_invert fz2)) (fmul vx2 (finv vz2))).
  { eapply rep_eqp; [apply rep_mul; apply rep_repl; [exact Ha | by apply fe_invert_spec]|].
    by rewrite !eqp_fmul, finv_spec. }
  destruct Hr as [Ht He]. destruct (to_bytes_spec _ Ht) as (? & ? & Hd). split_and!; [done..|].
  unfold fe_tobytes. rewrite Hd. unfold eqp in He. rewrite He. unfold fmul. by rewrite Z.mod_mod.
Qed.

(** The routine is the portable one: the library was built without the routines in
    assembly language, or the processor lacks what they need. *)
Definition portable (build : x25519_build) : bool :=
  match build with
  | BORINGSSL_X25519_PORTABLE => true
  | BORINGSSL_X25519_NEON neon _ => negb neon
  | BORINGSSL_FE25519_ADX bmi1 bmi2 adx _ => negb bmi1 || negb bmi2 || negb adx
  end.

(** C38: X25519 computes the function of RFC 7748 wherever the portable routine with
    64-bit limbs runs, that is without NEON, or without BMI1, BMI2 or ADX, or in a
    build without the routines in assembly language: for a private key and a peer value of 32 bytes
    the shared key is the 32-byte little-endian encoding of the reference result,
    whose scalar has the bits 3 to 253 of the private key and bit 254, and the call
    succeeds exactly when that result is not zero. *)
Theorem x25519_is_rfc7748 build k u : portable build = true ->
  bytes k -> length k = 32%nat -> bytes u -> length u = 32%nat ->
  X25519 build k u = (le_encode 32 (rfc_x25519 k u), negb (rfc_x25519 k u =? 0)).
Proof.
  intros Hp Hk Hlk Hu Hlu. destruct (scalar_mult_spec k u Hk Hlk Hu Hlu) as (Hb & Hl & Hd).
  assert (Hg : x25519_scalar_mult build k u = x25519_scalar_mult_generic k u).
  { destruct build as [|[]|[] [] []]; first [discriminate Hp | unfold x25519_scalar_mult; cbn [andb]; reflexivity]. }
  unfold X25519. rewrite Hg. set (out := x25519_scalar_mult_generic k u) in *. clearbody out.
  assert (Ho : out = le_encode 32 (rfc_x25519 k u)).
  { rewrite <- Hd. unfold le_encode, le_decode. rewrite <- Hl, <- (length_reverse out).
    rewrite be_encode_decode by (by apply bytes_reverse). by rewrite reverse_involutive. }
  rewrite <- Hd in Ho |- *. f_equal; [done|]. f_equal.
  destruct (Z.eqb_spec (CRYPTO_memcmp (replicate 32 0) out) 0) as [E|E], (Z.eqb_spec (le_decode out) 0) as [E'|E']; try done.
  - apply CRYPTO_memcmp_zero in E; [|done]. by rewrite <- E in E'.
  - exfalso. apply E, CRYPTO_memcmp_zero; [done|]. by rewrite Ho, E'.
Qed.

Lemma x25519_is_rfc7748_witness :
  X25519 (BORINGSSL_X25519_NEON false (fun k _ => k)) (replicate 32 1) (9 :: replicate 31 0) =
    (le_encode 32 (rfc_x25519 (replicate 32 1) (9 :: replicate 31 0)),
     negb (rfc_x25519 (replicate 32 1) (9 :: replicate 31 0) =? 0)).
Proof.
  apply (x25519_is_rfc7748 (BORINGSSL_X25519_NEON false (fun k _ => k)) (replicate 32 1) (9 :: replicate 31 0)); try done; [by apply bytes_replicate|].
  constructor; [done | by apply bytes_replicate].
Defined.

(** The first test vector of section 5.2 of RFC 7748. *)
Example rfc7748_vector :
  rfc_x25519
    [165; 70; 227; 107; 240; 82; 124; 157; 59; 22; 21; 75; 130; 70; 94; 221; 98; 20; 76; 10; 193; 252; 90; 24; 80; 106; 34; 68; 186; 68; 154; 196]
    [230; 219; 104; 103; 88; 48; 48; 219; 53; 148; 193; 164; 36; 177; 95; 124; 114; 102; 36; 236; 38; 179; 53; 59; 16; 169; 3; 166; 208; 171; 28; 76] =
  le_decode
    [195; 218; 85; 55; 157; 233; 198; 144; 142; 148; 234; 77; 242; 141; 8; 79; 50; 236; 207; 3; 73; 28; 113; 247; 84; 180; 7; 85; 119; 162; 133; 82].
Proof. by vm_compute. Qed.

(** ** Key pairs *)

Lemma clamp_masks x : byte x ->
  Z.land (u8 (Z.lor x (Z.lnot 248))) 248 = Z.land x 248 /\
  Z.lor (Z.land (u8 (Z.lor (u8 (Z.land x (Z.lnot 64))) (Z.lnot 127))) 127) 64 = Z.lor (Z.land x 127) 64.
Proof.
  intros Hx. pose proof (all_from_spec 256 0 (fun x =>
    (Z.land (u8 (Z.lor x (Z.lnot 248))) 248 =? Z.land x 248) &&
    (Z.lor (Z.land (u8 (Z.lor (u8 (Z.land x (Z.lnot 64))) (Z.lnot 127))) 127) 64 =? Z.lor (Z.land x 127) 64))
    x ltac:(vm_compute; reflexivity) Hx) as E.
  apply andb_true_iff in E as [E1 E2]. split; by apply Z.eqb_eq.
Qed.

(** The bits [X25519_keypair] sets in a private key, so that a peer that
    forgets to clamp fails, are bits that clamping overwrites: every scalar
    multiplication with the key is the one with the random bytes it was made
    from. *)
Theorem keypair_bits_are_masked public random point :
  bytes random -> length random = 32%nat ->
  x25519_scalar_mult_generic (snd (X25519_keypair public random)) point =
  x25519_scalar_mult_generic random point.
Proof.
  intros Hb Hl. unfold x25519_scalar_mult_generic.
  enough (E : clamp (snd (X25519_keypair public random)) = clamp random) by (by rewrite E).
  assert (B : forall i, byte (nth i random 0)).
  { intros i. destruct (nth_byte random i Hb). unfold word. lia. }
  do 32 (destruct random as [|? random]; [done|]). destruct random; [|done].
  unfold clamp, X25519_keypair. cbn [snd insert list_insert nth].
  destruct (clamp_masks _ (B 0%nat)) as [E0 _], (clamp_masks _ (B 31%nat)) as [_ E31]. cbn [nth] in E0, E31.
  by rewrite E0, E31.
Qed.

Lemma keypair_bits_are_masked_witness :
  x25519_scalar_mult_generic (snd (X25519_keypair (fun k => k) (replicate 32 5))) (9 :: replicate 31 0) =
  x25519_scalar_mult_generic (replicate 32 5) (9 :: replicate 31 0).
Proof. apply (keypair_bits_are_masked (fun k => k) (replicate 32 5)); [by apply bytes_replicate | done]. Defined.
