(* ===== verification/FfiAbi.v ===== *)
(** * The C interface: types, buffers and calls

    crates/ffi/include/meta_rust.h declares the interface a host program links
    against, crates/ffi/src/lib.rs implements it.  This file has the types of
    the header, the calls a host can make, and the helpers every function goes
    through: [input], [output] and the error boundary. *)

From stdpp Require Export gmap strings.
From stdpp Require Import pretty.
From S2P Require Import Prelude.
Local Open Scope Z_scope.

(** ** Types of the header *)

(** [enum { META_OK = 0, META_ERROR = 1, ... }]. *)
Definition META_OK : Z := 0.
Definition META_ERROR : Z := 1.
Definition META_WOULD_BLOCK : Z := 2.
Definition META_BUFFER_TOO_SMALL : Z := 3.

Definition meta_handle : Type := Z.

(** A function pointer or a pointer to an object, by its address; 0 is null. *)
Definition pointer : Type := Z.

Record meta_hooks_v1 := mk_hooks {
  size : Z; version : Z; context : pointer; protect_socket : pointer; packet_ready : pointer
}.

(** [sizeof(meta_hooks_v1)] on a 64-bit target: two 32-bit words and three
    pointers. *)
Definition sizeof_hooks : Z := 4 + 4 + 8 + 8 + 8.

(** Text in UTF-8. *)
Definition text (s : string) : list Z := (fun c => Z.of_N (Ascii.N_of_ascii c)) <$> String.list_ascii_of_string s.

(** An input buffer: the bytes the pointer points to ([None] for a null
    pointer) and the length passed with it. *)
Record in_buffer := mk_in { in_data : option (list Z); in_len : Z }.

(** An output buffer: the memory the pointer points to, its capacity, and the
    length field ([None] for null pointers). *)
Record out_buffer := mk_out { out_data : option (list Z); capacity : Z; out_length : option Z }.

(** The calls, with their parameters; a handle is an unsigned 64-bit number. *)
Inductive call :=
  | meta_abi_version_v1
  | meta_create_v1 (config : in_buffer) (hooks : option meta_hooks_v1) (out : option Z)
  | meta_start_v1 (handle : Z)
  | meta_stop_v1 (handle : Z)
  | meta_destroy_v1 (handle : Z)
  | meta_close_connections_v1 (handle : Z)
  | meta_network_changed_v1 (handle : Z)
  | meta_set_tun_fd_v1 (handle : Z) (fd : Z)
  | meta_error_v1 (out : out_buffer)
  | meta_snapshot_v1 (handle : Z) (out : out_buffer)
  | meta_update_v1 (handle : Z) (json : in_buffer)
  | meta_select_v1 (handle : Z) (group node : in_buffer)
  | meta_write_packet_v1 (handle : Z) (packet : in_buffer)
  | meta_read_packet_v1 (handle : Z) (out : out_buffer).

(** The memory of the caller a call can write: the handle or the buffer. *)
Inductive reply :=
  | NoReply
  | HandleOut (out : option Z)
  | BufferOut (out : out_buffer).

(** The handle a call is about. *)
Definition call_handle (c : call) : option Z :=
  match c with
  | meta_abi_version_v1 | meta_create_v1 _ _ _ | meta_error_v1 _ => None
  | meta_start_v1 h | meta_stop_v1 h | meta_destroy_v1 h | meta_close_connections_v1 h
  | meta_network_changed_v1 h | meta_set_tun_fd_v1 h _ | meta_snapshot_v1 h _
  | meta_update_v1 h _ | meta_select_v1 h _ _ | meta_write_packet_v1 h _
  | meta_read_packet_v1 h _ => Some h
  end.

(** The lifecycle functions, which a callback must not call. *)
Definition lifecycle (c : call) : bool :=
  match c with
  | meta_create_v1 _ _ _ | meta_start_v1 _ | meta_stop_v1 _ | meta_destroy_v1 _
  | meta_network_changed_v1 _ | meta_set_tun_fd_v1 _ _ => true
  | _ => false
  end.

(** [meta_config::Mode]. *)
Inductive Mode := Rule | Global | Direct.

(** ** Results *)

(** [anyhow::Result], and a panic. *)
Inductive outcome (A : Type) := Ok (a : A) | Err (e : list Z) | Panicked.
Arguments Ok {A} a.
Arguments Err {A} e.
Arguments Panicked {A}.

Definition obind {A B} (o : outcome A) (f : A -> outcome B) : outcome B :=
  match o with Ok a => f a | Err e => Err e | Panicked => Panicked end.

Notation "'let!' x := m 'in' k" := (obind m (fun x => k))
  (at level 10, x name, m at level 100, k at level 200).
Notation "'let!' ' p := m 'in' k" := (obind m (fun p => k))
  (at level 10, p pattern, m at level 100, k at level 200).

Definition ensure (b : bool) (msg : string) : outcome unit := if b then Ok tt else Err (text msg).

Lemma Ok_inj {A} (a b : A) : Ok a = Ok b -> a = b.
Proof. congruence. Qed.

Lemma obind_Ok {A B} (o : outcome A) (f : A -> outcome B) b :
  obind o f = Ok b <-> exists a, o = Ok a /\ f a = Ok b.
Proof. destruct o; naive_solver. Qed.

Lemma ensure_Ok b msg u : ensure b msg = Ok u <-> b = true.
Proof. destruct b, u; naive_solver. Qed.

(** [boundary]: the status, and the error text to record. *)
Definition boundary (o : outcome Z) : Z * option (list Z) :=
  match o with
  | Ok status => (status, None)
  | Err e => (META_ERROR, Some e)
  | Panicked => (META_ERROR, Some (text "panic contained at C ABI boundary"))
  end.

(** ** Buffers *)

Definition LIMIT : Z := 16 * 1024 * 1024.

Definition input (b : in_buffer) : outcome (list Z) :=
  let! _ := ensure ((in_len b <=? LIMIT) && ((in_len b =? 0) || bool_decide (in_data b <> None)))
              "invalid input buffer" in
  Ok (if in_len b =? 0 then [] else take (Z.to_nat (in_len b)) (default [] (in_data b))).

(** [output]: the status and the memory of the caller afterwards. *)
Definition output (bytes : list Z) (o : out_buffer) : outcome Z * out_buffer :=
  match out_length o with
  | None => (Err (text "output length is required"), o)
  | Some _ =>
      let o := mk_out (out_data o) (capacity o) (Some (len bytes)) in
      if capacity o <? len bytes then (Ok META_BUFFER_TOO_SMALL, o)
      else
        match bytes, out_data o with
        | [], _ => (Ok META_OK, o)
        | _, None => (Err (text "invalid output buffer"), o)
        | _, Some mem => (Ok META_OK, mk_out (Some (mem_write mem 0 bytes)) (capacity o) (out_length o))
        end
  end.

(** What the host has to guarantee for the pointers it passes. *)
Definition in_valid (b : in_buffer) : Prop :=
  0 <= in_len b /\ match in_data b with None => True | Some d => bytes d /\ in_len b <= len d end.
Definition out_valid (o : out_buffer) : Prop :=
  0 <= capacity o /\ match out_data o with None => True | Some m => capacity o <= len m end.

(** UTF-8 as [std::str::from_utf8] accepts it: the character at the front, with
    its number of bytes, or [Utf8Error::error_len]. *)
Inductive utf8_front := Width (n : nat) | Invalid (error_len : nat) | Incomplete.
Definition is_cont (lo hi b : Z) : bool := (lo <=? b) && (b <=? hi).

(** The continuation bytes, the first in a range of its own; [n] bytes are
    accepted so far. *)
Fixpoint continuation (n : nat) (ranges : list (Z * Z)) (s : list Z) : utf8_front :=
  match ranges, s with
  | [], _ => Width n
  | _, [] => Incomplete
  | (lo, hi) :: ranges, b :: s => if is_cont lo hi b then continuation (S n) ranges s else Invalid n
  end.
Definition utf8_head (a : Z) (s : list Z) : utf8_front :=
  if a <? 0x80 then Width 1
  else if is_cont 0xc2 0xdf a then continuation 1 [(0x80, 0xbf)] s
  else if is_cont 0xe0 0xef a then
    continuation 1 [(if a =? 0xe0 then 0xa0 else 0x80, if a =? 0xed then 0x9f else 0xbf); (0x80, 0xbf)] s
  else if is_cont 0xf0 0xf4 a then
    continuation 1 [(if a =? 0xf0 then 0x90 else 0x80, if a =? 0xf4 then 0x8f else 0xbf);
                    (0x80, 0xbf); (0x80, 0xbf)] s
  else Invalid 1.

Definition decimal (n : nat) : string := pretty (N.of_nat n).
Fixpoint utf8_check (fuel index : nat) (s : list Z) : outcome unit :=
  match fuel, s with
  | _, [] | O, _ => Ok tt
  | S fuel, a :: rest =>
      match utf8_head a rest with
      | Width n => utf8_check fuel (index + n) (drop n s)
      | Invalid n => Err (text ("invalid utf-8 sequence of " +:+ decimal n +:+ " bytes from index " +:+ decimal index))
      | Incomplete => Err (text ("incomplete utf-8 byte sequence from index " +:+ decimal index))
      end
  end.
Definition from_utf8 (s : list Z) : outcome (list Z) :=
  let! _ := utf8_check (length s) 0 s in Ok s.

Example from_utf8_ex :
  from_utf8 [0x68; 0xc3; 0xa9; 0xe2; 0x82; 0xac] = Ok [0x68; 0xc3; 0xa9; 0xe2; 0x82; 0xac]
  /\ from_utf8 [0x68; 0xed; 0xa0; 0x80] = Err (text "invalid utf-8 sequence of 1 bytes from index 1")
  /\ from_utf8 [0xf0; 0x90; 0x80] = Err (text "incomplete utf-8 byte sequence from index 0").
Proof. vm_compute. done. Qed.
