(* ===== verification/FfiHost.v ===== *)
(** * The C interface: handles and threads

    crates/ffi/src/lib.rs and host.rs.  A [world] is the state of the library in
    a process: the registry of handles, the handles with their worker threads,
    channels and callbacks, and the thread-local variables.  [exec] runs a call
    up to the point where it returns or waits for a worker; [step] interleaves
    the calls of the host's threads with the workers, the callbacks they make
    and the packets they move. *)

From S2P Require Import Prelude FfiAbi.
Local Open Scope Z_scope.

(** Threads of the process. *)
Abbreviation tid := nat.

(** [serde_json::Value]. *)
Inductive json :=
  | JNull | JBool (b : bool) | JNumber (n : list Z) | JString (s : list Z)
  | JArray (l : list json) | JObject (fields : list (list Z * json)).

(** ** The core, as the interface uses it

    meta_config and meta_core behind the operations lib.rs and host.rs call.
    Operations that can fail after a change return the core as they leave it;
    [core_select] is given the outcome of writing its file.  [core_run] is one
    action of the core's own tasks. *)
Class CoreOps := {
  Config : Type;
  Core : Type;
  Config_parse : list Z -> outcome Config;
  tun_enable : Config -> bool;
  Core_new : Config -> outcome Core;
  core_select : Core -> outcome unit -> list Z -> list Z -> outcome unit * Core;
  core_update_policy : Core -> option Mode -> option (list (list Z)) -> outcome unit * Core;
  core_close_connections : Core -> Core;
  core_network_changed : Core -> Core;
  core_task : Type;
  core_run : Core -> core_task -> Core;
  core_snapshot : Core -> bool -> outcome (list Z);
  json_from_slice : list Z -> outcome json;
  mode_from_value : json -> outcome Mode;
  rules_from_value : json -> outcome (list (list Z))
}.

(** ** State *)

Inductive command := Start | NetworkChanged | SetFd.

(** The worker thread waits for a command, has received one, runs
    [start_inner] for the caller with a token, shuts down, or is gone (after a
    panic or not). *)
Inductive worker_state :=
  | Selecting
  | Handling (token : nat) (cmd : command)
  | Starting (token : nat)
  | Exiting
  | Exited (panicked : bool).

Section host.
Context `{CoreOps}.

(** [host_packets]: the [HostPackets] object exists, and with it the worker's
    ends of the packet channels. *)
Record handle := mk_handle {
  core : Core; tun : bool; protect : bool; notify : bool;
  stop : bool; started : bool; running : bool;
  commands : list (nat * command); worker : worker_state; taken : bool;
  host_packets : bool; packets : bool; queue_enabled : bool;
  packet_input : list (list Z); packet_output : list (list Z); pending : option (list Z);
  callbacks : list tid
}.

(** A blocked call: waiting for the reply to a command, or for the end of the
    worker. *)
Inductive wait :=
  | WaitReply (id : Z) (token : nat) (c : call) (answer : option (outcome unit))
  | WaitJoin (id : Z) (c : call).

Record world := mk_world {
  registry : gset Z; objects : gmap Z handle; next : Z; poisoned : bool;
  error_text : gmap nat (list Z); in_callback : gset nat;
  waiting : gmap nat wait; tokens : nat
}.

Definition initial : world := mk_world ∅ ∅ 1 false ∅ ∅ ∅ 0.

(** Updates of one field. *)
Definition set_core (h : handle) c := mk_handle c (tun h) (protect h) (notify h) (stop h) (started h)
  (running h) (commands h) (worker h) (taken h) (host_packets h) (packets h) (queue_enabled h)
  (packet_input h) (packet_output h) (pending h) (callbacks h).
Definition set_stop (h : handle) := mk_handle (core h) (tun h) (protect h) (notify h) true (started h)
  (running h) (commands h) (worker h) (taken h) (host_packets h) (packets h) (queue_enabled h)
  (packet_input h) (packet_output h) (pending h) (callbacks h).
Definition set_started (h : handle) b := mk_handle (core h) (tun h) (protect h) (notify h) (stop h) b
  (running h) (commands h) (worker h) (taken h) (host_packets h) (packets h) (queue_enabled h)
  (packet_input h) (packet_output h) (pending h) (callbacks h).
Definition set_running (h : handle) b := mk_handle (core h) (tun h) (protect h) (notify h) (stop h)
  (started h) b (commands h) (worker h) (taken h) (host_packets h) (packets h) (queue_enabled h)
  (packet_input h) (packet_output h) (pending h) (callbacks h).
Definition set_commands (h : handle) q := mk_handle (core h) (tun h) (protect h) (notify h) (stop h)
  (started h) (running h) q (worker h) (taken h) (host_packets h) (packets h) (queue_enabled h)
  (packet_input h) (packet_output h) (pending h) (callbacks h).
Definition set_worker (h : handle) s := mk_handle (core h) (tun h) (protect h) (notify h) (stop h)
  (started h) (running h) (commands h) s (taken h) (host_packets h) (packets h) (queue_enabled h)
  (packet_input h) (packet_output h) (pending h) (callbacks h).
Definition set_taken (h : handle) := mk_handle (core h) (tun h) (protect h) (notify h) (stop h)
  (started h) (running h) (commands h) (worker h) true (host_packets h) (packets h) (queue_enabled h)
  (packet_input h) (packet_output h) (pending h) (callbacks h).
Definition set_fd (h : handle) := mk_handle (core h) (tun h) (protect h) (notify h) (stop h)
  (started h) (running h) (commands h) (worker h) (taken h) false true false
  [] (packet_output h) (pending h) (callbacks h).
Definition set_packets (h : handle) i o p := mk_handle (core h) (tun h) (protect h) (notify h) (stop h)
  (started h) (running h) (commands h) (worker h) (taken h) (host_packets h) (packets h)
  (queue_enabled h) i o p (callbacks h).
Definition set_callbacks (h : handle) l := mk_handle (core h) (tun h) (protect h) (notify h) (stop h)
  (started h) (running h) (commands h) (worker h) (taken h) (host_packets h) (packets h)
  (queue_enabled h) (packet_input h) (packet_output h) (pending h) l.

Definition with_handle (w : world) (id : Z) (h : handle) : world :=
  mk_world (registry w) (<[id := h]> (objects w)) (next w) (poisoned w) (error_text w)
    (in_callback w) (waiting w) (tokens w).
Definition set_registry (w : world) r : world :=
  mk_world r (objects w) (next w) (poisoned w) (error_text w) (in_callback w) (waiting w) (tokens w).
Definition set_next (w : world) n p : world :=
  mk_world (registry w) (objects w) n p (error_text w) (in_callback w) (waiting w) (tokens w).
Definition set_waiting (w : world) m n : world :=
  mk_world (registry w) (objects w) (next w) (poisoned w) (error_text w) (in_callback w) m n.
Definition set_in_callback (w : world) s : world :=
  mk_world (registry w) (objects w) (next w) (poisoned w) (error_text w) s (waiting w) (tokens w).

(** [ERROR_TEXT] of thread [t]. *)
Definition record_error (w : world) (t : tid) (e : option (list Z)) : world :=
  match e with
  | None => w
  | Some e => mk_world (registry w) (objects w) (next w) (poisoned w) (<[t := e]> (error_text w))
                (in_callback w) (waiting w) (tokens w)
  end.

(** ** Calls *)

(** [handle(id)]: the registry is unusable after a panic under its lock. *)
Definition get_handle (w : world) (id : Z) : outcome handle :=
  if poisoned w then Panicked
  else match decide (id ∈ registry w), objects w !! id with
       | left _, Some h => Ok h
       | _, _ => Err (text "invalid or destroyed core handle")
       end.

Definition check_lifecycle (w : world) (t : tid) : outcome unit :=
  ensure (bool_decide (t ∉ in_callback w)) "lifecycle calls cannot reenter from host callbacks".

Definition check_packet_queue (h : handle) : outcome unit :=
  ensure (queue_enabled h) "host packet queue unavailable: TUN is disabled or uses an Android fd".

(** [HostHooks::new]: the callbacks given. *)
Definition HostHooks_new (hooks : meta_hooks_v1) : outcome (bool * bool) :=
  let! _ := ensure ((version hooks =? 1) && (size hooks =? sizeof_hooks))
              "unsupported host hooks version/size" in
  Ok (negb (protect_socket hooks =? 0), negb (packet_ready hooks =? 0)).

Variable android : bool.

(** [Handle::new]; [sys] is the outcome of creating the runtime and its
    threads. *)
Definition Handle_new (config : Config) (hooks : bool * bool) (sys : outcome unit) : outcome handle :=
  let! _ := ensure (negb android || fst hooks) "Android host must provide socket protection" in
  let! c := Core_new config in
  let! _ := sys in
  let tun := tun_enable config in
  Ok (mk_handle c tun (fst hooks) (snd hooks) false false false [] Selecting false tun tun tun
        [] [] None []).

(** [Vec::len], [u64::checked_add] of [meta_create_v1]. *)
Definition create (w : world) (t : tid) (sys : outcome unit) (config : in_buffer)
    (hooks : option meta_hooks_v1) (out : option Z) : outcome Z * option Z * world :=
  match out with
  | None => (Err (text "handle output is required"), None, w)
  | Some _ =>
      let o :=
        let! _ := check_lifecycle w t in
        let! data := input config in
        let! config := Config_parse data in
        let! hooks := match hooks with
                      | None => Ok (false, false)
                      | Some hooks =>
                          let! _ := ensure (size hooks =? sizeof_hooks) "unsupported host hooks size" in
                          HostHooks_new hooks
                      end in
        if poisoned w then Panicked
        else
          let! _ := ensure (Z.of_nat (base.size (registry w)) <? 16) "core handle capacity reached" in
          let! _ := ensure (next w + 1 <? 2 ^ 64) "core handle identifiers exhausted" in
          Ok (config, hooks) in
      match o with
      | Err e => (Err e, Some 0, w)
      | Panicked => (Panicked, Some 0, w)
      | Ok (config, hooks) =>
          let id := next w in
          match Handle_new config hooks sys with
          | Ok h =>
              let w := set_next (with_handle w id h) (id + 1) (poisoned w) in
              (Ok META_OK, Some id, set_registry w ({[id]} ∪ registry w))
          | Err e => (Err e, Some 0, set_next w (id + 1) (poisoned w))
          | Panicked => (Panicked, Some 0, set_next w (id + 1) true)
          end
      end
  end.

(** Where a call has got: it returned, or its thread is blocked. *)
Inductive progress := Returned (o : outcome Z) (r : reply) (w : world) | Blocked (w : world).

(** [Handle::command] up to [recv_timeout]. *)
Definition send_command (w : world) (t : tid) (id : Z) (cmd : command) (c : call) : progress :=
  match (let! h := get_handle w id in
         let! _ := check_lifecycle w t in
         let! _ := ensure (negb (stop h)) "core is stopped" in
         match worker h with
         | Exited _ => Err (text "core command queue closed or full: channel closed")
         | _ => let! _ := ensure (length (commands h) <? 4)%nat
                            "core command queue closed or full: no available capacity" in
                Ok h
         end) with
  | Ok h =>
      let k := tokens w in
      let w := with_handle w id (set_commands h (commands h ++ [(k, cmd)])) in
      Blocked (set_waiting w (<[t := WaitReply id k c None]> (waiting w)) (S k))
  | Err e => Returned (Err e) NoReply w
  | Panicked => Returned Panicked NoReply w
  end.

(** [Handle::shutdown] up to the [join]. *)
Definition begin_shutdown (w : world) (t : tid) (id : Z) (c : call) : progress :=
  match (let! h := get_handle w id in let! _ := check_lifecycle w t in Ok h) with
  | Ok h =>
      let w := with_handle w id (set_stop h) in
      Blocked (set_waiting w (<[t := WaitJoin id c]> (waiting w)) (tokens w))
  | Err e => Returned (Err e) NoReply w
  | Panicked => Returned Panicked NoReply w
  end.

(** An operation on the core of a handle. *)
Definition with_core (w : world) (id : Z) (h : handle) (r : outcome unit * Core) : progress :=
  Returned (let! _ := fst r in Ok META_OK) NoReply (with_handle w id (set_core h (snd r))).

Definition fails (w : world) {A} (o : outcome A) (k : A -> progress) : progress :=
  match o with
  | Ok a => k a
  | Err e => Returned (Err e) NoReply w
  | Panicked => Returned Panicked NoReply w
  end.

(** [meta_update_v1] before it reaches the core. *)
Definition parse_update (data : list Z) : outcome (option Mode * option (list (list Z))) :=
  let! value := json_from_slice data in
  match value with
  | JObject fields =>
      let! _ := ensure (forallb (fun f => bool_decide (f.1 = text "mode") || bool_decide (f.1 = text "rules"))
                          fields) "only mode and rules can update online" in
      let get k := snd <$> List.find (fun f => bool_decide (f.1 = k)) fields in
      let! mode := match get (text "mode") with
                   | None => Ok None | Some v => let! m := mode_from_value v in Ok (Some m) end in
      let! rules := match get (text "rules") with
                    | None => Ok None | Some v => let! r := rules_from_value v in Ok (Some r) end in
      Ok (mode, rules)
  | _ => Err (text "update must be an object")
  end.

(** [mpsc::channel(256)], the channels of packets. *)
Definition channel_capacity : Z := 256.
Definition write_packet (w : world) (id : Z) (p : in_buffer) : progress :=
  fails w (
    let! _ := ensure ((20 <=? in_len p) && (in_len p <=? 65535)) "invalid IP packet length" in
    let! packet := input p in
    let! _ := ensure (let v := Z.shiftr (nth 0 packet 0) 4 in (v =? 4) || (v =? 6)) "invalid IP version" in
    let! h := get_handle w id in
    let! _ := ensure (negb (stop h)) "core is stopped" in
    let! _ := check_packet_queue h in
    let! _ := ensure (tun h) "TUN is disabled" in
    Ok (packet, h)) (fun '(packet, h) =>
  if negb (host_packets h) then Returned (Err (text "packet channel closed")) NoReply w
  else if channel_capacity <=? len (packet_input h) then Returned (Ok META_WOULD_BLOCK) NoReply w
  else Returned (Ok META_OK) NoReply
         (with_handle w id (set_packets h (packet_input h ++ [packet]) (packet_output h) (pending h)))).

(** The packet to be returned and the queue without it. *)
Definition next_packet (h : handle) : option (list Z * list (list Z)) :=
  match pending h, packet_output h with
  | Some p, q => Some (p, q)
  | None, p :: q => Some (p, q)
  | None, [] => None
  end.

Definition is_ok (o : outcome Z) : bool := match o with Ok s => s =? META_OK | _ => false end.
Definition read_packet (w : world) (id : Z) (out : out_buffer) : progress :=
  match out_length out with
  | None => Returned (Err (text "output length is required")) (BufferOut out) w
  | Some _ =>
      let out := mk_out (out_data out) (capacity out) (Some 0) in
      match (let! h := get_handle w id in let! _ := check_packet_queue h in Ok h) with
      | Err e => Returned (Err e) (BufferOut out) w
      | Panicked => Returned Panicked (BufferOut out) w
      | Ok h =>
          match next_packet h with
          | None =>
              if host_packets h then Returned (Ok META_WOULD_BLOCK) (BufferOut out) w
              else Returned (Err (text "packet channel closed")) (BufferOut out) w
          | Some (p, q) =>
              let '(status, out) := output p out in
              Returned status (BufferOut out)
                (with_handle w id (set_packets h (packet_input h) q (if is_ok status then None else Some p)))
          end
      end
  end.

(** A call of thread [t]; [sys] is what the operating system answers where the
    call asks it. *)
Definition exec (w : world) (t : tid) (sys : outcome unit) (c : call) : progress :=
  match c with
  | meta_abi_version_v1 => Returned (Ok 1) NoReply w
  | meta_create_v1 config hooks out =>
      let '(o, out, w) := create w t sys config hooks out in Returned o (HandleOut out) w
  | meta_start_v1 id => send_command w t id Start c
  | meta_stop_v1 id | meta_destroy_v1 id => begin_shutdown w t id c
  | meta_close_connections_v1 id =>
      fails w (get_handle w id) (fun h => with_core w id h (Ok tt, core_close_connections (core h)))
  | meta_network_changed_v1 id => send_command w t id NetworkChanged c
  | meta_set_tun_fd_v1 id fd =>
      fails w (let! _ := ensure (0 <=? fd) "invalid TUN descriptor" in sys) (fun _ =>
        send_command w t id SetFd c)
  | meta_error_v1 out =>
      let '(o, out) := output (default [] (error_text w !! t)) out in Returned o (BufferOut out) w
  | meta_snapshot_v1 id out =>
      match (let! h := get_handle w id in core_snapshot (core h) (stop h)) with
      | Ok data => let '(o, out) := output data out in Returned o (BufferOut out) w
      | Err e => Returned (Err e) (BufferOut out) w
      | Panicked => Returned Panicked (BufferOut out) w
      end
  | meta_update_v1 id data =>
      fails w (let! data := input data in
               let! u := parse_update data in
               let! h := get_handle w id in Ok (u, h)) (fun '(mode, rules, h) =>
        with_core w id h (core_update_policy (core h) mode rules))
  | meta_select_v1 id group node =>
      fails w (let! h := get_handle w id in
               let! group := obind (input group) from_utf8 in
               let! node := obind (input node) from_utf8 in
               Ok (h, group, node)) (fun '(h, group, node) =>
        with_core w id h (core_select (core h) sys group node))
  | meta_write_packet_v1 id p => write_packet w id p
  | meta_read_packet_v1 id out => read_packet w id out
  end.
End host.
