(* ===== verification/FfiStep.v ===== *)
(** * The C interface: threads, workers and callbacks interleaved

    The calls of FfiHost.v run on any number of host threads, next to the worker
    thread of every handle ([Handle::new] of crates/ffi/src/host.rs), the tasks
    of its runtime and the callbacks they make.  [step] is one action of one
    thread, [run] a sequence of them with what it did.  A call is atomic up to
    the point where it waits: for the reply to a command, or for the worker to
    end.  What depends on time or on the operating system (a time-out, the
    outcome of opening listeners, a change of the core by its own tasks) can
    happen whenever the thread concerned is at the point in question. *)

From S2P Require Import Prelude FfiAbi FfiHost.
Local Open Scope Z_scope.

(** What a step does, as far as hosts can see it. *)
Inductive event :=
  | Return (t : tid) (c : call) (status : Z) (r : reply)
  | Block (t : tid) (c : call)
  | CallbackEnter (id : Z) (t : tid)
  | CallbackLeave (id : Z) (t : tid)
  | StartBegin (id : Z)
  | Emitted (id : Z) (packet : list Z)
  | Consumed (id : Z) (packet : list Z)
  | Internal.

Section step.
Context `{CoreOps}.
Variable android : bool.

(** ** The caller's side *)

(** [meta_set_tun_fd_v1] is compiled for Android only. *)
Definition available (c : call) : bool :=
  match c with meta_set_tun_fd_v1 _ _ => android | _ => true end.

(** The command with token [k] is queued or being handled, so its reply sender
    is alive. *)
Definition in_flight (h : handle) (k : nat) : bool :=
  existsb (fun q => (fst q =? k)%nat) (commands h) ||
  match worker h with Handling k' _ | Starting k' => (k' =? k)%nat | _ => false end.

(** [recv_timeout] fails: [stop] is cancelled. *)
Definition no_reply (h : handle) (k : nat) : outcome unit :=
  Err (text (if in_flight h k then "timed out waiting on channel"
             else "channel is empty and sending half is closed")).

(** The rest of [Handle::shutdown], which waits for the worker under its lock:
    [None] while it has to wait. *)
Definition join (h : handle) : option (outcome unit * handle) :=
  if taken h then Some (Ok tt, h)
  else match worker h with
       | Exited p => Some ((if p then Err (text "core worker panicked") else Ok tt), set_taken h)
       | _ => None
       end.

(** The rest of [meta_stop_v1] and of [meta_destroy_v1]. *)
Definition after_join (w : world) (id : Z) (c : call) (o : outcome unit) : outcome Z * world :=
  match o, c with
  | Ok _, meta_destroy_v1 _ =>
      if poisoned w then (Panicked, w) else (Ok META_OK, set_registry w (registry w ∖ {[id]}))
  | _, _ => ((let! _ := o in Ok META_OK), w)
  end.

Definition unblock (w : world) (t : tid) : world := set_waiting w (delete t (waiting w)) (tokens w).

(** The return of a call: [boundary] around it. *)
Definition return_event (t : tid) (c : call) (o : outcome Z) (r : reply) : event :=
  Return t c (fst (boundary o)) r.
Definition return_world (w : world) (t : tid) (o : outcome Z) : world :=
  record_error w t (snd (boundary o)).

(** ** The worker's side *)

(** [reply.send]: a caller that has given up gets nothing. *)
Definition deliver_to (k : nat) (o : outcome unit) (x : wait) : wait :=
  match x with
  | WaitReply id k' c None => if (k' =? k)%nat then WaitReply id k' c (Some o) else x
  | _ => x
  end.
Definition deliver (w : world) (k : nat) (o : outcome unit) : world :=
  set_waiting w (deliver_to k o <$> waiting w) (tokens w).

(** A command: [start_with_packets] up to [start_inner] (no answer yet),
    [network_changed], or a descriptor ([device] is the outcome of
    [NativeTun::from_owned_fd]). *)
Definition handle_command (h : handle) (k : nat) (cmd : command) (device : outcome unit) :
    handle * option (outcome unit) :=
  match cmd with
  | Start =>
      if negb (Bool.eqb (tun h) (packets h)) then
        (set_worker h Selecting,
         Some (Err (text "tun.enable requires a host PacketIo; disable TUN for listener-only operation")))
      else if started h || stop h then
        (set_worker h Selecting, Some (Err (text "core cannot be started twice; create a new core")))
      else (set_worker (set_started h true) (Starting k), None)
  | NetworkChanged => (set_worker (set_core h (core_network_changed (core h))) Selecting, Some (Ok tt))
  | SetFd =>
      if running h || negb (tun h) then
        (set_worker h Selecting, Some (Err (text "TUN fd must be set before start with tun.enable=true")))
      else match device with
           | Ok _ => (set_worker (set_fd h) Selecting, Some (Ok tt))
           | o => (set_worker h Selecting, Some o)
           end
  end.
Definition starts (cmd : command) (o : option (outcome unit)) : bool :=
  match cmd, o with Start, None => true | _, _ => false end.

(** The rest of [start_with_packets] and of the worker's branch for it. *)
Definition finish_start (h : handle) (o : outcome unit) : handle :=
  match o with
  | Ok _ => set_worker (set_running h true) Selecting
  | _ => set_worker (set_started (set_stop h) false) Selecting
  end.

(** The end of the worker: [Running::shutdown] and the end of the runtime, which
    drop the worker's ends of the channels. *)
Definition close_channels (h : handle) : handle :=
  let h := set_running (set_commands h []) false in
  mk_handle (core h) (tun h) (protect h) (notify h) (stop h) (started h) (running h) (commands h)
    (worker h) (taken h) false (packets h) (queue_enabled h) [] (packet_output h) (pending h) (callbacks h).
Definition exit_worker (h : handle) : handle :=
  set_worker (close_channels (if running h then set_started h false else h)) (Exited false).
Definition panic_worker (h : handle) : handle :=
  set_worker (close_channels (if running h then set_stop h else h)) (Exited true).

Definition live (h : handle) : bool := match worker h with Exited _ => false | _ => true end.

(** ** Steps *)

Inductive step : world -> event -> world -> Prop :=
  | s_return w t sys c o r w' :
      waiting w !! t = None -> available c = true -> exec android w t sys c = Returned o r w' ->
      step w (return_event t c o r) (return_world w' t o)
  | s_block w t sys c w' :
      waiting w !! t = None -> available c = true -> exec android w t sys c = Blocked w' ->
      step w (Block t c) w'
  | s_reply w t id k c o :
      waiting w !! t = Some (WaitReply id k c (Some o)) ->
      step w (return_event t c (let! _ := o in Ok META_OK) NoReply)
        (return_world (unblock w t) t (let! _ := o in Ok META_OK))
  | s_no_reply w t id k c h :
      waiting w !! t = Some (WaitReply id k c None) -> objects w !! id = Some h ->
      step w (return_event t c (let! _ := no_reply h k in Ok META_OK) NoReply)
        (return_world (unblock (with_handle w id (set_stop h)) t) t (let! _ := no_reply h k in Ok META_OK))
  | s_join w t id c h o h' o' w' :
      waiting w !! t = Some (WaitJoin id c) -> objects w !! id = Some h -> join h = Some (o, h') ->
      after_join (unblock (with_handle w id h') t) id c o = (o', w') ->
      step w (return_event t c o' NoReply) (return_world w' t o')
  | s_receive w id h k cmd q :
      objects w !! id = Some h -> worker h = Selecting -> stop h = false -> commands h = (k, cmd) :: q ->
      step w Internal (with_handle w id (set_worker (set_commands h q) (Handling k cmd)))
  | s_handle w id h k cmd device h' o :
      objects w !! id = Some h -> worker h = Handling k cmd -> device <> Panicked ->
      handle_command h k cmd device = (h', o) ->
      step w (if starts cmd o then StartBegin id else Internal)
        (match o with Some o => deliver (with_handle w id h') k o | None => with_handle w id h' end)
  | s_start_done w id h k o :
      objects w !! id = Some h -> worker h = Starting k -> o <> Panicked ->
      step w Internal (deliver (with_handle w id (finish_start h o)) k o)
  | s_worker_stop w id h :
      objects w !! id = Some h -> worker h = Selecting -> stop h = true ->
      step w Internal (with_handle w id (set_worker h Exiting))
  | s_worker_exit w id h :
      objects w !! id = Some h -> worker h = Exiting -> callbacks h = [] ->
      step w Internal (with_handle w id (exit_worker h))
  | s_worker_panic w id h :
      objects w !! id = Some h -> live h = true -> callbacks h = [] ->
      step w Internal (with_handle w id (panic_worker h))
  | s_callback_enter w id h t :
      objects w !! id = Some h -> live h = true -> (protect h || notify h) = true ->
      waiting w !! t = None -> t ∉ in_callback w ->
      step w (CallbackEnter id t)
        (set_in_callback (with_handle w id (set_callbacks h (t :: callbacks h))) ({[t]} ∪ in_callback w))
  | s_callback_leave w id h t l1 l2 :
      objects w !! id = Some h -> callbacks h = l1 ++ t :: l2 -> waiting w !! t = None ->
      step w (CallbackLeave id t)
        (set_in_callback (with_handle w id (set_callbacks h (l1 ++ l2))) (in_callback w ∖ {[t]}))
  | s_consume w id h p q :
      objects w !! id = Some h -> live h = true -> host_packets h = true -> packet_input h = p :: q ->
      step w (Consumed id p) (with_handle w id (set_packets h q (packet_output h) (pending h)))
  | s_emit w id h p :
      objects w !! id = Some h -> live h = true -> host_packets h = true -> len (packet_output h) < channel_capacity ->
      step w (Emitted id p)
        (with_handle w id (set_packets h (packet_input h) (packet_output h ++ [p]) (pending h)))
  | s_core_stop w id h :
      objects w !! id = Some h -> live h = true ->
      step w Internal (with_handle w id (set_stop h))
  | s_core w id h x :
      objects w !! id = Some h -> live h = true ->
      step w Internal (with_handle w id (set_core h (core_run (core h) x))).

(** A run, with its events in order. *)
Inductive run : world -> list event -> world -> Prop :=
  | run_nil w : run w [] w
  | run_snoc w tr w1 e w2 : run w tr w1 -> step w1 e w2 -> run w (tr ++ [e]) w2.

Lemma run_app w tr1 w1 tr2 w2 : run w tr1 w1 -> run w1 tr2 w2 -> run w (tr1 ++ tr2) w2.
Proof.
  intros H1 H2; induction H2 as [|w1 tr w2 e w3 ? IH]; first by rewrite app_nil_r.
  rewrite (assoc_L (++)). econstructor; [by apply IH | done].
Qed.

Lemma run_one w e w' : step w e w' -> run w [e] w'.
Proof. intros; apply (run_snoc w [] w e w'); [constructor | done]. Qed.

Lemma run_split w tr w' : run w tr w' -> forall tr1 tr2, tr = tr1 ++ tr2 ->
  exists w1, run w tr1 w1 /\ run w1 tr2 w'.
Proof.
  induction 1 as [w|w tr w1 e w2 Hr IH Hs]; intros tr1 tr2 E.
  - symmetry in E. apply app_nil in E as [-> ->]. exists w. split; constructor.
  - destruct tr2 as [|e' tr2 _] using rev_ind.
    + rewrite app_nil_r in E. subst tr1. exists w2. split; [by econstructor | constructor].
    + rewrite (assoc_L (++)) in E. apply app_inj_tail in E as [-> ->].
      destruct (IH _ _ eq_refl) as (w3 & ? & ?). exists w3. split; [done | by econstructor].
Qed.

Lemma run_cons w e tr w' : run w (e :: tr) w' -> exists w1, step w e w1 /\ run w1 tr w'.
Proof.
  intros Hr. destruct (run_split _ _ _ Hr [e] tr eq_refl) as (w1 & Hr1 & ?). exists w1. split; [|done].
  remember [e] as l eqn:E. destruct Hr1 as [|w tr' w1 e' w2 Hn Hs]; [done|].
  apply (app_inj_tail tr' []) in E as [-> ->]. remember [] as l eqn:E.
  destruct Hn as [|? tr' ? ? ? ? ?]; [done|]. by destruct tr'.
Qed.

(** A property kept by every step is kept by every run. *)
Lemma run_invariant (P : world -> Prop) w tr w' :
  (forall w e w', step w e w' -> P w -> P w') -> run w tr w' -> P w -> P w'.
Proof. intros Hs; induction 1; eauto. Qed.
End step.
