(* ===== verification/FfiFacts.v ===== *)
(** * The C interface: what a call does, and the invariant of the process

    [effect] lists what a call that returns at once can change, [evolves] how a
    handle can change over time; [wf] is the invariant of the registry, the
    handles and the blocked threads, kept by every step of FfiStep.v. *)

From S2P Require Import Prelude FfiAbi FfiHost FfiStep.
Local Open Scope Z_scope.

(** ** Lookup after an update, for every key at once *)
Ltac lookups :=
  repeat match goal with
  | E : <[_ := _]> _ !! _ = Some _ |- _ => apply lookup_insert_Some in E as [[? ?]|[? E]]
  | E : delete _ _ !! _ = Some _ |- _ => apply lookup_delete_Some in E as [? E]
  | E : (_ <$> _) !! _ = Some _ |- _ => apply lookup_fmap_Some in E as (? & ? & E)
  end; simplify_eq/=.

Section facts.
Context `{CoreOps}.
Variable android : bool.

(** ** Outcomes *)

Lemma get_handle_Ok w id h :
  get_handle w id = Ok h <-> poisoned w = false /\ id ∈ registry w /\ objects w !! id = Some h.
Proof.
  unfold get_handle. destruct (poisoned w); first naive_solver.
  destruct (decide (id ∈ registry w)); destruct (objects w !! id); naive_solver.
Qed.

Lemma check_lifecycle_Ok w t u : check_lifecycle w t = Ok u <-> t ∉ in_callback w.
Proof. unfold check_lifecycle. rewrite ensure_Ok. by rewrite bool_decide_eq_true. Qed.

(** Inverts the hypotheses that say a computation is [Ok]. *)
Ltac ok_inv :=
  repeat match goal with
  | E : obind _ _ = Ok _ |- _ => apply obind_Ok in E as (? & ? & ?)
  | E : ensure _ _ = Ok _ |- _ => apply ensure_Ok in E
  | E : get_handle _ _ = Ok _ |- _ => apply get_handle_Ok in E as (? & ? & ?)
  | E : check_lifecycle _ _ = Ok _ |- _ => apply check_lifecycle_Ok in E
  | E : check_packet_queue _ = Ok _ |- _ => unfold check_packet_queue in E
  | E : Ok _ = Ok _ |- _ => injection E as ?
  | E : (_ && _)%bool = true |- _ => apply andb_true_iff in E as [? ?]
  end; simplify_eq/=.

(** ** What a call does before it waits *)

(** A new handle of [meta_create_v1]. *)
Definition fresh_handle (h : handle) : Prop :=
  stop h = false /\ started h = false /\ running h = false /\ commands h = [] /\ worker h = Selecting /\
  taken h = false /\ host_packets h = tun h /\ packets h = tun h /\ queue_enabled h = tun h /\
  packet_input h = [] /\ packet_output h = [] /\ pending h = None /\ callbacks h = [] /\
  (android = true -> protect h = true) /\ exists config, Core_new config = Ok (core h).

(** A call that works on the core. *)
Inductive core_call (c : Core) : Core -> Prop :=
  | cc_select sys group node : core_call c (core_select c sys group node).2
  | cc_update mode rules : core_call c (core_update_policy c mode rules).2
  | cc_close : core_call c (core_close_connections c).

Definition is_create (c : call) : bool := match c with meta_create_v1 _ _ _ => true | _ => false end.
Definition moves_packet (c : call) : bool :=
  match c with meta_write_packet_v1 _ _ | meta_read_packet_v1 _ _ => true | _ => false end.

Inductive effect (w : world) (t : tid) : call -> outcome Z -> reply -> world -> Prop :=
  | ef_none c o r :
      (o = Ok META_OK -> is_create c = false /\ moves_packet c = false) ->
      (forall id s, call_handle c = Some id -> o = Ok s -> poisoned w = false /\ id ∈ registry w /\
         (moves_packet c = true -> exists h, objects w !! id = Some h /\ queue_enabled h = true)) ->
      (lifecycle c = true -> forall s, o <> Ok s) ->
      effect w t c o r w
  | ef_create config hooks out h :
      poisoned w = false -> t ∉ in_callback w ->
      (base.size (registry w) < 16)%nat -> next w + 1 < 2 ^ 64 -> fresh_handle h ->
      effect w t (meta_create_v1 config hooks (Some out)) (Ok META_OK) (HandleOut (Some (next w)))
        (set_registry (set_next (with_handle w (next w) h) (next w + 1) (poisoned w)) ({[next w]} ∪ registry w))
  | ef_create_fails config hooks out o p :
      (forall s, o <> Ok s) -> t ∉ in_callback w -> poisoned w = false -> next w + 1 < 2 ^ 64 ->
      effect w t (meta_create_v1 config hooks out) o (HandleOut (Some 0)) (set_next w (next w + 1) p)
  | ef_core c o r id h k :
      poisoned w = false -> id ∈ registry w -> objects w !! id = Some h -> call_handle c = Some id ->
      lifecycle c = false -> moves_packet c = false -> core_call (core h) k ->
      effect w t c o r (with_handle w id (set_core h k))
  | ef_write id h p packet :
      poisoned w = false -> id ∈ registry w -> objects w !! id = Some h ->
      input p = Ok packet -> stop h = false -> queue_enabled h = true ->
      host_packets h = true -> len (packet_input h) < channel_capacity ->
      effect w t (meta_write_packet_v1 id p) (Ok META_OK) NoReply
        (with_handle w id (set_packets h (packet_input h ++ [packet]) (packet_output h) (pending h)))
  | ef_read id h out o out' p q :
      poisoned w = false -> id ∈ registry w -> objects w !! id = Some h ->
      queue_enabled h = true -> next_packet h = Some (p, q) ->
      output p (mk_out (out_data out) (capacity out) (Some 0)) = (o, out') ->
      effect w t (meta_read_packet_v1 id out) o (BufferOut out')
        (with_handle w id (set_packets h (packet_input h) q
           (if is_ok o then None else Some p))).

Lemma Handle_new_fresh config hooks sys h :
  Handle_new android config hooks sys = Ok h -> fresh_handle h.
Proof.
  unfold Handle_new. intros E. ok_inv. unfold fresh_handle; simpl.
  destruct android, hooks.1; naive_solver.
Qed.

Lemma create_effect w t sys config hooks out o out' w' :
  create android w t sys config hooks out = (o, out', w') ->
  effect w t (meta_create_v1 config hooks out) o (HandleOut out') w'.
Proof.
  unfold create. destruct out as [out|]; last first.
  { intros [= <- <- <-]. constructor; naive_solver. }
  match goal with |- context [match ?x with Ok _ => _ | Err _ => _ | Panicked => _ end] =>
    destruct x as [[config' hooks']| |] eqn:E end.
  2-3: intros [= <- <- <-]; constructor; naive_solver.
  ok_inv. destruct (poisoned w) eqn:Hp; first done. ok_inv.
  destruct (Handle_new _ _ _ _) eqn:Eh; intros [= <- <- <-].
  - rewrite <-Hp. apply ef_create; rewrite ?Hp; eauto using Handle_new_fresh; lia.
  - apply ef_create_fails; naive_solver lia.
  - apply ef_create_fails; naive_solver lia.
Qed.

Lemma fails_effect w t c {A} (o : outcome A) (k : A -> progress) o' r w' :
  fails w o k = Returned o' r w' ->
  (forall a, o = Ok a -> k a = Returned o' r w' -> effect w t c o' r w') ->
  effect w t c o' r w'.
Proof. destruct o; simpl; [naive_solver|..]; intros [= <- <- <-] _; constructor; naive_solver. Qed.

Lemma write_packet_effect w t id p o r w' :
  write_packet w id p = Returned o r w' -> effect w t (meta_write_packet_v1 id p) o r w'.
Proof.
  intros E. eapply fails_effect; [exact E|]. clear E; intros a E. ok_inv. rename select handle into h.
  destruct (host_packets h) eqn:?; simpl; last by intros E; simplify_eq; constructor; naive_solver.
  destruct (Z.leb_spec channel_capacity (len (packet_input h))); intros E; simplify_eq.
  - constructor; naive_solver.
  - eapply ef_write; eauto. by apply negb_true_iff.
Qed.

Lemma read_packet_effect w t id out o r w' :
  read_packet w id out = Returned o r w' -> effect w t (meta_read_packet_v1 id out) o r w'.
Proof.
  unfold read_packet. destruct (out_length out); last by intros [= <- <- <-]; constructor; naive_solver.
  match goal with |- context [match ?x with Ok _ => _ | Err _ => _ | Panicked => _ end] =>
    destruct x as [h| |] eqn:E end.
  2-3: intros [= <- <- <-]; constructor; naive_solver.
  ok_inv. destruct (next_packet h) as [[p q]|] eqn:En.
  - destruct (output _ _) as [o' out'] eqn:Eo. intros [= <- <- <-]. eapply ef_read; eauto.
  - destruct (host_packets h); intros [= <- <- <-]; constructor; naive_solver.
Qed.

Lemma exec_effect w t sys c o r w' :
  exec android w t sys c = Returned o r w' -> effect w t c o r w'.
Proof.
  destruct c; simpl.
  - intros [= <- <- <-]. constructor; naive_solver.
  - destruct (create _ _ _ _ _ _ _) as [[o' out'] w1] eqn:E. intros [= <- <- <-].
    by eapply create_effect.
  - intros E. unfold send_command in E. case_match; simplify_eq; constructor; naive_solver.
  - intros E. unfold begin_shutdown in E. case_match; simplify_eq; constructor; naive_solver.
  - intros E. unfold begin_shutdown in E. case_match; simplify_eq; constructor; naive_solver.
  - intros E. eapply fails_effect; [exact E|]. intros h Eh [= <- <- <-]. ok_inv. eapply ef_core; eauto using core_call.
  - intros E. unfold send_command in E. case_match; simplify_eq; constructor; naive_solver.
  - intros E. eapply fails_effect; [exact E|]. intros u Eu E'.
    unfold send_command in E'. case_match; simplify_eq; constructor; naive_solver.
  - destruct (output _ _) as [o' out'] eqn:E. intros [= <- <- <-]. constructor; naive_solver.
  - match goal with |- context [match ?x with Ok _ => _ | Err _ => _ | Panicked => _ end] =>
      destruct x eqn:E end; [destruct (output _ _) eqn:?| |]; intros [= <- <- <-]; ok_inv;
    constructor; naive_solver.
  - intros E. eapply fails_effect; [exact E|]. intros [[mode rules] h] Eh [= <- <- <-]. ok_inv.
    eapply ef_core; eauto using core_call.
  - intros E. eapply fails_effect; [exact E|]. intros [[h g] n] Eh [= <- <- <-]. ok_inv. eapply ef_core; eauto using core_call.
  - apply write_packet_effect.
  - apply read_packet_effect.
Qed.

(** ** Calls that wait *)

(** The command a call sends, to which handle. *)
Definition command_of (c : call) : option (Z * command) :=
  match c with
  | meta_start_v1 id => Some (id, Start)
  | meta_network_changed_v1 id => Some (id, NetworkChanged)
  | meta_set_tun_fd_v1 id _ => Some (id, SetFd)
  | _ => None
  end.
Definition shuts_down (c : call) : option Z :=
  match c with meta_stop_v1 id | meta_destroy_v1 id => Some id | _ => None end.

Inductive blocks (w : world) (t : tid) : call -> world -> Prop :=
  | bl_command c id cmd h :
      command_of c = Some (id, cmd) ->
      poisoned w = false -> id ∈ registry w -> objects w !! id = Some h -> t ∉ in_callback w ->
      stop h = false -> live h = true -> (length (commands h) < 4)%nat ->
      blocks w t c
        (set_waiting (with_handle w id (set_commands h (commands h ++ [(tokens w, cmd)])))
           (<[t := WaitReply id (tokens w) c None]> (waiting w)) (S (tokens w)))
  | bl_shutdown c id h :
      shuts_down c = Some id ->
      poisoned w = false -> id ∈ registry w -> objects w !! id = Some h -> t ∉ in_callback w ->
      blocks w t c
        (set_waiting (with_handle w id (set_stop h)) (<[t := WaitJoin id c]> (waiting w)) (tokens w)).

Lemma send_command_blocks w t id cmd c w' :
  command_of c = Some (id, cmd) -> send_command w t id cmd c = Blocked w' -> blocks w t c w'.
Proof.
  intros Hc. unfold send_command. case_match eqn:E; try done. intros [= <-]. ok_inv.
  apply negb_true_iff in H2. destruct (worker _) eqn:Ew; ok_inv; eapply bl_command; eauto;
    try (by unfold live; rewrite Ew); by apply Nat.ltb_lt.
Qed.

Lemma begin_shutdown_blocks w t id c w' :
  shuts_down c = Some id -> begin_shutdown w t id c = Blocked w' -> blocks w t c w'.
Proof.
  intros Hc. unfold begin_shutdown. case_match eqn:E; try done. intros [= <-]. ok_inv.
  by eapply bl_shutdown.
Qed.

Lemma fails_blocks w {A} (o : outcome A) (k : A -> progress) w' :
  fails w o k = Blocked w' -> exists a, o = Ok a /\ k a = Blocked w'.
Proof. destruct o; simpl; naive_solver. Qed.

Lemma exec_blocks w t sys c w' : exec android w t sys c = Blocked w' -> blocks w t c w'.
Proof.
  destruct c; simpl; unfold read_packet, write_packet, with_core; intros E;
    try (eapply send_command_blocks; [reflexivity | exact E]);
    try (eapply begin_shutdown_blocks; [reflexivity | exact E]);
    repeat case_match; simplify_eq;
    apply fails_blocks in E as (? & ? & E); repeat case_match; simplify_eq;
    eapply send_command_blocks; [reflexivity | exact E].
Qed.

(** ** The invariant *)

(** The commands that are still to be answered. *)
Definition queued (h : handle) : list (nat * command) :=
  commands h ++ match worker h with Handling k cmd => [(k, cmd)] | Starting k => [(k, Start)] | _ => [] end.

Record wf_handle (h : handle) : Prop := {
  wh_taken : taken h = true -> live h = false;
  wh_commands : (length (commands h) <= 4)%nat;
  wh_input : len (packet_input h) <= channel_capacity;
  wh_output : len (packet_output h) <= channel_capacity;
  wh_gone : live h = false ->
    commands h = [] /\ callbacks h = [] /\ host_packets h = false /\ running h = false /\ packet_input h = [];
  wh_starting : forall k, worker h = Starting k -> started h = true /\ running h = false;
  wh_running : running h = true -> started h = true;
  wh_exiting : worker h = Exiting -> stop h = true;
  wh_packets : packets h = tun h;
  wh_queue : queue_enabled h = true -> tun h = true /\ (live h = true -> host_packets h = true);
  wh_closed : host_packets h = false -> packet_input h = []
}.

(** What a blocked call waits for. *)
Definition wait_ok (w : world) (x : wait) : Prop :=
  match x with
  | WaitReply id k c _ => (k < tokens w)%nat /\ id ∈ dom (objects w) /\ exists cmd, command_of c = Some (id, cmd)
  | WaitJoin id c => shuts_down c = Some id /\ exists h, objects w !! id = Some h /\ stop h = true
  end.

(** What a call that has no reply yet can count on: its worker has its command, in
    the queue or in its hands, or has ended, and with it the channel of the reply. *)
Definition reply_due (w : world) (x : wait) : Prop :=
  match x with
  | WaitReply id k c None => exists h cmd, objects w !! id = Some h /\ command_of c = Some (id, cmd) /\
      ((k, cmd) ∈ queued h \/ live h = false)
  | _ => True
  end.
Definition replies_due (w : world) : Prop := forall t x, waiting w !! t = Some x -> reply_due w x.

Definition queued_ok (w : world) (id : Z) (q : nat * command) : Prop :=
  (fst q < tokens w)%nat /\
  forall t id' c a, waiting w !! t = Some (WaitReply id' (fst q) c a) -> command_of c = Some (id, snd q).

Record wf (w : world) : Prop := {
  wf_registry : registry w ⊆ dom (objects w);
  wf_capacity : (base.size (registry w) <= 16)%nat;
  wf_ids : forall id h, objects w !! id = Some h -> 1 <= id < next w;
  wf_next : 1 <= next w < 2 ^ 64;
  wf_handles : forall id h, objects w !! id = Some h -> wf_handle h;
  wf_waits : forall t x, waiting w !! t = Some x -> (t ∉ in_callback w) /\ wait_ok w x;
  wf_tokens : forall t1 t2 id1 id2 k c1 c2 a1 a2, waiting w !! t1 = Some (WaitReply id1 k c1 a1) ->
    waiting w !! t2 = Some (WaitReply id2 k c2 a2) -> t1 = t2;
  wf_queued : forall id h q, objects w !! id = Some h -> q ∈ queued h -> queued_ok w id q;
  wf_callbacks : forall id h t, objects w !! id = Some h -> t ∈ callbacks h -> t ∈ in_callback w;
  wf_nodup : forall id h, objects w !! id = Some h -> NoDup (callbacks h);
  wf_owner : forall id1 id2 h1 h2 t, objects w !! id1 = Some h1 -> objects w !! id2 = Some h2 ->
    t ∈ callbacks h1 -> t ∈ callbacks h2 -> id1 = id2
}.

Lemma initial_wf : wf initial.
Proof.
  split; simpl; intros; simplify_map_eq; try done; try lia.
  - vm_compute. lia.
Qed.

Lemma wait_ok_update w id h h' x :
  objects w !! id = Some h -> (stop h = true -> stop h' = true) -> wait_ok w x -> wait_ok (with_handle w id h') x.
Proof.
  intros Hh Hs. destruct x as [id' k c a|id' c]; simpl.
  - rewrite dom_insert. set_solver.
  - intros (Hc & h1 & Hl & Hst). split; first done. destruct (decide (id' = id)) as [->|].
    + exists h'. rewrite lookup_insert_eq. split; first done. apply Hs. congruence.
    + exists h1. by rewrite lookup_insert_ne.
Qed.

(** Replies stay due when a handle keeps its commands or ends. *)
Lemma reply_due_update w id h h' x : objects w !! id = Some h -> reply_due w x ->
  (forall k c, x = WaitReply id k c None -> forall cmd, (k, cmd) ∈ queued h -> (k, cmd) ∈ queued h' \/ live h' = false) ->
  (live h = false -> live h' = false) -> reply_due (with_handle w id h') x.
Proof.
  intros Hh Hx Hq Hl. destruct x as [id' k c [a|]|]; try done. destruct Hx as (h1 & cmd & Ho & Hc & Hd).
  destruct (decide (id' = id)) as [->|Hne].
  - rewrite Hh in Ho. injection Ho as <-. exists h', cmd. simpl. rewrite lookup_insert_eq. split; [done|]. split; [done|].
    destruct Hd as [Hd|Hd]; [by eapply Hq | right; by apply Hl].
  - exists h1, cmd. simpl. by rewrite lookup_insert_ne.
Qed.

Lemma replies_update w id h h' : objects w !! id = Some h -> replies_due w ->
  (forall q, q ∈ queued h -> q ∈ queued h' \/ live h' = false) -> (live h = false -> live h' = false) -> replies_due (with_handle w id h').
Proof. intros Hh Hw Hq Hl t x Hx. eapply reply_due_update; [done | by apply (Hw t) | intros; by apply Hq | done]. Qed.

(** The command [k] is answered. *)
Lemma replies_deliver w id h h' k o : objects w !! id = Some h -> replies_due w ->
  (forall q, q ∈ queued h -> fst q <> k -> q ∈ queued h') -> (live h = false -> live h' = false) ->
  replies_due (deliver (with_handle w id h') k o).
Proof.
  intros Hh Hw Hq Hl t x Hx. simpl in Hx. apply lookup_fmap_Some in Hx as (y & <- & Hy). unfold deliver_to.
  destruct y as [id' k' c [a|]|]; [done| |done]. destruct (Nat.eqb_spec k' k) as [|Hne]; [done|].
  change (reply_due (with_handle w id h') (WaitReply id' k' c None)).
  apply (reply_due_update w id h); [done | by apply (Hw t) | | done].
  intros k0 c0 [= -> <- <-] cmd Hin. left. by apply Hq.
Qed.

(** Changing one handle, its callbacks as they are. *)
Lemma wf_update w id h h' :
  wf w -> objects w !! id = Some h -> wf_handle h' -> (stop h = true -> stop h' = true) ->
  (forall q, q ∈ queued h' -> q ∈ queued h \/ queued_ok w id q) -> callbacks h' = callbacks h -> wf (with_handle w id h').
Proof.
  intros Hw Hh Hwh Hs Hq Hc. pose proof (wf_ids _ Hw _ _ Hh). split; simpl.
  - pose proof (wf_registry _ Hw). rewrite dom_insert. set_solver.
  - by apply wf_capacity.
  - intros; lookups; [done | by eapply wf_ids].
  - by apply wf_next.
  - intros; lookups; [done | by eapply wf_handles].
  - intros t x Hx. destruct (wf_waits _ Hw _ _ Hx). eauto using wait_ok_update.
  - by apply wf_tokens.
  - intros id1 h1 q E Hin; lookups; [destruct (Hq _ Hin); [by apply (wf_queued _ Hw id1 h) | done] | by apply (wf_queued _ Hw id1 h1)].
  - intros id1 h1 t E Hin; lookups; [apply (wf_callbacks _ Hw id1 h) | apply (wf_callbacks _ Hw id1 h1)]; congruence.
  - intros id1 h1 E; lookups; [rewrite Hc|]; by eapply wf_nodup.
  - intros id1 id2 h1 h2 t E1 E2; lookups; rewrite ?Hc; intros; try done; by eapply wf_owner.
Qed.

Lemma wf_record_error w t e : wf w -> wf (record_error w t e).
Proof. intros Hw. destruct e; [|done]. by split; destruct Hw. Qed.

Lemma wf_unblock w t : wf w -> wf (unblock w t).
Proof.
  intros Hw. split; simpl; try apply Hw.
  - intros t' x E. lookups. by apply (wf_waits _ Hw t' x).
  - intros * E1 E2. lookups. by eapply wf_tokens.
  - intros id h q Hh Hq. destruct (wf_queued _ Hw _ _ _ Hh Hq) as [? Ha]. split; first done.
    intros t' id' c a E; simpl in *; lookups. by eapply Ha.
Qed.

Lemma deliver_lookup w k o t x :
  waiting (deliver w k o) !! t = Some x ->
  exists y, waiting w !! t = Some y /\
    match y with
    | WaitReply id k' c _ => exists a, x = WaitReply id k' c a
    | WaitJoin _ _ => x = y
    end.
Proof.
  simpl. intros E; lookups. eexists; split; first done.
  unfold deliver_to; repeat case_match; simplify_eq; eauto.
Qed.

Lemma wf_deliver w k o : wf w -> wf (deliver w k o).
Proof.
  intros Hw. split; try apply Hw.
  - intros t x E. apply deliver_lookup in E as (y & Ey & Hx). destruct (wf_waits _ Hw _ _ Ey).
    split; first done. destruct y; [destruct Hx as [a ->]|subst x]; done.
  - intros * E1 E2. apply deliver_lookup in E1 as ([] & Ey1 & Hx1), E2 as ([] & Ey2 & Hx2);
      naive_solver eauto using wf_tokens.
  - intros id h q Hh Hq. destruct (wf_queued _ Hw _ _ _ Hh Hq) as [? Ha]. split; first done.
    intros t id' c a E. apply deliver_lookup in E as ([] & Ey & Hx); naive_solver.
Qed.

Lemma wf_deregister w id : wf w -> wf (set_registry w (registry w ∖ {[id]})).
Proof.
  intros Hw. split; simpl; try apply Hw.
  - pose proof (wf_registry _ Hw). set_solver.
  - pose proof (wf_capacity _ Hw).
    pose proof (subseteq_size (registry w ∖ {[id]}) (registry w) ltac:(set_solver)). lia.
Qed.

(** A call starts to wait. *)
Lemma wf_wait w t x n :
  wf w -> waiting w !! t = None -> t ∉ in_callback w -> wait_ok (set_waiting w (<[t := x]> (waiting w)) n) x ->
  (tokens w <= n)%nat ->
  (forall id k c a, x = WaitReply id k c a -> k = tokens w /\ forall id' h q, objects w !! id' = Some h -> q ∈ queued h -> fst q <> k) ->
  wf (set_waiting w (<[t := x]> (waiting w)) n).
Proof.
  intros Hw Ht Hc Hx Hn Hk. split; simpl; try apply Hw.
  - intros t' y E; lookups; [done|]. destruct (wf_waits _ Hw _ _ E) as [? Hy]. split; first done.
    destruct y; simpl in *; naive_solver lia.
  - intros t1 t2 id1 id2 k c1 c2 a1 a2 E1 E2; lookups; try done.
    + destruct (Hk _ _ _ _ eq_refl) as [-> _]. destruct (wf_waits _ Hw _ _ E1) as [_ [? _]]. lia.
    + destruct (Hk _ _ _ _ eq_refl) as [-> _]. destruct (wf_waits _ Hw _ _ E2) as [_ [? _]]. lia.
    + by eapply wf_tokens.
  - intros id h q Hh Hq. destruct (wf_queued _ Hw _ _ _ Hh Hq) as [? Ha]. split; simpl; first lia.
    intros t' id' c a E; lookups; [|by eapply Ha]. destruct (Hk _ _ _ _ eq_refl) as [_ Hf].
    by destruct (Hf _ _ _ Hh Hq).
Qed.

Lemma wf_fresh h : fresh_handle h -> wf_handle h.
Proof.
  intros (? & ? & ? & Hq & Hs & ? & ? & ? & ? & Hi & Ho & ? & ? & ?).
  split; rewrite ?Hq, ?Hi, ?Ho; unfold live, channel_capacity; try rewrite Hs; simpl; intuition (congruence || lia).
Qed.

Lemma wf_create w h :
  wf w -> (base.size (registry w) < 16)%nat -> next w + 1 < 2 ^ 64 -> fresh_handle h ->
  wf (set_registry (set_next (with_handle w (next w) h) (next w + 1) (poisoned w)) ({[next w]} ∪ registry w)).
Proof.
  intros Hw Hsz Hn Hf. pose proof (wf_next _ Hw).
  assert (Hnew : objects w !! next w = None).
  { destruct (objects w !! next w) eqn:E; last done. apply (wf_ids _ Hw) in E. lia. }
  assert (Hq : queued h = [] /\ callbacks h = []).
  { unfold queued. destruct Hf as (? & ? & ? & -> & -> & Hf). naive_solver. }
  destruct Hq as [Hq Hcb]. split; simpl.
  - pose proof (wf_registry _ Hw). rewrite dom_insert. set_solver.
  - rewrite size_union_alt, size_singleton.
    pose proof (subseteq_size (registry w ∖ {[next w]}) (registry w) ltac:(set_solver)). lia.
  - intros id h' E; lookups; [lia|]. pose proof (wf_ids _ Hw _ _ E). lia.
  - lia.
  - intros id h' E; lookups; [by apply wf_fresh | by eapply wf_handles].
  - intros t x E. destruct (wf_waits _ Hw _ _ E) as [? Hx]. split; first done.
    destruct x as [id k c a|id c]; simpl in *.
    + rewrite dom_insert. set_solver.
    + destruct Hx as (? & h' & Hl & ?). split; first done. exists h'. by rewrite lookup_insert_ne by congruence.
  - apply Hw.
  - intros id h' q E Hin; lookups; [rewrite Hq in Hin; by apply elem_of_nil in Hin | exact (wf_queued _ Hw _ _ _ E Hin)].
  - intros id h' t E Hin; lookups; [rewrite Hcb in Hin; by apply elem_of_nil in Hin | by eapply wf_callbacks].
  - intros id h' E; lookups; [rewrite Hcb; constructor | by eapply wf_nodup].
  - intros id1 id2 h1 h2 t E1 E2; lookups; rewrite ?Hcb; try done;
      try (by intros []%elem_of_nil); try (by intros _ []%elem_of_nil). by eapply wf_owner.
Qed.

(** The identifier of a creation that failed is not used again. *)
Lemma wf_burn w p : wf w -> next w + 1 < 2 ^ 64 -> wf (set_next w (next w + 1) p).
Proof.
  intros Hw ?. pose proof (wf_next _ Hw). split; simpl; try apply Hw; [|lia].
  intros id h E. pose proof (wf_ids _ Hw _ _ E). lia.
Qed.

(** A callback begins and ends. *)
Lemma wf_callback_enter w id h t :
  wf w -> objects w !! id = Some h -> live h = true -> waiting w !! t = None -> t ∉ in_callback w ->
  wf (set_in_callback (with_handle w id (set_callbacks h (t :: callbacks h))) ({[t]} ∪ in_callback w)).
Proof.
  intros Hw Hh Hl Ht Hc.
  assert (Hno : forall id' h', objects w !! id' = Some h' -> t ∉ callbacks h').
  { intros id' h' E Hin. by apply Hc, (wf_callbacks _ Hw id' h'). }
  split; simpl.
  - pose proof (wf_registry _ Hw). rewrite dom_insert. set_solver.
  - apply Hw.
  - intros id' h' E; lookups; by eapply wf_ids.
  - apply Hw.
  - intros id' h' E; lookups; [|by eapply wf_handles]. destruct (wf_handles _ Hw _ _ Hh).
    split; unfold live in *; simpl in *; intuition congruence.
  - intros t' x E. destruct (wf_waits _ Hw _ _ E). split; [set_solver|].
    apply (wait_ok_update w id h (set_callbacks h (t :: callbacks h))); done.
  - apply Hw.
  - intros id' h' q E Hin; lookups; [apply (wf_queued _ Hw id' h) | apply (wf_queued _ Hw id' h')]; done.
  - intros id' h' t' E Hin; lookups; [apply elem_of_cons in Hin as [->|Hin]|].
    + set_solver.
    + pose proof (wf_callbacks _ Hw _ _ _ Hh Hin). set_solver.
    + pose proof (wf_callbacks _ Hw _ _ _ E Hin). set_solver.
  - intros id' h' E; lookups; [|by eapply wf_nodup].
    constructor; [by eapply Hno | by eapply wf_nodup].
  - intros id1 id2 h1 h2 t' E1 E2; lookups; try done; rewrite ?elem_of_cons; intros.
    all: try (by eapply wf_owner); naive_solver eauto using wf_owner.
Qed.

Lemma wf_callback_leave w id h t l1 l2 :
  wf w -> objects w !! id = Some h -> callbacks h = l1 ++ t :: l2 ->
  wf (set_in_callback (with_handle w id (set_callbacks h (l1 ++ l2))) (in_callback w ∖ {[t]})).
Proof.
  intros Hw Hh Hl. pose proof (wf_nodup _ Hw _ _ Hh) as Hnd. rewrite Hl in Hnd.
  assert (Hsub : forall x, x ∈ l1 ++ l2 -> x ∈ callbacks h) by (rewrite Hl; set_solver).
  assert (Ht : t ∉ l1 ++ l2).
  { apply NoDup_app in Hnd as (? & ? & Hnd%NoDup_cons). set_solver. }
  split; simpl.
  - pose proof (wf_registry _ Hw). rewrite dom_insert. set_solver.
  - apply Hw.
  - intros id' h' E; lookups; by eapply wf_ids.
  - apply Hw.
  - intros id' h' E; lookups; [|by eapply wf_handles]. destruct (wf_handles _ Hw _ _ Hh) as [].
    split; unfold live in *; simpl in *; try intuition congruence.
    intros Hlv. destruct (wh_gone0 Hlv) as (? & Hnil & ?). rewrite Hl in Hnil. by destruct l1.
  - intros t' x E. destruct (wf_waits _ Hw _ _ E). split; [set_solver|].
    apply (wait_ok_update w id h (set_callbacks h (l1 ++ l2))); done.
  - apply Hw.
  - intros id' h' q E Hin; lookups; [apply (wf_queued _ Hw id' h) | apply (wf_queued _ Hw id' h')]; done.
  - intros id' h' t' E Hin. apply elem_of_difference. rewrite elem_of_singleton. lookups.
    + split; [by eapply wf_callbacks; eauto | congruence].
    + split; [by eapply wf_callbacks; eauto|]. intros ->.
      destruct (wf_owner _ Hw id id' h h' t) ; [done..| rewrite Hl; set_solver | done | done].
  - intros id' h' E; lookups; [|by eapply wf_nodup].
    apply NoDup_app in Hnd as (? & ? & Hnd%NoDup_cons). apply NoDup_app. set_solver.
  - intros id1 id2 h1 h2 t' E1 E2; lookups; try done; intros; eapply wf_owner; eauto.
Qed.

(** ** Every step keeps the invariant *)

(** The changes of a handle. *)
Ltac wf_handle_tac :=
  match goal with Hw : wf_handle ?h |- _ => destruct Hw end;
  split; unfold live in *; simpl in *; intros; simplify_eq/=;
  try match goal with E : worker _ = Starting ?k, Hs : forall k, _ -> _ /\ _ |- _ => destruct (Hs k E) end;
  rewrite ?length_app; simpl; try lia; intuition (congruence || lia || eauto).

Lemma wf_set_core h c : wf_handle h -> wf_handle (set_core h c).
Proof. intros. wf_handle_tac. Qed.
Lemma wf_set_stop h : wf_handle h -> wf_handle (set_stop h).
Proof. intros. wf_handle_tac. Qed.
Lemma wf_set_taken h : wf_handle h -> live h = false -> wf_handle (set_taken h).
Proof. intros. wf_handle_tac. Qed.
Lemma wf_send h q : wf_handle h -> (length (commands h) < 4)%nat -> live h = true ->
  wf_handle (set_commands h (commands h ++ [q])).
Proof. intros. wf_handle_tac. Qed.
Lemma wf_write h p : wf_handle h -> len (packet_input h) < channel_capacity -> host_packets h = true ->
  wf_handle (set_packets h (packet_input h ++ [p]) (packet_output h) (pending h)).
Proof. intros. wf_handle_tac. Qed.
Lemma wf_emit h p : wf_handle h -> len (packet_output h) < channel_capacity ->
  wf_handle (set_packets h (packet_input h) (packet_output h ++ [p]) (pending h)).
Proof. intros. wf_handle_tac. Qed.
Lemma wf_consume h p q : wf_handle h -> packet_input h = p :: q -> 
  wf_handle (set_packets h q (packet_output h) (pending h)).
Proof. intros ? E. wf_handle_tac. all: rewrite E in *; simpl in *; (lia || naive_solver). Qed.
Lemma wf_read h p q l : wf_handle h -> next_packet h = Some (p, q) ->
  wf_handle (set_packets h (packet_input h) q l).
Proof.
  intros ? E. assert (len q <= channel_capacity).
  { pose proof (wh_output h ltac:(done)). unfold next_packet in E. repeat case_match; simplify_eq/=; lia. }
  wf_handle_tac.
Qed.
Lemma wf_receive h q l : wf_handle h -> worker h = Selecting -> commands h = q :: l ->
  wf_handle (set_worker (set_commands h l) (Handling (fst q) (snd q))).
Proof. intros ? Ew E. wf_handle_tac. all: rewrite E, ?Ew in *; simpl in *; (lia || naive_solver). Qed.
Lemma wf_set_worker h s : wf_handle h -> live h = true ->
  (forall p, s <> Exited p) -> (forall k, s <> Starting k) -> (s = Exiting -> stop h = true) ->
  wf_handle (set_worker h s).
Proof. intros ? ? Hp Hk ?. destruct s; [..|by destruct (Hp panicked)]; wf_handle_tac; naive_solver. Qed.
Lemma wf_exit h : wf_handle h -> callbacks h = [] -> wf_handle (exit_worker h).
Proof. intros ? ?. unfold exit_worker, close_channels. destruct (running h) eqn:?; wf_handle_tac. Qed.
Lemma wf_panic h : wf_handle h -> callbacks h = [] -> wf_handle (panic_worker h).
Proof. intros ? ?. unfold panic_worker, close_channels. destruct (running h) eqn:?; wf_handle_tac. Qed.
Lemma wf_finish_start h k o : wf_handle h -> worker h = Starting k -> wf_handle (finish_start h o).
Proof.
  intros Hh Ew. unfold finish_start.
  destruct o; wf_handle_tac; try (by rewrite Ew in *; naive_solver).
Qed.
Lemma wf_begin_start h k k' cmd : wf_handle h -> worker h = Handling k' cmd -> started h = false ->
  wf_handle (set_worker (set_started h true) (Starting k)).
Proof. intros ? Ew ?. assert (live h = true) by (unfold live; by rewrite Ew). destruct (running h) eqn:?; wf_handle_tac. Qed.
Lemma wf_set_fd h : wf_handle h -> tun h = true -> wf_handle (set_fd h).
Proof. intros. wf_handle_tac. Qed.
Lemma wf_handle_command h k cmd d h' o : wf_handle h -> worker h = Handling k cmd ->
  handle_command h k cmd d = (h', o) -> wf_handle h'.
Proof.
  intros Hh Ew E. assert (live h = true) by (unfold live; by rewrite Ew).
  assert (Hsel : forall h, wf_handle h -> live h = true -> wf_handle (set_worker h Selecting)).
  { intros; by apply wf_set_worker. }
  unfold handle_command in E.
  destruct cmd; [|simplify_eq; apply Hsel; [by apply wf_set_core | done]|].
  - repeat case_match; simplify_eq; try (by apply Hsel).
    eapply wf_begin_start; eauto. by destruct (started h).
  - destruct (running h || negb (tun h)) eqn:Er; simplify_eq; [by apply Hsel|].
    destruct d; simplify_eq; apply Hsel; try done. apply wf_set_fd; first done.
    destruct (running h), (tun h); done.
Qed.
End facts.
