(* ===== verification/FfiLifecycle.v ===== *)
(** * The C interface: lifecycle of handles

    The invariant holds in every reachable state, and what it gives hosts: a
    handle starts at most once, [meta_stop_v1] and [meta_destroy_v1] return only
    when the worker and its callbacks have ended, they can always return, and a
    destroyed handle stays invalid. *)

From S2P Require Import Prelude FfiAbi FfiHost FfiStep FfiFacts.
Local Open Scope Z_scope.

Section lifecycle.
Context `{CoreOps}.
Variable android : bool.
Abbreviation step := (step android).
Abbreviation run := (run android).

(** ** The invariant is kept *)

Lemma effect_wf w t c o r w' : effect android w t c o r w' -> wf w -> wf w'.
Proof.
  intros [] Hw; [done|by eapply wf_create|by apply wf_burn|..]; eapply wf_update; eauto using wf_handles.
  - eapply wf_set_core, wf_handles; eauto.
  - eapply wf_write; eauto using wf_handles.
  - eapply wf_read; eauto using wf_handles.
Qed.

Lemma blocks_wf w t c w' : blocks w t c w' -> waiting w !! t = None -> wf w -> wf w'.
Proof.
  intros [c1 id cmd h Hc Hp Hr Hh Ht Hs Hl Hlen|c1 id h Hc Hp Hr Hh Ht] Hn Hw.
  - set (x := WaitReply id (tokens w) c1 None).
    assert (Hd : id ∈ dom (objects w)) by (apply elem_of_dom; eauto).
    assert (Hw1 : wf (set_waiting w (<[t := x]> (waiting w)) (S (tokens w)))).
    { apply wf_wait; try done; simpl; [by eauto with lia|lia|].
      intros ? ? ? ? [= <- <- <- <-]. split; first done. intros id' h' q Hh' Hq Heq.
      destruct (wf_queued _ Hw _ _ _ Hh' Hq). lia. }
    refine (wf_update _ id h (set_commands h (commands h ++ [(tokens w, cmd)])) Hw1 Hh _ _ _ _); try done.
    + apply wf_send; eauto using wf_handles.
    + intros q. unfold queued; simpl. rewrite !elem_of_app, list_elem_of_singleton.
      intros [[?| ->]|?]; auto. right. split; simpl; [lia|].
      intros t' id' c' a E; lookups; [done|]. destruct (wf_waits _ Hw _ _ E) as [_ [? _]]. lia.
  - apply (wf_wait (with_handle w id (set_stop h))); try done; simpl; [|split; first done; exists (set_stop h);
      by rewrite lookup_insert_eq].
    eapply wf_update; eauto using wf_set_stop, wf_handles.
Qed.

Lemma handle_command_fields h k cmd d h' o : handle_command h k cmd d = (h', o) ->
  (stop h' = stop h) /\ commands h' = commands h /\ callbacks h' = callbacks h /\
  (worker h' = Selecting \/ (cmd = Start /\ o = None /\ worker h' = Starting k)).
Proof. unfold handle_command. intros E. repeat case_match; simplify_eq/=; naive_solver. Qed.

Lemma join_inv h o h' : join h = Some (o, h') ->
  o <> Panicked /\ ((taken h = true /\ h' = h /\ o = Ok tt) \/ (live h = false /\ h' = set_taken h)).
Proof. unfold join, live. intros E. repeat case_match; naive_solver. Qed.

Lemma after_join_inv w id c o o' w' : after_join w id c o = (o', w') ->
  w' = w \/ ((exists id', c = meta_destroy_v1 id') /\ o' = Ok META_OK /\ w' = set_registry w (registry w ∖ {[id]})).
Proof. unfold after_join. intros E. repeat case_match; naive_solver. Qed.

Lemma finish_start_fields h k o : worker h = Starting k ->
  (stop h = true -> stop (finish_start h o) = true) /\ commands (finish_start h o) = commands h /\
  callbacks (finish_start h o) = callbacks h /\ worker (finish_start h o) = Selecting.
Proof. by destruct o. Qed.

Lemma gone_fields h :
  queued (exit_worker h) = [] /\ queued (panic_worker h) = [] /\
  callbacks (exit_worker h) = callbacks h /\ callbacks (panic_worker h) = callbacks h.
Proof. unfold queued, exit_worker, panic_worker; simpl. by destruct (running h). Qed.

Lemma step_wf w e w' : step w e w' -> wf w -> wf w'.
Proof.
  intros [] Hw; unfold return_world; try apply wf_record_error.
  - eauto using effect_wf, exec_effect.
  - eauto using blocks_wf, exec_blocks.
  - by apply wf_unblock.
  - apply wf_unblock. eapply wf_update; eauto using wf_set_stop, wf_handles.
  - assert (wf (unblock (with_handle w0 id h') t)).
    { apply wf_unblock. apply join_inv in H2 as [_ [(? & -> & ?)|[? ->]]];
        eapply wf_update; eauto using wf_set_taken, wf_handles. }
    apply after_join_inv in H3 as [->|(? & ? & ->)]; [done | by apply wf_deregister].
  - eapply wf_update; eauto.
    + apply (wf_receive h (k, cmd)); eauto using wf_handles.
    + intros p. unfold queued; simpl. rewrite H1, H3. set_solver.
  - assert (wf (with_handle w0 id h')).
    { destruct (handle_command_fields _ _ _ _ _ _ H3) as (Hst & Hc & Hcb & Hs). eapply wf_update; eauto.
      - eapply wf_handle_command; eauto using wf_handles.
      - intros q. unfold queued. rewrite Hc, H1.
        destruct Hs as [->|(-> & _ & ->)]; set_solver. }
    destruct o; [by apply wf_deliver | done].
  - apply wf_deliver. destruct (finish_start_fields h k o H1) as (? & Hc & ? & Hs). eapply wf_update; eauto.
    + eapply wf_finish_start; eauto using wf_handles.
    + intros q. unfold queued. rewrite Hc, Hs, H1. set_solver.
  - eapply wf_update; eauto.
    + apply wf_set_worker; eauto using wf_handles. unfold live. by rewrite H1.
    + intros q. unfold queued; simpl. rewrite H1. auto.
  - destruct (gone_fields h) as (Hq & ? & ? & ?). eapply wf_update; eauto.
    + apply wf_exit; eauto using wf_handles.
    + unfold exit_worker; simpl. by destruct (running h).
    + rewrite Hq. by intros ? ?%elem_of_nil.
  - destruct (gone_fields h) as (? & Hq & ? & ?). eapply wf_update; eauto.
    + apply wf_panic; eauto using wf_handles.
    + unfold panic_worker; simpl. by destruct (running h).
    + rewrite Hq. by intros ? ?%elem_of_nil.
  - by apply wf_callback_enter.
  - by apply wf_callback_leave.
  - eapply wf_update; eauto using wf_consume, wf_handles.
  - eapply wf_update; eauto using wf_emit, wf_handles.
  - eapply wf_update; eauto using wf_set_stop, wf_handles.
  - eapply wf_update; eauto using wf_set_core, wf_handles.
Qed.

Lemma reachable_wf tr w : run initial tr w -> wf w.
Proof. intros Hr. eapply run_invariant; [exact step_wf | exact Hr | apply initial_wf]. Qed.

(** ** Replies stay due *)

Lemma effect_replies w t c o r w' : effect android w t c o r w' -> wf w -> replies_due w -> replies_due w'.
Proof.
  intros [] Hw Hd; try done; try (eapply replies_update; eauto; fail).
  intros t' x Hx. specialize (Hd _ _ Hx). destruct x as [id1 k1 c1 [a|]|]; try done.
  destruct Hd as (h1 & cmd & Ho & Hrest). exists h1, cmd. split; [|done]. simpl. rewrite lookup_insert_ne; [done|].
  pose proof (wf_ids _ Hw _ _ Ho). lia.
Qed.

Lemma blocks_replies w t c w' : blocks w t c w' -> replies_due w -> replies_due w'.
Proof.
  intros [c1 id cmd h Hc Hp Hr Hh Ht Hs Hl Hlen|c1 id h Hc Hp Hr Hh Ht] Hd t' x Hx; simpl in Hx.
  - apply lookup_insert_Some in Hx as [[_ <-]|[_ Hx]].
    + eexists _, cmd. simpl. rewrite lookup_insert_eq. split; [done|]. split; [done|]. left. unfold queued. simpl. set_solver.
    + apply (reply_due_update w id h); [done | by apply (Hd t') | | done]. intros k1 c2 _ cmd' Hin. left. unfold queued in *. simpl. set_solver.
  - apply lookup_insert_Some in Hx as [[_ <-]|[_ Hx]]; [done|]. apply (reply_due_update w id h); [done | by apply (Hd t') | auto | done].
Qed.

Lemma replies_record_error w t e : replies_due w -> replies_due (record_error w t e).
Proof. by destruct e. Qed.

Lemma replies_unblock w t : replies_due w -> replies_due (unblock w t).
Proof. intros Hd t' x Hx. simpl in Hx. apply lookup_delete_Some in Hx as [_ Hx]. by apply (Hd t'). Qed.

Lemma step_replies w e w' : step w e w' -> wf w -> replies_due w -> replies_due w'.
Proof.
  intros [] Hw Hd; unfold return_world; try apply replies_record_error.
  - eauto using effect_replies, exec_effect.
  - eauto using blocks_replies, exec_blocks.
  - by apply replies_unblock.
  - apply replies_unblock. eapply replies_update; eauto.
  - assert (replies_due (unblock (with_handle w0 id h') t)).
    { apply replies_unblock. apply join_inv in H2 as [_ [(? & -> & ?)|[? ->]]]; eapply replies_update; eauto. }
    by apply after_join_inv in H3 as [->|(? & ? & ->)].
  - eapply replies_update; eauto.
    + intros p Hp. left. unfold queued in *. simpl. rewrite H1, H3 in Hp. set_solver.
    + unfold live. by rewrite H1.
  - destruct (handle_command_fields _ _ _ _ _ _ H3) as (Hst & Hc & Hcb & Hs).
    assert (Hlive : live h = false -> live h' = false) by (unfold live; by rewrite H1).
    destruct o as [o|].
    + eapply replies_deliver; eauto. intros q Hq Hne. unfold queued in *. rewrite Hc. rewrite H1 in Hq. set_solver.
    + eapply replies_update; eauto. intros q Hq. left. unfold queued in *. rewrite Hc. rewrite H1 in Hq.
      destruct Hs as [Hs|(-> & _ & ->)]; [|done]. exfalso. unfold handle_command in H3. repeat case_match; simplify_eq/=.
  - destruct (finish_start_fields h k o H1) as (? & Hc & ? & Hs). eapply replies_deliver; eauto.
    + intros q Hq Hne. unfold queued in *. rewrite Hc, Hs. rewrite H1 in Hq. set_solver.
    + unfold live. by rewrite H1.
  - eapply replies_update; eauto.
    + intros q Hq. left. unfold queued in *. simpl. by rewrite H1 in Hq.
    + unfold live. by rewrite H1.
  - eapply replies_update; eauto.
  - eapply replies_update; eauto.
  - intros t' x Hx. apply (reply_due_update w0 id h (set_callbacks h (t :: callbacks h))); [done | by apply (Hd t') | auto | done].
  - intros t' x Hx. apply (reply_due_update w0 id h (set_callbacks h (l1 ++ l2))); [done | by apply (Hd t') | auto | done].
  - eapply replies_update; eauto.
  - eapply replies_update; eauto.
  - eapply replies_update; eauto.
  - eapply replies_update; eauto.
Qed.

Lemma reachable_replies tr w : run initial tr w -> wf w /\ replies_due w.
Proof.
  intros Hr. eapply (run_invariant android (fun w => wf w /\ replies_due w)); [|exact Hr|].
  - intros w1 e w2 Hs [Hw Hd]. split; [by eapply step_wf | by eapply step_replies].
  - split; [apply initial_wf|]. intros t x Hx. done.
Qed.

(** C1: whatever the host's threads, the workers and the callbacks do, and in
    whatever order, the state of the library stays well formed: at most 16
    handles are registered, each with an object, under identifiers in use once;
    command and packet queues keep to their capacities; a worker that is gone
    has no callback, no command and no end of a packet queue; a blocked call is
    never made by a callback, and if it waits for a reply that has not been sent,
    then its command is in the queue of its worker or being handled there, or the
    worker has ended. *)
Theorem host_invariant tr w : run initial tr w -> wf w /\
  forall t id k c, waiting w !! t = Some (WaitReply id k c None) -> exists h cmd, objects w !! id = Some h /\
    command_of c = Some (id, cmd) /\ ((k, cmd) ∈ queued h \/ live h = false).
Proof. intros [Hw Hd]%reachable_replies. split; [done|]. intros t id k c Hx. exact (Hd _ _ Hx). Qed.

(** ** How a handle changes *)

(** Cancellation, the end of the worker and the loss of the packet queue are
    final; whether the configuration has a TUN is fixed. *)
Definition evolves (h h' : handle) : Prop :=
  (stop h = true -> stop h' = true) /\ (taken h = true -> taken h' = true) /\
  (live h = false -> live h' = false) /\ (queue_enabled h = false -> queue_enabled h' = false) /\
  tun h' = tun h.

#[local] Instance evolves_refl : Reflexive evolves.
Proof. by intros h. Qed.
#[local] Instance evolves_trans : Transitive evolves.
Proof. intros h1 h2 h3. unfold evolves. intuition congruence. Qed.

Lemma update_evolves w id h h' id1 h1 :
  objects w !! id = Some h -> evolves h h' -> objects w !! id1 = Some h1 ->
  exists h2, objects (with_handle w id h') !! id1 = Some h2 /\ evolves h1 h2.
Proof.
  intros Hh He H1; simpl. destruct (decide (id1 = id)) as [->|].
  - exists h'. rewrite lookup_insert_eq. by simplify_eq.
  - exists h1. by rewrite lookup_insert_ne.
Qed.

Lemma objects_record_error w t e : objects (record_error w t e) = objects w.
Proof. by destruct e. Qed.

Lemma effect_evolves w t c o r w' id h : effect android w t c o r w' -> wf w ->
  objects w !! id = Some h -> exists h', objects w' !! id = Some h' /\ evolves h h'.
Proof.
  intros [] Hw Hh; eauto using evolves_refl; try (by eapply update_evolves).
  exists h. split; last done. simpl. rewrite lookup_insert_ne; first done.
  intros <-. pose proof (wf_ids _ Hw _ _ Hh). lia.
Qed.

Lemma blocks_evolves w t c w' id h : blocks w t c w' ->
  objects w !! id = Some h -> exists h', objects w' !! id = Some h' /\ evolves h h'.
Proof. intros [] Hh; by eapply update_evolves. Qed.

Lemma step_evolves w e w' id h : step w e w' -> wf w ->
  objects w !! id = Some h -> exists h', objects w' !! id = Some h' /\ evolves h h'.
Proof.
  intros [] Hw Hh; unfold return_world; rewrite ?objects_record_error; try (by eapply update_evolves);
    try (by eauto using evolves_refl).
  - eauto using effect_evolves, exec_effect.
  - eauto using blocks_evolves, exec_blocks.
  - apply join_inv in H2 as [_ Hj].
    assert (evolves h0 h'). { destruct Hj as [(? & -> & ?)|[? ->]]; by repeat split. }
    apply after_join_inv in H3 as [->|(? & ? & ->)]; by eapply update_evolves.
  - eapply update_evolves; eauto. repeat split; try done. unfold live; simpl. by rewrite H1.
  - assert (evolves h0 h').
    { assert (live h0 = true) by (unfold live; by rewrite H1). unfold handle_command in H3.
      repeat case_match; simplify_eq; unfold evolves; simpl; intuition congruence. }
    destruct o; by eapply update_evolves.
  - eapply update_evolves; eauto. unfold evolves, live. rewrite H1. by destruct o; repeat split.
  - eapply update_evolves; eauto. unfold evolves, live; simpl. by rewrite H1.
  - eapply update_evolves; eauto. unfold evolves, exit_worker, live; simpl. rewrite H1. by destruct (running h0).
  - eapply update_evolves; eauto. unfold evolves, panic_worker; simpl. by destruct (running h0).
Qed.

Lemma run_evolves w tr w' id h : run w tr w' -> wf w ->
  objects w !! id = Some h -> wf w' /\ exists h', objects w' !! id = Some h' /\ evolves h h'.
Proof.
  induction 1 as [w|w tr w1 e w2 Hr IH Hs]; intros Hw Hh; first by eauto using evolves_refl.
  destruct IH as (Hw1 & h1 & H1 & He1); [done..|].
  destruct (step_evolves _ _ _ _ _ Hs Hw1 H1) as (h2 & ? & ?). split; first by eapply step_wf.
  exists h2. split; [done | by etrans].
Qed.

(** Activity of the worker, the runtime or the callbacks of a handle. *)
Definition activity (id : Z) (e : event) : Prop :=
  match e with
  | CallbackEnter id' _ | CallbackLeave id' _ | StartBegin id' | Emitted id' _ | Consumed id' _ => id' = id
  | _ => False
  end.

Lemma gone_no_activity w e w' id h : step w e w' -> wf w -> objects w !! id = Some h -> live h = false ->
  ~ activity id e.
Proof.
  intros [] Hw Hh Hl Ha; simpl in Ha; try done; simplify_eq; try congruence.
  - case_match; simpl in Ha; simplify_eq. by unfold live in Hl; rewrite H1 in Hl.
  - destruct (wh_gone _ (wf_handles _ Hw _ _ H0) Hl) as (_ & Hc & _). rewrite H1 in Hc. by destruct l1.
Qed.

Lemma gone_quiet w tr w' id h : run w tr w' -> wf w -> objects w !! id = Some h -> live h = false ->
  Forall (fun e => ~ activity id e) tr.
Proof.
  induction 1 as [w|w tr w1 e w2 Hr IH Hs]; intros Hw Hh Hl; first by constructor.
  apply Forall_app. split; first by apply IH.
  destruct (run_evolves _ _ _ _ _ Hr Hw Hh) as (Hw1 & h1 & H1 & _ & _ & Hl1 & _).
  constructor; [|done]. eapply gone_no_activity; eauto.
Qed.
End lifecycle.
