(* ===== verification/FfiCore.v ===== *)
(** * The cores behind the handles

    How the C interface drives the core: a core begins as [Core_new] makes it,
    and changes by the operations of the class [CoreOps] only.  A property of
    the core that its operations keep, stated as the class [CoreLaws], therefore
    holds for every handle in every state the library can reach. *)

From S2P Require Import Prelude FfiAbi FfiHost FfiStep FfiFacts FfiLifecycle.
Local Open Scope Z_scope.

Section moves.
Context `{CoreOps}.
Variable android : bool.
Abbreviation step := (step android).
Abbreviation run := (run android).

(** One operation on a core, by a call, by the worker or by a task. *)
Inductive core_action (c : Core) : Core -> Prop :=
  | ca_call c' : core_call c c' -> core_action c c'
  | ca_network : core_action c (core_network_changed c)
  | ca_run x : core_action c (core_run c x).

(** Where the cores of a state come from. *)
Definition core_origin (w w' : world) : Prop := forall id h', objects w' !! id = Some h' ->
  (exists h, objects w !! id = Some h /\ (core h' = core h \/ core_action (core h) (core h'))) \/
  (objects w !! id = None /\ exists config, Core_new config = Ok (core h')).

Lemma origin_same w : core_origin w w.
Proof. intros id h Hh. left. eauto. Qed.

Lemma origin_update w id h h' : objects w !! id = Some h -> core h' = core h \/ core_action (core h) (core h') ->
  core_origin w (with_handle w id h').
Proof.
  intros Hh Hc id1 h1 E. cbn [with_handle objects] in E. left.
  apply lookup_insert_Some in E as [[<- <-]|[_ E]]; eauto.
Qed.

Lemma origin_effect w t c o r w' : effect android w t c o r w' -> wf w -> core_origin w w'.
Proof.
  intros He Hw. destruct He as [|config hooks out h _ _ _ _ Hf| |? ? ? ? ? ? _ _ Hh _ _ _ Hk|? ? ? ? _ _ Hh|? ? ? ? ? ? ? _ _ Hh];
    try apply origin_same; try (eapply origin_update; [exact Hh|]; by auto using core_action).
  2: { intros id1 h1 E. left. eauto. }
  destruct Hf as (_ & _ & _ & _ & _ & _ & _ & _ & _ & _ & _ & _ & _ & _ & Hc).
  intros id1 h1 E. cbn [with_handle objects set_next set_registry] in E.
  apply lookup_insert_Some in E as [[<- <-]|[_ E]]; [right | left; eauto]. split; [|done].
  destruct (objects w !! next w) as [h0|] eqn:E0; [|done]. pose proof (wf_ids _ Hw _ _ E0). lia.
Qed.

Lemma origin_blocks w t c w' : blocks w t c w' -> core_origin w w'.
Proof. intros [? ? ? h _ _ _ Hh|? ? h _ _ _ Hh]; eapply origin_update; eauto. Qed.

Lemma handle_command_core h k cmd d h' o : handle_command h k cmd d = (h', o) ->
  core h' = core h \/ core_action (core h) (core h').
Proof. unfold handle_command. intros E. repeat case_match; simplify_eq; auto using core_action. Qed.

Lemma step_origin w e w' : step w e w' -> wf w -> core_origin w w'.
Proof.
  intros Hs Hw. unfold core_origin.
  destruct Hs as [w t sys c o r w' _ _ Hx|w t sys c w' _ _ Hx|w t id k c o _|w t id k c h _ Hh|w t id c h o h' o' w' _ Hh Hj Ha
    |w id h k cmd q Hh _ _ _|w id h k cmd d h' o Hh _ _ Hc|w id h k o Hh _ _|w id h Hh _ _|w id h Hh _ _
    |w id h Hh _ _|w id h t Hh _ _ _ _|w id h t l1 l2 Hh _ _|w id h p q Hh _ _ _|w id h p Hh _ _ _
    |w id h Hh _|w id h x Hh _]; unfold return_world; rewrite ?objects_record_error;
    cbn [objects set_in_callback unblock set_waiting];
    try (eapply (origin_update _ _ _ _ Hh); by auto using core_action).
  - by eapply origin_effect; [apply exec_effect in Hx|].
  - by eapply origin_blocks, exec_blocks.
  - exact (origin_same w).
  - assert (Hc : core h' = core h) by (unfold join in Hj; repeat case_match; by simplify_eq).
    apply after_join_inv in Ha as [->|(_ & _ & ->)]; eapply (origin_update _ _ _ _ Hh); auto.
  - destruct o; eapply (origin_update _ _ _ _ Hh); by eapply handle_command_core.
  - eapply (origin_update _ _ _ _ Hh). left. by destruct o.
  - eapply (origin_update _ _ _ _ Hh). left. unfold exit_worker. by destruct (running h).
  - eapply (origin_update _ _ _ _ Hh). left. unfold panic_worker. by destruct (running h).
  - eapply (origin_update _ _ _ _ Hh). right. apply ca_run.
Qed.

(** The core of a handle changes by operations of the core only. *)
Lemma run_core w tr w' id h : run w tr w' -> wf w -> objects w !! id = Some h ->
  exists h', objects w' !! id = Some h' /\ rtc core_action (core h) (core h').
Proof.
  induction 1 as [w|w tr w1 e w2 Hr IH Hs]; intros Hw Hh; [eauto using rtc_refl|].
  destruct (IH Hw Hh) as (h1 & H1 & Hc). destruct (run_evolves _ _ _ _ _ _ Hr Hw Hh) as [Hw1 _].
  destruct (step_evolves _ _ _ _ _ _ Hs Hw1 H1) as (h2 & H2 & _). exists h2. split; [done|].
  destruct (step_origin _ _ _ Hs Hw1 _ _ H2) as [(h0 & H0 & Ho)|[H0 _]]; [|congruence].
  rewrite H1 in H0. injection H0 as <-. destruct Ho as [->|Ho]; [done | by eapply rtc_r].
Qed.
End moves.

(** A property the operations of the core keep. *)
Class CoreLaws `{CoreOps} (inv : Core -> Prop) := {
  core_new_ok config c : Core_new config = Ok c -> inv c;
  core_action_ok c c' : core_action c c' -> inv c -> inv c'
}.

Lemma reachable_cores `{CoreOps} inv `{!CoreLaws inv} android tr w id h :
  run android initial tr w -> objects w !! id = Some h -> inv (core h).
Proof.
  intros Hr. remember initial as w0 eqn:E0. revert id h.
  induction Hr as [w|w tr w1 e w2 Hr IH Hs]; intros id h E.
  - subst. cbn [initial objects] in E. by rewrite lookup_empty in E.
  - subst. specialize (IH eq_refl). pose proof (reachable_wf _ _ _ Hr) as Hw.
    destruct (step_origin _ _ _ _ Hs Hw _ _ E) as [(h0 & H0 & [->|Ho])|[_ [config Hc]]].
    + by eapply IH.
    + eapply core_action_ok; [done|]. by eapply IH.
    + by eapply core_new_ok.
Qed.
