(* ===== verification/FfiContract.v ===== *)
(** * The C interface: the contract of the header

    What the comments of crates/ffi/include/meta_rust.h promise to hosts, as
    theorems about every run of the process. *)

From S2P Require Import Prelude FfiAbi FfiHost FfiStep FfiFacts FfiLifecycle.
Local Open Scope Z_scope.

Section contract.
Context `{CoreOps}.
Variable android : bool.
Abbreviation step := (step android).
Abbreviation run := (run android).

(** ** How a call returns *)

Inductive returns (w : world) (t : tid) (c : call) (o : outcome Z) (r : reply) (w' : world) : Prop :=
  | ret_now : waiting w !! t = None -> available android c = true -> effect android w t c o r w' ->
      returns w t c o r w'
  | ret_reply id k u : waiting w !! t = Some (WaitReply id k c (Some u)) ->
      o = (let! _ := u in Ok META_OK) -> r = NoReply -> w' = unblock w t -> returns w t c o r w'
  | ret_no_reply id k h : waiting w !! t = Some (WaitReply id k c None) -> objects w !! id = Some h ->
      o = (let! _ := no_reply h k in Ok META_OK) -> r = NoReply ->
      w' = unblock (with_handle w id (set_stop h)) t -> returns w t c o r w'
  | ret_join id h u h' : waiting w !! t = Some (WaitJoin id c) -> objects w !! id = Some h ->
      join h = Some (u, h') -> after_join (unblock (with_handle w id h') t) id c u = (o, w') -> r = NoReply ->
      returns w t c o r w'.

Lemma step_return_inv w t c st r w' : step w (Return t c st r) w' ->
  exists o w1, returns w t c o r w1 /\ st = fst (boundary o) /\ w' = return_world w1 t o.
Proof.
  intros Hs. remember (Return t c st r) as e eqn:Ee.
  destruct Hs; unfold return_event in Ee; repeat case_match; simplify_eq.
  - eexists _, _. split_and!; [eapply ret_now; eauto using exec_effect | done..].
  - eexists _, _. split_and!; [by eapply ret_reply | done..].
  - eexists _, _. split_and!; [by eapply ret_no_reply | done..].
  - eexists _, _. split_and!; [by eapply ret_join | done..].
Qed.

Lemma boundary_OK o : fst (boundary o) = META_OK -> o = Ok META_OK.
Proof. destruct o; simpl; intros E; [by rewrite E | discriminate..]. Qed.

Lemma shuts_down_lifecycle c id : shuts_down c = Some id ->
  lifecycle c = true /\ command_of c = None /\ call_handle c = Some id.
Proof. by destruct c. Qed.

Lemma command_of_lifecycle c id cmd : command_of c = Some (id, cmd) ->
  lifecycle c = true /\ shuts_down c = None /\ call_handle c = Some id /\ is_create c = false.
Proof. by destruct c; intros; simplify_eq/=. Qed.

(** A shutdown that succeeds has seen the worker end. *)
Lemma returns_shutdown w t c r w' id : wf w -> returns w t c (Ok META_OK) r w' -> shuts_down c = Some id ->
  exists h, objects w' !! id = Some h /\ live h = false /\
    (c = meta_destroy_v1 id -> id ∉ registry w').
Proof.
  intros Hw Hr Hc. destruct (shuts_down_lifecycle _ _ Hc) as (Hl & Hcmd & _).
  destruct Hr as [_ _ He|id' k u Hk Ho _ ->|id' k h Hk Hh Ho _ ->|id' h u h' Hk Hh Hj Ha _].
  - remember (Ok META_OK) as o eqn:Eo. destruct He as [? ? ? _ _ Hno| | | | |]; simplify_eq/=; try congruence.
    by destruct (Hno Hl META_OK).
  - destruct (wf_waits _ Hw _ _ Hk) as [_ (_ & _ & cmd & ?)]. congruence.
  - destruct (wf_waits _ Hw _ _ Hk) as [_ (_ & _ & cmd & ?)]. congruence.
  - destruct (wf_waits _ Hw _ _ Hk) as [_ [Hs _]]. assert (id' = id) as -> by congruence.
    exists h'. apply join_inv in Hj as [_ Hj].
    assert (live h' = false).
    { destruct Hj as [(? & -> & ?)|[? ->]]; [by apply (wh_taken _ (wf_handles _ Hw _ _ Hh)) | done]. }
    unfold after_join in Ha. repeat case_match; simplify_eq/=; rewrite lookup_insert_eq; split_and!; try done; set_solver.
Qed.

(** ** Destroyed handles *)

Lemma blocks_registered w t c w' : blocks w t c w' ->
  lifecycle c = true /\ (t ∉ in_callback w) /\ exists id, call_handle c = Some id /\ id ∈ registry w.
Proof.
  intros [? ? ? ? Hc|? ? ? Hc];
    [apply command_of_lifecycle in Hc as (? & ? & ? & ?)|apply shuts_down_lifecycle in Hc as (? & ? & ?)]; eauto.
Qed.

Lemma registry_record_error w t e : registry (record_error w t e) = registry w.
Proof. by destruct e. Qed.
Lemma next_record_error w t e : next (record_error w t e) = next w.
Proof. by destruct e. Qed.

Lemma step_registry w e w' id : step w e w' -> id ∉ registry w -> id < next w ->
  (id ∉ registry w') /\ id < next w'.
Proof.
  intros Hs. destruct Hs; intros Hi Hn; unfold return_world;
    rewrite ?registry_record_error, ?next_record_error; try done.
  - apply exec_effect in H2. destruct H2; simpl; try done; (split; [set_solver by lia | lia]).
  - apply exec_blocks in H2 as []; done.
  - apply after_join_inv in H3 as [->|(? & ? & ->)]; simpl; set_solver.
  - by destruct o.
Qed.

Lemma run_registry w tr w' id : run w tr w' -> id ∉ registry w -> id < next w ->
  (id ∉ registry w') /\ id < next w'.
Proof. induction 1; [done|]. intros. eapply step_registry; naive_solver. Qed.

(** A call on a handle that is not registered fails at once, whatever the
    thread has done before. *)
Lemma unregistered_fails w t c o r w' id : effect android w t c o r w' ->
  call_handle c = Some id -> id ∉ registry w -> (forall s, o <> Ok s) /\ w' = w.
Proof.
  intros He Hc Hi. destruct He; simplify_eq/=; try done. split; last done. intros s ->. naive_solver.
Qed.

(** C5: once [meta_destroy_v1] has succeeded for a handle, no call on it ever
    gets past the check of the handle again: it does not wait, it returns
    [META_ERROR], and it changes neither a handle nor the registry. *)
Theorem destroyed_handle_stays_invalid tr1 w1 t id r w2 tr2 w3 t' c :
  run initial tr1 w1 -> step w1 (Return t (meta_destroy_v1 id) META_OK r) w2 -> run w2 tr2 w3 ->
  call_handle c = Some id ->
  (forall w4, ~ step w3 (Block t' c) w4) /\
  (forall st r' w4, waiting w3 !! t' = None -> step w3 (Return t' c st r') w4 ->
     st = META_ERROR /\ objects w4 = objects w3 /\ registry w4 = registry w3).
Proof.
  intros Hr1 Hs Hr2 Hc. pose proof (reachable_wf _ _ _ Hr1) as Hw1.
  assert (Hi : (id ∉ registry w3) /\ id < next w3).
  { pose proof (step_wf _ _ _ _ Hs Hw1) as Hw2.
    apply step_return_inv in Hs as (o & w & Hret & Ho & ->). symmetry in Ho. apply boundary_OK in Ho as ->.
    destruct (returns_shutdown _ _ _ _ _ id Hw1 Hret eq_refl) as (h & Hh & _ & Hreg).
    eapply run_registry; [exact Hr2| by apply Hreg |]. by eapply wf_ids. }
  destruct Hi as [Hi _]. split.
  - intros w4 Hb. remember (Block t' c) as e. destruct Hb; repeat case_match; simplify_eq.
    apply exec_blocks, blocks_registered in H2. naive_solver.
  - intros st r' w4 Hn Hret. apply step_return_inv in Hret as (o & w & Hret & -> & ->).
    destruct Hret; simplify_eq. destruct (unregistered_fails _ _ _ _ _ _ _ H2 Hc Hi) as [Ho ->].
    unfold return_world. rewrite objects_record_error, registry_record_error.
    destruct o; naive_solver.
Qed.

(** Identifiers given out so far. *)
Lemma create_returns w t config hooks out o r w' :
  returns w t (meta_create_v1 config hooks out) o r w' -> wf w ->
  waiting w !! t = None /\ effect android w t (meta_create_v1 config hooks out) o r w'.
Proof.
  intros [| | |] Hw; [done|..].
  all: destruct (wf_waits _ Hw _ _ ltac:(eassumption)); naive_solver.
Qed.

Lemma create_OK_effect w t config hooks out r w' :
  effect android w t (meta_create_v1 config hooks out) (Ok META_OK) r w' ->
  exists h, r = HandleOut (Some (next w)) /\ next w + 1 < 2 ^ 64 /\ fresh_handle android h /\
    w' = set_registry (set_next (with_handle w (next w) h) (next w + 1) (poisoned w)) ({[next w]} ∪ registry w).
Proof.
  intros He. remember (Ok META_OK) as o eqn:Eo. remember (meta_create_v1 config hooks out) as c eqn:Ec.
  destruct He; simplify_eq/=; eauto; naive_solver.
Qed.

Lemma created_below tr w t config hooks out id : run initial tr w ->
  Return t (meta_create_v1 config hooks out) META_OK (HandleOut (Some id)) ∈ tr -> id < next w.
Proof.
  intros Hr. remember initial as w0. induction Hr as [|w0 tr w1 e w2 Hr IH Hs]; first by intros ?%elem_of_nil.
  assert (next w1 <= next w2).
  { destruct Hs; unfold return_world; rewrite ?next_record_error; try done.
    - apply exec_effect in H2. destruct H2; simpl; lia.
    - apply exec_blocks in H2 as []; done.
    - apply after_join_inv in H3 as [->|(? & ? & ->)]; done.
    - by destruct o. }
  intros [Hin|<-%list_elem_of_singleton]%elem_of_app; first by specialize (IH Heqw0 Hin); lia.
  pose proof (reachable_wf _ _ _ ltac:(subst; eassumption)) as Hw.
  apply step_return_inv in Hs as (o & w' & Hret & Ho & ->). symmetry in Ho. apply boundary_OK in Ho as ->.
  unfold return_world. rewrite next_record_error.
  apply create_returns in Hret as [_ (h & [= ->] & _ & _ & ->)%create_OK_effect]; [simpl; lia|done].
Qed.

(** C9: the handle [meta_create_v1] gives out is neither zero nor a handle given
    out before; it is registered, and what it names has not been started. *)
Theorem created_handle_is_new tr w t config hooks out r w' :
  run initial tr w -> step w (Return t (meta_create_v1 config hooks out) META_OK r) w' ->
  exists id h, r = HandleOut (Some id) /\ 0 < id < 2 ^ 64 /\ id ∈ registry w' /\
    objects w' !! id = Some h /\ started h = false /\ stop h = false /\ callbacks h = [] /\
    (android = true -> protect h = true) /\
    forall t' config' hooks' out',
      Return t' (meta_create_v1 config' hooks' out') META_OK (HandleOut (Some id)) ∉ tr.
Proof.
  intros Hr Hs. pose proof (reachable_wf _ _ _ Hr) as Hw. pose proof (wf_next _ Hw).
  apply step_return_inv in Hs as (o & w1 & Hret & Ho & ->). symmetry in Ho. apply boundary_OK in Ho as ->.
  apply create_returns in Hret as [_ (h & -> & ? & Hf & ->)%create_OK_effect]; [|done].
  destruct Hf as (? & ? & ? & ? & ? & ? & ? & ? & ? & ? & ? & ? & ? & ? & _).
  exists (next w), h. simpl. split_and!; try done; try lia; [set_solver | by rewrite lookup_insert_eq|].
  intros t' config' hooks' out' Hin. pose proof (created_below _ _ _ _ _ _ _ Hr Hin). lia.
Qed.

(** ** Shutdown *)

(** C3: when [meta_stop_v1] or [meta_destroy_v1] returns [META_OK], the worker
    of the handle has ended and no callback of it is running; from then on the
    handle is never started, no callback begins or ends, and no packet moves
    between the host and the worker. *)
Theorem shutdown_is_quiet tr1 w1 t c id r w2 tr2 w3 :
  run initial tr1 w1 -> step w1 (Return t c META_OK r) w2 -> shuts_down c = Some id -> run w2 tr2 w3 ->
  (exists h, objects w2 !! id = Some h /\ live h = false /\ callbacks h = []) /\
  Forall (fun e => ~ activity id e) tr2.
Proof.
  intros Hr1 Hs Hc Hr2. pose proof (reachable_wf _ _ _ Hr1) as Hw1.
  pose proof (step_wf _ _ _ _ Hs Hw1) as Hw2.
  apply step_return_inv in Hs as (o & w & Hret & Ho & ->). symmetry in Ho. apply boundary_OK in Ho as ->.
  destruct (returns_shutdown _ _ _ _ _ id Hw1 Hret Hc) as (h & Hh & Hl & _).
  destruct (wh_gone _ (wf_handles _ Hw2 _ _ Hh) Hl) as (_ & ? & _). split; [by eauto|].
  by eapply gone_quiet.
Qed.
End contract.
