(* ===== verification/FfiStart.v ===== *)
(** * The C interface: a handle starts once

    [start_inner] runs at most once for a handle, and at most one call of
    [meta_start_v1] succeeds, whatever calls, time-outs and cancellations are
    interleaved with it. *)

From S2P Require Import Prelude FfiAbi FfiHost FfiStep FfiFacts FfiLifecycle FfiContract.
Local Open Scope Z_scope.

(** Events that begin to start a handle, and successful calls of
    [meta_start_v1]. *)
Definition begins (id : Z) (e : event) : nat :=
  match e with StartBegin id' => if id' =? id then 1 else 0 | _ => 0 end.
Definition started_ok (id : Z) (e : event) : nat :=
  match e with
  | Return _ (meta_start_v1 id') status _ => if (id' =? id) && (status =? META_OK) then 1 else 0
  | _ => 0
  end.
Definition count (f : event -> nat) (tr : list event) : nat := list_sum (f <$> tr).

Section start.
Context `{CoreOps}.
Variable android : bool.
Abbreviation step := (step android).
Abbreviation run := (run android).

(** Where the one start of a handle can be: begun, or answered and not yet
    returned. *)
Definition is_starting (w : world) (id : Z) : Prop :=
  exists h k, objects w !! id = Some h /\ worker h = Starting k.
Definition answered (w : world) (id : Z) (t : tid) : Prop :=
  exists k id', waiting w !! t = Some (WaitReply id' k (meta_start_v1 id) (Some (Ok tt))).
Definition spent (w : world) (id : Z) : Prop :=
  exists h, objects w !! id = Some h /\ (started h = true \/ stop h = true).

Record once (b s : nat) (w : world) (id : Z) : Prop := {
  on_bound : (b <= 1)%nat;
  on_success : (s <= b)%nat;
  on_spent : (1 <= b)%nat -> spent w id;
  on_starting : is_starting w id -> b = 1%nat /\ s = 0%nat /\ forall t, ~ answered w id t;
  on_answered : forall t, answered w id t ->
    b = 1%nat /\ s = 0%nat /\ ~ is_starting w id /\ forall t', answered w id t' -> t' = t
}.

Lemma once_weaken b s w w' id :
  (spent w id -> spent w' id) -> (is_starting w' id -> is_starting w id) ->
  (forall t, answered w' id t -> answered w id t) -> once b s w id -> once b s w' id.
Proof.
  intros Hp Hs Ha []. split; auto.
  - naive_solver.
  - intros t Ht. destruct (on_answered0 t (Ha _ Ht)) as (? & ? & ? & ?). naive_solver.
Qed.

(** Updating a handle without starting it. *)
Lemma spent_update w id h h' id' : objects w !! id = Some h ->
  (started h = true \/ stop h = true -> started h' = true \/ stop h' = true) ->
  spent w id' -> spent (with_handle w id h') id'.
Proof.
  intros Hh Hs (h1 & H1 & Ho). unfold spent; simpl. destruct (decide (id' = id)) as [->|].
  - rewrite lookup_insert_eq. simplify_eq. naive_solver.
  - rewrite lookup_insert_ne by done. eauto.
Qed.

Lemma starting_update w id h h' id' : objects w !! id = Some h ->
  (forall k, worker h' = Starting k -> worker h = Starting k) ->
  is_starting (with_handle w id h') id' -> is_starting w id'.
Proof. intros Hh Hs (h1 & k & H1 & Hk). simpl in *. lookups; unfold is_starting; eauto. Qed.

Lemma once_update b s w id h h' id' :
  objects w !! id = Some h ->
  (started h = true \/ stop h = true -> started h' = true \/ stop h' = true) ->
  (forall k, worker h' = Starting k -> worker h = Starting k) ->
  once b s w id' -> once b s (with_handle w id h') id'.
Proof.
  intros. eapply (once_weaken _ _ w); [by eapply spent_update | by eapply starting_update | done | done].
Qed.

Lemma once_unblock b s w t id : once b s w id -> once b s (unblock w t) id.
Proof. apply once_weaken; try done. intros t' (k & id' & E). simpl in E. lookups. unfold answered; eauto. Qed.

Lemma once_record_error b s w t e id : once b s w id -> once b s (record_error w t e) id.
Proof. by destruct e; [apply once_weaken|]. Qed.

(** An answer that is not the success of a start. *)
Lemma once_deliver b s w k o id :
  (o = Ok tt -> forall t id' a, waiting w !! t <> Some (WaitReply id' k (meta_start_v1 id) a)) ->
  once b s w id -> once b s (deliver w k o) id.
Proof.
  intros Hno. apply once_weaken; try done. intros t (k' & id' & E). simpl in E. lookups.
  unfold answered, deliver_to in *. repeat case_match; simplify_eq; eauto.
  select ((_ =? _)%nat = true) (fun Hk => apply Nat.eqb_eq in Hk as ->). by destruct (Hno eq_refl t id' None).
Qed.

Lemma once_update_ne b s w id h' id' : id' <> id -> once b s w id' -> once b s (with_handle w id h') id'.
Proof.
  intros Hne. apply once_weaken; [..|done].
  - intros (h1 & H1 & Ho). exists h1. simpl. by rewrite lookup_insert_ne.
  - intros (h1 & k & H1 & Hk). simpl in H1. rewrite lookup_insert_ne in H1 by done. by exists h1, k.
Qed.

Lemma once_effect b s w t c o r w' id : effect android w t c o r w' -> wf w -> once b s w id -> once b s w' id.
Proof.
  intros [| ? ? ? h _ _ _ _ Hf| | | |] Hw Ho; [done| |by apply (once_weaken _ _ w)|by eapply once_update..].
  revert Ho. apply once_weaken; [..|done].
  - intros (h1 & Hh & Hs). exists h1. simpl. rewrite lookup_insert_ne; [done|].
    intros <-. pose proof (wf_ids _ Hw _ _ Hh). lia.
  - intros (h1 & k & Hh & Hk). simpl in Hh. lookups; [|by exists h1, k].
    destruct Hf as (_ & _ & _ & _ & E & _). congruence.
Qed.

Lemma once_blocks b s w t c w' id : blocks w t c w' -> once b s w id -> once b s w' id.
Proof.
  intros [c1 id' cmd h|c1 id' h] Ho.
  - assert (Hu : once b s (with_handle w id' (set_commands h (commands h ++ [(tokens w, cmd)]))) id)
      by (by eapply once_update).
    revert Hu. apply once_weaken; try done. intros t' (k & i & E). simpl in E. lookups. by exists k, i.
  - assert (Hu : once b s (with_handle w id' (set_stop h)) id) by (eapply once_update; eauto).
    revert Hu. apply once_weaken; try done. intros t' (k & i & E). simpl in E. lookups. by exists k, i.
Qed.

(** The three steps the start of a handle consists of: it begins, it is
    answered, the call returns. *)
Lemma once_begin b s w id h k : once b s w id -> objects w !! id = Some h ->
  started h = false -> stop h = false ->
  once (b + 1) s (with_handle w id (set_worker (set_started h true) (Starting k))) id.
Proof.
  intros [Hb Hs Hsp Hst Ha] Hh H1 H2.
  assert (b = 0%nat) as ->.
  { destruct b; first done. destruct Hsp as (h' & Hh' & ?); first lia. simplify_eq. intuition congruence. }
  assert (Hn : forall t, ~ answered w id t) by (intros t Ht; by destruct (Ha t Ht)).
  split; try lia; [intros _; eexists; simpl; rewrite lookup_insert_eq; split; [done | by left] | |].
  - intros _. split_and!; [done | lia | exact Hn].
  - intros t Ht. by destruct (Hn t).
Qed.

Lemma once_answer b s w id h h' k : once b s w id -> wf w -> objects w !! id = Some h -> worker h = Starting k ->
  worker h' = Selecting -> started h' = true ->
  once b s (deliver (with_handle w id h') k (Ok tt)) id.
Proof.
  intros [Hb Hs Hsp Hst Ha] Hw Hh Hk Hk' Hsd.
  destruct Hst as (-> & -> & Hn); [by exists h, k|].
  assert (Hns : ~ is_starting (deliver (with_handle w id h') k (Ok tt)) id).
  { intros (h1 & k1 & E & Ek). simpl in E. rewrite lookup_insert_eq in E. simplify_eq. congruence. }
  assert (Hans : forall t, answered (deliver (with_handle w id h') k (Ok tt)) id t ->
    exists id' a, waiting w !! t = Some (WaitReply id' k (meta_start_v1 id) a)).
  { intros t (k1 & id1 & E). simpl in E. lookups. unfold deliver_to in *.
    repeat case_match; simplify_eq; [by destruct (Hn t); unfold answered; eauto|].
    select ((_ =? _)%nat = true) (fun Hk => apply Nat.eqb_eq in Hk as ->). eauto. }
  split; try lia.
  - intros _. exists h'. simpl. rewrite lookup_insert_eq. auto.
  - intros Hs'. by destruct Hns.
  - intros t Ht. split_and!; try done. intros t' Ht'.
    destruct (Hans _ Ht) as (i1 & a1 & E1), (Hans _ Ht') as (i2 & a2 & E2). by eapply wf_tokens.
Qed.

Lemma once_return b s w id t : once b s w id -> answered w id t -> once b (s + 1) (unblock w t) id.
Proof.
  intros [Hb Hs Hsp Hst Ha] Ht. destruct (Ha t Ht) as (-> & -> & Hns & Hu).
  assert (Hn : forall t', ~ answered (unblock w t) id t').
  { intros t' (k & id' & E). simpl in E. lookups. assert (t' = t) by (apply Hu; unfold answered; eauto). congruence. }
  split; try lia; auto.
  - intros ?. by destruct Hns.
  - intros t' Ht'. by destruct (Hn t').
Qed.

(** Who waits for the answer to a command. *)
Lemma queued_not_start w id h k cmd id' : wf w -> objects w !! id = Some h -> (k, cmd) ∈ queued h ->
  (cmd <> Start \/ id' <> id) ->
  forall t i a, waiting w !! t <> Some (WaitReply i k (meta_start_v1 id') a).
Proof.
  intros Hw Hh Hq Hne t i a E. destruct (wf_queued _ Hw _ _ _ Hh Hq) as [_ Hc]. apply Hc in E.
  simpl in E. naive_solver.
Qed.

Lemma once_handle b s w id h k cmd d h' o id' : wf w -> once b s w id' ->
  objects w !! id = Some h -> worker h = Handling k cmd -> handle_command h k cmd d = (h', o) ->
  once (b + begins id' (if starts cmd o then StartBegin id else Internal)) s
    (match o with Some o => deliver (with_handle w id h') k o | None => with_handle w id h' end) id'.
Proof.
  intros Hw Ho Hh Hk Hc.
  assert (Hq : (k, cmd) ∈ queued h) by (unfold queued; rewrite Hk; set_solver).
  assert (Hd : forall o, (o = Ok tt -> cmd <> Start) -> forall h', worker h' = Selecting ->
    started h' = started h -> stop h' = stop h -> once (b + 0) s (deliver (with_handle w id h') k o) id').
  { intros o' Hno h1 Hw1 Hs1 Hs2. rewrite Nat.add_0_r. apply once_deliver.
    - intros ->. apply (queued_not_start w id h k cmd); auto.
    - eapply once_update; eauto; [by rewrite Hs1, Hs2 | congruence]. }
  unfold handle_command in Hc. destruct cmd; simpl in *.
  - destruct (negb _); simplify_eq; [by apply Hd|].
    destruct (started h || stop h) eqn:E; simplify_eq; [by apply Hd|]. simpl.
    apply orb_false_iff in E as [? ?].
    destruct (Z.eqb_spec id id') as [->|]; [by apply once_begin|].
    rewrite Nat.add_0_r. by apply once_update_ne.
  - simplify_eq. by apply Hd.
  - destruct (running h || negb (tun h)); simplify_eq; [by apply Hd|].
    destruct d; simplify_eq; by apply Hd.
Qed.

Lemma once_start_done b s w id h k o id' : wf w -> once b s w id' ->
  objects w !! id = Some h -> worker h = Starting k -> o <> Panicked ->
  once b s (deliver (with_handle w id (finish_start h o)) k o) id'.
Proof.
  intros Hw Ho Hh Hk Hp.
  assert (Hq : (k, Start) ∈ queued h) by (unfold queued; rewrite Hk; set_solver).
  destruct (wh_starting _ (wf_handles _ Hw _ _ Hh) k Hk) as [Hst _].
  destruct (decide (id' = id)) as [->|Hne].
  - destruct o as [[]| |]; [eapply once_answer; eauto| |done].
    apply once_deliver; first done. eapply once_update; simpl; eauto. intros; congruence.
  - apply once_deliver.
    + intros _. apply (queued_not_start w id h k Start); auto.
    + by apply once_update_ne.
Qed.

Lemma started_ok_return id t c o r :
  started_ok id (return_event t c o r) = 0%nat \/
  (started_ok id (return_event t c o r) = 1%nat /\ c = meta_start_v1 id /\ o = Ok META_OK).
Proof.
  unfold return_event; simpl. destruct c; auto. destruct (Z.eqb_spec handle id) as [->|]; auto.
  destruct (Z.eqb_spec (boundary o).1 META_OK) as [E|]; auto. right. split_and!; auto. by apply boundary_OK.
Qed.

Lemma step_once b s w e w' id : step w e w' -> wf w -> once b s w id ->
  once (b + begins id e) (s + started_ok id e) w' id.
Proof.
  intros Hs Hw Ho. destruct Hs; unfold return_world; try apply once_record_error;
    try (destruct (started_ok_return id t c o r) as [->|(_ & -> & ->)]); simpl begins; rewrite ?Nat.add_0_r;
    lazymatch goal with |- context [return_event] => idtac | |- context [starts] => idtac | |- _ => simpl end;
    rewrite ?Nat.add_0_r.
  - eauto using once_effect, exec_effect.
  - apply exec_effect in H2. remember (meta_start_v1 id) as c eqn:Ec. remember (Ok META_OK) as o eqn:Eo.
    destruct H2 as [? ? ? _ _ Hno| | | | |]; simplify_eq/=. by destruct (Hno eq_refl META_OK).
  - eauto using once_blocks, exec_blocks.
  - destruct (started_ok_return id t c (let! _ := o in Ok META_OK) NoReply) as [->|(-> & -> & E)];
      rewrite ?Nat.add_0_r; [by apply once_unblock|].
    apply once_return; [done|]. destruct o as [[]| |]; [by exists k, id0|done..].
  - destruct (started_ok_return id t c (let! _ := no_reply h k in Ok META_OK) NoReply) as [->|(_ & _ & [=])].
    rewrite Nat.add_0_r. apply once_unblock. eapply once_update; eauto.
  - destruct (wf_waits _ Hw _ _ H0) as [_ [Hsd _]].
    destruct (started_ok_return id t c o' NoReply) as [->|(_ & -> & _)]; [|done].
    rewrite Nat.add_0_r.
    assert (once b s (unblock (with_handle w id0 h') t) id).
    { apply once_unblock. apply join_inv in H2 as [_ [(? & -> & ?)|[? ->]]]; by eapply once_update. }
    apply after_join_inv in H3 as [->|(? & ? & ->)]; [done|]. eapply once_weaken; [..|eassumption]; done.
  - eapply once_update; eauto. done.
  - replace (started_ok id _) with 0%nat by (by destruct (starts cmd o)). rewrite Nat.add_0_r.
    by eapply once_handle.
  - by eapply once_start_done.
  - by eapply once_update.
  - unfold exit_worker.
    pose proof (wh_exiting _ (wf_handles _ Hw _ _ H0) H1). eapply once_update; eauto; [|done].
    destruct (running h); simpl; auto.
  - unfold panic_worker. eapply once_update; eauto; [|done].
    destruct (running h); simpl; auto.
  - apply (once_weaken _ _ (with_handle w id0 (set_callbacks h (t :: callbacks h)))); [done..|by eapply once_update].
  - apply (once_weaken _ _ (with_handle w id0 (set_callbacks h (l1 ++ l2)))); [done..|by eapply once_update].
  - by eapply once_update.
  - by eapply once_update.
  - eapply once_update; simpl; eauto.
  - by eapply once_update.
Qed.

Lemma count_snoc f tr e : count f (tr ++ [e]) = (count f tr + f e)%nat.
Proof. unfold count. rewrite fmap_app, list_sum_app. simpl. lia. Qed.

(** C2: in every run the core behind a handle begins to start at most once, and
    at most one call of [meta_start_v1] on the handle returns [META_OK], and
    only when the core did begin to start. *)
Theorem start_succeeds_once tr w id :
  run initial tr w ->
  (count (begins id) tr <= 1)%nat /\ (count (started_ok id) tr <= count (begins id) tr)%nat.
Proof.
  intros Hr. assert (Ho : once (count (begins id) tr) (count (started_ok id) tr) w id); [|by destruct Ho].
  remember initial as w0. induction Hr as [|w0 tr w1 e w2 Hr IH Hs]; subst.
  - unfold count; split; simpl; try lia.
    + intros (h & k & E & _). simpl in E; by rewrite lookup_empty in E.
    + intros t (k & id' & E). simpl in E; by rewrite lookup_empty in E.
  - rewrite !count_snoc. eapply step_once; eauto using reachable_wf.
Qed.
End start.
