(* ===== verification/FfiShutdown.v ===== *)
(** * The C interface: shutdown returns

    A thread that waits in [meta_stop_v1] or [meta_destroy_v1] gets its answer
    once the callbacks that are running return and the worker takes a bounded
    number of steps; nothing it waits for can wait for it. *)

From S2P Require Import Prelude FfiAbi FfiHost FfiStep FfiFacts FfiLifecycle FfiContract.
Local Open Scope Z_scope.

Section shutdown.
Context `{CoreOps}.
Variable android : bool.
Abbreviation step := (step android).
Abbreviation run := (run android).

(** What the worker and the callbacks of a handle do on their own. *)
Definition settles (id : Z) (e : event) : Prop :=
  match e with Internal => True | CallbackLeave id' _ => id' = id | _ => False end.

(** Thread [t] waits for the worker of [id], whose handle is [h]. *)
Record joining (w : world) (t : tid) (id : Z) (c : call) (h : handle) : Prop := {
  jn_wf : wf w; jn_wait : waiting w !! t = Some (WaitJoin id c);
  jn_handle : objects w !! id = Some h; jn_stop : stop h = true
}.

(** [w] gets to a state where the waiting thread sees [P], in at most [n] steps. *)
Definition reaches (w : world) (t : tid) (id : Z) (c : call) (P : handle -> Prop) (n : nat) : Prop :=
  exists tr w' h', run w tr w' /\ joining w' t id c h' /\ P h' /\ Forall (settles id) tr /\ (length tr <= n)%nat.

Lemma reaches_step w t id c h e w' h' P n :
  joining w t id c h -> step w e w' -> settles id e ->
  waiting w' !! t = Some (WaitJoin id c) -> objects w' !! id = Some h' -> stop h' = true ->
  reaches w' t id c P n -> reaches w t id c P (S n).
Proof.
  intros Hj Hs He Hw Hh Hst (tr & w2 & h2 & Hr & Hj2 & HP & Htr & Hn).
  exists (e :: tr), w2, h2. split_and!; try done; simpl; [|by constructor|lia].
  apply (run_app android w [e] w' tr w2); [by apply run_one | done].
Qed.

Lemma joining_step w t id c h e w' h' :
  joining w t id c h -> step w e w' -> waiting w' !! t = Some (WaitJoin id c) ->
  objects w' !! id = Some h' -> stop h' = true -> joining w' t id c h'.
Proof. intros [Hw _ _ _] Hs ? ? ?. split; try done. by eapply step_wf. Qed.

Lemma reaches_here w t id c h (P : handle -> Prop) n : joining w t id c h -> P h -> reaches w t id c P n.
Proof. intros. exists [], w, h. split_and!; try done; [apply run_nil | simpl; lia]. Qed.

Lemma reaches_trans w t id c (P Q : handle -> Prop) n m :
  reaches w t id c P n -> (forall w' h', joining w' t id c h' -> P h' -> reaches w' t id c Q m) ->
  reaches w t id c Q (n + m).
Proof.
  intros (tr & w1 & h1 & Hr & Hj & HP & Htr & Hn) Hnext.
  destruct (Hnext _ _ Hj HP) as (tr2 & w2 & h2 & Hr2 & Hj2 & HQ & Htr2 & Hn2).
  exists (tr ++ tr2), w2, h2. split_and!; try done; [by eapply run_app | by apply Forall_app|].
  rewrite length_app. lia.
Qed.

(** The callbacks end, one after the other. *)
Lemma callbacks_drain t id c s l : forall w h, joining w t id c h -> callbacks h = l -> worker h = s ->
  reaches w t id c (fun h => callbacks h = [] /\ worker h = s) (length l).
Proof.
  induction l as [|t' l IH]; intros w h Hj Hl Hs; first by eapply reaches_here.
  pose proof Hj as [Hw Ht Hh Hst].
  assert (Hn : waiting w !! t' = None).
  { destruct (waiting w !! t') eqn:E; last done. destruct (wf_waits _ Hw _ _ E) as [Hno _].
    destruct Hno. eapply wf_callbacks; eauto. rewrite Hl. left. }
  assert (Hstep := s_callback_leave android w id h t' [] l Hh Hl Hn).
  eapply reaches_step; [exact Hj | exact Hstep | done | done | by simpl; rewrite lookup_insert_eq | done |].
  eapply IH; [eapply joining_step; [exact Hj | exact Hstep | done | by simpl; rewrite lookup_insert_eq | done]|done..].
Qed.

Lemma deliver_join w k o t id c : waiting w !! t = Some (WaitJoin id c) ->
  waiting (deliver w k o) !! t = Some (WaitJoin id c).
Proof. intros E. simpl. by rewrite lookup_fmap, E. Qed.

(** One step of the worker that leaves the waiting thread where it is. *)
Lemma worker_step w t id c h w' h' P n :
  joining w t id c h -> step w Internal w' ->
  waiting w' !! t = Some (WaitJoin id c) -> objects w' !! id = Some h' -> stop h' = true ->
  (joining w' t id c h' -> reaches w' t id c P n) -> reaches w t id c P (S n).
Proof. intros Hj Hs Hw Hh Hst Hk. eapply reaches_step; eauto using joining_step; done. Qed.

Lemma exiting_ends w t id c h : joining w t id c h -> worker h = Exiting -> callbacks h = [] ->
  reaches w t id c (fun h => live h = false) 1.
Proof.
  intros Hj Hk Hc. pose proof Hj as [Hw Ht Hh Hst].
  eapply (worker_step _ _ _ _ _ _ (exit_worker h));
    [exact Hj | by eapply s_worker_exit | done | by simpl; rewrite lookup_insert_eq | |].
  - unfold exit_worker; simpl. by destruct (running h).
  - intros Hj'. by eapply reaches_here.
Qed.

Lemma selecting_ends w t id c h : joining w t id c h -> worker h = Selecting -> callbacks h = [] ->
  reaches w t id c (fun h => live h = false) 2.
Proof.
  intros Hj Hk Hc. pose proof Hj as [Hw Ht Hh Hst].
  eapply (worker_step _ _ _ _ _ _ (set_worker h Exiting));
    [exact Hj | by eapply s_worker_stop | done | by simpl; rewrite lookup_insert_eq | done |].
  intros Hj'. by eapply exiting_ends.
Qed.

(** After a cancellation every command is answered at once. *)
Lemma stopped_command h k cmd : stop h = true ->
  exists o h', handle_command h k cmd (Err []) = (h', Some o) /\
    worker h' = Selecting /\ stop h' = true /\ callbacks h' = callbacks h.
Proof.
  intros Hs. unfold handle_command. rewrite Hs, orb_true_r.
  destruct cmd; repeat case_match; eexists _, _; split_and!; done.
Qed.

Lemma worker_ends w t id c h : joining w t id c h -> callbacks h = [] ->
  reaches w t id c (fun h => live h = false) 3.
Proof.
  intros Hj Hc. pose proof Hj as [Hw Ht Hh Hst].
  assert (Hle : forall n, (n <= 3)%nat -> reaches w t id c (fun h => live h = false) n ->
    reaches w t id c (fun h => live h = false) 3).
  { intros n Hn (tr & w' & h' & ? & ? & ? & ? & ?). exists tr, w', h'. split_and!; try done. lia. }
  destruct (worker h) as [|k cmd|k| |p] eqn:Hk.
  - eapply (Hle 2%nat); [lia | by eapply selecting_ends].
  - destruct (stopped_command h k cmd Hst) as (o & h' & Ho & Hk' & Hst' & Hc').
    assert (Hs : step w Internal (deliver (with_handle w id h') k o)).
    { pose proof (s_handle android w id h k cmd (Err []) _ _ Hh Hk ltac:(discriminate) Ho) as Hs.
      by replace (starts cmd (Some o)) with false in Hs by (by destruct cmd). }
    eapply worker_step; [exact Hj | exact Hs | by apply deliver_join | by simpl; rewrite lookup_insert_eq | done |].
    intros Hj'. eapply selecting_ends; [exact Hj' | done | congruence].
  - eapply (worker_step _ _ _ _ _ _ (finish_start h (Err [])));
      [exact Hj | by apply (s_start_done android w id h k (Err [])) | by apply deliver_join | by simpl; rewrite lookup_insert_eq | done |].
    intros Hj'. by eapply selecting_ends.
  - eapply (Hle 1%nat); [lia | by eapply exiting_ends].
  - eapply reaches_here; [done|]. unfold live. by rewrite Hk.
Qed.

(** C4: in every reachable state, a thread that waits in [meta_stop_v1] or
    [meta_destroy_v1] can be answered: once each callback of the handle that is
    running has returned and the worker has taken at most three steps, the call
    returns.  Callbacks are never among the threads that wait, so they are free
    to return. *)
Theorem shutdown_returns tr w t id c :
  run initial tr w -> waiting w !! t = Some (WaitJoin id c) ->
  exists h tr' w' st r, objects w !! id = Some h /\
    run w (tr' ++ [Return t c st r]) w' /\ Forall (settles id) tr' /\
    (length tr' <= length (callbacks h) + 3)%nat.
Proof.
  intros Hr Ht. pose proof (reachable_wf _ _ _ Hr) as Hw.
  destruct (wf_waits _ Hw _ _ Ht) as [_ (Hc & h & Hh & Hst)].
  assert (Hj : joining w t id c h) by done.
  destruct (reaches_trans w t id c _ (fun h => live h = false) _ 3
    (callbacks_drain t id c (worker h) _ w h Hj eq_refl eq_refl)) as (tr' & w1 & h1 & Hr' & [Hw1 Ht1 Hh1 _] & Hl & Htr & Hn).
  { intros w' h' Hj' [? _]. by apply (worker_ends w' t id c h'). }
  assert (exists u h', join h1 = Some (u, h')) as (u & h' & Hjn).
  { unfold join, live in *. repeat case_match; eauto; done. }
  destruct (after_join (unblock (with_handle w1 id h') t) id c u) as [o w2] eqn:Ha.
  eexists h, tr', _, _, _. split_and!; try done. eapply run_snoc; [exact Hr'|].
  eapply s_join; eauto.
Qed.
End shutdown.
