(* ===== verification/FfiErrors.v ===== *)
(** * The C interface: errors, buffers and callbacks

    The error text of a thread, the output buffers, and calls made from inside
    a callback. *)

From S2P Require Import Prelude FfiAbi FfiHost FfiStep FfiFacts FfiLifecycle FfiContract.
Local Open Scope Z_scope.

(** ** Output buffers *)

(** The buffer after [bytes] have been written to it. *)
Definition filled (o : out_buffer) (bytes : list Z) (o' : out_buffer) : Prop :=
  capacity o' = capacity o /\ out_length o' = Some (len bytes) /\
  match out_data o, out_data o' with
  | Some m, Some m' => length m' = length m /\ take (length bytes) m' = bytes /\
                       drop (length bytes) m' = drop (length bytes) m
  | None, None => bytes = []
  | _, _ => False
  end.

Lemma output_fits bytes o : out_valid o -> out_length o <> None -> len bytes <= capacity o ->
  (out_data o <> None \/ bytes = []) ->
  exists o', output bytes o = (Ok META_OK, o') /\ filled o bytes o'.
Proof.
  intros [Hc Hv] Hl Hle Hd. destruct o as [d cap l]; simpl in *. destruct l as [l|]; [|done].
  unfold output; simpl. rewrite (proj2 (Z.ltb_ge _ _) Hle).
  destruct bytes as [|b bytes]; [by eexists; split; [done|]; split_and!; destruct d|].
  destruct d as [m|]; [|naive_solver]. eexists; split; [reflexivity|].
  unfold filled; cbn [out_data capacity out_length]. do 2 (split; [done|]).
  rewrite length_mem_write by (simpl in *; lia). split_and!; [done | | ].
  - pose proof (mem_write_read m 0 (b :: bytes)) as E. rewrite drop_0 in E. apply E. simpl in *; lia.
  - unfold mem_write. rewrite take_0, app_nil_l. by rewrite drop_app_length', Nat.add_0_l.
Qed.

Lemma output_too_small bytes o : out_length o <> None -> capacity o < len bytes ->
  output bytes o = (Ok META_BUFFER_TOO_SMALL, mk_out (out_data o) (capacity o) (Some (len bytes))).
Proof.
  intros Hl Hlt. destruct o as [d cap [l|]]; [|done]. unfold output; simpl in *.
  by rewrite (proj2 (Z.ltb_lt _ _) Hlt).
Qed.

(** C10: the output of a call, for a buffer as the host has to pass it: a buffer
    that is too small is left as it is and its length field says what is needed;
    a buffer that suffices holds exactly the bytes, the memory behind them is
    not touched, and the length field is their number; a null buffer of no
    capacity asks for the size. *)
Theorem output_contract bytes o :
  out_valid o -> out_length o <> None ->
  (capacity o < len bytes ->
     output bytes o = (Ok META_BUFFER_TOO_SMALL, mk_out (out_data o) (capacity o) (Some (len bytes)))) /\
  (len bytes <= capacity o -> out_data o <> None ->
     exists o', output bytes o = (Ok META_OK, o') /\ filled o bytes o') /\
  (out_data o = None -> capacity o = 0 ->
     fst (output bytes o) = Ok (if bool_decide (bytes = []) then META_OK else META_BUFFER_TOO_SMALL) /\
     out_length (snd (output bytes o)) = Some (len bytes)).
Proof.
  intros Hv Hl. split_and!.
  - by apply output_too_small.
  - intros. apply output_fits; auto.
  - intros Hd Hc. destruct bytes as [|b bytes].
    + destruct (output_fits [] o) as (o' & -> & _ & ? & _); auto. simpl. lia.
    + rewrite output_too_small by (simpl; done || lia). done.
Qed.

Lemma output_contract_witness :
  exists o', output [1; 2] (mk_out (Some [9; 9; 9]) 3 (Some 0)) = (Ok META_OK, o') /\
    filled (mk_out (Some [9; 9; 9]) 3 (Some 0)) [1; 2] o'.
Proof.
  refine (proj1 (proj2 (output_contract [1; 2] (mk_out (Some [9; 9; 9]) 3 (Some 0)) _ _)) _ _);
    [split; simpl; lia | done | simpl; lia | done].
Defined.

Section errors.
Context `{CoreOps}.
Variable android : bool.
Abbreviation step := (step android).
Abbreviation run := (run android).

(** ** Error texts *)

Lemma output_status bytes o s o' : output bytes o = (Ok s, o') -> s <> META_ERROR.
Proof. unfold output. intros E. repeat case_match; simplify_eq; done. Qed.

Lemma fails_status w {A} (o : outcome A) (k : A -> progress) s r w' :
  fails w o k = Returned (Ok s) r w' -> exists a, o = Ok a /\ k a = Returned (Ok s) r w'.
Proof. destruct o; simpl; naive_solver. Qed.

(** No function but [meta_abi_version_v1] returns 1 without an error. *)
Lemma exec_status w t sys c s r w' : exec android w t sys c = Returned (Ok s) r w' ->
  c <> meta_abi_version_v1 -> s <> META_ERROR.
Proof.
  destruct c; simpl; intros E Hc; try done; unfold send_command, begin_shutdown, read_packet, write_packet,
    with_core, create in E;
    try (apply fails_status in E as (? & ? & E)); repeat case_match; simplify_eq; eauto using output_status.
  - by destruct (core_update_policy _ _ _) as [[| |] ?]; simplify_eq/=.
  - by destruct (core_select _ _ _) as [[| |] ?]; simplify_eq/=.
Qed.

Lemma error_text_exec w t sys c o r w' :
  exec android w t sys c = Returned o r w' -> error_text w' = error_text w.
Proof. intros E%exec_effect. by destruct E. Qed.

Lemma error_text_step w e w' : step w e w' ->
  error_text w' = error_text w \/
  exists t c r msg, e = Return t c META_ERROR r /\ error_text w' = <[t := msg]> (error_text w).
Proof.
  assert (Hret : forall w0 t (o : outcome Z) c r, error_text w0 = error_text w ->
    error_text (return_world w0 t o) = error_text w \/
    exists t' c' r' msg, return_event t c o r = Return t' c' META_ERROR r' /\
      error_text (return_world w0 t o) = <[t' := msg]> (error_text w)).
  { intros w0 t o c r E. unfold return_world, return_event. destruct o; simpl; rewrite ?E; eauto 10. }
  intros Hs. destruct Hs; try (left; reflexivity); try (by apply Hret).
  - apply Hret. eauto using error_text_exec.
  - left. by apply exec_blocks in H2 as [].
  - apply Hret. by apply after_join_inv in H3 as [->|(? & ? & ->)].
  - left. by destruct o.
Qed.

(** A call that returns [META_ERROR] failed. *)
Lemma error_return w t c r w' : step w (Return t c META_ERROR r) w' -> c <> meta_abi_version_v1 ->
  exists msg, error_text w' = <[t := msg]> (error_text w).
Proof.
  intros Hs Hc. remember (Return t c META_ERROR r) as e eqn:Ee.
  assert (Hret : forall w0 t (o : outcome Z), error_text w0 = error_text w ->
    (forall s, o = Ok s -> s <> META_ERROR) -> fst (boundary o) = META_ERROR ->
    exists msg, error_text (return_world w0 t o) = <[t := msg]> (error_text w)).
  { intros w0 t0 o E Ho Hb. unfold return_world. destruct o; simpl in *; rewrite ?E; eauto. naive_solver. }
  destruct Hs; unfold return_event in Ee; repeat case_match; simplify_eq.
  - apply Hret; eauto using error_text_exec. intros s ->. by eapply exec_status.
  - apply Hret; [done| |done]. destruct o; naive_solver.
  - by apply Hret.
  - apply Hret; [by apply after_join_inv in H3 as [->|(? & ? & ->)] | | done].
    unfold after_join in H3. intros s ->. destruct o; repeat case_match; simplify_eq/=; done.
Qed.

(** C7: a call that returns [META_ERROR] replaces the error text of its own
    thread and of no other; the thread reads that text with [meta_error_v1]
    when its buffer suffices; no other step of any thread changes an error
    text. *)
Theorem errors_are_recorded w t c r w' :
  step w (Return t c META_ERROR r) w' -> c <> meta_abi_version_v1 ->
  exists msg,
    error_text w' !! t = Some msg /\
    (forall t', t' <> t -> error_text w' !! t' = error_text w !! t') /\
    (forall e w2, step w' e w2 -> (forall c r, e <> Return t c META_ERROR r) -> error_text w2 !! t = Some msg) /\
    (forall sys out, out_valid out -> out_length out <> None -> out_data out <> None -> len msg <= capacity out ->
       exists out', exec android w' t sys (meta_error_v1 out) = Returned (Ok META_OK) (BufferOut out') w' /\
         filled out msg out').
Proof.
  intros Hs Hc. destruct (error_return _ _ _ _ _ Hs Hc) as [msg E]. exists msg.
  assert (Hm : error_text w' !! t = Some msg) by (by rewrite E, lookup_insert_eq).
  split_and!; [done| | |].
  - intros t' Hne. by rewrite E, lookup_insert_ne.
  - intros e w2 Hs2 He. apply error_text_step in Hs2 as [->|(t' & c' & r' & msg' & -> & ->)]; first done.
    rewrite lookup_insert_ne; first done. intros ->. by destruct (He c' r').
  - intros sys out Hv Hl Hd Hle. destruct (output_fits msg out Hv Hl Hle (or_introl Hd)) as (out' & Ho & Hf).
    exists out'. simpl. rewrite Hm; simpl. by rewrite Ho.
Qed.

(** ** Calls from callbacks *)

(** C8: a thread that is inside a callback is never blocked, and a lifecycle
    call it makes returns [META_ERROR] at once, leaving the handles, the
    registry and the identifiers as they are. *)
Theorem callbacks_cannot_reenter tr w t c :
  run initial tr w -> t ∈ in_callback w -> lifecycle c = true ->
  waiting w !! t = None /\ (forall w', ~ step w (Block t c) w') /\
  (forall st r w', step w (Return t c st r) w' ->
     st = META_ERROR /\ objects w' = objects w /\ registry w' = registry w /\ next w' = next w).
Proof.
  intros Hr Ht Hc. pose proof (reachable_wf _ _ _ Hr) as Hw.
  assert (Hn : waiting w !! t = None).
  { destruct (waiting w !! t) eqn:E; last done. by destruct (wf_waits _ Hw _ _ E). }
  split_and!; [done| |].
  - intros w' Hs. remember (Block t c) as e. destruct Hs; repeat case_match; simplify_eq.
    by apply exec_blocks, blocks_registered in H2 as (_ & ? & _).
  - intros st r w' Hs. apply step_return_inv in Hs as (o & w1 & Hret & -> & ->).
    unfold return_world. rewrite objects_record_error, registry_record_error, next_record_error.
    destruct Hret as [_ _ He|? ? ? E|? ? ? E|? ? ? ? E]; [|congruence..].
    destruct He as [? o r _ _ Hno| | | | |]; simplify_eq/=; try congruence; try done.
    destruct o; [by destruct (Hno Hc a)|done..].
Qed.
End errors.
