(* ===== verification/FfiPackets.v ===== *)
(** * The C interface: packets

    The packets of a handle with a TUN go through two queues between the host
    and the worker.  [packets_in_order] accounts for every packet in both
    directions, [fd_disables_queues] is the rule for Android descriptors. *)

From S2P Require Import Prelude FfiAbi FfiHost FfiStep FfiFacts FfiLifecycle FfiContract FfiErrors.
Local Open Scope Z_scope.

(** ** The packets of a run *)

(** From the worker to the host: sent by the worker, and received by calls of
    [meta_read_packet_v1]. *)
Definition emitted (id : Z) (e : event) : list (list Z) :=
  match e with Emitted id' p => if id' =? id then [p] else [] | _ => [] end.
Definition delivered (id : Z) (e : event) : list (list Z) :=
  match e with
  | Return _ (meta_read_packet_v1 id' _) status (BufferOut out) =>
      if (id' =? id) && (status =? META_OK)
      then [take (Z.to_nat (default 0 (out_length out))) (default [] (out_data out))] else []
  | _ => []
  end.

(** From the host to the worker: accepted by calls of [meta_write_packet_v1],
    and received by the worker. *)
Definition accepted (id : Z) (e : event) : list (list Z) :=
  match e with
  | Return _ (meta_write_packet_v1 id' p) status _ =>
      if (id' =? id) && (status =? META_OK) then match input p with Ok packet => [packet] | _ => [] end else []
  | _ => []
  end.
Definition consumed (id : Z) (e : event) : list (list Z) :=
  match e with Consumed id' p => if id' =? id then [p] else [] | _ => [] end.

Definition traffic (f : Z -> event -> list (list Z)) (id : Z) (tr : list event) : list (list Z) :=
  concat (f id <$> tr).

(** The host passes output buffers of the capacity it says. *)
Definition valid_buffers (e : event) : Prop :=
  match e with Return _ (meta_read_packet_v1 _ out) _ _ => out_valid out | _ => True end.

Section packets.
Context `{CoreOps}.
Variable android : bool.
Abbreviation step := (step android).
Abbreviation run := (run android).

(** What is on its way in a state. *)
Definition out_queue (w : world) (id : Z) : list (list Z) :=
  match objects w !! id with Some h => option_list (pending h) ++ packet_output h | None => [] end.
Definition in_queue (w : world) (id : Z) : list (list Z) :=
  match objects w !! id with Some h => packet_input h | None => [] end.
Definition queue_open (w : world) (id : Z) : bool :=
  match objects w !! id with Some h => host_packets h | None => true end.

Definition ledger (tr : list event) (w : world) (id : Z) : Prop :=
  traffic emitted id tr = traffic delivered id tr ++ out_queue w id /\
  exists lost, traffic accepted id tr = traffic consumed id tr ++ in_queue w id ++ lost /\
    (queue_open w id = true -> lost = []).

Lemma traffic_snoc f id tr e : traffic f id (tr ++ [e]) = traffic f id tr ++ f id e.
Proof. unfold traffic. rewrite fmap_app, concat_app. simpl. by rewrite app_nil_r. Qed.

(** A step that moves no packet of the handle, may close its queue, and leaves
    the queues of other handles alone. *)
Lemma ledger_same tr e w w' id :
  emitted id e = [] -> delivered id e = [] -> accepted id e = [] -> consumed id e = [] ->
  out_queue w' id = out_queue w id ->
  (in_queue w' id = in_queue w id /\ queue_open w' id = queue_open w id \/
   in_queue w' id = [] /\ queue_open w' id = false) ->
  ledger tr w id -> ledger (tr ++ [e]) w' id.
Proof.
  intros H1 H2 H3 H4 Ho Hi [Hout (lost & Hin & Hl)]. unfold ledger.
  rewrite !traffic_snoc, H1, H2, H3, H4, !app_nil_r, Ho. split; first done.
  destruct Hi as [[-> ->]|[-> ->]]; first by exists lost.
  by exists (in_queue w id ++ lost).
Qed.

Lemma queues_update w id h h' id' : objects w !! id = Some h ->
  option_list (pending h') ++ packet_output h' = option_list (pending h) ++ packet_output h ->
  (packet_input h' = packet_input h /\ host_packets h' = host_packets h \/
   packet_input h' = [] /\ host_packets h' = false) ->
  out_queue (with_handle w id h') id' = out_queue w id' /\
  (in_queue (with_handle w id h') id' = in_queue w id' /\ queue_open (with_handle w id h') id' = queue_open w id' \/
   in_queue (with_handle w id h') id' = [] /\ queue_open (with_handle w id h') id' = false).
Proof.
  intros Hh Ho Hi. unfold out_queue, in_queue, queue_open; simpl. destruct (decide (id' = id)) as [->|].
  - by rewrite lookup_insert_eq, Hh.
  - rewrite lookup_insert_ne by done. auto.
Qed.

Lemma queues_objects w w' id : objects w' = objects w ->
  out_queue w' id = out_queue w id /\ in_queue w' id = in_queue w id /\ queue_open w' id = queue_open w id.
Proof. unfold out_queue, in_queue, queue_open. by intros ->. Qed.

(** Events of other kinds. *)
Definition packet_free (id : Z) (e : event) : Prop :=
  emitted id e = [] /\ delivered id e = [] /\ accepted id e = [] /\ consumed id e = [].

Lemma return_packet_free id t c o r : moves_packet c = false \/ o <> Ok META_OK ->
  packet_free id (return_event t c o r).
Proof.
  intros Hc. unfold packet_free, return_event. split_and!; try done; simpl.
  - destruct c, r; try done. destruct (Z.eqb_spec (boundary o).1 META_OK) as [E%boundary_OK|];
      rewrite ?andb_false_r; [naive_solver | done].
  - destruct c; try done. destruct (Z.eqb_spec (boundary o).1 META_OK) as [E%boundary_OK|];
      rewrite ?andb_false_r; [naive_solver | done].
Qed.

Lemma ledger_free tr e w id0 h h' w' id : packet_free id e -> objects w !! id0 = Some h ->
  option_list (pending h') ++ packet_output h' = option_list (pending h) ++ packet_output h ->
  (packet_input h' = packet_input h /\ host_packets h' = host_packets h \/
   packet_input h' = [] /\ host_packets h' = false) ->
  objects w' = <[id0 := h']> (objects w) ->
  ledger tr w id -> ledger (tr ++ [e]) w' id.
Proof.
  intros (? & ? & ? & ?) Hh Ho Hi Hw Hl.
  destruct (queues_update w id0 h h' id Hh Ho Hi) as [Hq1 Hq2].
  destruct (queues_objects (with_handle w id0 h') w' id Hw) as (E1 & E2 & E3).
  by apply (ledger_same tr e w w' id); rewrite ?E1, ?E2, ?E3.
Qed.

Lemma ledger_still tr e w w' id : packet_free id e -> objects w' = objects w ->
  ledger tr w id -> ledger (tr ++ [e]) w' id.
Proof.
  intros (? & ? & ? & ?) Hw. destruct (queues_objects w w' id Hw) as (E1 & E2 & E3).
  apply ledger_same; auto.
Qed.

(** The steps that move a packet of handle [id0]. *)
Lemma ledger_move tr e w id0 h i o p w' id : objects w !! id0 = Some h ->
  objects w' = <[id0 := set_packets h i o p]> (objects w) ->
  (id <> id0 -> packet_free id e) ->
  (emitted id0 e = [] /\ delivered id0 e = [] /\ o = packet_output h /\ p = pending h /\
     host_packets h = true /\ packet_input h ++ accepted id0 e = consumed id0 e ++ i \/
   accepted id0 e = [] /\ consumed id0 e = [] /\ i = packet_input h /\
     option_list (pending h) ++ packet_output h ++ emitted id0 e = delivered id0 e ++ option_list p ++ o) ->
  ledger tr w id -> ledger (tr ++ [e]) w' id.
Proof.
  intros Hh Hw Hne He Hl. destruct (decide (id = id0)) as [->|Hn]; last first.
  { destruct (Hne Hn) as (? & ? & ? & ?). revert Hl. apply ledger_same; try done;
    unfold out_queue, in_queue, queue_open; rewrite Hw, lookup_insert_ne by done; auto. }
  destruct Hl as [Hout (lost & Hin & Hlost)].
  unfold ledger, out_queue, in_queue, queue_open in *. rewrite Hw, lookup_insert_eq, Hh, !traffic_snoc in *; simpl.
  rewrite Hout, Hin. destruct He as [(-> & -> & -> & -> & Hp & E)|(-> & -> & -> & E)]; rewrite ?app_nil_r.
  - rewrite (Hlost Hp) in *. split; first done. exists []. by rewrite !app_nil_r, <-!(assoc_L (++)), E.
  - split; last by exists lost. rewrite <-!(assoc_L (++)). by rewrite E.
Qed.

Lemma output_OK bytes o o' : out_valid o -> output bytes o = (Ok META_OK, o') ->
  take (Z.to_nat (default 0 (out_length o'))) (default [] (out_data o')) = bytes.
Proof.
  intros Hv E. assert (exists o1, output bytes o = (Ok META_OK, o1) /\ filled o bytes o1) as (o1 & E1 & Hf).
  { destruct o as [d cap [l|]]; [|done]. unfold output in E; simpl in E.
    destruct (Z.ltb_spec cap (len bytes)); [done|]. apply output_fits; try done.
    destruct bytes; [by right|]. left. by destruct d. }
  rewrite E in E1. simplify_eq. destruct Hf as (_ & -> & Hd). simpl. rewrite Nat2Z.id.
  destruct (out_data o), (out_data o1); simpl; naive_solver.
Qed.

Lemma next_packet_queue h p q : next_packet h = Some (p, q) ->
  option_list (pending h) ++ packet_output h = p :: q.
Proof. unfold next_packet. intros. repeat case_match; by simplify_eq. Qed.

Lemma is_ok_true (o : outcome Z) : is_ok o = true <-> o = Ok META_OK.
Proof. destruct o; simpl; rewrite ?Z.eqb_eq; naive_solver. Qed.

Lemma ledger_effect tr w t c o r w' id : effect android w t c o r w' -> wf w ->
  valid_buffers (return_event t c o r) -> ledger tr w id ->
  ledger (tr ++ [return_event t c o r]) (return_world w' t o) id.
Proof.
  intros He Hw Hv Hl. unfold return_world.
  destruct He as [? o r Hc _ _|? ? ? h _ _ _ _ Hf|? ? ? o ? Hno|? o r id0 h k|id0 h p packet _ _ Hh Hi _ _ Hp _
    |id0 h out o out' p q _ _ Hh _ Hn Ho].
  - eapply ledger_still; [|by rewrite objects_record_error|done]. apply return_packet_free.
    destruct (moves_packet c) eqn:?; auto. right. intros E. by destruct (Hc E).
  - assert (Hnew : objects w !! next w = None).
    { destruct (objects w !! next w) eqn:E; last done. apply (wf_ids _ Hw) in E. lia. }
    revert Hl. destruct (return_packet_free id t (meta_create_v1 config hooks (Some out)) (Ok META_OK)
      (HandleOut (Some (next w)))) as (? & ? & ? & ?); first by left.
    apply ledger_same; try done; unfold out_queue, in_queue, queue_open; rewrite objects_record_error; simpl;
      (destruct (decide (id = next w)) as [->|]; [rewrite lookup_insert_eq, Hnew|by rewrite lookup_insert_ne; auto]).
    + destruct Hf as (_ & _ & _ & _ & _ & _ & _ & _ & _ & _ & -> & -> & _). done.
    + destruct Hf as (_ & _ & _ & _ & _ & _ & -> & _ & _ & -> & _). destruct (tun h); auto.
  - eapply ledger_still; [|by rewrite objects_record_error|done]. apply return_packet_free. by left.
  - apply (ledger_free tr _ w id0 h (set_core h k));
      [apply return_packet_free; by left | done | done | by left | by rewrite objects_record_error | done].
  - eapply ledger_move; [exact Hh | by rewrite objects_record_error | | | done].
    + intros Hne. unfold packet_free, return_event; simpl. by rewrite (proj2 (Z.eqb_neq _ _) (not_eq_sym Hne)).
    + left. unfold return_event; simpl. rewrite Z.eqb_refl, Hi; simpl. by split_and!.
  - eapply ledger_move; [exact Hh | by rewrite objects_record_error | | | done].
    + intros Hne. unfold packet_free, return_event; simpl. by rewrite (proj2 (Z.eqb_neq _ _) (not_eq_sym Hne)).
    + right. split_and!; try done. rewrite app_nil_r, (next_packet_queue _ _ _ Hn). simpl. rewrite Z.eqb_refl; simpl.
      destruct (is_ok o) eqn:Eo.
      * apply is_ok_true in Eo as ->. simpl. f_equal. symmetry. eapply output_OK; [|exact Ho]. exact Hv.
      * destruct (Z.eqb_spec (boundary o).1 META_OK) as [E%boundary_OK|]; [|done]. by rewrite E in Eo.
Qed.

Lemma handle_command_queues h k cmd d h' o : handle_command h k cmd d = (h', o) ->
  option_list (pending h') ++ packet_output h' = option_list (pending h) ++ packet_output h /\
  (packet_input h' = packet_input h /\ host_packets h' = host_packets h \/
   packet_input h' = [] /\ host_packets h' = false).
Proof. unfold handle_command. intros E. repeat case_match; simplify_eq/=; auto. Qed.

Definition wait_call (x : wait) : call := match x with WaitReply _ _ c _ | WaitJoin _ c => c end.
Lemma waiting_moves w t x : wf w -> waiting w !! t = Some x -> moves_packet (wait_call x) = false.
Proof.
  intros Hw Hx. destruct (wf_waits _ Hw _ _ Hx) as [_ Hok].
  destruct x as [? ? c ?|? c]; simpl in *; [destruct Hok as (_ & _ & cmd & E)|destruct Hok as [E _]];
    by destruct c.
Qed.
Lemma waiting_packet_free w t x o r id : wf w -> waiting w !! t = Some x ->
  packet_free id (return_event t (wait_call x) o r).
Proof. intros Hw Hx. apply return_packet_free. left. by eapply waiting_moves. Qed.

Ltac free_step h' := eapply (ledger_free _ _ _ _ _ h');
  [done | eassumption | simpl; auto | simpl; auto | simpl; reflexivity | eassumption].

Lemma step_ledger tr w e w' id : step w e w' -> wf w -> valid_buffers e -> ledger tr w id ->
  ledger (tr ++ [e]) w' id.
Proof.
  intros Hs Hw Hv Hl. destruct Hs; unfold return_world.
  - eapply ledger_effect; eauto using exec_effect.
  - apply exec_blocks in H2 as []; (eapply ledger_free; [by split_and! | eauto | | | | exact Hl]; [..|simpl; reflexivity]; auto).
  - eapply ledger_still; [|by rewrite objects_record_error|done]. by eapply (waiting_packet_free _ _ (WaitReply id0 k c (Some o))).
  - apply (ledger_free _ _ w id0 h (set_stop h)); auto.
    by eapply (waiting_packet_free _ _ (WaitReply id0 k c None)).
  - assert (Hj : pending h' = pending h /\ packet_output h' = packet_output h /\ packet_input h' = packet_input h /\
      host_packets h' = host_packets h) by (apply join_inv in H2 as [_ [(? & -> & ?)|[? ->]]]; done).
    destruct Hj as (E1 & E2 & E3 & E4).
    apply (ledger_free _ _ w id0 h h'); rewrite ?E1, ?E2, ?E3, ?E4; auto.
    + by eapply (waiting_packet_free _ _ (WaitJoin id0 c)).
    + rewrite objects_record_error. by apply after_join_inv in H3 as [->|(? & ? & ->)].
  - free_step (set_worker (set_commands h q) (Handling k cmd)).
  - destruct (handle_command_queues _ _ _ _ _ _ H3) as [Hq1 Hq2].
    apply (ledger_free _ _ w id0 h h'); auto; [by destruct (starts cmd o) | by destruct o].
  - apply (ledger_free _ _ w id0 h (finish_start h o)); auto; try done; destruct o; auto.
  - free_step (set_worker h Exiting).
  - apply (ledger_free _ _ w id0 h (exit_worker h)); try done; unfold exit_worker; destruct (running h); auto.
  - apply (ledger_free _ _ w id0 h (panic_worker h)); try done; unfold panic_worker; destruct (running h); auto.
  - free_step (set_callbacks h (t :: callbacks h)).
  - free_step (set_callbacks h (l1 ++ l2)).
  - eapply ledger_move; [exact H0 | done | | | done].
    + intros Hne. unfold packet_free; simpl. by rewrite (proj2 (Z.eqb_neq _ _) (not_eq_sym Hne)).
    + left. simpl. rewrite Z.eqb_refl, app_nil_r. by split_and!.
  - eapply ledger_move; [exact H0 | done | | | done].
    + intros Hne. unfold packet_free; simpl. by rewrite (proj2 (Z.eqb_neq _ _) (not_eq_sym Hne)).
    + right. simpl. rewrite Z.eqb_refl. by split_and!.
  - free_step (set_stop h).
  - free_step (set_core h (core_run (core h) x)).
Qed.

(** C6: packets are neither lost, duplicated nor reordered.  What the worker
    has sent is what [meta_read_packet_v1] has returned, in order, followed by
    what is still queued; what [meta_write_packet_v1] has accepted begins with
    what the worker has received followed by the queue, and while the worker
    has its end of the queue there is nothing else. *)
Theorem packets_in_order tr w id h :
  run initial tr w -> Forall valid_buffers tr -> objects w !! id = Some h ->
  traffic emitted id tr = traffic delivered id tr ++ option_list (pending h) ++ packet_output h /\
  (traffic consumed id tr ++ packet_input h) `prefix_of` traffic accepted id tr /\
  (host_packets h = true -> traffic accepted id tr = traffic consumed id tr ++ packet_input h).
Proof.
  intros Hr Hv Hh.
  assert (Hl : ledger tr w id).
  { clear Hh. remember initial as w0. induction Hr as [|w0 tr w1 e w2 Hr IH Hs]; subst.
    - split; [done|]. by exists [].
    - apply Forall_app in Hv as [Hv1 [Hv2 _]%Forall_cons].
      apply (step_ledger tr w1 e w2 id Hs); [by eapply reachable_wf | done | by apply IH]. }
  destruct Hl as [Hout (lost & Hin & Hlost)]. unfold out_queue, in_queue, queue_open in *. rewrite Hh in *.
  split_and!; [done | exists lost; by rewrite Hin, <-(assoc_L (++)) |].
  intros Hp. by rewrite Hin, (Hlost Hp), app_nil_r.
Qed.

(** ** Packets and Android descriptors *)

(** Packet calls on a handle whose queue is off. *)
Lemma queue_off_fails w t c o r w' id h : effect android w t c o r w' -> objects w !! id = Some h ->
  queue_enabled h = false -> call_handle c = Some id -> moves_packet c = true -> forall s, o <> Ok s.
Proof.
  intros He Hh Hq Hc Hm s ->. remember (Ok s) as o eqn:Eo.
  destruct He as [? ? ? _ Hr _| | |? ? ? ? ? ? _ _ _ _ _ Hf|? ? ? ? _ _ Hl|? ? ? ? ? ? ? _ _ Hl]; simplify_eq/=; try congruence.
  destruct (Hr _ _ Hc eq_refl) as (_ & _ & Hx). destruct (Hx Hm) as (h' & ? & ?). congruence.
Qed.

(** A descriptor that was taken over has switched the queue off. *)
Definition fd_taken (w : world) : Prop :=
  forall t i k id fd, waiting w !! t = Some (WaitReply i k (meta_set_tun_fd_v1 id fd) (Some (Ok tt))) ->
  exists h, objects w !! id = Some h /\ queue_enabled h = false.

Lemma fd_deliver w k o w0 : fd_taken w -> waiting w0 = waiting w ->
  (forall id h, objects w !! id = Some h -> exists h', objects w0 !! id = Some h' /\ evolves h h') ->
  (forall t i id fd, waiting w !! t = Some (WaitReply i k (meta_set_tun_fd_v1 id fd) None) -> o = Ok tt ->
     exists h, objects w0 !! id = Some h /\ queue_enabled h = false) ->
  fd_taken (deliver w0 k o).
Proof.
  intros Hf Hw Ho Hk t i k' id fd E. simpl in *. rewrite Hw in E. lookups.
  unfold deliver_to in *. repeat case_match; simplify_eq.
  - destruct (Hf _ _ _ _ _ E) as (h & Hh & Hq). destruct (Ho _ _ Hh) as (h' & ? & _ & _ & _ & ? & _). eauto.
  - select ((_ =? _)%nat = true) (fun Hk => apply Nat.eqb_eq in Hk as ->). by eapply Hk.
Qed.

Lemma fd_keep w w' : fd_taken w ->
  (forall id h, objects w !! id = Some h -> exists h', objects w' !! id = Some h' /\ evolves h h') ->
  (forall t i k c, waiting w' !! t = Some (WaitReply i k c (Some (Ok tt))) ->
     waiting w !! t = Some (WaitReply i k c (Some (Ok tt)))) ->
  fd_taken w'.
Proof.
  intros Hf Ho Hk t i k id fd E. apply Hk in E. destruct (Hf _ _ _ _ _ E) as (h & Hh & Hq).
  destruct (Ho _ _ Hh) as (h' & ? & _ & _ & _ & ? & _). eauto.
Qed.

Lemma waiting_record_error w t e : waiting (record_error w t e) = waiting w.
Proof. by destruct e. Qed.

Lemma step_fd_taken w e w' : step w e w' -> wf w -> fd_taken w -> fd_taken w'.
Proof.
  intros Hs Hw Hf.
  assert (Hev : forall id h, objects w !! id = Some h -> exists h', objects w' !! id = Some h' /\ evolves h h').
  { intros id h Hh. by eapply step_evolves. }
  destruct Hs; try (apply (fd_keep w); [done | exact Hev | unfold return_world; rewrite ?waiting_record_error;
    try done; simpl; intros; lookups; done]).
  - apply (fd_keep w); [done | exact Hev |]. unfold return_world. rewrite waiting_record_error.
    apply exec_effect in H2. by destruct H2.
  - apply (fd_keep w); [done | exact Hev |]. apply exec_blocks in H2. destruct H2; simpl; intros; by lookups.
  - apply (fd_keep w); [done | exact Hev |]. unfold return_world. rewrite waiting_record_error.
    apply after_join_inv in H3 as [->|(? & ? & ->)]; simpl; intros; by lookups.
  - destruct o as [o|]; [|apply (fd_keep w); [done | exact Hev | done]].
    eapply fd_deliver; [done | done | exact Hev |]. intros t i id' fd E ->.
    destruct (wf_queued _ Hw id h (k, cmd) H0) as [_ Hc]; [unfold queued; rewrite H1; set_solver|].
    apply Hc in E. simpl in E. simplify_eq. exists h'. simpl. rewrite lookup_insert_eq. split; first done.
    unfold handle_command in H3. repeat case_match; by simplify_eq.
  - eapply fd_deliver; [done | done | exact Hev |]. intros t i id' fd E ->.
    destruct (wf_queued _ Hw id h (k, Start) H0) as [_ Hc]; [unfold queued; rewrite H1; set_solver|].
    by apply Hc in E.
Qed.

Lemma fd_OK_off w t id fd r w' : wf w -> fd_taken w ->
  step w (Return t (meta_set_tun_fd_v1 id fd) META_OK r) w' ->
  exists h, objects w' !! id = Some h /\ queue_enabled h = false.
Proof.
  intros Hw Hf Hs. apply step_return_inv in Hs as (o & w1 & Hret & Ho & ->). symmetry in Ho.
  apply boundary_OK in Ho as ->. unfold return_world. rewrite objects_record_error.
  destruct Hret as [_ _ He|i k u Hx Hu _ ->|? ? ? E ? [=]|? ? ? ? E].
  - remember (Ok META_OK) as o eqn:Eo. remember (meta_set_tun_fd_v1 id fd) as c eqn:Ec.
    destruct He as [? ? ? _ _ Hno| | | | |]; simplify_eq/=. by destruct (Hno eq_refl META_OK).
  - destruct u as [[]| |]; [|done..]. eapply Hf; eauto.
  - destruct (wf_waits _ Hw _ _ E) as [_ [? _]]. done.
Qed.

(** C11: [meta_read_packet_v1] and [meta_write_packet_v1] return [META_ERROR] on
    a handle whose configuration has no TUN, and on a handle for which
    [meta_set_tun_fd_v1] has succeeded, in every later state. *)
Theorem packet_calls_need_queue tr w t c st r w' id :
  run initial tr w -> step w (Return t c st r) w' -> moves_packet c = true -> call_handle c = Some id ->
  (exists h, objects w !! id = Some h /\ tun h = false) \/
  (exists tr1 t1 fd r1 tr2, tr = tr1 ++ Return t1 (meta_set_tun_fd_v1 id fd) META_OK r1 :: tr2) ->
  st = META_ERROR.
Proof.
  intros Hr Hs Hm Hc Hcase. pose proof (reachable_wf _ _ _ Hr) as Hw.
  assert (Hoff : exists h, objects w !! id = Some h /\ queue_enabled h = false).
  { destruct Hcase as [(h & Hh & Ht)|(tr1 & t1 & fd & r1 & tr2 & ->)].
    - exists h. split; first done. destruct (queue_enabled h) eqn:Hq; last done.
      destruct (wh_queue _ (wf_handles _ Hw _ _ Hh) Hq). congruence.
    - destruct (run_split _ _ _ _ Hr _ _ eq_refl) as (w1 & Hr1 & Hr2).
      apply run_cons in Hr2 as (w2 & Hs2 & Hr2). pose proof (reachable_wf _ _ _ Hr1) as Hw1.
      assert (Hf : wf w1 /\ fd_taken w1).
      { eapply (run_invariant android (fun w => wf w /\ fd_taken w)); [|exact Hr1|].
        - intros ? ? ? ? [? ?]. eauto using step_wf, step_fd_taken.
        - split; [apply initial_wf|]. intros ? ? ? ? ? E. simpl in E. by rewrite lookup_empty in E. }
      destruct (fd_OK_off _ _ _ _ _ _ Hw1 (proj2 Hf) Hs2) as (h & Hh & Hq).
      destruct (run_evolves _ _ _ _ _ _ Hr2 (step_wf _ _ _ _ Hs2 Hw1) Hh) as (_ & h' & ? & _ & _ & _ & Hq' & _).
      eauto. }
  destruct Hoff as (h & Hh & Hq). apply step_return_inv in Hs as (o & w1 & Hret & -> & _).
  destruct Hret as [_ _ He|? ? ? E|? ? ? E|? ? ? ? E];
    [|apply (waiting_moves _ _ _ Hw) in E; simpl in E; congruence..].
  pose proof (queue_off_fails _ _ _ _ _ _ _ _ He Hh Hq Hc Hm). destruct o; naive_solver.
Qed.
End packets.
