(* ===== verification/FfiRun.v ===== *)
(** * The C interface: running the model

    An interpreter for schedules, which are lists of the actions threads take:
    it accepts exactly the runs of FfiStep.v.  The example core at the end and a
    few schedules instantiate the theorems of the other files. *)

From S2P Require Import Prelude FfiAbi FfiHost FfiStep FfiFacts FfiLifecycle FfiContract FfiStart FfiShutdown FfiErrors FfiPackets.
Local Open Scope Z_scope.

Section interpreter.
Context `{CoreOps}.
Variable android : bool.
Abbreviation step := (step android).
Abbreviation run := (run android).

Inductive action :=
  | ACall (t : tid) (sys : outcome unit) (c : call)
  | AWake (t : tid)
  | AReceive (id : Z)
  | AHandle (id : Z) (device : outcome unit)
  | AStartDone (id : Z) (o : outcome unit)
  | AWorkerStop (id : Z)
  | AExit (id : Z)
  | APanic (id : Z)
  | AEnter (id : Z) (t : tid)
  | ALeave (id : Z) (n : nat)
  | AConsume (id : Z)
  | AEmit (id : Z) (p : list Z)
  | ACoreStop (id : Z)
  | ACore (id : Z) (x : core_task).

Definition answer (w : world) (t : tid) (c : call) (o : outcome Z) (r : reply) : option (event * world) :=
  Some (return_event t c o r, return_world w t o).

(** A thread that waits is resumed: with the answer, without one, or because
    the worker has ended. *)
Definition wake (w : world) (t : tid) (x : wait) : option (event * world) :=
  match x with
  | WaitReply id k c (Some o) => answer (unblock w t) t c (let! _ := o in Ok META_OK) NoReply
  | WaitReply id k c None =>
      h ← objects w !! id;
      answer (unblock (with_handle w id (set_stop h)) t) t c (let! _ := no_reply h k in Ok META_OK) NoReply
  | WaitJoin id c =>
      h ← objects w !! id; oh ← join h;
      let '(o, w') := after_join (unblock (with_handle w id (snd oh)) t) id c (fst oh) in answer w' t c o NoReply
  end.

Definition is_panicked {A} (o : outcome A) : bool := match o with Panicked => true | _ => false end.

Definition act (w : world) (a : action) : option (event * world) :=
  let on id (f : handle -> option (event * world)) := h ← objects w !! id; f h in
  let put id (b : bool) e h' := if b then Some (e, with_handle w id h') else None in
  match a with
  | ACall t sys c =>
      if bool_decide (waiting w !! t = None) && available android c then
        match exec android w t sys c with
        | Returned o r w' => answer w' t c o r
        | Blocked w' => Some (Block t c, w')
        end
      else None
  | AWake t => x ← waiting w !! t; wake w t x
  | AReceive id => on id (fun h =>
      match worker h, stop h, commands h with
      | Selecting, false, (k, cmd) :: q => put id true Internal (set_worker (set_commands h q) (Handling k cmd))
      | _, _, _ => None
      end)
  | AHandle id device => on id (fun h =>
      match worker h with
      | Handling k cmd =>
          if is_panicked device then None else
          let '(h', o) := handle_command h k cmd device in
          Some (if starts cmd o then StartBegin id else Internal,
                match o with Some o => deliver (with_handle w id h') k o | None => with_handle w id h' end)
      | _ => None
      end)
  | AStartDone id o => on id (fun h =>
      match worker h with
      | Starting k => if is_panicked o then None else Some (Internal, deliver (with_handle w id (finish_start h o)) k o)
      | _ => None
      end)
  | AWorkerStop id => on id (fun h =>
      match worker h with Selecting => put id (stop h) Internal (set_worker h Exiting) | _ => None end)
  | AExit id => on id (fun h =>
      match worker h, callbacks h with Exiting, [] => put id true Internal (exit_worker h) | _, _ => None end)
  | APanic id => on id (fun h =>
      match callbacks h with [] => put id (live h) Internal (panic_worker h) | _ => None end)
  | AEnter id t => on id (fun h =>
      if live h && (protect h || notify h) && bool_decide (waiting w !! t = None) && bool_decide (t ∉ in_callback w)
      then Some (CallbackEnter id t,
                 set_in_callback (with_handle w id (set_callbacks h (t :: callbacks h))) ({[t]} ∪ in_callback w))
      else None)
  | ALeave id n => on id (fun h =>
      t ← callbacks h !! n;
      if bool_decide (waiting w !! t = None)
      then Some (CallbackLeave id t,
                 set_in_callback (with_handle w id (set_callbacks h (take n (callbacks h) ++ drop (S n) (callbacks h))))
                   (in_callback w ∖ {[t]}))
      else None)
  | AConsume id => on id (fun h =>
      match packet_input h with
      | p :: q => put id (live h && host_packets h) (Consumed id p) (set_packets h q (packet_output h) (pending h))
      | [] => None
      end)
  | AEmit id p => on id (fun h =>
      put id (live h && host_packets h && (len (packet_output h) <? channel_capacity)) (Emitted id p)
        (set_packets h (packet_input h) (packet_output h ++ [p]) (pending h)))
  | ACoreStop id => on id (fun h => put id (live h) Internal (set_stop h))
  | ACore id x => on id (fun h => put id (live h) Internal (set_core h (core_run (core h) x)))
  end.

Fixpoint play (w : world) (l : list action) : option (list event * world) :=
  match l with
  | [] => Some ([], w)
  | a :: l => ew ← act w a; rw ← play (snd ew) l; Some (fst ew :: fst rw, snd rw)
  end.

(** ** The interpreter takes the steps of the relation, and all of them *)

Ltac guards := repeat match goal with
  | E : (_ && _)%bool = true |- _ => apply andb_true_iff in E as [? ?]
  | E : bool_decide _ = true |- _ => apply bool_decide_eq_true in E
  | E : is_panicked ?o = false |- _ => destruct o; try discriminate E; clear E
  | E : (_ <? _) = true |- _ => apply Z.ltb_lt in E
  end.

Lemma wake_sound w t x e w' : waiting w !! t = Some x -> wake w t x = Some (e, w') -> step w e w'.
Proof.
  intros Hx. unfold wake, answer. destruct x as [id k c [o|]|id c]; intros E.
  - simplify_eq. by eapply s_reply.
  - destruct (objects w !! id) as [h|] eqn:Hh; simplify_eq/=. by eapply s_no_reply.
  - destruct (objects w !! id) as [h|] eqn:Hh; simplify_eq/=.
    destruct (join h) as [[o h']|] eqn:Hj; simplify_eq/=.
    destruct (after_join _ _ _ _) as [o' w1] eqn:Ha. unfold answer in E. simplify_eq. by eapply s_join.
Qed.

Lemma act_sound w a e w' : act w a = Some (e, w') -> step w e w'.
Proof.
  destruct a; simpl; intros E.
  - case_match; [|done]. guards. destruct (exec _ _ _ _ _) eqn:Ex; unfold answer in E; simplify_eq;
      [by eapply s_return | by eapply s_block].
  - destruct (waiting w !! t) eqn:Hx; simplify_eq/=. by eapply wake_sound.
  - destruct (objects w !! id) eqn:Hh; simplify_eq/=. repeat case_match; simplify_eq. by eapply s_receive.
  - destruct (objects w !! id) eqn:Hh; simplify_eq/=. destruct (worker _) eqn:Hk; try done.
    destruct (is_panicked device) eqn:Hp; [done|]. destruct (handle_command _ _ _ _) eqn:Hc. injection E as <- <-.
    eapply s_handle; eauto. by intros ->.
  - destruct (objects w !! id) eqn:Hh; simplify_eq/=. repeat case_match; simplify_eq; eapply s_start_done; eauto; by destruct o.
  - destruct (objects w !! id) eqn:Hh; simplify_eq/=. repeat case_match; simplify_eq. by eapply s_worker_stop.
  - destruct (objects w !! id) eqn:Hh; simplify_eq/=. repeat case_match; simplify_eq. by eapply s_worker_exit.
  - destruct (objects w !! id) eqn:Hh; simplify_eq/=. repeat case_match; simplify_eq. by eapply s_worker_panic.
  - destruct (objects w !! id) eqn:Hh; simplify_eq/=. case_match; simplify_eq. guards. by eapply s_callback_enter.
  - destruct (objects w !! id) as [h|] eqn:Hh; simplify_eq/=. destruct (callbacks h !! n) as [t|] eqn:Hn; simplify_eq/=.
    case_match; simplify_eq. guards. eapply s_callback_leave; eauto. by rewrite take_drop_middle.
  - destruct (objects w !! id) eqn:Hh; simplify_eq/=. repeat case_match; simplify_eq. guards. by eapply s_consume.
  - destruct (objects w !! id) eqn:Hh; simplify_eq/=. case_match; simplify_eq. guards. by eapply s_emit.
  - destruct (objects w !! id) eqn:Hh; simplify_eq/=. case_match; simplify_eq. by eapply s_core_stop.
  - destruct (objects w !! id) eqn:Hh; simplify_eq/=. case_match; simplify_eq. by eapply s_core.
Qed.

Lemma act_complete w e w' : step w e w' -> exists a, act w a = Some (e, w').
Proof.
  intros [w0 t sys c o r w1 Ht Hc Hx|w0 t sys c w1 Ht Hc Hx|w0 t id k c o Hx|w0 t id k c h Hx Hh|w0 t id c h o h' o' w1 Hx Hh Hj Ha
    |w0 id h k cmd q Hh Hs Hst Hq|w0 id h k cmd d h' o Hh Hk Hd Hc|w0 id h k o Hh Hk Ho|w0 id h Hh Hk Hst|w0 id h Hh Hk Hc
    |w0 id h Hh Hl Hc|w0 id h t Hh Hl Hp Ht Hc|w0 id h t l1 l2 Hh Hl Ht|w0 id h p q Hh Hl Hp Hq|w0 id h p Hh Hl Hp Hq
    |w0 id h Hh Hl|w0 id h x Hh Hl].
  - exists (ACall t sys c); simpl. by rewrite Ht, Hc, Hx.
  - exists (ACall t sys c); simpl. by rewrite Ht, Hc, Hx.
  - exists (AWake t); simpl. by rewrite Hx.
  - exists (AWake t); simpl. rewrite Hx; simpl. by rewrite Hh.
  - exists (AWake t); simpl. rewrite Hx; simpl. rewrite Hh; simpl. rewrite Hj; simpl. by rewrite Ha.
  - exists (AReceive id); simpl. rewrite Hh; simpl. by rewrite Hs, Hst, Hq.
  - exists (AHandle id d); simpl. rewrite Hh; simpl. rewrite Hk, Hc. by destruct d.
  - exists (AStartDone id o); simpl. rewrite Hh; simpl. rewrite Hk. by destruct o.
  - exists (AWorkerStop id); simpl. rewrite Hh; simpl. by rewrite Hk, Hst.
  - exists (AExit id); simpl. rewrite Hh; simpl. by rewrite Hk, Hc.
  - exists (APanic id); simpl. rewrite Hh; simpl. by rewrite Hl, Hc.
  - exists (AEnter id t); simpl. rewrite Hh; simpl. rewrite Hl, Hp, Ht. by rewrite (bool_decide_eq_true_2 (t ∉ _)).
  - exists (ALeave id (length l1)); simpl. rewrite Hh; simpl. rewrite Hl, list_lookup_middle by done; simpl.
    rewrite Ht; simpl. rewrite take_app_length. replace (S (length l1)) with (length (l1 ++ [t]) + 0)%nat by (rewrite length_app; simpl; lia).
    by rewrite (cons_middle t l1 l2), (assoc_L (++)), drop_app_add.
  - exists (AConsume id); simpl. rewrite Hh; simpl. by rewrite Hl, Hp, Hq.
  - exists (AEmit id p); simpl. rewrite Hh; simpl. by rewrite Hl, Hp, (proj2 (Z.ltb_lt _ _) Hq).
  - exists (ACoreStop id); simpl. rewrite Hh; simpl. by rewrite Hl.
  - exists (ACore id x); simpl. rewrite Hh; simpl. by rewrite Hl.
Qed.

Lemma play_run w l tr w' : play w l = Some (tr, w') -> run w tr w'.
Proof.
  revert w tr. induction l as [|a l IH]; intros w tr E; simpl in E; [simplify_eq; constructor|].
  destruct (act w a) as [[e w1]|] eqn:Ea; simplify_eq/=. destruct (play w1 l) as [[tr1 w2]|] eqn:Ep; simplify_eq/=.
  apply (run_app android w [e] w1); [apply run_one; by eapply act_sound | by apply IH].
Qed.

Lemma play_app w l1 l2 tr1 w1 tr2 w2 : play w l1 = Some (tr1, w1) -> play w1 l2 = Some (tr2, w2) ->
  play w (l1 ++ l2) = Some (tr1 ++ tr2, w2).
Proof.
  revert w tr1. induction l1 as [|a l1 IH]; intros w tr1 E1 E2; simpl in *; [by simplify_eq|].
  destruct (act w a) as [[e w3]|]; simplify_eq/=. destruct (play w3 l1) as [[tr3 w4]|] eqn:Ep; simplify_eq/=.
  by rewrite (IH _ _ Ep E2).
Qed.

(** The interpreter plays exactly the runs of the process: every schedule
    it accepts is a run with the same events, and every run is played by some
    schedule. *)
Theorem interpreter_exact w tr w' : run w tr w' <-> exists l, play w l = Some (tr, w').
Proof.
  split; [|intros [l E]; by eapply play_run].
  induction 1 as [|w tr w1 e w2 Hr [l IH] Hs]; [by exists []|].
  destruct (act_complete _ _ _ Hs) as [a Ha]. exists (l ++ [a]). eapply play_app; [done|]. simpl. by rewrite Ha.
Qed.
End interpreter.
