(* ===== verification/FfiExamples.v ===== *)
(** * The C interface: an example core and schedules

    A small core to run the model with, one schedule through the life of a
    handle, and the instances of the theorems about runs at it. *)

From S2P Require Import Prelude FfiAbi FfiHost FfiStep FfiFacts FfiLifecycle FfiContract FfiStart FfiShutdown FfiErrors FfiPackets FfiRun.
Local Open Scope Z_scope.

(** A core whose configuration is one byte (is there a TUN?) and whose state is
    the node selected last. *)
#[local] Instance demo_core : CoreOps := {
  Config := bool;
  Core := list Z;
  Config_parse data := match data with [] => Err (text "empty") | b :: _ => Ok (b =? 1) end;
  tun_enable c := c;
  Core_new _ := Ok [];
  core_select c saved _ node := (saved, node);
  core_update_policy c _ _ := (Ok tt, c);
  core_close_connections c := c;
  core_network_changed c := c;
  core_task := list Z;
  core_run _ c := c;
  core_snapshot c stopped := Ok (c ++ [if stopped then 1 else 0]);
  json_from_slice _ := Err (text "expected value");
  mode_from_value _ := Err (text "unknown variant");
  rules_from_value _ := Err (text "invalid type")
}.

Definition demo_hooks : meta_hooks_v1 := mk_hooks 32 1 0 7 9.
Definition packet4 (n : Z) : list Z := 0x45 :: replicate 19 n.

Definition demo_create (config : Z) : action :=
  ACall 1 (Ok tt) (meta_create_v1 (mk_in (Some [config]) 1) (Some demo_hooks) (Some 0)).
Definition demo_out : out_buffer := mk_out (Some (replicate 24 0)) 24 (Some 0).
Definition demo_read (t : tid) : action := ACall t (Ok tt) (meta_read_packet_v1 1 demo_out).
Definition demo_write (t : tid) : action :=
  ACall t (Ok tt) (meta_write_packet_v1 1 (mk_in (Some (packet4 2)) 20)).

(** Thread 1 creates and starts a handle; packets go both ways; thread 5 is in a
    callback and tries to stop the handle; thread 2 destroys it meanwhile. *)
Definition life : list action :=
  [ demo_create 1; ACall 1 (Ok tt) (meta_start_v1 1); AReceive 1; AHandle 1 (Ok tt); AStartDone 1 (Ok tt);
    AWake 1; demo_write 1; AConsume 1; AEmit 1 (packet4 7); AEmit 1 (packet4 8); AEnter 1 5; demo_read 5;
    ACall 5 (Ok tt) (meta_stop_v1 1); ACall 2 (Ok tt) (meta_destroy_v1 1); ALeave 1 0; AWorkerStop 1; AExit 1; AWake 2;
    ACall 3 (Ok tt) (meta_start_v1 1) ].

Definition after (n : nat) : list event * world := default ([], initial) (play true initial (take n life)).
Definition trace (n : nat) : list event := fst (after n).
Definition state (n : nat) : world := snd (after n).

Lemma after_run n : bool_decide (is_Some (play true initial (take n life))) = true ->
  run true initial (trace n) (state n).
Proof.
  intros Hs%bool_decide_eq_true. unfold trace, state, after. destruct Hs as [[tr w] E].
  rewrite E. by eapply play_run.
Qed.

Example life_statuses :
  omap (fun e => match e with Return t _ st _ => Some (t, st) | _ => None end) (trace 19) =
  [(1, META_OK); (1, META_OK); (1, META_OK); (5, META_OK); (5, META_ERROR); (2, META_OK); (3, META_ERROR)]%nat.
Proof. vm_compute. reflexivity. Qed.

(** ** Instances of the theorems *)

Lemma host_invariant_witness : wf (state 19).
Proof. apply (host_invariant true (trace 19)). apply after_run. vm_compute. reflexivity. Defined.

Lemma start_succeeds_once_witness :
  (count (begins 1) (trace 19) <= 1)%nat /\ (count (started_ok 1) (trace 19) <= count (begins 1) (trace 19))%nat.
Proof. apply (start_succeeds_once true (trace 19) (state 19)), after_run. vm_compute. reflexivity. Defined.

(** The step that ends the call of thread 2, and the one after it. *)
Lemma destroy_step : step true (state 17) (Return 2 (meta_destroy_v1 1) META_OK NoReply) (state 18).
Proof. apply act_sound with (a := AWake 2). vm_compute. reflexivity. Qed.

Lemma last_step : step true (state 18) (Return 3 (meta_start_v1 1) META_ERROR NoReply) (state 19).
Proof. apply act_sound with (a := ACall 3 (Ok tt) (meta_start_v1 1)). vm_compute. reflexivity. Qed.

Lemma shutdown_is_quiet_witness :
  Forall (fun e => ~ activity 1 e) [Return 3 (meta_start_v1 1) META_ERROR NoReply].
Proof.
  refine (proj2 (shutdown_is_quiet true (trace 17) (state 17) 2 (meta_destroy_v1 1) 1 NoReply (state 18) _
    (state 19) _ destroy_step eq_refl (run_one _ _ _ _ last_step))).
  apply after_run. vm_compute. reflexivity.
Defined.

Lemma shutdown_returns_witness :
  exists h tr' w' st r, objects (state 14) !! 1 = Some h /\
    run true (state 14) (tr' ++ [Return 2 (meta_destroy_v1 1) st r]) w' /\ Forall (settles 1) tr' /\
    (length tr' <= length (callbacks h) + 3)%nat.
Proof.
  apply (shutdown_returns true (trace 14)); [apply after_run; vm_compute; reflexivity|].
  vm_compute. reflexivity.
Defined.

Lemma destroyed_handle_stays_invalid_witness :
  META_ERROR = META_ERROR /\ objects (state 19) = objects (state 18) /\ registry (state 19) = registry (state 18).
Proof.
  refine (proj2 (destroyed_handle_stays_invalid true (trace 17) (state 17) 2 1 NoReply (state 18) [] (state 18)
    3 (meta_start_v1 1) _ destroy_step (run_nil _ _) eq_refl) _ _ _ _ last_step).
  - apply after_run. vm_compute. reflexivity.
  - vm_compute. reflexivity.
Defined.

Lemma created_handle_is_new_witness :
  exists id h, HandleOut (Some 1) = HandleOut (Some id) /\ 0 < id < 2 ^ 64 /\ id ∈ registry (state 1) /\
    objects (state 1) !! id = Some h /\ started h = false /\ stop h = false /\ callbacks h = [] /\
    (true = true -> protect h = true) /\
    forall t' config' hooks' out',
      Return t' (meta_create_v1 config' hooks' out') META_OK (HandleOut (Some id)) ∉ [].
Proof.
  apply (created_handle_is_new true [] initial 1 (mk_in (Some [1]) 1) (Some demo_hooks) (Some 0)); [constructor|].
  apply act_sound with (a := demo_create 1). vm_compute. reflexivity.
Defined.

Lemma errors_are_recorded_witness : exists msg, error_text (state 13) !! 5%nat = Some msg.
Proof.
  destruct (errors_are_recorded true (state 12) 5 (meta_stop_v1 1) NoReply (state 13)) as (msg & Hm & _);
    [|discriminate|by exists msg].
  apply act_sound with (a := ACall 5 (Ok tt) (meta_stop_v1 1)). vm_compute. reflexivity.
Defined.

Lemma callbacks_cannot_reenter_witness : waiting (state 12) !! 5%nat = None.
Proof.
  refine (proj1 (callbacks_cannot_reenter true (trace 12) (state 12) 5 (meta_stop_v1 1) _ _ eq_refl)).
  - apply after_run. vm_compute. reflexivity.
  - apply (bool_decide_eq_true (5%nat ∈ in_callback (state 12))). vm_compute. reflexivity.
Defined.

Lemma packets_in_order_witness :
  exists h, objects (state 12) !! 1 = Some h /\
    traffic emitted 1 (trace 12) = traffic delivered 1 (trace 12) ++ option_list (pending h) ++ packet_output h.
Proof.
  destruct (objects (state 12) !! 1) as [h|] eqn:Hh; [|vm_compute in Hh; discriminate]. exists h. split; [done|].
  refine (proj1 (packets_in_order true (trace 12) (state 12) 1 h _ _ Hh)).
  - apply after_run. vm_compute. reflexivity.
  - vm_compute. repeat constructor; discriminate.
Defined.

(** A descriptor is set before the start. *)
Definition fd_life : list action :=
  [ demo_create 1; ACall 1 (Ok tt) (meta_set_tun_fd_v1 1 4); AReceive 1; AHandle 1 (Ok tt); AWake 1 ].
Definition fd_after : list event * world := default ([], initial) (play true initial fd_life).

Lemma packet_calls_need_queue_witness : exists r w', step true (snd fd_after) (Return 1 (meta_read_packet_v1 1 demo_out) META_ERROR r) w'.
Proof.
  assert (Hs : exists st r w', step true (snd fd_after) (Return 1 (meta_read_packet_v1 1 demo_out) st r) w').
  { eexists _, _, _. apply act_sound with (a := demo_read 1). vm_compute. reflexivity. }
  destruct Hs as (st & r & w' & Hs). exists r, w'.
  assert (st = META_ERROR) as <-; [|exact Hs].
  apply (packet_calls_need_queue true (fst fd_after) (snd fd_after) 1 (meta_read_packet_v1 1 demo_out) st r w' 1);
    [|exact Hs|reflexivity|reflexivity|].
  - apply play_run with (l := fd_life). vm_compute. reflexivity.
  - right. eexists (take 4 (fst fd_after)), 1%nat, 4, NoReply, []. vm_compute. reflexivity.
Defined.
