(* ===== verification/RustStr.v ===== *)
(** * Strings of the Rust standard library

    A [str] is the list of its characters (Unicode scalar values).  This file
    has the methods of [str] that crates/config and crates/core use, with the
    lemmas the components share. *)

From stdpp Require Export list strings.
From S2P Require Import Prelude FfiAbi.
Local Open Scope Z_scope.

Abbreviation str := (list Z) (only parsing).

(** A literal of the source. *)
Definition lit (s : string) : str := text s.

(** [str::len], in bytes. *)
Definition utf8_width (c : Z) : Z := if c <? 0x80 then 1 else if c <? 0x800 then 2 else if c <? 0x10000 then 3 else 4.
Definition str_len (s : str) : Z := foldr (fun c n => utf8_width c + n) 0 s.

(** [char::is_whitespace]. *)
Definition is_whitespace (c : Z) : bool :=
  ((0x09 <=? c) && (c <=? 0x0d)) || (c =? 0x20) || (c =? 0x85) || (c =? 0xa0) || (c =? 0x1680) ||
  ((0x2000 <=? c) && (c <=? 0x200a)) || (c =? 0x2028) || (c =? 0x2029) || (c =? 0x202f) || (c =? 0x205f) ||
  (c =? 0x3000).

Fixpoint drop_while (P : Z -> bool) (s : str) : str :=
  match s with [] => [] | c :: r => if P c then drop_while P r else s end.
Definition drop_while_end (P : Z -> bool) (s : str) : str := reverse (drop_while P (reverse s)).
Definition trim_start (s : str) : str := drop_while is_whitespace s.
Definition trim_end (s : str) : str := drop_while_end is_whitespace s.
Definition trim (s : str) : str := trim_end (trim_start s).
Definition trim_end_matches (c : Z) (s : str) : str := drop_while_end (Z.eqb c) s.
Definition trim_matches (c : Z) (s : str) : str := trim_end_matches c (drop_while (Z.eqb c) s).

Definition ascii_lower (c : Z) : Z := if (65 <=? c) && (c <=? 90) then c + 32 else c.
Definition ascii_upper (c : Z) : Z := if (97 <=? c) && (c <=? 122) then c - 32 else c.
Definition to_ascii_lowercase (s : str) : str := ascii_lower <$> s.
Definition to_ascii_uppercase (s : str) : str := ascii_upper <$> s.
Definition eq_ignore_ascii_case (a b : str) : bool := bool_decide (to_ascii_lowercase a = to_ascii_lowercase b).

Fixpoint strip_prefix (p s : str) : option str :=
  match p, s with
  | [], _ => Some s
  | a :: p, b :: s => if a =? b then strip_prefix p s else None
  | _, [] => None
  end.
Definition strip_suffix (p s : str) : option str := reverse <$> strip_prefix (reverse p) (reverse s).
Definition starts_with (c : Z) (s : str) : bool := bool_decide (head s = Some c).
Definition ends_with (c : Z) (s : str) : bool := bool_decide (last s = Some c).

(** [str::contains] with a string pattern. *)
Fixpoint contains (s p : str) : bool :=
  match strip_prefix p s with
  | Some _ => true
  | None => match s with [] => false | _ :: r => contains r p end
  end.

Fixpoint split_once (c : Z) (s : str) : option (str * str) :=
  match s with
  | [] => None
  | d :: r => if d =? c then Some ([], r) else match split_once c r with Some (a, b) => Some (d :: a, b) | None => None end
  end.

(** [str::split] at a character. *)
Fixpoint split (c : Z) (s : str) : list str :=
  match s with
  | [] => [[]]
  | d :: r =>
      if d =? c then [] :: split c r
      else match split c r with p :: l => (d :: p) :: l | [] => [[d]] end
  end.

(** [[T]::join] with a one-character separator. *)
Fixpoint join_with (c : Z) (l : list str) : str :=
  match l with [] => [] | [s] => s | s :: l => s ++ c :: join_with c l end.

(** [str::parse::<u16>]: an optional plus sign and decimal digits. *)
Definition digit (c : Z) : option Z := if (48 <=? c) && (c <=? 57) then Some (c - 48) else None.
Fixpoint parse_digits (acc : Z) (s : str) : outcome Z :=
  match s with
  | [] => Ok acc
  | c :: r =>
      match digit c with
      | Some d =>
          let acc := acc * 10 + d in
          if acc <=? 65535 then parse_digits acc r else Err (text "number too large to fit in target type")
      | None => Err (text "invalid digit found in string")
      end
  end.
Definition parse_u16 (s : str) : outcome Z :=
  match s with
  | [] => Err (text "cannot parse integer from empty string")
  | 43 :: r => match r with [] => Err (text "invalid digit found in string") | _ => parse_digits 0 r end
  | _ => parse_digits 0 s
  end.

Example strings_ex :
  trim (lit "  a b ") = lit "a b" /\ contains (lit "notexample.org") (lit "example") = true /\
  split 47 (lit "80/443") = [lit "80"; lit "443"] /\ parse_u16 (lit "8443") = Ok 8443 /\
  strip_suffix (lit "example.org") (lit "www.example.org") = Some (lit "www.").
Proof. vm_compute. done. Qed.

(** ** UTF-8

    The bytes of a string, and the characters of bytes that are UTF-8. *)

Definition utf8_char (c : Z) : list Z :=
  if c <? 0x80 then [c]
  else if c <? 0x800 then [0xc0 + c / 64; 0x80 + c mod 64]
  else if c <? 0x10000 then [0xe0 + c / 4096; 0x80 + c / 64 mod 64; 0x80 + c mod 64]
  else [0xf0 + c / 262144; 0x80 + c / 4096 mod 64; 0x80 + c / 64 mod 64; 0x80 + c mod 64].
Definition utf8 (s : str) : list Z := concat (utf8_char <$> s).

Fixpoint chars (b : list Z) : str :=
  match b with
  | [] => []
  | a :: r =>
      if a <? 0x80 then a :: chars r
      else if a <? 0xe0 then
        match r with b :: r => ((a - 0xc0) * 64 + (b - 0x80)) :: chars r | _ => [] end
      else if a <? 0xf0 then
        match r with b :: c :: r => ((a - 0xe0) * 4096 + (b - 0x80) * 64 + (c - 0x80)) :: chars r | _ => [] end
      else
        match r with
        | b :: c :: d :: r =>
            ((a - 0xf0) * 262144 + (b - 0x80) * 4096 + (c - 0x80) * 64 + (d - 0x80)) :: chars r
        | _ => []
        end
  end.

(** ** Lemmas *)

(** The characters of the bytes of a string are the string. *)
Lemma chars_utf8 s : Forall (fun c => 0 <= c < 0x110000) s -> chars (utf8 s) = s.
Proof.
  unfold utf8. induction 1 as [|c s Hc Hs IH]; [done|]. rewrite fmap_cons. cbn [concat]. unfold utf8_char at 1.
  destruct (Z.ltb_spec c 0x80); [|destruct (Z.ltb_spec c 0x800); [|destruct (Z.ltb_spec c 0x10000)]]; cbn [app chars].
  - rewrite (proj2 (Z.ltb_lt c _)) by done. by rewrite IH.
  - rewrite (proj2 (Z.ltb_ge (0xc0 + c / 64) 0x80)), (proj2 (Z.ltb_lt (0xc0 + c / 64) 0xe0)) by div_lia.
    rewrite IH. f_equal. div_lia.
  - rewrite (proj2 (Z.ltb_ge (0xe0 + c / 4096) 0x80)), (proj2 (Z.ltb_ge (0xe0 + c / 4096) 0xe0)),
      (proj2 (Z.ltb_lt (0xe0 + c / 4096) 0xf0)) by div_lia.
    rewrite IH. f_equal. div_lia.
  - rewrite (proj2 (Z.ltb_ge (0xf0 + c / 262144) 0x80)), (proj2 (Z.ltb_ge (0xf0 + c / 262144) 0xe0)),
      (proj2 (Z.ltb_ge (0xf0 + c / 262144) 0xf0)) by div_lia.
    rewrite IH. f_equal. div_lia.
Qed.


Lemma strip_prefix_Some p s r : strip_prefix p s = Some r <-> s = p ++ r.
Proof.
  revert s. induction p as [|a p IH]; intros s; simpl; [naive_solver|].
  destruct s as [|b s]; [naive_solver|]. destruct (Z.eqb_spec a b) as [->|].
  - rewrite IH. naive_solver.
  - naive_solver.
Qed.

Lemma strip_suffix_Some p s r : strip_suffix p s = Some r <-> s = r ++ p.
Proof.
  unfold strip_suffix. rewrite fmap_Some. split.
  - intros (x & Hx%strip_prefix_Some & ->). rewrite <-(reverse_involutive s), Hx.
    by rewrite reverse_app, reverse_involutive.
  - intros ->. exists (reverse r). split; [|by rewrite reverse_involutive].
    apply strip_prefix_Some. by rewrite reverse_app.
Qed.

Lemma split_once_Some c s a b : split_once c s = Some (a, b) <-> s = a ++ c :: b /\ c ∉ a.
Proof.
  revert a b. induction s as [|d s IH]; intros a b; simpl.
  - split; [done|]. intros [E _]. by destruct a.
  - destruct (Z.eqb_spec d c) as [->|Hd].
    + split; [intros [= <- <-]; split; [done | apply not_elem_of_nil]|].
      intros [E Hn]. destruct a as [|x a]; simplify_eq/=; [done|]. exfalso. apply Hn. left.
    + split.
      * destruct (split_once c s) as [[a' b']|] eqn:E; [|done]. intros [= <- <-].
        destruct (proj1 (IH a' b') eq_refl) as [-> Hn]. split; [done|].
        apply not_elem_of_cons. split; [congruence | done].
      * intros [E Hn]. destruct a as [|x a]; simplify_eq/=. apply not_elem_of_cons in Hn as [_ Hn].
        by rewrite (proj2 (IH a b)).
Qed.

Lemma split_once_None c s : split_once c s = None <-> c ∉ s.
Proof.
  split.
  - intros E Hin. apply list_elem_of_split in Hin as (l1 & l2 & ->).
    induction l1 as [|x l1 IH]; simpl in E; [by rewrite Z.eqb_refl in E|].
    destruct (x =? c); [done|]. by destruct (split_once c (l1 ++ c :: l2)) as [[]|].
  - intros Hn. destruct (split_once c s) as [[a b]|] eqn:E; [|done].
    apply split_once_Some in E as [-> _]. exfalso. apply Hn. set_solver.
Qed.

(** A normalised name is its own normal form. *)
Lemma drop_while_idem P s : drop_while P (drop_while P s) = drop_while P s.
Proof. induction s as [|c s IH]; simpl; [done|]. destruct (P c) eqn:E; [done|]. simpl. by rewrite E. Qed.

Lemma drop_while_fmap P f s : (forall c, P (f c) = P c) -> drop_while P (f <$> s) = f <$> drop_while P s.
Proof.
  intros Hf. induction s as [|c s IH]; [done|]. rewrite fmap_cons. cbn [drop_while]. rewrite Hf. by destruct (P c).
Qed.

Lemma lowercase_idem s : to_ascii_lowercase (to_ascii_lowercase s) = to_ascii_lowercase s.
Proof.
  unfold to_ascii_lowercase. rewrite <- list_fmap_compose. apply list_fmap_ext. intros _ c _. simpl. unfold ascii_lower.
  destruct ((65 <=? c) && (c <=? 90)) eqn:E; [|by rewrite E].
  by replace ((65 <=? c + 32) && (c + 32 <=? 90)) with false by lia.
Qed.

Lemma normal_host_idem s :
  to_ascii_lowercase (trim_end_matches 46 (to_ascii_lowercase (trim_end_matches 46 s))) =
  to_ascii_lowercase (trim_end_matches 46 s).
Proof.
  unfold trim_end_matches, drop_while_end. unfold to_ascii_lowercase at 2. rewrite <- fmap_reverse, reverse_involutive.
  rewrite drop_while_fmap, drop_while_idem.
  - rewrite <- fmap_reverse. apply lowercase_idem.
  - intros c. unfold ascii_lower. destruct ((65 <=? c) && (c <=? 90)) eqn:E; lia.
Qed.

(** The bytes of a string are UTF-8. *)
Definition scalar (c : Z) : Prop := 0 <= c < 0xd800 \/ 0xe000 <= c < 0x110000.

Lemma is_cont_true lo hi b : lo <= b <= hi -> is_cont lo hi b = true.
Proof. unfold is_cont. lia. Qed.

Lemma utf8_head_char c r : scalar c -> exists a t, utf8_char c = a :: t /\
  utf8_head a (t ++ r) = Width (length (utf8_char c)).
Proof.
  unfold scalar. intros Hc. unfold utf8_char.
  destruct (Z.ltb_spec c 0x80); [|destruct (Z.ltb_spec c 0x800); [|destruct (Z.ltb_spec c 0x10000)]];
    eexists _, _; (split; [reflexivity|]); cbn [app length]; unfold utf8_head.
  - by rewrite (proj2 (Z.ltb_lt _ _)).
  - rewrite (proj2 (Z.ltb_ge _ _)), is_cont_true by div_lia. cbn [continuation].
    by rewrite is_cont_true by div_lia.
  - rewrite (proj2 (Z.ltb_ge _ _)) by div_lia.
    replace (is_cont 194 223 (224 + c / 4096)) with false by (unfold is_cont; div_lia).
    rewrite is_cont_true by div_lia. cbn [continuation].
    rewrite is_cont_true; [by rewrite is_cont_true by div_lia|].
    destruct (Z.eqb_spec (224 + c / 4096) 224), (Z.eqb_spec (224 + c / 4096) 237); div_lia.
  - rewrite (proj2 (Z.ltb_ge _ _)) by div_lia.
    replace (is_cont 194 223 (240 + c / 262144)) with false by (unfold is_cont; div_lia).
    replace (is_cont 224 239 (240 + c / 262144)) with false by (unfold is_cont; div_lia).
    rewrite is_cont_true by div_lia. cbn [continuation].
    rewrite is_cont_true; [by rewrite !is_cont_true by div_lia|].
    destruct (Z.eqb_spec (240 + c / 262144) 240), (Z.eqb_spec (240 + c / 262144) 244); div_lia.
Qed.

Lemma utf8_accepted s : Forall scalar s -> from_utf8 (utf8 s) = Ok (utf8 s).
Proof.
  intros Hs. unfold from_utf8.
  assert (Hc : forall fuel index, (length (utf8 s) <= fuel)%nat -> utf8_check fuel index (utf8 s) = Ok tt).
  { unfold utf8. induction Hs as [|c s Hc _ IH]; intros fuel index Hf; [by destruct fuel|].
    rewrite fmap_cons in *. cbn [concat] in *. destruct (utf8_head_char c (concat (utf8_char <$> s)) Hc) as (a & t & E & Hh).
    rewrite length_app in Hf. rewrite E in *. destruct fuel as [|fuel]; [simpl in Hf; lia|].
    change ((a :: t) ++ concat (utf8_char <$> s)) with (a :: (t ++ concat (utf8_char <$> s))).
    cbn [utf8_check]. rewrite Hh.
    change (a :: t ++ concat (utf8_char <$> s)) with ((a :: t) ++ concat (utf8_char <$> s)).
    rewrite drop_app_length. apply IH. simpl in Hf. lia. }
  by rewrite Hc.
Qed.

Lemma scalar_range s : Forall scalar s -> Forall (fun c => 0 <= c < 0x110000) s.
Proof. intros Hs. eapply Forall_impl; [exact Hs|]. unfold scalar. simpl. lia. Qed.

Lemma utf8_length s : Forall scalar s -> Z.of_nat (length (utf8 s)) = str_len s.
Proof.
  unfold utf8. induction 1 as [|c s _ _ IH]; [done|]. rewrite fmap_cons. cbn [concat str_len foldr].
  rewrite length_app, Nat2Z.inj_add, IH. f_equal. unfold utf8_char, utf8_width.
  by destruct (c <? 0x80), (c <? 0x800), (c <? 0x10000).
Qed.
