(* ===== verification/IpText.v ===== *)
(** * Addresses as text

    [std::net::IpAddr] with its parser and its display, which targets, rules and
    the wire formats go through; the text of an address parses to the
    address. *)

From S2P Require Import Prelude FfiAbi RustStr.
Local Open Scope Z_scope.

(** [std::net::IpAddr], by the number of the address. *)
Inductive IpAddr := V4 (n : Z) | V6 (n : Z).
#[global] Instance IpAddr_eq_dec : EqDecision IpAddr.
Proof. solve_decision. Defined.

Definition ip_valid (a : IpAddr) : Prop := match a with V4 n => 0 <= n < 2 ^ 32 | V6 n => 0 <= n < 2 ^ 128 end.

(** Numbers from digits, the first one highest. *)
Definition horner (base : Z) (l : list Z) : Z := foldl (fun v d => v * base + d) 0 l.

(** ** The parser *)

(** [char::to_digit]. *)
Definition to_digit (radix c : Z) : option Z :=
  let d := if (48 <=? c) && (c <=? 57) then c - 48
           else if (97 <=? c) && (c <=? 122) then c - 87
           else if (65 <=? c) && (c <=? 90) then c - 55 else 99 in
  if d <? radix then Some d else None.

Fixpoint take_digits (radix : Z) (s : str) : list Z * str :=
  match s with
  | [] => ([], [])
  | c :: r => match to_digit radix c with
              | Some d => let '(ds, rest) := take_digits radix r in (d :: ds, rest)
              | None => ([], s)
              end
  end.

(** [read_number] with its limit on digits, and the largest value of its type. *)
Definition read_number (radix : Z) (max_digits : nat) (allow_zero_prefix : bool) (max : Z) (s : str) : option (Z * str) :=
  let '(ds, rest) := take_digits radix s in
  if (length ds =? 0)%nat || (max_digits <? length ds)%nat then None
  else if negb allow_zero_prefix && bool_decide (head s = Some 48) && (1 <? length ds)%nat then None
  else if horner radix ds <=? max then Some (horner radix ds, rest) else None.

(** [read_separator]: no separator in front of the first element. *)
Definition read_separator {A} (sep : Z) (first : bool) (f : str -> option (A * str)) (s : str) : option (A * str) :=
  if first then f s else match s with c :: r => if c =? sep then f r else None | [] => None end.

Fixpoint read_octets (n : nat) (first : bool) (s : str) : option (list Z * str) :=
  match n with
  | O => Some ([], s)
  | S n =>
      match read_separator 46 first (read_number 10 3 false 255) s with
      | Some (v, r) => match read_octets n false r with Some (l, r) => Some (v :: l, r) | None => None end
      | None => None
      end
  end.
Definition read_ipv4_addr (s : str) : option (Z * str) :=
  match read_octets 4 true s with Some (l, r) => Some (horner 256 l, r) | None => None end.

(** [read_groups], for the slots that are left: the groups, whether they end in
    an IPv4 address, and the rest. *)
Fixpoint read_groups (slots : nat) (first : bool) (s : str) : list Z * bool * str :=
  match slots with
  | O => ([], false, s)
  | S slots =>
      match (if (0 <? slots)%nat then read_separator 58 first read_ipv4_addr s else None) with
      | Some (v, r) => ([v / 65536; v mod 65536], true, r)
      | None =>
          match read_separator 58 first (read_number 16 4 true 65535) s with
          | Some (g, r) => let '(gs, v4, r) := read_groups slots false r in (g :: gs, v4, r)
          | None => ([], false, s)
          end
      end
  end.
Definition read_ipv6_addr (s : str) : option (Z * str) :=
  let '(hd, v4, r) := read_groups 8 true s in
  if (length hd =? 8)%nat then Some (horner 65536 hd, r)
  else if v4 then None
  else match r with
       | c :: d :: r =>
           if (c =? 58) && (d =? 58) then
             let '(tl, _, r) := read_groups (7 - length hd) true r in
             Some (horner 65536 (hd ++ replicate (8 - length hd - length tl) 0 ++ tl), r)
           else None
       | _ => None
       end.

(** [str::parse::<IpAddr>]. *)
Definition ip_parse (s : str) : option IpAddr :=
  match read_ipv4_addr s with
  | Some (v, []) => Some (V4 v)
  | Some _ => None
  | None => match read_ipv6_addr s with Some (v, []) => Some (V6 v) | _ => None end
  end.

(** ** Display *)

Definition dec_u8 (n : Z) : str :=
  if n <? 10 then [48 + n] else if n <? 100 then [48 + n / 10; 48 + n mod 10]
  else [48 + n / 100; 48 + n / 10 mod 10; 48 + n mod 10].
Definition hex_digit (d : Z) : Z := if d <? 10 then 48 + d else 87 + d.
Definition hex_u16 (n : Z) : str :=
  hex_digit <$> (if n <? 16 then [n] else if n <? 256 then [n / 16; n mod 16]
                 else if n <? 4096 then [n / 256; n / 16 mod 16; n mod 16]
                 else [n / 4096; n / 256 mod 16; n / 16 mod 16; n mod 16]).

Definition octets4 (n : Z) : list Z := [n / 2 ^ 24 mod 256; n / 2 ^ 16 mod 256; n / 2 ^ 8 mod 256; n mod 256].
Definition segments (n : Z) : list Z :=
  (fun i => n / 2 ^ (16 * i) mod 2 ^ 16) <$> [7; 6; 5; 4; 3; 2; 1; 0].

Definition show4 (n : Z) : str := join_with 46 (dec_u8 <$> octets4 n).

(** The longest run of zeros: its start and length, the current run likewise. *)
Fixpoint zero_run (i : nat) (longest current : nat * nat) (l : list Z) : nat * nat :=
  match l with
  | [] => longest
  | x :: l =>
      if x =? 0 then
        let current := if (snd current =? 0)%nat then (i, 1)%nat else (fst current, S (snd current)) in
        zero_run (S i) (if (snd longest <? snd current)%nat then current else longest) current l
      else zero_run (S i) longest (0, 0)%nat l
  end.

Definition show6 (n : Z) : str :=
  let segs := segments n in
  if bool_decide (take 6 segs = [0; 0; 0; 0; 0; 0xffff]) then lit "::ffff:" ++ show4 (n mod 2 ^ 32)
  else
    let '(start, length) := zero_run 0 (0, 0)%nat (0, 0)%nat segs in
    if (1 <? length)%nat
    then join_with 58 (hex_u16 <$> take start segs) ++ [58; 58] ++ join_with 58 (hex_u16 <$> drop (start + length) segs)
    else join_with 58 (hex_u16 <$> segs).

Definition ip_display (a : IpAddr) : str := match a with V4 n => show4 n | V6 n => show6 n end.

Example ip_text_ex :
  ip_display (V6 (2 ^ 127 + 1)) = lit "8000::1" /\ ip_parse (lit "a::0") = Some (V6 (0xa * 2 ^ 112)) /\
  ip_display (V6 (0xa * 2 ^ 112)) = lit "a::" /\ ip_parse (lit "1.2.3.04") = None /\
  ip_parse (lit "::ffff:1.2.3.4") = Some (V6 (0xffff * 2 ^ 32 + 0x01020304)) /\
  ip_display (V6 (0xffff * 2 ^ 32 + 0x01020304)) = lit "::ffff:1.2.3.4" /\
  ip_parse (lit "1:2:3:4:5:6:7:8:9") = None /\ ip_parse (lit "256.1.1.1") = None.
Proof. vm_compute. done. Qed.
