(* ===== verification/IpTextFacts.v ===== *)
(** * The text of an address parses to the address *)

From S2P Require Import Prelude FfiAbi RustStr IpText.
Local Open Scope Z_scope.

(** ** Numbers *)

Definition stops (radix : Z) (s : str) : Prop := match s with [] => True | c :: _ => to_digit radix c = None end.

Lemma take_digits_app radix cs ds rest : Forall2 (fun c d => to_digit radix c = Some d) cs ds -> stops radix rest ->
  take_digits radix (cs ++ rest) = (ds, rest).
Proof.
  intros Hd Hs. induction Hd as [|c d cs ds Hc _ IH]; simpl.
  - destruct rest as [|c rest]; [done|]. simpl in *. by rewrite Hs.
  - by rewrite Hc, IH.
Qed.

Lemma to_digit_dec d : 0 <= d < 10 -> to_digit 10 (48 + d) = Some d.
Proof.
  intros Hd. unfold to_digit. replace ((48 <=? 48 + d) && (48 + d <=? 57)) with true by lia.
  replace (48 + d - 48) with d by lia. by rewrite (proj2 (Z.ltb_lt d 10)) by lia.
Qed.

Lemma to_digit_hex d : 0 <= d < 16 -> to_digit 16 (hex_digit d) = Some d.
Proof.
  intros Hd. unfold to_digit, hex_digit. destruct (Z.ltb_spec d 10).
  - replace ((48 <=? 48 + d) && (48 + d <=? 57)) with true by lia. replace (48 + d - 48) with d by lia.
    by rewrite (proj2 (Z.ltb_lt d 16)) by lia.
  - replace ((48 <=? 87 + d) && (87 + d <=? 57)) with false by lia.
    replace ((97 <=? 87 + d) && (87 + d <=? 122)) with true by lia.
    replace (87 + d - 87) with d by lia. by rewrite (proj2 (Z.ltb_lt d 16)) by lia.
Qed.

(** A number that was written without a leading zero is read back. *)
Lemma read_number_digits radix max_digits allow max cs ds rest v :
  Forall2 (fun c d => to_digit radix c = Some d) cs ds -> stops radix rest -> (0 < length ds <= max_digits)%nat ->
  (allow = true \/ (length ds = 1)%nat \/ head cs <> Some 48) -> horner radix ds = v -> v <= max ->
  read_number radix max_digits allow max (cs ++ rest) = Some (v, rest).
Proof.
  intros Hd Hs Hl Hz <- Hm. unfold read_number. rewrite (take_digits_app _ _ _ _ Hd Hs).
  rewrite (proj2 (Nat.eqb_neq _ _)), (proj2 (Nat.ltb_ge _ _)) by lia. cbn [orb].
  rewrite (proj2 (Z.leb_le _ _)) by done.
  destruct (negb allow && bool_decide (head (cs ++ rest) = Some 48) && (1 <? length ds)%nat) eqn:E; [|done].
  apply andb_true_iff in E as [[Ea Eh%bool_decide_eq_true]%andb_true_iff El%Nat.ltb_lt].
  apply Forall2_length in Hd. destruct Hz as [->|[?|Hz]]; [done | lia|]. destruct cs; simpl in *; [lia | done].
Qed.

Lemma read_dec n rest : 0 <= n < 256 -> stops 10 rest -> read_number 10 3 false 255 (dec_u8 n ++ rest) = Some (n, rest).
Proof.
  intros Hn Hs. unfold dec_u8. destruct (Z.ltb_spec n 10); [|destruct (Z.ltb_spec n 100)].
  - apply read_number_digits with (ds := [n]); simpl; try done; try lia; auto.
    repeat constructor. apply to_digit_dec; lia.
  - apply read_number_digits with (ds := [n / 10; n mod 10]); simpl; try done; try lia.
    + repeat constructor; apply to_digit_dec; div_lia.
    + right; right. intros [= E]. div_lia.
    + unfold horner; simpl. div_lia.
  - apply read_number_digits with (ds := [n / 100; n / 10 mod 10; n mod 10]); simpl; try done; try lia.
    + repeat constructor; apply to_digit_dec; div_lia.
    + right; right. intros [= E]. div_lia.
    + unfold horner; simpl. div_lia.
Qed.

Lemma hex_digits ds : Forall (fun d => 0 <= d < 16) ds ->
  Forall2 (fun c d => to_digit 16 c = Some d) (hex_digit <$> ds) ds.
Proof. induction 1 as [|d ds Hd _ IH]; constructor; [by apply to_digit_hex | done]. Qed.

Lemma read_hex_digits ds n rest : Forall (fun d => 0 <= d < 16) ds -> (0 < length ds <= 4)%nat -> horner 16 ds = n ->
  n <= 65535 -> stops 16 rest -> read_number 16 4 true 65535 ((hex_digit <$> ds) ++ rest) = Some (n, rest).
Proof. intros. eapply read_number_digits; eauto using hex_digits. Qed.

Lemma read_hex n rest : 0 <= n < 65536 -> stops 16 rest -> read_number 16 4 true 65535 (hex_u16 n ++ rest) = Some (n, rest).
Proof.
  intros Hn Hs. unfold hex_u16.
  destruct (Z.ltb_spec n 16); [|destruct (Z.ltb_spec n 256); [|destruct (Z.ltb_spec n 4096)]];
    apply read_hex_digits; try done; try (simpl; lia); try (unfold horner; simpl; div_lia);
    repeat (apply Forall_cons; split; [div_lia|]); apply Forall_nil_2.
Qed.

(** ** IPv4 *)

Lemma read_show4 n rest : 0 <= n < 2 ^ 32 -> stops 10 rest -> read_ipv4_addr (show4 n ++ rest) = Some (n, rest).
Proof.
  intros Hn Hs. unfold show4, read_ipv4_addr, octets4. cbn [fmap list_fmap join_with].
  rewrite <- !app_assoc. simpl app. rewrite <- !app_assoc. simpl app. rewrite <- !app_assoc. simpl app.
  cbn [read_octets read_separator].
  rewrite read_dec by (done || apply Z.mod_pos_bound; lia). rewrite Z.eqb_refl.
  rewrite read_dec by (done || apply Z.mod_pos_bound; lia). rewrite Z.eqb_refl.
  rewrite read_dec by (done || apply Z.mod_pos_bound; lia). rewrite Z.eqb_refl.
  rewrite read_dec by (done || apply Z.mod_pos_bound; lia).
  do 2 f_equal. unfold horner; simpl. div_lia.
Qed.

(** An IPv4 address has dots. *)
Lemma take_digits_suffix radix s ds rest : take_digits radix s = (ds, rest) -> exists p, s = p ++ rest.
Proof.
  revert ds rest. induction s as [|c s IH]; intros ds rest E; simpl in E; [simplify_eq; by exists []|].
  destruct (to_digit radix c) as [d|]; [|simplify_eq; by exists []].
  destruct (take_digits radix s) as [ds' r]. simplify_eq. destruct (IH _ _ eq_refl) as [p ->]. by exists (c :: p).
Qed.

Lemma read_ipv4_dot s : 46 ∉ s -> read_ipv4_addr s = None.
Proof.
  intros Hs. unfold read_ipv4_addr. cbn [read_octets read_separator].
  unfold read_number at 1. destruct (take_digits 10 s) as [ds r] eqn:Et. destruct (take_digits_suffix _ _ _ _ Et) as [p ->].
  destruct (_ || _); [done|]. destruct (_ && _); [done|]. destruct (_ <=? _); [|done].
  destruct r as [|c r]; [done|]. destruct (Z.eqb_spec c 46) as [->|]; [|done]. exfalso. apply Hs. set_solver.
Qed.

(** ** IPv6 *)

(** Groups behind a first one. *)
Definition more_groups (gs : list Z) : str := concat ((fun g => 58 :: hex_u16 g) <$> gs).

Lemma join_groups g gs : join_with 58 (hex_u16 <$> (g :: gs)) = hex_u16 g ++ more_groups gs.
Proof.
  revert g. induction gs as [|h gs IH]; intros g; [by rewrite app_nil_r|].
  rewrite fmap_cons. change (join_with 58 (hex_u16 g :: (hex_u16 <$> h :: gs))) with
    (hex_u16 g ++ 58 :: join_with 58 (hex_u16 <$> h :: gs)). by rewrite IH.
Qed.

(** What can follow the groups: nothing, or two colons. *)
Definition ending (s : str) : Prop := s = [] \/ exists r, s = 58 :: 58 :: r.

Lemma ending_stops gs rest : ending rest -> stops 16 (more_groups gs ++ rest).
Proof. intros He. destruct gs; [|done]. by destruct He as [->|[r ->]]. Qed.

Lemma read_number_colon s : match s with [] => True | c :: _ => c = 58 end -> read_number 16 4 true 65535 s = None.
Proof. destruct s as [|c s]; [done|]. by intros ->. Qed.

Lemma read_more_groups gs rest : forall slots, Forall (fun g => 0 <= g < 65536) gs -> (length gs <= slots)%nat ->
  ending rest -> 46 ∉ more_groups gs ++ rest -> read_groups slots false (more_groups gs ++ rest) = (gs, false, rest).
Proof.
  induction gs as [|g gs IH]; intros slots Hg Hl He Hd.
  - unfold more_groups in *. cbn [fmap list_fmap concat app] in *. destruct slots as [|slots]; [done|]. cbn [read_groups].
    assert (read_separator 58 false read_ipv4_addr rest = None) as Hv.
    { destruct He as [->|[r ->]]; [done|]. cbn [read_separator]. rewrite Z.eqb_refl. apply read_ipv4_dot. set_solver. }
    assert (read_separator 58 false (read_number 16 4 true 65535) rest = None) as Hn.
    { by destruct He as [->|[r ->]]. }
    rewrite Hv, Hn. by destruct (0 <? slots)%nat.
  - destruct slots as [|slots]; simpl in Hl; [lia|]. apply Forall_cons in Hg as [Hg Hgs].
    change (more_groups (g :: gs) ++ rest) with (58 :: (hex_u16 g ++ more_groups gs) ++ rest) in *.
    rewrite <- app_assoc in *. cbn [read_groups read_separator]. rewrite Z.eqb_refl.
    apply not_elem_of_cons in Hd as [_ Hd]. rewrite (read_ipv4_dot _ Hd).
    rewrite read_hex by (done || by apply ending_stops).
    apply not_elem_of_app in Hd as [_ Hd]. rewrite (IH slots) by (done || lia). by destruct (0 <? slots)%nat.
Qed.

Lemma read_all_groups gs rest slots : Forall (fun g => 0 <= g < 65536) gs -> (length gs <= slots)%nat ->
  ending rest -> 46 ∉ join_with 58 (hex_u16 <$> gs) ++ rest ->
  read_groups slots true (join_with 58 (hex_u16 <$> gs) ++ rest) = (gs, false, rest).
Proof.
  intros Hg Hl He Hd. destruct gs as [|g gs].
  - cbn [fmap list_fmap join_with app] in *. destruct slots as [|slots]; [done|]. cbn [read_groups read_separator].
    rewrite (read_ipv4_dot _ Hd). rewrite read_number_colon by (by destruct He as [->|[r ->]]).
    by destruct (0 <? slots)%nat.
  - destruct slots as [|slots]; simpl in Hl; [lia|]. apply Forall_cons in Hg as [Hg Hgs].
    rewrite join_groups, <- app_assoc in *. cbn [read_groups read_separator]. rewrite (read_ipv4_dot _ Hd).
    rewrite read_hex by (done || by apply ending_stops).
    apply not_elem_of_app in Hd as [_ Hd]. rewrite read_more_groups by (done || lia). by destruct (0 <? slots)%nat.
Qed.

(** The run of zeros that is left out is one. *)
Definition zeros_at (l : list Z) (span : nat * nat) : Prop :=
  (fst span + snd span <= length l)%nat /\ forall k, (fst span <= k < fst span + snd span)%nat -> l !! k = Some 0.

Lemma zero_run_zeros l : forall pre longest current, zeros_at pre longest ->
  (snd current = 0 \/ (fst current + snd current = length pre /\ zeros_at pre current))%nat ->
  zeros_at (pre ++ l) (zero_run (length pre) longest current l).
Proof.
  assert (Hweak : forall (pre : list Z) x s, zeros_at pre s -> zeros_at (pre ++ [x]) s).
  { intros pre x s [H1 H2]. split; [rewrite length_app; simpl; lia|]. intros k Hk. apply lookup_app_l_Some. by apply H2. }
  induction l as [|x l IH]; intros pre longest current Hl Hc; cbn [zero_run]; [by rewrite app_nil_r|].
  replace (S (length pre)) with (length (pre ++ [x])) by (rewrite length_app; simpl; lia).
  rewrite (cons_middle x pre l), (assoc_L (++)).
  destruct (Z.eqb_spec x 0) as [->|Hx]; [|apply IH; [by apply Hweak | by left]].
  set (cur := if (snd current =? 0)%nat then (length pre, 1%nat) else (fst current, S (snd current))).
  assert (Hcur : zeros_at (pre ++ [0]) cur /\ (fst cur + snd cur)%nat = length (pre ++ [0])).
  { rewrite length_app. unfold cur. destruct (Nat.eqb_spec (snd current) 0); simpl.
    - split; [|lia]. split; simpl; [rewrite length_app; simpl; lia|]. intros k Hk. replace k with (length pre) by lia.
      by rewrite list_lookup_middle.
    - destruct Hc as [?|[E [_ Hz]]]; [lia|]. split; [|lia]. split; simpl; [rewrite length_app; simpl; lia|].
      intros k Hk. destruct (decide (k < length pre)%nat); [apply lookup_app_l_Some, Hz; lia|].
      replace k with (length pre) by lia. by rewrite list_lookup_middle. }
  destruct Hcur as [Hz Hlen]. apply IH; [|by right; split].
  destruct (_ <? _)%nat; [done | by apply Hweak].
Qed.

Lemma zeros_replaced l start n : zeros_at l (start, n) ->
  take start l ++ replicate n 0 ++ drop (start + n) l = l.
Proof.
  intros [Hl Hz]. simpl in *. rewrite <- (take_drop start l) at 3. f_equal.
  rewrite <- (take_drop n (drop start l)), drop_drop. f_equal. apply replicate_as_elem_of. split.
  - rewrite length_take, length_drop. lia.
  - intros y [k Hk]%list_elem_of_lookup. apply lookup_take_Some in Hk as [Hk Hn]. rewrite lookup_drop in Hk.
    rewrite Hz in Hk by lia. by injection Hk.
Qed.

Lemma segments_length n : length (segments n) = 8%nat.
Proof. done. Qed.

Lemma segments_bounds n : Forall (fun g => 0 <= g < 65536) (segments n).
Proof. apply Forall_fmap, Forall_forall. intros i _. apply Z.mod_pos_bound. lia. Qed.

Lemma segment_step n i : 0 <= i -> n / 2 ^ (16 * (i + 1)) * 65536 + n / 2 ^ (16 * i) mod 2 ^ 16 = n / 2 ^ (16 * i).
Proof.
  intros Hi. replace (16 * (i + 1)) with (16 * i + 16) by lia. rewrite Z.pow_add_r, <- Z.div_div by lia.
  change (2 ^ 16) with 65536. pose proof (Z.div_mod (n / 2 ^ (16 * i)) 65536). lia.
Qed.

Lemma horner_segments n : 0 <= n < 2 ^ 128 -> horner 65536 (segments n) = n.
Proof.
  intros Hn. unfold segments, horner. cbn [fmap list_fmap foldl].
  assert (n / 2 ^ (16 * 7) mod 2 ^ 16 = n / 2 ^ (16 * 7)) as ->.
  { apply Z.mod_small. split; [apply Z.div_pos; lia|]. apply Z.div_lt_upper_bound; lia. }
  rewrite Z.mul_0_l, Z.add_0_l.
  let up i j := (let E := fresh in pose proof (segment_step n i ltac:(lia)) as E; change (i + 1) with j in E; rewrite E; clear E) in
  up 6 7; up 5 6; up 4 5; up 3 4; up 2 3; up 1 2; up 0 1.
  apply Z.div_1_r.
Qed.

(** Hexadecimal text has no dot. *)
Lemma hex_digit_dot d : 0 <= d < 16 -> hex_digit d <> 46.
Proof. unfold hex_digit. destruct (Z.ltb_spec d 10); lia. Qed.

Lemma hex_no_dot n : 0 <= n < 65536 -> 46 ∉ hex_u16 n.
Proof.
  intros Hn Hin. unfold hex_u16 in Hin. apply list_elem_of_fmap in Hin as (d & E & Hin). symmetry in E. revert E.
  apply hex_digit_dot. revert Hin.
  destruct (Z.ltb_spec n 16); [|destruct (Z.ltb_spec n 256); [|destruct (Z.ltb_spec n 4096)]];
    intros Hin; repeat (apply elem_of_cons in Hin as [->|Hin]; [div_lia|]); by apply elem_of_nil in Hin.
Qed.

Lemma join_no_dot gs : Forall (fun g => 0 <= g < 65536) gs -> 46 ∉ join_with 58 (hex_u16 <$> gs).
Proof.
  destruct gs as [|g gs]; [intros _; apply not_elem_of_nil|]. rewrite join_groups. intros [Hg Hgs]%Forall_cons.
  apply not_elem_of_app. split; [by apply hex_no_dot|]. unfold more_groups.
  induction Hgs as [|h gs Hh _ IH]; [apply not_elem_of_nil|]. rewrite fmap_cons. cbn [concat app].
  apply not_elem_of_cons. split; [done|]. apply not_elem_of_app. split; [by apply hex_no_dot | done].
Qed.

Lemma parse_show6_mapped n m : 0 <= m < 2 ^ 32 -> n = 0xffff * 2 ^ 32 + m ->
  ip_parse (lit "::ffff:" ++ show4 m) = Some (V6 n).
Proof.
  intros Hm ->. unfold ip_parse. change (lit "::ffff:") with [58; 58; 102; 102; 102; 102; 58].
  change ([58; 58; 102; 102; 102; 102; 58] ++ show4 m) with (58 :: 58 :: [102; 102; 102; 102] ++ 58 :: show4 m).
  assert (Hg : read_groups 7 true ([102; 102; 102; 102] ++ 58 :: show4 m) = ([0xffff; m / 65536; m mod 65536], true, [])).
  { pose proof (read_show4 m [] Hm I) as Hs. rewrite app_nil_r in Hs.
    assert (Hr : read_groups 6 false (58 :: show4 m) = ([m / 65536; m mod 65536], true, [])).
    { cbn [read_groups read_separator]. rewrite Z.eqb_refl, Hs. done. }
    remember 6%nat as six eqn:E6. cbn [read_groups read_separator].
    replace (read_ipv4_addr ([102; 102; 102; 102] ++ 58 :: show4 m)) with (@None (Z * str)) by done.
    replace (read_number 16 4 true 65535 ([102; 102; 102; 102] ++ 58 :: show4 m)) with (Some (0xffff, 58 :: show4 m)) by done.
    rewrite Hr. by destruct (0 <? six)%nat. }
  assert (H4 : read_ipv4_addr (58 :: 58 :: [102; 102; 102; 102] ++ 58 :: show4 m) = None) by done. rewrite H4.
  unfold read_ipv6_addr.
  assert (H8 : read_groups 8 true (58 :: 58 :: [102; 102; 102; 102] ++ 58 :: show4 m) =
    ([], false, 58 :: 58 :: [102; 102; 102; 102] ++ 58 :: show4 m)) by done.
  rewrite H8. cbn [length Nat.eqb]. rewrite !Z.eqb_refl. cbn [andb Nat.sub]. rewrite Hg.
  do 2 f_equal. unfold horner. simpl. div_lia.
Qed.

(** The text of an address parses to it. *)
Lemma ip_text_roundtrip a : ip_valid a -> ip_parse (ip_display a) = Some a.
Proof.
  destruct a as [n|n]; cbn [ip_valid ip_display]; intros Hn.
  - unfold ip_parse. pose proof (read_show4 n [] Hn I) as Hs. rewrite app_nil_r in Hs. by rewrite Hs.
  - pose proof (horner_segments n Hn) as Hh. pose proof (segments_bounds n) as Hb. unfold show6.
    case_bool_decide as Hm.
    + apply parse_show6_mapped; [apply Z.mod_pos_bound; lia|].
      revert Hh. unfold segments in *. cbn [fmap list_fmap take] in Hm |- *. injection Hm as -> -> -> -> -> ->.
      unfold horner. cbn [foldl]. intros <- . change (16 * 1) with 16. change (16 * 0) with 0. div_lia.
    + destruct (zero_run 0 (0, 0)%nat (0, 0)%nat (segments n)) as [start len] eqn:Ez.
      assert (Hz : zeros_at (segments n) (start, len)).
      { rewrite <- Ez. apply (zero_run_zeros (segments n) []); [by split; simpl; [lia|lia] | by left]. }
      pose proof (zeros_replaced _ _ _ Hz) as Hr. destruct Hz as [Hl _]. cbn [fst snd] in Hl. rewrite segments_length in Hl.
      unfold ip_parse. destruct (Nat.ltb_spec 1 len) as [Hlen|Hlen].
      * set (hd := take start (segments n)) in *. set (tl := drop (start + len) (segments n)) in *.
        assert (Hhd : length hd = start) by (unfold hd; rewrite length_take, segments_length; lia).
        assert (Htl : (length tl = 8 - (start + len))%nat) by (unfold tl; by rewrite length_drop, segments_length).
        assert (Hbh : Forall (fun g => 0 <= g < 65536) hd) by (by apply Forall_take).
        assert (Hbt : Forall (fun g => 0 <= g < 65536) tl) by (by apply Forall_drop).
        assert (Hd : 46 ∉ join_with 58 (hex_u16 <$> hd) ++ 58 :: 58 :: join_with 58 (hex_u16 <$> tl)).
        { apply not_elem_of_app. split; [by apply join_no_dot|]. apply not_elem_of_cons. split; [done|].
          apply not_elem_of_cons. split; [done | by apply join_no_dot]. }
        change ([58; 58] ++ join_with 58 (hex_u16 <$> tl)) with (58 :: 58 :: join_with 58 (hex_u16 <$> tl)).
        rewrite (read_ipv4_dot _ Hd). unfold read_ipv6_addr.
        rewrite read_all_groups by (done || lia || (right; eauto)).
        rewrite (proj2 (Nat.eqb_neq _ _)) by lia. rewrite !Z.eqb_refl. cbn [andb].
        pose proof (read_all_groups tl [] (7 - length hd)) as Ht. rewrite app_nil_r in Ht.
        rewrite Ht by (done || lia || (by left) || by apply join_no_dot).
        replace (8 - length hd - length tl)%nat with len by lia. by rewrite Hr, Hh.
      * pose proof (join_no_dot _ Hb) as Hd. rewrite (read_ipv4_dot _ Hd). unfold read_ipv6_addr.
        pose proof (read_all_groups (segments n) [] 8) as Ht. rewrite app_nil_r in Ht.
        rewrite Ht by (done || (by left) || (rewrite segments_length; lia)). by rewrite segments_length, Hh.
Qed.

(** ** Parsed addresses are in range *)

Lemma horner_bound base l : 0 < base -> Forall (fun d => 0 <= d < base) l -> 0 <= horner base l < base ^ Z.of_nat (length l).
Proof.
  intros Hb Hl. induction l as [|d l IH] using rev_ind; [unfold horner; cbn [foldl length]; rewrite Z.pow_0_r; lia|].
  apply Forall_app in Hl as [Hl Hd]. apply Forall_cons in Hd as [Hd _]. specialize (IH Hl).
  unfold horner in *. rewrite foldl_app, length_app. cbn [foldl length].
  replace (Z.of_nat (length l + 1)) with (Z.of_nat (length l) + 1) by lia. rewrite Z.pow_add_r, Z.pow_1_r by lia. nia.
Qed.

Lemma take_digits_bound radix s ds rest : take_digits radix s = (ds, rest) -> Forall (fun d => 0 <= d) ds.
Proof.
  revert ds rest. induction s as [|c s IH]; intros ds rest E; simpl in E; [by simplify_eq|].
  destruct (to_digit radix c) as [d|] eqn:Ed; [|by simplify_eq].
  destruct (take_digits radix s) as [ds' r]. simplify_eq. constructor; [|by eapply IH].
  unfold to_digit in Ed.
  cbv zeta in Ed. match type of Ed with (if ?x <? radix then _ else _) = _ => destruct (x <? radix); [|done] end.
  injection Ed as <-.
  destruct ((48 <=? c) && (c <=? 57)) eqn:?; [lia|]. destruct ((97 <=? c) && (c <=? 122)) eqn:?; [lia|].
  destruct ((65 <=? c) && (c <=? 90)) eqn:?; lia.
Qed.

Lemma read_number_bound radix m a max s v r : 0 <= radix -> read_number radix m a max s = Some (v, r) -> 0 <= v <= max.
Proof.
  unfold read_number. intros Hr E. destruct (take_digits radix s) as [ds rest] eqn:Et. apply take_digits_bound in Et.
  destruct (_ || _); [done|]. destruct (_ && _); [done|]. destruct (Z.leb_spec (horner radix ds) max); [|done]. simplify_eq.
  split; [|done]. clear - Et Hr. induction ds as [|d ds IH] using rev_ind; [done|].
  apply Forall_app in Et as [Hd Hl]. apply Forall_cons in Hl as [Hl _]. unfold horner in *. rewrite foldl_app.
  cbn [foldl]. specialize (IH Hd). nia.
Qed.

Lemma read_separator_Some {A} sep first (f : str -> option (A * str)) s v r :
  read_separator sep first f s = Some (v, r) -> exists s', f s' = Some (v, r).
Proof. unfold read_separator. destruct first; [eauto|]. destruct s as [|c s]; [done|]. destruct (c =? sep); [eauto | done]. Qed.

Lemma read_octets_bound n : forall first s l r, read_octets n first s = Some (l, r) ->
  length l = n /\ Forall (fun d => 0 <= d < 256) l.
Proof.
  induction n as [|n IH]; intros first s l r E; cbn [read_octets] in E; [by simplify_eq|].
  destruct (read_separator _ _ _ _) as [[v r1]|] eqn:Ev; [|done]. apply read_separator_Some in Ev as [s' Ev].
  apply read_number_bound in Ev; [|lia]. destruct (read_octets n false r1) as [[l1 r2]|] eqn:El; simplify_eq.
  destruct (IH _ _ _ _ El) as [Hl Hb]. split; [simpl; lia | constructor; [lia | done]].
Qed.

Lemma read_ipv4_bound s v r : read_ipv4_addr s = Some (v, r) -> 0 <= v < 2 ^ 32.
Proof.
  unfold read_ipv4_addr. destruct (read_octets 4 true s) as [[l r']|] eqn:El; [|done]. intros [= <- <-].
  destruct (read_octets_bound _ _ _ _ _ El) as [Hl Hb]. pose proof (horner_bound 256 l ltac:(lia) Hb) as Hh.
  rewrite Hl in Hh. exact Hh.
Qed.

Lemma read_groups_bound slots : forall first s gs v4 r, read_groups slots first s = (gs, v4, r) ->
  (length gs <= slots)%nat /\ Forall (fun g => 0 <= g < 65536) gs.
Proof.
  induction slots as [|slots IH]; intros first s gs v4 r E; cbn [read_groups] in E; [by simplify_eq|].
  destruct (if (0 <? slots)%nat then _ else None) as [[v r1]|] eqn:Ev.
  - simplify_eq. destruct (Nat.ltb_spec 0 slots); [|done]. apply read_separator_Some in Ev as [s' Ev%read_ipv4_bound].
    split; [simpl; lia|]. repeat constructor; div_lia.
  - clear Ev. destruct (read_separator _ _ _ _) as [[g r1]|] eqn:Eg; [|simplify_eq; by split; [simpl; lia|]].
    apply read_separator_Some in Eg as [s' Eg%read_number_bound]; [|lia].
    destruct (read_groups slots false r1) as [[gs' b] r2] eqn:El. simplify_eq.
    destruct (IH _ _ _ _ _ El). split; [simpl; lia | constructor; [lia | done]].
Qed.

Lemma ip_parse_valid s a : ip_parse s = Some a -> ip_valid a.
Proof.
  unfold ip_parse. destruct (read_ipv4_addr s) as [[v r]|] eqn:E4.
  - apply read_ipv4_bound in E4. destruct r; [|done]. by intros [= <-].
  - destruct (read_ipv6_addr s) as [[v r]|] eqn:E6; [|done]. destruct r; [|done]. intros [= <-]. cbn [ip_valid].
    unfold read_ipv6_addr in E6. destruct (read_groups 8 true s) as [[hd v4] r] eqn:Eh.
    destruct (read_groups_bound _ _ _ _ _ _ Eh) as [Hl Hb]. destruct (Nat.eqb_spec (length hd) 8) as [H8|H8].
    + injection E6 as <- _. pose proof (horner_bound 65536 hd ltac:(lia) Hb) as Hh. rewrite H8 in Hh. exact Hh.
    + destruct v4; [done|]. destruct r as [|c [|d r]]; try done. destruct (_ && _); [|done].
      destruct (read_groups _ true r) as [[tl b] r'] eqn:Et. injection E6 as <- _.
      destruct (read_groups_bound _ _ _ _ _ _ Et) as [Ht Hbt].
      assert (Hall : Forall (fun g => 0 <= g < 65536) (hd ++ replicate (8 - length hd - length tl) 0 ++ tl)).
      { apply Forall_app. split; [done|]. apply Forall_app. split; [|done]. apply Forall_replicate. lia. }
      pose proof (horner_bound 65536 _ ltac:(lia) Hall) as Hh. rewrite !length_app, length_replicate in Hh.
      replace (length hd + (8 - length hd - length tl + length tl))%nat with 8%nat in Hh by lia. exact Hh.
Qed.

(** ** The characters of an address *)

Definition ip_char (c : Z) : Prop := 46 <= c <= 58 \/ 97 <= c <= 102.

Lemma dec_chars n : 0 <= n < 256 -> Forall ip_char (dec_u8 n) /\ (1 <= length (dec_u8 n) <= 3)%nat.
Proof.
  intros Hn. unfold dec_u8, ip_char.
  destruct (n <? 10) eqn:?; [|destruct (n <? 100) eqn:?]; (split; [repeat constructor; div_lia | simpl; lia]).
Qed.

Lemma hex_chars n : 0 <= n < 65536 -> Forall ip_char (hex_u16 n) /\ (1 <= length (hex_u16 n) <= 4)%nat.
Proof.
  intros Hn. unfold hex_u16.
  assert (Hd : forall d, 0 <= d < 16 -> ip_char (hex_digit d)) by (intros d Hd; unfold ip_char, hex_digit; destruct (Z.ltb_spec d 10); lia).
  destruct (Z.ltb_spec n 16); [|destruct (Z.ltb_spec n 256); [|destruct (Z.ltb_spec n 4096)]];
    (split; [|simpl; lia]); apply Forall_fmap; repeat (apply Forall_cons; split; [apply Hd; div_lia|]); apply Forall_nil_2.
Qed.

Lemma join_chars sep (l : list str) m : ip_char sep -> Forall (fun s => Forall ip_char s /\ (1 <= length s <= m)%nat) l ->
  Forall ip_char (join_with sep l) /\ (length (join_with sep l) <= (m + 1) * length l)%nat /\ (l <> [] -> join_with sep l <> []).
Proof.
  intros Hsep Hl. induction Hl as [|s l [Hs Hm] Hl IH]; [repeat split; [constructor | simpl; lia | done]|].
  destruct l as [|s' l].
  - cbn [join_with]. split; [done|]. split; [simpl; lia|]. intros _ ->. simpl in Hm. lia.
  - change (join_with sep (s :: s' :: l)) with (s ++ sep :: join_with sep (s' :: l)).
    destruct IH as (IH1 & IH2 & _). split; [|split].
    + apply Forall_app. split; [done | by constructor].
    + rewrite length_app. simpl in *. lia.
    + intros _ E. by apply app_nil in E as [_ E].
Qed.

Lemma show4_chars n : Forall ip_char (show4 n) /\ (length (show4 n) <= 16)%nat /\ show4 n <> [].
Proof.
  unfold show4. destruct (join_chars 46 (dec_u8 <$> octets4 n) 3) as (H1 & H2 & H3).
  - left. lia.
  - apply Forall_fmap. unfold octets4. repeat (apply Forall_cons; split; [apply dec_chars, Z.mod_pos_bound; lia|]).
    apply Forall_nil_2.
  - split; [done|]. split; [simpl in *; lia | by apply H3].
Qed.

Lemma groups_chars gs : Forall (fun g => 0 <= g < 65536) gs ->
  Forall ip_char (join_with 58 (hex_u16 <$> gs)) /\ (length (join_with 58 (hex_u16 <$> gs)) <= 5 * length gs)%nat.
Proof.
  intros Hg. destruct (join_chars 58 (hex_u16 <$> gs) 4) as (H1 & H2 & _); [left; lia| |].
  - apply Forall_fmap. eapply Forall_impl; [exact Hg|]. apply hex_chars.
  - rewrite length_fmap in H2. done.
Qed.

Lemma show6_chars n : Forall ip_char (show6 n) /\ (length (show6 n) <= 253)%nat /\ show6 n <> [].
Proof.
  pose proof (segments_bounds n) as Hb. unfold show6. case_bool_decide.
  - destruct (show4_chars (n mod 2 ^ 32)) as (H1 & H2 & _). split; [|split; [rewrite length_app; simpl; lia | done]].
    apply Forall_app. split; [|done]. change (lit "::ffff:") with [58; 58; 102; 102; 102; 102; 58]. unfold ip_char.
    repeat (apply Forall_cons; split; [lia|]). apply Forall_nil_2.
  - destruct (zero_run _ _ _ _) as [start len]. destruct (1 <? len)%nat.
    + destruct (groups_chars (take start (segments n))) as [H1 H2]; [by apply Forall_take|].
      destruct (groups_chars (drop (start + len) (segments n))) as [H3 H4]; [by apply Forall_drop|].
      rewrite length_take, segments_length in H2. rewrite length_drop, segments_length in H4. split; [|split].
      * apply Forall_app. split; [done|]. apply Forall_app. split; [|done]. unfold ip_char. repeat constructor; lia.
      * rewrite !length_app. cbn [length]. lia.
      * intros E. apply app_nil in E as [_ E]. done.
    + destruct (groups_chars _ Hb) as [H1 H2]. rewrite segments_length in H2. split; [done|]. split; [lia|].
      unfold segments. rewrite fmap_cons, join_groups. intros E. apply app_nil in E as [E _].
      assert (Hlen := proj2 (hex_chars (n / 2 ^ (16 * 7) mod 2 ^ 16) ltac:(apply Z.mod_pos_bound; lia))).
      rewrite E in Hlen. simpl in Hlen. lia.
Qed.

Lemma ip_display_chars a : Forall ip_char (ip_display a) /\ (length (ip_display a) <= 253)%nat /\ ip_display a <> [].
Proof. destruct a; cbn [ip_display]; [|apply show6_chars]. destruct (show4_chars n) as (? & ? & ?). split; [done|]. split; [lia | done]. Qed.
