(* ===== verification/Target.v ===== *)
(** * Destinations

    [Target] of crates/protocol/src/lib.rs: a host, which is a domain or an
    address in its canonical text, and a port. *)

From S2P Require Import Prelude FfiAbi RustStr IpText IpTextFacts.
Local Open Scope Z_scope.

Record Target := mk_target { host : str; port : Z }.
#[global] Instance Target_eq_dec : EqDecision Target.
Proof. solve_decision. Defined.

(** [char::is_control]. *)
Definition is_control (c : Z) : bool := (c <? 32) || ((127 <=? c) && (c <=? 159)).

(** The characters [: [ ] / ? # @]. *)
Definition reserved : list Z := [58; 91; 93; 47; 63; 35; 64].

Definition Target_new (host : str) (port : Z) : outcome Target :=
  let! _ := ensure (negb (bool_decide (host = [])) && (str_len host <=? 253) && negb (port =? 0) &&
                    negb (existsb (fun c => is_control c || is_whitespace c) host)) "invalid target" in
  match ip_parse host with
  | Some a => Ok (mk_target (ip_display a) port)
  | None =>
      let! _ := ensure (negb (existsb (fun c => bool_decide (c ∈ reserved)) host)) "invalid target host" in
      Ok (mk_target host port)
  end.

Definition Target_ip (t : Target) : option IpAddr := ip_parse (host t).

(** [Display]. *)
Definition Target_display (t : Target) (port_text : str) : str :=
  if contains (host t) [58] then [91] ++ host t ++ [93; 58] ++ port_text else host t ++ [58] ++ port_text.

Definition made (o : outcome Target) : option (str * Z) := match o with Ok t => Some (host t, port t) | _ => None end.
Example targets_ex :
  made (Target_new (lit "a::0") 54) = Some (lit "a::", 54) /\ made (Target_new (lit "host") 0) = None /\
  made (Target_new (lit "user@host") 80) = None /\ made (Target_new (lit "example.test") 80) = Some (lit "example.test", 80).
Proof. vm_compute. done. Qed.

(** ** Targets are canonical *)

Lemma ip_char_plain c : ip_char c -> is_control c || is_whitespace c = false.
Proof. unfold ip_char, is_control, is_whitespace. lia. Qed.

Lemma ascii_len s : Forall (fun c => c < 128) s -> str_len s = Z.of_nat (length s).
Proof.
  induction 1 as [|c s Hc _ IH]; [done|]. cbn [str_len foldr]. fold (str_len s). rewrite IH. unfold utf8_width.
  rewrite (proj2 (Z.ltb_lt c 128)) by lia. simpl length. lia.
Qed.

(** A canonical text passes the checks on hosts. *)
Lemma Target_new_display a port : ip_valid a -> port <> 0 -> Target_new (ip_display a) port = Ok (mk_target (ip_display a) port).
Proof.
  intros Ha Hp. destruct (ip_display_chars a) as (Hc & Hl & Hn). unfold Target_new. rewrite ip_text_roundtrip by done.
  rewrite ascii_len by (eapply Forall_impl; [exact Hc|]; unfold ip_char; simpl; lia).
  rewrite bool_decide_eq_false_2 by done. rewrite (proj2 (Z.leb_le _ _)) by lia. rewrite (proj2 (Z.eqb_neq _ _)) by done.
  replace (existsb _ (ip_display a)) with false; [done|]. symmetry. apply not_true_iff_false. intros E.
  apply existsb_exists in E as (c & Hin & E). rewrite Forall_forall in Hc.
  rewrite ip_char_plain in E; [done|]. apply Hc. by apply list_elem_of_In.
Qed.

(** What [Target_new] makes: the checks passed, and the host is its canonical
    text. *)
Lemma Target_new_Ok h p t : Target_new h p = Ok t ->
  p <> 0 /\ str_len h <= 253 /\ port t = p /\
  (forall a, ip_parse h = Some a -> host t = ip_display a /\ ip_valid a) /\ (ip_parse h = None -> host t = h).
Proof.
  unfold Target_new. intros E. apply obind_Ok in E as (u & Eu & E). apply ensure_Ok in Eu.
  apply andb_true_iff in Eu as [Eu _]. apply andb_true_iff in Eu as [Eu Ep%negb_true_iff%Z.eqb_neq].
  apply andb_true_iff in Eu as [_ El%Z.leb_le]. split; [done|]. split; [done|].
  destruct (ip_parse h) as [a|] eqn:Ea.
  - injection E as <-. split; [done|]. split; [|done]. intros a' [= <-]. split; [done | by eapply ip_parse_valid].
  - apply obind_Ok in E as (u' & _ & E). injection E as <-. done.
Qed.

(** A target stays as it is when it is made again. *)
Lemma Target_new_idem h p t : Target_new h p = Ok t -> Target_new (host t) (port t) = Ok t.
Proof.
  intros E. destruct (Target_new_Ok _ _ _ E) as (Hp & _ & <- & Hip & Hdom). destruct (ip_parse h) as [a|] eqn:Ea.
  - destruct (Hip _ eq_refl) as [Eh Hv]. rewrite Eh, Target_new_display by done. by destruct t; simpl in *; subst.
  - by rewrite (Hdom eq_refl).
Qed.
