(* ===== verification/Vless.v ===== *)
(** * VLESS requests and addresses

    [request], [encode_address] and [decode_address] of
    crates/protocol/src/vless.rs.  Bytes are numbers below 256. *)

From S2P Require Import Prelude FfiAbi RustStr IpText IpTextFacts Target.
Local Open Scope Z_scope.

(** [u16::to_be_bytes] and [u16::from_be_bytes]. *)
Definition be16 (n : Z) : list Z := [n / 256 mod 256; n mod 256].
Definition of_be16 (a b : Z) : Z := a * 256 + b.

(** [Ipv6Addr::octets]. *)
Definition octets6 (n : Z) : list Z := concat ((fun g => [g / 256; g mod 256]) <$> segments n).

(** The bytes that [encode_address] appends. *)
Definition encode_address (t : Target) : outcome (list Z) :=
  let! _ := Target_new (host t) (port t) in
  Ok (be16 (port t) ++
      match Target_ip t with
      | Some (V4 n) => 1 :: octets4 n
      | Some (V6 n) => 3 :: octets6 n
      | None => [2; str_len (host t) mod 256] ++ utf8 (host t)
      end).

Definition decode_address (bytes : list Z) : outcome (Target * nat) :=
  let! _ := ensure (3 <=? length bytes)%nat "truncated VLESS address" in
  let port := of_be16 (nth 0 bytes 0) (nth 1 bytes 0) in
  let kind := nth 2 bytes 0 in
  let! '(host, stop) :=
    if kind =? 1 then
      let! _ := ensure (7 <=? length bytes)%nat "truncated IPv4 address" in
      Ok (ip_display (V4 (horner 256 (take 4 (drop 3 bytes)))), 7%nat)
    else if kind =? 3 then
      let! _ := ensure (19 <=? length bytes)%nat "truncated IPv6 address" in
      Ok (ip_display (V6 (horner 256 (take 16 (drop 3 bytes)))), 19%nat)
    else if kind =? 2 then
      let! _ := ensure (4 <=? length bytes)%nat "truncated domain length" in
      let stop := (4 + Z.to_nat (nth 3 bytes 0%Z))%nat in
      let! _ := ensure (stop <=? length bytes)%nat "truncated domain" in
      let! b := from_utf8 (take (stop - 4) (drop 4 bytes)) in
      Ok (chars b, stop)
    else Err (text "invalid VLESS address type") in
  let! t := Target_new host port in
  Ok (t, stop).

(** [request]; [id] are the 16 bytes of the UUID. *)
Definition request (id : list Z) (t : Target) (command : Z) (flow : str) : outcome (list Z) :=
  let! _ := ensure (bool_decide (command ∈ [1; 2; 3])) "invalid VLESS command" in
  let! addons :=
    if bool_decide (flow = []) then Ok [0]
    else
      let! _ := ensure (str_len flow <=? 127) "VLESS flow too long" in
      Ok ([(str_len flow + 2) mod 256; 0x0a; str_len flow mod 256] ++ utf8 flow) in
  let! address := if negb (command =? 3) then encode_address t else Ok [] in
  Ok ([0] ++ id ++ addons ++ [command] ++ address).

(** ** The address of a request is read back *)

Lemma horner_octets6 n : 0 <= n < 2 ^ 128 -> horner 256 (octets6 n) = n.
Proof.
  intros Hn. rewrite <- (horner_segments n Hn) at 2. pose proof (segments_bounds n) as Hb. unfold octets6.
  generalize (segments n) Hb. intros l Hl. unfold horner. generalize 0 as v. induction Hl as [|g l Hg _ IH]; intros v; [done|].
  rewrite fmap_cons. cbn [concat app foldl]. rewrite IH. f_equal. div_lia.
Qed.

Lemma octets6_length n : length (octets6 n) = 16%nat.
Proof. done. Qed.

Lemma of_be16_be16 n : 0 <= n < 65536 -> of_be16 (n / 256 mod 256) (n mod 256) = n.
Proof. intros. unfold of_be16. div_lia. Qed.

(** A string of the source: Unicode scalar values. *)
Definition target_valid (t : Target) : Prop := Forall scalar (host t) /\ 0 <= port t < 65536.

Lemma decode_encode t b rest : target_valid t -> encode_address t = Ok b ->
  exists t', Target_new (host t) (port t) = Ok t' /\ decode_address (b ++ rest) = Ok (t', length b).
Proof.
  intros [Hs Hp] E. apply obind_Ok in E as (t' & En & E). injection E as <-. exists t'. split; [done|].
  destruct (Target_new_Ok _ _ _ En) as (Hp0 & Hl & Ept & Hip & Hdom). unfold Target_ip in *.
  pose proof (Target_new_idem _ _ _ En) as Hidem. rewrite Ept in Hidem.
  destruct (ip_parse (host t)) as [[n|n]|] eqn:Ei.
  - destruct (Hip _ eq_refl) as [Eh Hv]. unfold decode_address. cbn [be16 app octets4 length nth drop take ensure Nat.leb].
    cbn [obind]. rewrite of_be16_be16 by done. cbn [Z.eqb Pos.eqb].
    assert (horner 256 (octets4 n) = n) as Hn by (cbn [ip_valid] in Hv; unfold octets4, horner; simpl; div_lia).
    rewrite take_0. unfold octets4 in Hn. cbn [obind]. rewrite Hn, <- Eh, Hidem. done.
  - destruct (Hip _ eq_refl) as [Eh Hv]. unfold decode_address.
    cbn [be16 app]. cbn [nth]. rewrite of_be16_be16 by done. cbn [Z.eqb Pos.eqb].
    change (3 <=? length _)%nat with true. cbn [ensure obind drop].
    match goal with |- context [(19 <=? ?k)%nat] => replace (19 <=? k)%nat with true
      by (symmetry; apply Nat.leb_le; cbn [length]; rewrite length_app, octets6_length; lia) end.
    cbn [ensure obind].
    rewrite drop_0, (take_app_length' (octets6 n)) by done. rewrite horner_octets6 by exact Hv. rewrite <- Eh, Hidem. done.
  - rewrite (Hdom eq_refl) in *. unfold decode_address. pose proof (utf8_length _ Hs) as Hu.
    assert (Hb : str_len (host t) mod 256 = str_len (host t)) by (apply Z.mod_small; lia). rewrite Hb.
    cbn [be16 app]. cbn [nth]. rewrite of_be16_be16 by done. cbn [Z.eqb Pos.eqb].
    change (3 <=? length _)%nat with true. cbn [ensure obind drop].
    change (4 <=? length _)%nat with true. cbn [ensure obind].
    replace (Z.to_nat (str_len (host t))) with (length (utf8 (host t))) by lia.
    rewrite (proj2 (Nat.leb_le _ _)) by (cbn [length]; rewrite length_app; lia). cbn [ensure obind].
    replace (4 + length (utf8 (host t)) - 4)%nat with (length (utf8 (host t))) by lia.
    rewrite drop_0, take_app_length, utf8_accepted by done. cbn [obind].
    rewrite chars_utf8 by (by apply scalar_range). rewrite En. done.
Qed.
