(* ===== verification/Xudp.v ===== *)
(** * XUDP

    crates/protocol/src/xudp.rs: frames, and the multiplexer that carries the
    packets of many UDP sessions over one stream.  A session object is named by
    a key of its own, because a route of the multiplexer knows only the 16-bit
    identifier that goes over the wire. *)

From S2P Require Import Prelude FfiAbi RustStr IpText IpTextFacts Target Vless.
Local Open Scope Z_scope.

Definition SESSION_ID : Z := 0.
Definition NEW : Z := 1.
Definition KEEP : Z := 2.
Definition END : Z := 3.
Definition KEEPALIVE : Z := 4.
Definition DATA : Z := 1.
Definition ERROR : Z := 2.
Definition UDP : Z := 2.
Definition MAX_METADATA : Z := 512.
Definition MAX_PAYLOAD : Z := 65507.

(** ** Frames *)

Definition packet (session_id : Z) (target : Target) (payload : list Z) (first : bool) (global_id : option (list Z)) :
    outcome (list Z) :=
  let! _ := ensure (len payload <=? MAX_PAYLOAD) "XUDP payload exceeds limit" in
  let! address := encode_address target in
  let frame := be16 session_id ++ [if first then NEW else KEEP; DATA; UDP] ++ address ++
               (if first then default [] global_id else []) in
  Ok (be16 (len frame) ++ frame ++ be16 (len payload) ++ payload).

Record MuxMetadata := mk_metadata { md_id : Z; md_status : Z; md_data : bool; md_target : option Target }.

Definition multiplexed_metadata (bytes : list Z) : outcome MuxMetadata :=
  let! _ := ensure ((4 <=? len bytes) && (len bytes <=? MAX_METADATA)) "invalid XUDP metadata length" in
  let id := of_be16 (nth 0 bytes 0) (nth 1 bytes 0) in
  let status := nth 2 bytes 0 in
  let flags := nth 3 bytes 0 in
  let! _ := ensure (Z.land flags (255 - Z.lor DATA ERROR) =? 0) "invalid XUDP options" in
  let! _ := ensure (Z.land flags ERROR =? 0) "XUDP peer rejected session" in
  let! _ := ensure (bool_decide (status ∈ [KEEP; END; KEEPALIVE])) "unexpected XUDP frame status" in
  let! target :=
    if len bytes =? 4 then Ok None
    else
      let! _ := ensure ((status =? KEEP) && (nth 4 bytes 0 =? UDP)) "invalid XUDP network" in
      let! '(target, consumed) := decode_address (drop 5 bytes) in
      let! _ := ensure (consumed + 5 =? length bytes)%nat "trailing XUDP metadata" in
      Ok (Some target) in
  let! _ := ensure (negb (status =? KEEPALIVE) || (flags =? 0)) "XUDP keepalive cannot carry data" in
  Ok (mk_metadata id status (negb (Z.land flags DATA =? 0)) target).

(** [metadata]: the parser of a stream with one session. *)
Definition metadata (bytes : list Z) (fallback : Target) : outcome (Target * bool) :=
  let! _ := ensure ((4 <=? len bytes) && (len bytes <=? MAX_METADATA)) "invalid XUDP metadata length" in
  let id := of_be16 (nth 0 bytes 0) (nth 1 bytes 0) in
  let status := nth 2 bytes 0 in
  let flags := nth 3 bytes 0 in
  let! _ := ensure (Z.land flags (255 - Z.lor DATA ERROR) =? 0) "invalid XUDP options" in
  let! _ := ensure (Z.land flags ERROR =? 0) "XUDP peer rejected session" in
  let! _ := ensure ((status =? KEEPALIVE) || (id =? SESSION_ID)) "unexpected XUDP session ID" in
  let! _ := ensure (negb (status =? END)) "XUDP session ended" in
  let! _ := ensure ((status =? KEEP) || (status =? KEEPALIVE)) "unexpected XUDP frame status" in
  let! target :=
    if len bytes =? 4 then Ok fallback
    else
      let! _ := ensure ((status =? KEEP) && (nth 4 bytes 0 =? UDP)) "invalid XUDP network" in
      let! '(target, consumed) := decode_address (drop 5 bytes) in
      let! _ := ensure (consumed + 5 =? length bytes)%nat "trailing XUDP metadata" in
      Ok target in
  let! _ := ensure (negb (status =? KEEPALIVE) || (flags =? 0)) "XUDP keepalive cannot carry data" in
  Ok (target, negb (Z.land flags DATA =? 0)).

(** One round of [read_multiplexed] on the bytes received so far. *)
Inductive frame_read :=
  | NeedMore
  | BadFrame (e : list Z)
  | GotFrame (md : MuxMetadata) (payload : option (list Z)) (rest : list Z).

Definition read_payload (md : MuxMetadata) (s : list Z) : frame_read :=
  match s with
  | a :: b :: r =>
      let n := of_be16 a b in
      if MAX_PAYLOAD <? n then BadFrame (text "XUDP payload exceeds limit")
      else if len r <? n then NeedMore
      else GotFrame md (Some (take (Z.to_nat n) r)) (drop (Z.to_nat n) r)
  | _ => NeedMore
  end.

Definition read_frame (s : list Z) : frame_read :=
  match s with
  | a :: b :: r =>
      let n := of_be16 a b in
      if negb ((4 <=? n) && (n <=? MAX_METADATA)) then BadFrame (text "invalid XUDP metadata length")
      else if len r <? n then NeedMore
      else match multiplexed_metadata (take (Z.to_nat n) r) with
           | Ok md => let r := drop (Z.to_nat n) r in
                      if md_data md then read_payload md r else GotFrame md None r
           | Err e => BadFrame e
           | Panicked => BadFrame []
           end
  | _ => NeedMore
  end.

(** ** The multiplexer *)

(** [RoutedPacket]. *)
Definition routed : Type := outcome (Target * list Z).

Record MuxSession := mk_session {
  ss_id : Z; ss_target : Target; ss_global : option (list Z); ss_first : bool; ss_usable : bool; inbox : list routed
}.

Record Mux := mk_mux {
  alive : bool; next_id : Z; routes : gmap Z nat; sessions : gmap nat MuxSession; next_key : nat
}.

(** [Multiplexer::new]. *)
Definition Mux_new : Mux := mk_mux true 0 ∅ ∅ 0.

(** [find_map] over as many identifiers as are left: [fetch_add] wraps around. *)
Fixpoint find_id (n : nat) (next : Z) (routes : gmap Z nat) : option Z * Z :=
  match n with
  | O => (None, next)
  | S n =>
      let next' := (next + 1) mod 65536 in
      if bool_decide (routes !! next = None) then (Some next, next') else find_id n next' routes
  end.

Definition session (m : Mux) (target : Target) (global_id : option (list Z)) : outcome nat * Mux :=
  if negb (alive m) then (Err (text "XUDP multiplexer is closed"), m)
  else match find_id (Z.to_nat 65536) (next_id m) (routes m) with
       | (None, next) => (Err (text "XUDP session ID space exhausted"),
                          mk_mux (alive m) next (routes m) (sessions m) (next_key m))
       | (Some id, next) =>
           (Ok (next_key m),
            mk_mux (alive m) next (<[id := next_key m]> (routes m))
              (<[next_key m := mk_session id target global_id true true []]> (sessions m)) (S (next_key m)))
       end.

Definition set_inbox (s : MuxSession) (q : list routed) : MuxSession :=
  mk_session (ss_id s) (ss_target s) (ss_global s) (ss_first s) (ss_usable s) q.
Definition set_send (s : MuxSession) (first usable : bool) : MuxSession :=
  mk_session (ss_id s) (ss_target s) (ss_global s) first usable (inbox s).
Definition set_session (m : Mux) (k : nat) (s : MuxSession) : Mux :=
  mk_mux (alive m) (next_id m) (routes m) (<[k := s]> (sessions m)) (next_key m).
Definition set_routes (m : Mux) (r : gmap Z nat) : Mux :=
  mk_mux (alive m) (next_id m) r (sessions m) (next_key m).

(** [mpsc::channel(64)]; [try_send] on a full channel, or after the receiver is
    gone, loses the packet. *)
Definition capacity : nat := 64.
Definition push (p : routed) (s : MuxSession) : MuxSession :=
  if (length (inbox s) <? capacity)%nat then set_inbox s (inbox s ++ [p]) else s.
Definition try_send (ss : gmap nat MuxSession) (k : nat) (p : routed) : gmap nat MuxSession :=
  alter (push p) k ss.

Definition fail_multiplexer (m : Mux) (message : list Z) : Mux :=
  if negb (alive m) then m
  else mk_mux false (next_id m) ∅
         (map_fold (fun _ k ss => try_send ss k (Err message)) (sessions m) (routes m)) (next_key m).

(** What [read_multiplexed] does with a frame. *)
Definition on_frame (m : Mux) (md : MuxMetadata) (payload : option (list Z)) : Mux :=
  if md_status md =? KEEPALIVE then m
  else match routes m !! md_id md with
       | None => m
       | Some k =>
           if md_status md =? END then
             let m := set_routes m (delete (md_id md) (routes m)) in
             mk_mux (alive m) (next_id m) (routes m) (try_send (sessions m) k (Err (text "XUDP session ended"))) (next_key m)
           else match payload, sessions m !! k with
                | Some p, Some s =>
                    mk_mux (alive m) (next_id m) (routes m)
                      (try_send (sessions m) k (Ok (default (ss_target s) (md_target md), p))) (next_key m)
                | _, _ => m
                end
       end.

(** [read_multiplexed] on the bytes received so far: [None] when the reader has
    stopped, else the bytes of a frame that is not complete. *)
Fixpoint read_frames (fuel : nat) (m : Mux) (s : list Z) : Mux * option (list Z) :=
  match fuel with
  | O => (m, Some s)
  | S fuel =>
      match read_frame s with
      | NeedMore => (m, Some s)
      | BadFrame e => (fail_multiplexer m e, None)
      | GotFrame md payload rest => read_frames fuel (on_frame m md payload) rest
      end
  end.
Definition read_multiplexed (m : Mux) (s : list Z) : Mux * option (list Z) := read_frames (length s) m s.

(** [MuxSession::send]: the bytes written; [io] is the outcome of writing, of
    which [n] bytes come through when it fails or is interrupted. *)
Definition send (m : Mux) (k : nat) (target : Target) (payload : list Z) (io : outcome unit) (n : nat) :
    outcome unit * list Z * Mux :=
  match sessions m !! k with
  | None => (Panicked, [], m)
  | Some s =>
      match (let! _ := ensure (bool_decide (target = ss_target s)) "XUDP session target changed" in
             let! _ := ensure (alive m) "XUDP multiplexer is closed" in
             let! _ := ensure (ss_usable s) "XUDP writer interrupted or closed" in
             packet (ss_id s) target payload (ss_first s) (ss_global s)) with
      | Ok frame =>
          match io with
          | Ok _ => (Ok tt, frame, set_session m k (set_send s false true))
          | _ => (io, take n frame, fail_multiplexer (set_session m k (set_send s (ss_first s) false)) (text "XUDP write interrupted"))
          end
      | Err e => (Err e, [], m)
      | Panicked => (Panicked, [], m)
      end
  end.

(** [MuxSession::recv]: [None] while it has to wait. *)
Definition recv (m : Mux) (k : nat) : option (routed * Mux) :=
  match sessions m !! k with
  | None => None
  | Some s =>
      match inbox s with
      | p :: q => Some (p, set_session m k (set_inbox s q))
      | [] => if bool_decide (routes m !! ss_id s = Some k) then None else Some (Err (text "XUDP multiplexer closed"), m)
      end
  end.

(** [Drop for MuxSession], with the close frame that the task it spawns writes;
    when that fails, [fail_multiplexer] follows. *)
Definition drop_session (m : Mux) (k : nat) : list Z * Mux :=
  match sessions m !! k with
  | None => ([], m)
  | Some s =>
      let frame := match routes m !! ss_id s with
                   | Some _ => if alive m then [0; 4; ss_id s / 256; ss_id s mod 256; END; 0] else []
                   | None => []
                   end in
      (frame, mk_mux (alive m) (next_id m) (delete (ss_id s) (routes m)) (delete k (sessions m)) (next_key m))
  end.

(** ** Tests of xudp.rs *)

Example golden_new_and_keep_packets :
  packet SESSION_ID (mk_target (lit "1.2.3.4") 53) [0xab; 0xcd] true None =
    Ok [0; 12; 0; 0; 1; 1; 2; 0; 53; 1; 1; 2; 3; 4; 0; 2; 0xab; 0xcd] /\
  (match packet SESSION_ID (mk_target (lit "1.2.3.4") 53) [] false None with Ok f => drop 14 f | _ => [] end) = [0; 0].
Proof. vm_compute. done. Qed.
