(* ===== verification/XudpFacts.v ===== *)
(** * XUDP: frames are read back, sessions are kept apart *)

From S2P Require Import Prelude FfiAbi RustStr IpText IpTextFacts Target Vless Xudp.
Local Open Scope Z_scope.

(** ** Frames *)

Lemma encode_length t b : target_valid t -> encode_address t = Ok b -> (3 <= length b <= 257)%nat.
Proof.
  intros [Hs _] E. apply obind_Ok in E as (t' & En & E). injection E as <-. destruct (Target_new_Ok _ _ _ En) as (_ & Hl & _).
  pose proof (utf8_length _ Hs). destruct (Target_ip t) as [[n|n]|]; cbn [be16 length app];
    rewrite ?octets6_length; cbn [octets4 length]; lia.
Qed.

(** An address survives the wire: what [encode_address] writes for a target,
    [decode_address] reads as the canonical form of the target, to the last byte
    and whatever follows; and a canonical target is read back as it is. *)
Theorem vless_address_roundtrip t b rest : target_valid t -> encode_address t = Ok b ->
  exists t', decode_address (b ++ rest) = Ok (t', length b) /\ Target_new (host t) (port t) = Ok t' /\
    (forall h p, Target_new h p = Ok t -> t' = t).
Proof.
  intros Ht E. destruct (decode_encode t b rest Ht E) as (t' & En & Ed). exists t'. split; [done|]. split; [done|].
  intros h p Hc. apply Target_new_idem in Hc. rewrite Hc in En. by injection En.
Qed.

Lemma vless_address_roundtrip_witness :
  exists t', decode_address ([0; 53; 1; 1; 2; 3; 4] ++ [9]) = Ok (t', 7%nat) /\
    Target_new (lit "1.2.3.4") 53 = Ok t' /\ (forall h p, Target_new h p = Ok (mk_target (lit "1.2.3.4") 53) -> t' = mk_target (lit "1.2.3.4") 53).
Proof.
  refine (vless_address_roundtrip (mk_target (lit "1.2.3.4") 53) [0; 53; 1; 1; 2; 3; 4] [9] _ _).
  - split; [|simpl; lia]. repeat (constructor; [unfold scalar; simpl; lia|]). constructor.
  - vm_compute. reflexivity.
Defined.

Lemma be16_len n : length (be16 n) = 2%nat.
Proof. done. Qed.

(** A data frame of a session, as the multiplexer of the peer reads it. *)
Lemma metadata_of_packet id address t' : 0 <= id < 65536 -> (3 <= length address <= 257)%nat ->
  decode_address address = Ok (t', length address) ->
  multiplexed_metadata (be16 id ++ [KEEP; DATA; UDP] ++ address) = Ok (mk_metadata id KEEP true (Some t')).
Proof.
  intros Hid Hl Hd. unfold multiplexed_metadata.
  assert (Hlen : length (be16 id ++ [KEEP; DATA; UDP] ++ address) = (5 + length address)%nat) by done.
  rewrite Hlen. clear Hlen. unfold MAX_METADATA.
  assert ((4 <=? Z.of_nat (5 + length address)) && (Z.of_nat (5 + length address) <=? 512) = true) as ->
    by (apply andb_true_iff; split; apply Z.leb_le; lia).
  cbn [be16 app nth drop]. rewrite of_be16_be16 by done.
  change (Z.land DATA (255 - Z.lor DATA ERROR) =? 0) with true. change (Z.land DATA ERROR =? 0) with true.
  change (bool_decide (KEEP ∈ [KEEP; END; KEEPALIVE])) with true.
  change ((KEEP =? KEEP) && (UDP =? UDP)) with true. cbn [ensure obind].
  rewrite (proj2 (Z.eqb_neq (Z.of_nat (5 + length address)) 4)) by lia. rewrite drop_0, Hd. cbn [obind].
  replace (length address + 5 =? 5 + length address)%nat with true by (symmetry; apply Nat.eqb_eq; lia). done.
Qed.

(** A frame survives the wire: the frame [packet] makes for a later packet of
    a session is read by the multiplexer at the other end as data for the same
    session, with the canonical target and the same payload, and reading goes on
    behind it. *)
Lemma read_packet id t payload gid f rest : 0 <= id < 65536 -> target_valid t ->
  packet id t payload false gid = Ok f ->
  exists t', Target_new (host t) (port t) = Ok t' /\
    read_frame (f ++ rest) = GotFrame (mk_metadata id KEEP true (Some t')) (Some payload) rest.
Proof.
  intros Hid Ht E. apply obind_Ok in E as (u & Hp & E). apply ensure_Ok, Z.leb_le in Hp.
  apply obind_Ok in E as (address & Ea & E). cbv zeta in E. change (if false then NEW else KEEP) with KEEP in E.
  change (if false then default [] gid else []) with (@nil Z) in E. rewrite app_nil_r in E. apply Ok_inj in E as <-.
  destruct (decode_encode t address [] Ht Ea) as (t' & En & Hd). rewrite app_nil_r in Hd.
  pose proof (encode_length _ _ Ht Ea) as Hl. exists t'. split; [done|].
  pose proof (metadata_of_packet id address t' Hid Hl Hd) as Hm.
  set (frame := be16 id ++ [KEEP; DATA; UDP] ++ address) in *.
  assert (Hlen : len frame = 5 + Z.of_nat (length address)).
  { unfold frame. rewrite !length_app. cbn [be16 length]. lia. }
  rewrite <- !app_assoc. cbn [be16 app]. unfold read_frame. rewrite of_be16_be16 by lia.
  unfold MAX_METADATA.
  assert ((4 <=? len frame) && (len frame <=? 512) = true) as ->
    by (apply andb_true_iff; split; apply Z.leb_le; lia). cbn [negb].
  assert (Hn : Z.to_nat (len frame) = length frame) by lia.
  rewrite (proj2 (Z.ltb_ge _ _)) by (rewrite length_app; lia).
  rewrite Hn, take_app_length, drop_app_length, Hm. cbn [md_data]. unfold read_payload, MAX_PAYLOAD in *.
  rewrite of_be16_be16 by lia.
  rewrite (proj2 (Z.ltb_ge _ _)) by lia.
  rewrite (proj2 (Z.ltb_ge _ _)) by (rewrite length_app; lia).
  replace (Z.to_nat (len payload)) with (length payload) by lia.
  by rewrite take_app_length, drop_app_length.
Qed.

(** The two parsers of metadata agree: a stream with one session accepts what the
    multiplexer does, for its own session and without the end. *)
Lemma metadata_agree bytes d t data : metadata bytes d = Ok (t, data) <->
  exists md, multiplexed_metadata bytes = Ok md /\ md_status md <> END /\
    (md_status md = KEEPALIVE \/ md_id md = SESSION_ID) /\ t = default d (md_target md) /\ data = md_data md.
Proof.
  split.
  - intros E. unfold metadata in E. apply obind_Ok in E as (u1 & H1 & E). apply obind_Ok in E as (u2 & H2 & E).
    apply obind_Ok in E as (u3 & H3 & E). apply obind_Ok in E as (u4 & H4%ensure_Ok & E).
    apply obind_Ok in E as (u5 & H5%ensure_Ok & E). apply obind_Ok in E as (u6 & H6%ensure_Ok & E).
    apply obind_Ok in E as (t1 & Et & E). apply obind_Ok in E as (u7 & H7 & E). injection E as <- <-.
    unfold multiplexed_metadata. rewrite H1. cbn [obind]. rewrite H2. cbn [obind]. rewrite H3. cbn [obind].
    assert (Hst : bool_decide (nth 2 bytes 0 ∈ [KEEP; END; KEEPALIVE]) = true).
    { apply bool_decide_eq_true. apply orb_true_iff in H6 as [->%Z.eqb_eq| ->%Z.eqb_eq]; set_solver. }
    rewrite Hst. cbn [ensure obind].
    apply negb_true_iff, Z.eqb_neq in H5. apply orb_true_iff in H4. rewrite !Z.eqb_eq in H4.
    destruct (len bytes =? 4).
    + injection Et as <-. cbn [obind]. rewrite H7. cbn [obind]. eexists. split; [reflexivity|]. done.
    + apply obind_Ok in Et as (u8 & H8 & Et). apply obind_Ok in Et as ([t2 n] & Ed & Et).
      apply obind_Ok in Et as (u9 & H9 & Et). injection Et as <-.
      rewrite H8. cbn [obind]. rewrite Ed. cbn [obind]. rewrite H9. cbn [obind]. rewrite H7. cbn [obind].
      eexists. split; [reflexivity|]. done.
  - intros (md & E & He & Hid & -> & ->). unfold multiplexed_metadata in E.
    apply obind_Ok in E as (u1 & H1 & E). apply obind_Ok in E as (u2 & H2 & E). apply obind_Ok in E as (u3 & H3 & E).
    apply obind_Ok in E as (u4 & H4%ensure_Ok%bool_decide_eq_true & E). apply obind_Ok in E as (t1 & Et & E).
    apply obind_Ok in E as (u7 & H7 & E). injection E as <-. cbn [md_status md_id md_target md_data] in *.
    unfold metadata. rewrite H1. cbn [obind]. rewrite H2. cbn [obind]. rewrite H3. cbn [obind].
    assert (Hst : (nth 2 bytes 0 =? KEEPALIVE) || (of_be16 (nth 0 bytes 0) (nth 1 bytes 0) =? SESSION_ID) = true).
    { apply orb_true_iff. by rewrite !Z.eqb_eq. }
    rewrite Hst. rewrite (proj2 (Z.eqb_neq _ END)) by done. cbn [negb ensure obind].
    assert (Hk : (nth 2 bytes 0 =? KEEP) || (nth 2 bytes 0 =? KEEPALIVE) = true).
    { apply orb_true_iff. rewrite !Z.eqb_eq. clear - H4 He. set_solver. }
    rewrite Hk. cbn [ensure obind]. destruct (len bytes =? 4).
    + injection Et as <-. cbn [obind]. rewrite H7. done.
    + apply obind_Ok in Et as (u8 & H8 & Et). apply obind_Ok in Et as ([t2 n] & Ed & Et).
      apply obind_Ok in Et as (u9 & H9 & Et). injection Et as <-.
      rewrite H8. cbn [obind]. rewrite Ed. cbn [obind]. rewrite H9. cbn [obind]. rewrite H7. done.
Qed.

(** ** Identifiers *)

(** The search looks at every identifier once. *)
Lemma find_id_spec n : forall next routes, 0 <= next < 65536 ->
  match find_id n next routes with
  | (Some id, next') => routes !! id = None /\ 0 <= id < 65536 /\ 0 <= next' < 65536
  | (None, next') => (forall i, 0 <= i < Z.of_nat n -> routes !! ((next + i) mod 65536) <> None) /\ 0 <= next' < 65536
  end.
Proof.
  induction n as [|n IH]; intros next routes Hn; cbn [find_id]; [split; [lia | done]|].
  pose proof (Z.mod_pos_bound (next + 1) 65536 ltac:(lia)). case_bool_decide as Hr; [done|].
  specialize (IH ((next + 1) mod 65536) routes ltac:(done)). destruct (find_id _ _ _) as [[id|] next']; [done|].
  destruct IH as [IH Hb]. split; [|done]. intros i Hi. destruct (decide (i = 0)) as [->|].
  - by rewrite Z.add_0_r, Z.mod_small.
  - specialize (IH (i - 1) ltac:(lia)). rewrite Zplus_mod_idemp_l in IH.
    by replace (next + 1 + (i - 1)) with (next + i) in IH by lia.
Qed.

(** A session is given an identifier that no routed session has, unless all
    65536 are in use: then, and only then, a live multiplexer refuses. *)
Theorem xudp_session_ids m target gid : 0 <= next_id m < 65536 -> alive m = true ->
  match session m target gid with
  | (Ok k, m') => exists s, k = next_key m /\ sessions m' !! k = Some s /\ routes m' !! ss_id s = Some k /\
      routes m !! ss_id s = None /\ 0 <= ss_id s < 65536 /\ inbox s = []
  | (_, m') => (forall id, 0 <= id < 65536 -> is_Some (routes m !! id)) /\ routes m' = routes m
  end.
Proof.
  intros Hn Ha. unfold session. rewrite Ha. cbn [negb].
  pose proof (find_id_spec (Z.to_nat 65536) (next_id m) (routes m) Hn) as Hf.
  destruct (find_id _ _ _) as [[id|] next'].
  - destruct Hf as (Hr & Hid & _). eexists. cbn [sessions routes]. rewrite lookup_insert_eq. split; [done|].
    split; [reflexivity|]. cbn [ss_id inbox]. by rewrite lookup_insert_eq.
  - destruct Hf as [Hf _]. split; [|done]. intros id Hid. apply not_eq_None_Some.
    specialize (Hf ((id - next_id m) mod 65536)). rewrite Zplus_mod_idemp_r in Hf.
    replace (next_id m + (id - next_id m)) with id in Hf by lia. rewrite (Z.mod_small id) in Hf by done.
    apply Hf. rewrite Z2Nat.id by lia. apply Z.mod_pos_bound. lia.
Qed.

Lemma xudp_session_ids_witness : match session Mux_new (mk_target (lit "a") 1) None with
  | (Ok k, m') => exists s, k = 0%nat /\ sessions m' !! k = Some s /\ routes m' !! ss_id s = Some k /\
      routes Mux_new !! ss_id s = None /\ 0 <= ss_id s < 65536 /\ inbox s = []
  | (_, m') => (forall id, 0 <= id < 65536 -> is_Some (routes Mux_new !! id)) /\ routes m' = routes Mux_new
  end.
Proof. apply (xudp_session_ids Mux_new (mk_target (lit "a") 1) None); [simpl; lia | reflexivity]. Defined.
