(* ===== verification/XudpMux.v ===== *)
(** * The XUDP multiplexer: sessions are kept apart

    The states a multiplexer can reach, their invariant, what a frame of the peer
    does to the sessions, and the reuse of an identifier while a session that
    had it is still held. *)

From S2P Require Import Prelude FfiAbi RustStr IpText IpTextFacts Target Vless Xudp XudpFacts.
Local Open Scope Z_scope.

(** One operation: of a client of the multiplexer, of its reader, or the end of
    the stream. *)
Inductive mux_step (m : Mux) : Mux -> Prop :=
  | ms_session target gid : mux_step m (session m target gid).2
  | ms_send k target payload io n : mux_step m (send m k target payload io n).2
  | ms_recv k p m' : recv m k = Some (p, m') -> mux_step m m'
  | ms_frame md payload : mux_step m (on_frame m md payload)
  | ms_fail message : mux_step m (fail_multiplexer m message)
  | ms_drop k : mux_step m (drop_session m k).2.

Definition mux_reaches (m : Mux) : Prop := rtc mux_step Mux_new m.

(** Routes lead to the sessions that have their identifier. *)
Record mux_ok (m : Mux) : Prop := {
  mo_next : 0 <= next_id m < 65536;
  mo_route : forall id k, routes m !! id = Some k -> exists s, sessions m !! k = Some s /\ ss_id s = id;
  mo_session : forall k s, sessions m !! k = Some s ->
    (k < next_key m)%nat /\ 0 <= ss_id s < 65536 /\ (length (inbox s) <= capacity)%nat
}.

(** A change of the sessions that keeps keys, identifiers and the bound of the
    queues. *)
Definition same_sessions (ss ss' : gmap nat MuxSession) : Prop := forall k,
  match ss !! k, ss' !! k with
  | Some s, Some s' => ss_id s' = ss_id s /\ ((length (inbox s) <= capacity)%nat -> (length (inbox s') <= capacity)%nat)
  | None, None => True
  | _, _ => False
  end.

#[local] Instance same_sessions_refl : Reflexive same_sessions.
Proof. intros ss k. by destruct (ss !! k). Qed.
#[local] Instance same_sessions_trans : Transitive same_sessions.
Proof.
  intros s1 s2 s3 H1 H2 k. specialize (H1 k). specialize (H2 k).
  destruct (s1 !! k), (s2 !! k), (s3 !! k); try done. naive_solver congruence.
Qed.

Lemma push_length p s : (length (inbox s) <= capacity)%nat -> (length (inbox (push p s)) <= capacity)%nat.
Proof. unfold push. destruct (Nat.ltb_spec (length (inbox s)) capacity); [|done]. simpl. rewrite length_app. simpl. lia. Qed.

Lemma push_id p s : ss_id (push p s) = ss_id s.
Proof. unfold push. by destruct (_ <? _)%nat. Qed.

Lemma same_try_send ss k p : same_sessions ss (try_send ss k p).
Proof.
  intros k'. unfold try_send. destruct (decide (k' = k)) as [->|Hk].
  - rewrite lookup_alter_eq. destruct (ss !! k); [|done]. simpl. split; [apply push_id | apply push_length].
  - rewrite lookup_alter_ne by done. by destruct (ss !! k').
Qed.

Lemma same_insert (ss : gmap nat MuxSession) k s s' : ss !! k = Some s -> ss_id s' = ss_id s ->
  (length (inbox s') <= length (inbox s))%nat -> same_sessions ss (<[k := s']> ss).
Proof.
  intros Hs Hid Hl k'. destruct (decide (k' = k)) as [->|Hk].
  - rewrite Hs, lookup_insert_eq. split; [done | lia].
  - rewrite lookup_insert_ne by done. by destruct (ss !! k').
Qed.

Lemma same_fail_sessions (ss : gmap nat MuxSession) (r : gmap Z nat) message :
  same_sessions ss (map_fold (fun _ k ss => try_send ss k (Err message)) ss r).
Proof.
  apply (map_fold_weak_ind (fun res _ => same_sessions ss res)); [done|].
  intros i k r' res _ IH. etrans; [exact IH | apply same_try_send].
Qed.

(** The invariant is kept when sessions change in this way and routes only go. *)
Lemma mux_ok_same m m' : mux_ok m -> same_sessions (sessions m) (sessions m') -> routes m' ⊆ routes m ->
  next_id m' = next_id m -> next_key m' = next_key m -> mux_ok m'.
Proof.
  intros [Hn Hr Hs] Hss Hsub En Ek. split.
  - by rewrite En.
  - intros id k Hk. eapply lookup_weaken in Hk; [|exact Hsub]. destruct (Hr _ _ Hk) as (s & Hk' & Hid).
    specialize (Hss k). rewrite Hk' in Hss. destruct (sessions m' !! k) as [s'|]; [|done]. exists s'. naive_solver congruence.
  - intros k s' Hk. specialize (Hss k). rewrite Hk in Hss. destruct (sessions m !! k) as [s|] eqn:E; [|done].
    destruct (Hs _ _ E) as (? & ? & ?), Hss as [Hid Hl]. rewrite Ek, Hid. auto.
Qed.

Lemma fail_ok m message : mux_ok m -> mux_ok (fail_multiplexer m message).
Proof.
  intros Hm. unfold fail_multiplexer. destruct (negb (alive m)); [done|].
  apply (mux_ok_same m); try done; [apply same_fail_sessions | apply map_empty_subseteq].
Qed.

Lemma session_ok m target gid : mux_ok m -> mux_ok (session m target gid).2.
Proof.
  intros [Hn Hr Hs]. unfold session. destruct (negb (alive m)); [done|].
  pose proof (find_id_spec (Z.to_nat 65536) (next_id m) (routes m) Hn) as Hf.
  destruct (find_id _ _ _) as [[id|] next'].
  - destruct Hf as (Hf & Hid & Hn'). split; cbn [next_id routes sessions next_key snd].
    + done.
    + intros id' k [[<- <-]|[Hne Hk]]%lookup_insert_Some; [rewrite lookup_insert_eq; eauto|].
      destruct (Hr _ _ Hk) as (s & Hk' & Hs'). exists s. split; [|done]. rewrite lookup_insert_ne; [done|].
      destruct (Hs _ _ Hk'). lia.
    + intros k s [[<- <-]|[Hne Hk]]%lookup_insert_Some; [cbn [ss_id inbox length]; unfold capacity; lia|].
      destruct (Hs _ _ Hk). split; [lia | done].
  - destruct Hf as [_ Hn']. by split.
Qed.

Lemma on_frame_ok m md payload : mux_ok m -> mux_ok (on_frame m md payload).
Proof.
  intros Hm. unfold on_frame. destruct (md_status md =? KEEPALIVE); [done|].
  destruct (routes m !! md_id md) as [k|]; [|done]. destruct (md_status md =? END).
  - apply (mux_ok_same m); try done; [apply same_try_send | apply delete_subseteq].
  - destruct payload as [p|]; [|done]. destruct (sessions m !! k) as [s|]; [|done].
    apply (mux_ok_same m); try done. apply same_try_send.
Qed.

Lemma send_ok m k target payload io n : mux_ok m -> mux_ok (send m k target payload io n).2.
Proof.
  intros Hm. unfold send. destruct (sessions m !! k) as [s|] eqn:Es; [|done].
  assert (Hset : forall a b, mux_ok (set_session m k (set_send s a b))).
  { intros a b. apply (mux_ok_same m); try done. by apply (same_insert _ _ s). }
  destruct (obind _ _) as [frame| |]; [|done..]. destruct io; [apply Hset | by apply fail_ok..].
Qed.

Lemma recv_ok m k p m' : mux_ok m -> recv m k = Some (p, m') -> mux_ok m'.
Proof.
  intros Hm. unfold recv. destruct (sessions m !! k) as [s|] eqn:Es; [|done]. destruct (inbox s) as [|x q] eqn:Ei.
  - destruct (bool_decide _); [done|]. by intros [= <- <-].
  - intros [= <- <-]. apply (mux_ok_same m); try done. apply (same_insert _ _ s); try done. rewrite Ei. simpl. lia.
Qed.

Lemma drop_ok m k : mux_ok m -> mux_ok (drop_session m k).2.
Proof.
  intros [Hn Hr Hs]. unfold drop_session. destruct (sessions m !! k) as [s|] eqn:Es; [|by split].
  split; cbn [next_id routes sessions next_key snd]; [done| |].
  - intros id k' [Hne Hk]%lookup_delete_Some. destruct (Hr _ _ Hk) as (s' & Hk' & Hid). exists s'. split; [|done].
    rewrite lookup_delete_ne; [done|]. intros ->. congruence.
  - intros k' s' [Hne Hk]%lookup_delete_Some. by apply Hs.
Qed.

Lemma mux_step_ok m m' : mux_ok m -> mux_step m m' -> mux_ok m'.
Proof.
  intros Hm []; eauto using session_ok, send_ok, recv_ok, on_frame_ok, fail_ok, drop_ok.
Qed.

Lemma Mux_new_ok : mux_ok Mux_new.
Proof. split; simpl; [lia | |]; intros ? ?; by rewrite lookup_empty. Qed.

Lemma mux_reaches_ok m : mux_reaches m -> mux_ok m.
Proof.
  unfold mux_reaches. generalize Mux_new_ok. generalize Mux_new. intros m0 H0 Hr.
  induction Hr as [|m0 m1 m2 Hs _ IH]; [done|]. apply IH. by eapply mux_step_ok.
Qed.

(** ** Delivery *)

Lemma try_send_lookup ss k p k' : try_send ss k p !! k' = if decide (k' = k) then push p <$> ss !! k' else ss !! k'.
Proof. unfold try_send. destruct (decide (k' = k)) as [->|]; [by rewrite lookup_alter_eq | by rewrite lookup_alter_ne]. Qed.

(** What a frame brings to the session its route leads to. *)
Definition arrival (s : MuxSession) (md : MuxMetadata) (payload : option (list Z)) : list routed :=
  if md_status md =? KEEPALIVE then []
  else if md_status md =? END then [Err (text "XUDP session ended")]
  else match payload with Some p => [Ok (default (ss_target s) (md_target md), p)] | None => [] end.

Lemma push_inbox p s : push p s = set_inbox s (inbox s ++ if (64 <=? length (inbox s))%nat then [] else [p]).
Proof.
  unfold push, capacity. destruct (Nat.ltb_spec (length (inbox s)) 64), (Nat.leb_spec 64 (length (inbox s))); try lia; [done|].
  rewrite app_nil_r. by destruct s.
Qed.

Lemma set_inbox_same s n : s = set_inbox s (inbox s ++ if (n <=? length (inbox s))%nat then [] else []).
Proof. destruct s. destruct (n <=? _)%nat; cbn; by rewrite app_nil_r. Qed.

(** C25: in every state the multiplexer can reach, a frame of the peer changes no
    session but the one its route leads to, which has the identifier of the frame,
    and of that only the queue of packets: a packet, with the target of the frame or
    else of the session, or the notice that the session has ended, is put behind
    those that wait there, and is lost when 64 wait already; a keepalive and a frame
    without data bring nothing.  The end of a session removes its route; no frame
    changes any other route. *)
Theorem xudp_isolation m md payload k s : mux_reaches m -> sessions m !! k = Some s ->
  exists s', sessions (on_frame m md payload) !! k = Some s' /\
    (routes m !! md_id md <> Some k -> s' = s) /\
    (routes m !! md_id md = Some k -> ss_id s = md_id md /\
       s' = set_inbox s (inbox s ++ if (64 <=? length (inbox s))%nat then [] else arrival s md payload)) /\
    (forall id, routes (on_frame m md payload) !! id = if (id =? md_id md) && (md_status md =? END) then None else routes m !! id).
Proof.
  intros Hm%mux_reaches_ok Hs. assert (Hid : routes m !! md_id md = Some k -> ss_id s = md_id md).
  { intros Hk. destruct (mo_route _ Hm _ _ Hk) as (s0 & Hs0 & E). congruence. }
  unfold on_frame, arrival. destruct (Z.eqb_spec (md_status md) KEEPALIVE) as [Hst|Hst].
  { exists s. rewrite Hst. change (KEEPALIVE =? END) with false. split; [done|]. split; [done|]. split; [|intros; by rewrite andb_false_r].
    intros Hk. split; [auto | apply set_inbox_same]. }
  destruct (routes m !! md_id md) as [k0|] eqn:Hk0.
  2: { exists s. split; [done|]. split; [done|]. split; [done|]. intros id. destruct (Z.eqb_spec id (md_id md)) as [->|]; [|done].
       rewrite Hk0. by destruct (md_status md =? END). }
  destruct (Z.eqb_spec (md_status md) END) as [He|He].
  - cbn [set_routes sessions routes alive next_id next_key]. rewrite try_send_lookup, Hs.
    exists (if decide (k = k0) then push (Err (text "XUDP session ended")) s else s).
    split; [by destruct (decide (k = k0))|]. split; [intros Hne; by rewrite decide_False by congruence|].
    split; [intros [= ->]; rewrite decide_True by done; split; [auto | apply push_inbox]|].
    intros id. rewrite andb_true_r. destruct (Z.eqb_spec id (md_id md)) as [->|Hne]; [by apply lookup_delete_eq | by apply lookup_delete_ne].
  - destruct payload as [p|].
    2: { exists s. split; [done|]. split; [done|]. split; [|intros; by rewrite andb_false_r]. intros Hk. split; [auto | apply set_inbox_same]. }
    destruct (mo_route _ Hm _ _ Hk0) as (s0 & Hs0 & _). rewrite Hs0. cbn [sessions routes]. rewrite try_send_lookup, Hs.
    exists (if decide (k = k0) then push (Ok (default (ss_target s0) (md_target md), p)) s else s).
    split; [by destruct (decide (k = k0))|]. split; [intros Hne; by rewrite decide_False by congruence|].
    split; [|intros; by rewrite andb_false_r]. intros [= ->]. rewrite Hs in Hs0. injection Hs0 as <-. rewrite decide_True by done.
    split; [auto | apply push_inbox].
Qed.

Lemma xudp_isolation_witness : let m := (session Mux_new (mk_target (lit "a") 1) None).2 in
  exists s', sessions (on_frame m (mk_metadata 0 KEEP true None) (Some [7])) !! 0%nat = Some s' /\
    inbox s' = [Ok (mk_target (lit "a") 1, [7])].
Proof.
  intros m.
  destruct (xudp_isolation m (mk_metadata 0 KEEP true None) (Some [7]) 0 (mk_session 0 (mk_target (lit "a") 1) None true true []))
    as (s' & Hs' & _ & Hk & _).
  - apply rtc_once, ms_session.
  - vm_compute. reflexivity.
  - exists s'. split; [exact Hs'|]. destruct Hk as [_ ->]; vm_compute; reflexivity.
Defined.

(** ** An identifier is reused while its session is held *)

Lemma find_id_free n next r : (0 < n)%nat -> r !! next = None -> find_id n next r = (Some next, (next + 1) mod 65536).
Proof. destruct n; [lia|]. intros _ Hr. cbn [find_id]. by rewrite bool_decide_eq_true_2. Qed.

(** Opening and dropping a session only moves the counters on. *)
Definition cycle (t : Target) (m : Mux) : Mux := (drop_session (session m t None).2 (next_key m)).2.

Lemma cycle_spec t m : alive m = true -> routes m = ∅ -> sessions m !! next_key m = None ->
  cycle t m = mk_mux true ((next_id m + 1) mod 65536) ∅ (sessions m) (S (next_key m)).
Proof.
  intros Ha Hr Hk. unfold cycle, session. rewrite Ha. cbn [negb].
  rewrite find_id_free by (rewrite ?Hr, ?lookup_empty; done || lia). cbn [snd].
  unfold drop_session. cbn [sessions]. rewrite lookup_insert_eq. cbn [routes ss_id alive next_id next_key snd].
  rewrite Hr, delete_insert_eq, delete_insert_eq, delete_id, delete_id by done. done.
Qed.

Lemma cycles_spec t n : forall m, alive m = true -> routes m = ∅ -> 0 <= next_id m < 65536 ->
  (forall k, (next_key m <= k)%nat -> sessions m !! k = None) ->
  Nat.iter n (cycle t) m = mk_mux true ((next_id m + Z.of_nat n) mod 65536) ∅ (sessions m) (n + next_key m).
Proof.
  induction n as [|n IH]; intros m Ha Hr Hn Hk.
  - cbn [Nat.iter]. rewrite Z.add_0_r, Z.mod_small by done. destruct m. simpl in *. by subst.
  - rewrite Nat.iter_succ, IH, cycle_spec by (done || (simpl; auto with lia)). cbn [next_id sessions next_key].
    rewrite Zplus_mod_idemp_l. f_equal; try f_equal; lia.
Qed.

Lemma cycle_reaches t m : mux_reaches m -> mux_reaches (cycle t m).
Proof. intros Hm. eapply rtc_r; [|apply ms_drop]. by eapply rtc_r; [|apply ms_session]. Qed.

Lemma cycles_reach t n m : mux_reaches m -> mux_reaches (Nat.iter n (cycle t) m).
Proof. intros Hm. induction n as [|n IH]; [done|]. rewrite Nat.iter_succ. by apply cycle_reaches. Qed.

Section reuse.
Variable t : Target.

(** A first session, which the peer ends. *)
Definition ended : Mux := on_frame (session Mux_new t None).2 (mk_metadata 0 END false None) None.
Definition stale : MuxSession := mk_session 0 t None true true [Err (text "XUDP session ended")].

Lemma ended_eq : ended = mk_mux true 1 ∅ {[ 0%nat := stale ]} 1.
Proof.
  unfold ended, session. rewrite find_id_free by (rewrite ?lookup_empty; done || lia). cbn [negb alive Mux_new snd].
  unfold on_frame. cbn [md_status md_id routes]. rewrite lookup_insert_eq.
  change (END =? KEEPALIVE) with false. change (END =? END) with true. cbn [set_routes alive next_id routes sessions next_key].
  rewrite delete_insert_eq. unfold try_send. rewrite alter_insert_eq. done.
Qed.

(** All the other identifiers are used once, and the next session gets the first
    one again. *)
Definition reused : Mux := (session (Nat.iter (Z.to_nat 65535) (cycle t) ended) t None).2.

Lemma reused_reaches : mux_reaches reused.
Proof.
  eapply rtc_r; [|apply ms_session]. apply cycles_reach. eapply rtc_r; [|apply ms_frame]. apply rtc_once, ms_session.
Qed.

Definition second : nat := (Z.to_nat 65535 + 1)%nat.

Lemma second_ne : 0%nat <> second.
Proof. unfold second. lia. Qed.

Lemma reused_eq : reused = mk_mux true 1 {[ 0 := second ]} (<[ second := mk_session 0 t None true true [] ]> {[ 0%nat := stale ]}) (S second).
Proof.
  unfold reused. rewrite ended_eq, cycles_spec; cbn [alive routes next_id sessions next_key]; try done.
  intros k Hk. apply lookup_singleton_ne. lia.
Qed.

(** C26: a session the peer has ended keeps its identifier until it is dropped,
    and the identifier can be given to another session meanwhile: dropping the
    old session then closes the route of the new one, here and at the peer. *)
Theorem xudp_stale_session_closes_other : exists m k k' s s', mux_reaches m /\ k <> k' /\
  sessions m !! k = Some s /\ sessions m !! k' = Some s' /\ ss_id s = ss_id s' /\ routes m !! ss_id s' = Some k' /\
  (drop_session m k).1 = [0; 4; ss_id s' / 256; ss_id s' mod 256; END; 0] /\
  sessions (drop_session m k).2 !! k' = Some s' /\ routes (drop_session m k).2 !! ss_id s' = None /\
  recv (drop_session m k).2 k' = Some (Err (text "XUDP multiplexer closed"), (drop_session m k).2).
Proof.
  exists reused, 0%nat, second, stale, (mk_session 0 t None true true []). split; [apply reused_reaches|].
  rewrite reused_eq. pose proof second_ne as Hne. generalize dependent second. intros k2 Hne. split; [done|]. cbn [sessions routes].
  assert (H0 : (<[k2:=mk_session 0 t None true true []]> {[0%nat := stale]} : gmap nat MuxSession) !! 0%nat = Some stale)
    by (rewrite lookup_insert_ne by done; by rewrite lookup_singleton_eq).
  assert (H1 : delete 0%nat (<[k2:=mk_session 0 t None true true []]> {[0%nat := stale]} : gmap nat MuxSession) !! k2 =
    Some (mk_session 0 t None true true [])) by (rewrite lookup_delete_ne by done; by rewrite lookup_insert_eq).
  split; [done|]. split; [by rewrite lookup_insert_eq|]. split; [done|]. split; [by rewrite lookup_singleton_eq|].
  unfold drop_session. cbn [sessions routes alive next_id next_key]. rewrite H0. cbn [stale ss_id fst snd].
  rewrite lookup_singleton_eq. split; [done|]. cbn [sessions routes]. split; [exact H1|]. split; [by rewrite lookup_delete_eq|].
  unfold recv. cbn [sessions routes]. rewrite H1. cbn [inbox ss_id]. by rewrite lookup_delete_eq.
Qed.
End reuse.
