(* ===== verification/XudpStream.v ===== *)
(** * XUDP: from the bytes of the peer to the sessions

    The reader of the multiplexer, on a stream that arrives in pieces, and what
    the sessions receive when the peer sends packets to many of them. *)

From S2P Require Import Prelude FfiAbi RustStr IpText IpTextFacts Target Vless Xudp XudpFacts XudpMux.
Local Open Scope Z_scope.

(** ** Reading in pieces *)

Lemma read_payload_mono md s b :
  match read_payload md s with
  | GotFrame md' p r => read_payload md (s ++ b) = GotFrame md' p (r ++ b) /\ (length r < length s)%nat
  | BadFrame e => read_payload md (s ++ b) = BadFrame e
  | NeedMore => True
  end.
Proof.
  unfold read_payload. destruct s as [|x [|y r]]; [done..|]. cbn [app]. destruct (MAX_PAYLOAD <? of_be16 x y); [done|].
  destruct (Z.ltb_spec (len r) (of_be16 x y)); [done|]. rewrite (proj2 (Z.ltb_ge _ _)) by (rewrite length_app; lia).
  rewrite take_app_le, drop_app_le by lia. split; [done|]. rewrite length_drop. simpl. lia.
Qed.

(** A frame that is complete is read the same whatever follows it, and takes
    some bytes. *)
Lemma read_frame_mono s b :
  match read_frame s with
  | GotFrame md p r => read_frame (s ++ b) = GotFrame md p (r ++ b) /\ (length r < length s)%nat
  | BadFrame e => read_frame (s ++ b) = BadFrame e
  | NeedMore => True
  end.
Proof.
  unfold read_frame. destruct s as [|x [|y r]]; [done..|]. cbn [app].
  destruct (negb _); [done|]. destruct (Z.ltb_spec (len r) (of_be16 x y)); [done|].
  rewrite (proj2 (Z.ltb_ge _ _)) by (rewrite length_app; lia). rewrite take_app_le, drop_app_le by lia.
  destruct (multiplexed_metadata _) as [md| |]; [|done..].
  pose proof (read_payload_mono md (drop (Z.to_nat (of_be16 x y)) r) b) as Hp.
  pose proof (length_drop r (Z.to_nat (of_be16 x y))) as Hl. destruct (md_data md).
  - destruct (read_payload _ _) as [| |md' p r']; [done..|]. destruct Hp as [-> Hp]. split; [done|]. simpl. lia.
  - split; [done|]. simpl. lia.
Qed.

(** As many rounds as there are bytes are enough. *)
Lemma read_frames_fuel n : forall m s n', (length s <= n)%nat -> (n <= n')%nat -> read_frames n m s = read_frames n' m s.
Proof.
  induction n as [|n IH]; intros m s n' Hs Hn.
  - destruct s; [|simpl in Hs; lia]. by destruct n'.
  - destruct n' as [|n']; [lia|]. cbn [read_frames]. pose proof (read_frame_mono s []) as Hm.
    destruct (read_frame s) as [| |md p r]; [done..|]. apply IH; lia.
Qed.

Lemma read_multiplexed_step m s : read_multiplexed m s =
  match read_frame s with
  | NeedMore => (m, Some s)
  | BadFrame e => (fail_multiplexer m e, None)
  | GotFrame md payload rest => read_multiplexed (on_frame m md payload) rest
  end.
Proof.
  unfold read_multiplexed. destruct s as [|x s]; [done|]. cbn [length]. cbn [read_frames].
  pose proof (read_frame_mono (x :: s) []) as Hm. destruct (read_frame (x :: s)) as [| |md p r]; [done..|].
  symmetry. apply read_frames_fuel; [lia|]. simpl in *. lia.
Qed.

(** The frames of [s ++ b] are handled as those of [s], then those of what is left
    of [s] with [b] behind it; a reader that has stopped at a bad frame stays
    stopped. *)
Lemma read_multiplexed_app b n : forall s m, (length s <= n)%nat ->
  match read_multiplexed m s with
  | (m', Some r) => read_multiplexed m (s ++ b) = read_multiplexed m' (r ++ b)
  | (m', None) => read_multiplexed m (s ++ b) = (m', None)
  end.
Proof.
  induction n as [|n IH]; intros s m Hn.
  - by destruct s; [|simpl in Hn; lia].
  - rewrite (read_multiplexed_step m s), (read_multiplexed_step m (s ++ b)). pose proof (read_frame_mono s b) as Hm.
    destruct (read_frame s) as [| |md p r].
    + by rewrite read_multiplexed_step.
    + by rewrite Hm.
    + destruct Hm as [-> Hl]. apply IH. lia.
Qed.

(** The reader as the stream arrives, piece by piece. *)
Definition receive (st : Mux * option (list Z)) (piece : list Z) : Mux * option (list Z) :=
  match st with
  | (m, Some r) => read_multiplexed m (r ++ piece)
  | (m, None) => (m, None)
  end.

(** What is read of a stream does not depend on the pieces it arrives in. *)
Lemma receive_pieces m pieces : forall s, foldl receive (read_multiplexed m s) pieces = read_multiplexed m (s ++ concat pieces).
Proof.
  induction pieces as [|b pieces IH]; intros s; cbn [foldl concat]; [by rewrite app_nil_r|].
  rewrite app_assoc, <- IH. f_equal. unfold receive. pose proof (read_multiplexed_app b (length s) s m ltac:(done)) as H.
  by destruct (read_multiplexed m s) as [m' [r|]].
Qed.

(** ** Delivery *)

(** A packet of the peer: session, canonical target, payload. *)
Definition peer_packet (x : Z * Target * list Z) (f : list Z) : Prop :=
  let '(id, t, p) := x in
  0 <= id < 65536 /\ target_valid t /\ Target_new (host t) (port t) = Ok t /\ packet id t p false None = Ok f.

Definition arrival (x : Z * Target * list Z) : routed := let '(_, t, p) := x in Ok (t, p).

Lemma push_take p s : (length (inbox s) <= capacity)%nat -> inbox (push p s) = take capacity (inbox s ++ [p]).
Proof.
  intros Hl. unfold push. destruct (Nat.ltb_spec (length (inbox s)) capacity).
  - rewrite take_ge; [done|]. rewrite length_app. simpl. lia.
  - rewrite take_app_le by lia. by rewrite take_ge.
Qed.

Lemma take_take_app {A} n (a b : list A) : take n (take n a ++ b) = take n (a ++ b).
Proof.
  destruct (decide (length a <= n)%nat); [by rewrite (take_ge a)|].
  rewrite !take_app, take_take, length_take, !Nat.min_id. f_equal. f_equal. lia.
Qed.

(** One packet: it is put behind the others in the session it is for. *)
Lemma deliver_one m id t p k s : mux_ok m -> sessions m !! k = Some s -> routes m !! ss_id s = Some k ->
  let m' := on_frame m (mk_metadata id KEEP true (Some t)) (Some p) in
  exists s', sessions m' !! k = Some s' /\ ss_id s' = ss_id s /\ routes m' = routes m /\
    inbox s' = take capacity (inbox s ++ if decide (id = ss_id s) then [Ok (t, p)] else []).
Proof.
  intros Hm Hs Hr m'. subst m'. destruct (mo_session _ Hm _ _ Hs) as (_ & _ & Hl). unfold on_frame. cbn [md_status md_id md_target].
  change (KEEP =? KEEPALIVE) with false. change (KEEP =? END) with false. cbn iota.
  assert (Hsame : inbox s = take capacity (inbox s ++ [])) by (by rewrite app_nil_r, take_ge).
  destruct (decide (id = ss_id s)) as [->|Hne].
  - rewrite Hr, Hs. cbn [sessions routes]. rewrite try_send_lookup, decide_True, Hs by done.
    eexists. split; [reflexivity|]. split; [apply push_id|]. split; [done|]. by apply push_take.
  - destruct (routes m !! id) as [k0|] eqn:Hk0; [|by exists s].
    destruct (mo_route _ Hm _ _ Hk0) as (s0 & Hs0 & Hid). rewrite Hs0. cbn [sessions routes].
    rewrite try_send_lookup, decide_False by (intros ->; congruence). by exists s.
Qed.

(** All of them. *)
Lemma deliver_all ps : forall m k s frames, mux_ok m -> sessions m !! k = Some s -> routes m !! ss_id s = Some k ->
  Forall2 peer_packet ps frames ->
  exists m' s', read_multiplexed m (concat frames) = (m', Some []) /\ sessions m' !! k = Some s' /\
    inbox s' = take capacity (inbox s ++ (arrival <$> filter (fun x => x.1.1 = ss_id s) ps)).
Proof.
  induction ps as [|[[id t] p] ps IH]; intros m k s frames Hm Hs Hr Hf.
  - apply Forall2_nil_inv_l in Hf as ->. exists m, s. split; [done|]. split; [done|].
    destruct (mo_session _ Hm _ _ Hs) as (_ & _ & Hl). rewrite app_nil_r. by rewrite take_ge.
  - apply Forall2_cons_inv_l in Hf as (f & frames' & (Hid & Ht & Hc & Hp) & Hf & ->). cbn [concat].
    destruct (read_packet id t p None f (concat frames') Hid Ht Hp) as (t' & Et & Hread).
    rewrite Hc in Et. apply Ok_inj in Et as <-. rewrite read_multiplexed_step, Hread.
    destruct (deliver_one m id t p k s Hm Hs Hr) as (s1 & Hs1 & Hid1 & Hr1 & Hi1).
    destruct (IH _ k s1 frames' (on_frame_ok _ _ _ Hm) Hs1) as (m' & s' & E & Hs' & Hi'); [by rewrite Hid1, Hr1 | done |].
    exists m', s'. split; [done|]. split; [done|]. rewrite Hi', Hi1, Hid1, take_take_app, filter_cons. cbn [fst].
    destruct (decide (id = ss_id s)); by rewrite <- app_assoc.
Qed.

(** C24: from the bytes of the peer to the sessions: when the peer sends packets to
    any sessions, in any order, and the stream arrives in any pieces, an open
    session receives exactly those for its identifier, in the order they were
    sent, with their targets and payloads, behind what waits already; only what
    exceeds the 64 places of its queue is lost.  Nothing of the stream is left. *)
Theorem xudp_delivery m k s ps frames pieces : mux_reaches m -> sessions m !! k = Some s -> routes m !! ss_id s = Some k ->
  Forall2 peer_packet ps frames -> concat pieces = concat frames ->
  exists m' s', foldl receive (m, Some []) pieces = (m', Some []) /\ sessions m' !! k = Some s' /\
    inbox s' = take capacity (inbox s ++ (arrival <$> filter (fun x => x.1.1 = ss_id s) ps)).
Proof.
  intros Hm%mux_reaches_ok Hs Hr Hf Hc. change (m, Some []) with (read_multiplexed m []).
  rewrite receive_pieces, Hc. by apply deliver_all.
Qed.

(** Two sessions, and a packet for each, cut in the middle of the first. *)
Definition ex_target : Target := mk_target (lit "1.2.3.4") 53.
Definition ex_mux : Mux := (session (session Mux_new ex_target None).2 ex_target None).2.
Definition ex_packets : list (Z * Target * list Z) := [(0, ex_target, [7]); (1, ex_target, [8; 9])].
Definition ex_frame (id : Z) (p : list Z) : list Z := [0; 12] ++ be16 id ++ [2; 1; 2; 0; 53; 1; 1; 2; 3; 4] ++ be16 (len p) ++ p.
Definition ex_frames : list (list Z) := [ex_frame 0 [7]; ex_frame 1 [8; 9]].

Lemma ex_mux_reaches : mux_reaches ex_mux.
Proof. eapply rtc_r; [|apply ms_session]. apply rtc_once, ms_session. Qed.

Lemma ex_target_valid : target_valid ex_target.
Proof. split; [|simpl; lia]. repeat (constructor; [unfold scalar; simpl; lia|]). constructor. Qed.

Lemma xudp_delivery_witness :
  exists m' s', foldl receive (ex_mux, Some []) [take 5 (concat ex_frames); drop 5 (concat ex_frames)] = (m', Some []) /\
    sessions m' !! 1%nat = Some s' /\ inbox s' = [Ok (ex_target, [8; 9])].
Proof.
  refine (xudp_delivery ex_mux 1 (mk_session 1 ex_target None true true []) ex_packets ex_frames _ ex_mux_reaches _ _ _ _).
  - vm_compute. reflexivity.
  - vm_compute. reflexivity.
  - repeat constructor; try (apply ex_target_valid || lia); vm_compute; reflexivity.
  - simpl. reflexivity.
Defined.
