(* ===== verification/VisionTls.v ===== *)
(** * Vision: finding the inner TLS handshake

    [InnerTls], [TlsHello] and [server_hello] of crates/protocol/src/vision.rs:
    how the Vision stream learns from the bytes of both directions, as they
    arrive, whether they are a TLS connection, and whether of version 1.3. *)

From S2P Require Import Prelude FfiAbi RustStr IpText IpTextFacts Target Vless.
Local Open Scope Z_scope.

Definition u16_at (bytes : list Z) (i : nat) : Z := of_be16 (nth i bytes 0) (nth (S i) bytes 0).

(** ** The ServerHello *)

(** The loop over the extensions; every round takes four bytes or more, [fuel]
    is the number of bytes.  [None] is a malformed list. *)
Fixpoint ext_loop (fuel : nat) (bytes : list Z) (cursor stop : nat) (version : option bool) : option (option bool) :=
  if (stop <=? cursor)%nat then Some version
  else match fuel with
       | O => None
       | S fuel =>
           if (stop <? cursor + 4)%nat then None
           else
             let kind := u16_at bytes cursor in
             let n := Z.to_nat (u16_at bytes (cursor + 2)) in
             let cursor := (cursor + 4)%nat in
             if (stop <? cursor + n)%nat then None
             else if kind =? 43 then
               if negb (bool_decide (version = None)) || negb (n =? 2)%nat then None
               else ext_loop fuel bytes (cursor + n) stop (Some (bool_decide (take n (drop cursor bytes) = [3; 4])))
             else ext_loop fuel bytes (cursor + n) stop version
       end.

Definition server_hello (bytes : list Z) : option bool :=
  if (length bytes <? 38)%nat || negb (bool_decide (take 2 bytes = [3; 3])) then None
  else
    let session_len := Z.to_nat (nth 34 bytes 0) in
    if (32 <? session_len)%nat then None
    else
      let offset := (35 + session_len)%nat in
      if (length bytes <? offset + 3)%nat || negb (nth (offset + 2) bytes 0 =? 0) then None
      else
        let suite := u16_at bytes offset in
        if (offset + 3 =? length bytes)%nat then Some false
        else if (length bytes <? offset + 5)%nat then None
        else
          let stop := (offset + 5 + Z.to_nat (u16_at bytes (offset + 3)))%nat in
          if negb (stop =? length bytes)%nat then None
          else match ext_loop (length bytes) bytes (offset + 5) stop None with
               | None => None
               | Some version => Some (bool_decide (version = Some true) && (0x1301 <=? suite) && (suite <=? 0x1304))
               end.

(** ** Records and handshake messages *)

Record TlsHello := mk_hello { record : list Z; handshake : list Z; hello_done : bool }.
Definition TlsHello_default : TlsHello := mk_hello [] [] false.

Definition need (record : list Z) : nat := if (length record <? 5)%nat then 5 else 5 + Z.to_nat (u16_at record 3).

(** What a round of the loop does after it has taken bytes: go on, or return. *)
Inductive verdict := Continue | Return (r : option bool).

(** A handshake message: its type, its length and all of it. *)
Definition message_check (handshake : list Z) : TlsHello * verdict :=
  if 18432 <? len handshake then (mk_hello [] handshake true, Return None)
  else if (length handshake <? 4)%nat then (mk_hello [] handshake false, Continue)
  else if negb (nth 0 handshake 0 =? 2) then (mk_hello [] handshake true, Return None)
  else
    let length := (nth 1 handshake 0 * 256 + nth 2 handshake 0) * 256 + nth 3 handshake 0 in
    if 18428 <? length then (mk_hello [] handshake true, Return None)
    else if length + 4 <=? len handshake
         then (mk_hello [] handshake true, Return (server_hello (take (Z.to_nat length) (drop 4 handshake))))
         else (mk_hello [] handshake false, Continue).

Definition hello_check (record handshake : list Z) : TlsHello * verdict :=
  if (length record <? 5)%nat then (mk_hello record handshake false, Continue)
  else if negb (nth 0 record 0 =? 22) || negb (nth 1 record 0 =? 3) then (mk_hello record handshake true, Return None)
  else if (length record <? need record)%nat then (mk_hello record handshake false, Continue)
  else message_check (handshake ++ drop 5 record).

(** Every round takes at least one byte: [fuel] is the number of bytes. *)
Fixpoint hello_loop (fuel : nat) (h : TlsHello) (bytes : list Z) : option bool * TlsHello :=
  match fuel, bytes with
  | S fuel, _ :: _ =>
      if hello_done h then (None, h)
      else if (18437 <? Z.of_nat (need (record h))) then (None, mk_hello (record h) (handshake h) true)
      else
        let count := Nat.min (length bytes) (need (record h) - length (record h)) in
        match hello_check (record h ++ take count bytes) (handshake h) with
        | (h, Return r) => (r, h)
        | (h, Continue) => hello_loop fuel h (drop count bytes)
        end
  | _, _ => (None, h)
  end.

(** [TlsHello::observe]. *)
Definition hello_observe (h : TlsHello) (bytes : list Z) : option bool * TlsHello := hello_loop (length bytes) h bytes.

(** ** Both directions *)

Record InnerTls := mk_inner { client : list Z; server : TlsHello; tls : bool; tls13 : bool; remaining : Z }.
(** As [VisionStream::framed] makes it. *)
Definition InnerTls_new : InnerTls := mk_inner [] TlsHello_default false false 65536.

(** [InnerTls::observe]. *)
Definition inner_observe (s : InnerTls) (bytes : list Z) (from_server : bool) : InnerTls :=
  if (remaining s =? 0) || tls13 s then s
  else
    let remaining := Z.max 0 (remaining s - len bytes) in
    if from_server then
      match hello_observe (server s) bytes with
      | (Some v, h) => mk_inner (client s) h true v remaining
      | (None, h) => mk_inner (client s) h (tls s) (tls13 s) remaining
      end
    else
      let count := Nat.min (length bytes) (8 - length (client s)) in
      let client := client s ++ take count bytes in
      mk_inner client (server s)
        (tls s || ((6 <=? length client)%nat && (nth 0 client 0 =? 22) && (nth 1 client 0 =? 3) && (nth 5 client 0 =? 1)))
        (tls13 s) remaining.
