(* ===== verification/VisionTlsFacts.v ===== *)
(** * Vision: the handshake is found however it arrives *)

From S2P Require Import Prelude FfiAbi RustStr IpText IpTextFacts Target Vless VisionTls.
Local Open Scope Z_scope.

(** ** Pieces *)
















(** ** Records *)









(** ** The ServerHello message *)
















(** ** Both directions *)














