(* ===== verification/Vision.v ===== *)
(** * The Vision stream

    [RecordStream] of crates/protocol/src/record.rs with its switches to direct
    I/O, [ResponseStream] of vless.rs, which takes the header of the response off
    the stream, and [VisionStream] of vision.rs on top of them: frames with
    padding in both directions, until one side switches to plain or direct I/O. *)

From S2P Require Import Prelude FfiAbi RustStr IpText IpTextFacts Target Vless VisionTls.
Local Open Scope Z_scope.

(** ** Polling *)

(** [Poll<io::Result<A>>]. *)
Inductive poll (A : Type) := Pending | Ready (o : outcome A).
Arguments Pending {A}.
Arguments Ready {A} o.

Definition UnexpectedEof : list Z := text "unexpected end of file".
Definition WriteZero : list Z := text "write zero".

(** The bytes a transport delivers, in pieces; an empty piece is a poll that is
    not ready, the end of the list the end of the stream. *)
Definition source : Type := list (list Z).

(** [poll_read] with room for [n] bytes: the bytes filled in. *)
Definition source_read (n : nat) (s : source) : poll (list Z) * source :=
  match s with
  | [] => (Ready (Ok []), [])
  | [] :: s => (Pending, s)
  | p :: s => (Ready (Ok (take n p)), if (length p <=? n)%nat then s else drop n p :: s)
  end.

(** What a transport does with the calls of a writer, one by one. *)
Inductive event := Wait | Accept (n : nat) | Fault (e : list Z).

(** ** [RecordStream]: TLS, or the bytes under it *)

Record RecordStream := mk_rs {
  tls_in : source; raw_in : source; read_direct : bool;
  tls_out : list Z; raw_out : list Z; write_direct : bool; events : list event
}.

Definition rs_poll_read (n : nat) (s : RecordStream) : poll (list Z) * RecordStream :=
  if read_direct s then
    let '(r, i) := source_read n (raw_in s) in
    (r, mk_rs (tls_in s) i true (tls_out s) (raw_out s) (write_direct s) (events s))
  else
    let '(r, i) := source_read n (tls_in s) in
    (r, mk_rs i (raw_in s) false (tls_out s) (raw_out s) (write_direct s) (events s)).

Definition rs_read_direct (s : RecordStream) : RecordStream :=
  mk_rs (tls_in s) (raw_in s) true (tls_out s) (raw_out s) (write_direct s) (events s).
Definition rs_write_direct (s : RecordStream) : RecordStream :=
  mk_rs (tls_in s) (raw_in s) (read_direct s) (tls_out s) (raw_out s) true (events s).

(** A transport whose events are used up takes everything. *)
Definition next_event (s : RecordStream) : event * RecordStream :=
  match events s with
  | [] => (Accept (Z.to_nat (2 ^ 16)), s)
  | e :: l => (e, mk_rs (tls_in s) (raw_in s) (read_direct s) (tls_out s) (raw_out s) (write_direct s) l)
  end.

Definition rs_append (s : RecordStream) (b : list Z) : RecordStream :=
  if write_direct s then mk_rs (tls_in s) (raw_in s) (read_direct s) (tls_out s) (raw_out s ++ b) true (events s)
  else mk_rs (tls_in s) (raw_in s) (read_direct s) (tls_out s ++ b) (raw_out s) false (events s).

(** [poll_write]: how many bytes were taken. *)
Definition rs_poll_write (s : RecordStream) (b : list Z) : poll nat * RecordStream :=
  match next_event s with
  | (Wait, s) => (Pending, s)
  | (Fault e, s) => (Ready (Err e), s)
  | (Accept n, s) => (Ready (Ok (Nat.min n (length b))), rs_append s (take n b))
  end.

Definition rs_poll_flush (s : RecordStream) : poll unit * RecordStream :=
  match next_event s with
  | (Wait, s) => (Pending, s)
  | (Fault e, s) => (Ready (Err e), s)
  | (Accept _, s) => (Ready (Ok tt), s)
  end.

(** ** [ResponseStream] *)

(** [header] are the bytes of the header read so far, [header_read] of them. *)
Record ResponseStream := mk_resp {
  rp_inner : RecordStream; header : list Z; discard : nat; ready : bool; rp_failed : bool
}.
Definition Response_new (inner : RecordStream) : ResponseStream := mk_resp inner [] 0 false false.
Definition with_inner (r : ResponseStream) (i : RecordStream) : ResponseStream :=
  mk_resp i (header r) (discard r) (ready r) (rp_failed r).

(** The two loops at the start of [poll_read]; [None]: go on behind them.  Every
    round takes a byte at least, [fuel] is the number of bytes to take. *)
Fixpoint header_loop (fuel : nat) (r : ResponseStream) : option (poll (list Z)) * ResponseStream :=
  if (2 <=? length (header r))%nat then (None, r)
  else match fuel with
       | O => (Some Pending, r)
       | S fuel =>
           match rs_poll_read (2 - length (header r)) (rp_inner r) with
           | (Ready (Ok []), i) => (Some (Ready (Err UnexpectedEof)), with_inner r i)
           | (Ready (Ok b), i) =>
               let h := header r ++ b in
               if (length h =? 2)%nat then
                 if negb (nth 0 h 0 =? 0)
                 then (Some (Ready (Err (text "unsupported VLESS response version"))), mk_resp i h (discard r) (ready r) true)
                 else header_loop fuel (mk_resp i h (Z.to_nat (nth 1 h 0)) (ready r) (rp_failed r))
               else header_loop fuel (mk_resp i h (discard r) (ready r) (rp_failed r))
           | (o, i) => (Some o, with_inner r i)
           end
       end.

Fixpoint discard_loop (fuel : nat) (r : ResponseStream) : option (poll (list Z)) * ResponseStream :=
  if ready r || (discard r =? 0)%nat then (None, r)
  else match fuel with
       | O => (Some Pending, r)
       | S fuel =>
           match rs_poll_read (discard r) (rp_inner r) with
           | (Ready (Ok []), i) => (Some (Ready (Err UnexpectedEof)), with_inner r i)
           | (Ready (Ok b), i) => discard_loop fuel (mk_resp i (header r) (discard r - length b) (ready r) (rp_failed r))
           | (o, i) => (Some o, with_inner r i)
           end
       end.

Definition resp_poll_read (n : nat) (r : ResponseStream) : poll (list Z) * ResponseStream :=
  if (n =? 0)%nat then (Ready (Ok []), r)
  else if rp_failed r then (Ready (Err (text "invalid VLESS response")), r)
  else match header_loop 2 r with
       | (Some o, r) => (o, r)
       | (None, r) =>
           match discard_loop (discard r) r with
           | (Some o, r) => (o, r)
           | (None, r) =>
               let r := mk_resp (rp_inner r) (header r) (discard r) true (rp_failed r) in
               let '(o, i) := rs_poll_read n (rp_inner r) in (o, with_inner r i)
           end
       end.

(** ** [VisionStream] *)

Record VisionStream := mk_vision {
  inner : ResponseStream; id : list Z; read_header : list Z; read_first : bool; content : nat; padding : nat;
  command : Z; read_plain : bool; write_first : bool; write_plain : bool; pending : list Z; written : nat;
  switch_write : bool; sniff : InnerTls; failed : bool
}.

(** [framed]; [new] refuses an outer stream that is not of TLS 1.3. *)
Definition framed (i : RecordStream) (uuid : list Z) : VisionStream :=
  mk_vision (Response_new i) uuid [] true 0 0 0 false true false [] 0 false InnerTls_new false.

Definition set_reader (v : VisionStream) (i : ResponseStream) (h : list Z) (first : bool) (c p : nat) (cmd : Z) (plain : bool) :
    VisionStream :=
  mk_vision i (id v) h first c p cmd plain (write_first v) (write_plain v) (pending v) (written v) (switch_write v) (sniff v) (failed v).
Definition set_inner (v : VisionStream) (i : ResponseStream) : VisionStream :=
  set_reader v i (read_header v) (read_first v) (content v) (padding v) (command v) (read_plain v).
Definition set_sniff (v : VisionStream) (s : InnerTls) : VisionStream :=
  mk_vision (inner v) (id v) (read_header v) (read_first v) (content v) (padding v) (command v) (read_plain v)
    (write_first v) (write_plain v) (pending v) (written v) (switch_write v) s (failed v).
Definition set_failed (v : VisionStream) : VisionStream :=
  mk_vision (inner v) (id v) (read_header v) (read_first v) (content v) (padding v) (command v) (read_plain v)
    (write_first v) (write_plain v) (pending v) (written v) (switch_write v) (sniff v) true.
Definition set_writer (v : VisionStream) (i : RecordStream) (first plain : bool) (pend : list Z) (w : nat) (sw : bool) : VisionStream :=
  mk_vision (with_inner (inner v) i) (id v) (read_header v) (read_first v) (content v) (padding v) (command v) (read_plain v)
    first plain pend w sw (sniff v) (failed v).
Definition direct_read (r : ResponseStream) : ResponseStream := with_inner r (rs_read_direct (rp_inner r)).

(** *** Writing *)

(** The loop of [flush_frame]; every round takes a byte or ends. *)
Fixpoint flush_loop (fuel : nat) (v : VisionStream) : option (poll unit) * VisionStream :=
  if (length (pending v) <=? written v)%nat then (None, v)
  else match fuel with
       | O => (Some Pending, v)
       | S fuel =>
           match rs_poll_write (rp_inner (inner v)) (drop (written v) (pending v)) with
           | (Pending, i) => (Some Pending, set_writer v i (write_first v) (write_plain v) (pending v) (written v) (switch_write v))
           | (Ready (Ok n), i) =>
               let v := set_writer v i (write_first v) (write_plain v) (pending v) (written v + n) (switch_write v) in
               if (n =? 0)%nat then (Some (Ready (Err WriteZero)), v) else flush_loop fuel v
           | (Ready (Err e), i) =>
               (Some (Ready (Err e)), set_writer v i (write_first v) (write_plain v) (pending v) (written v) (switch_write v))
           | (Ready Panicked, i) => (Some (Ready Panicked), v)
           end
       end.

Definition flush_frame (v : VisionStream) : poll unit * VisionStream :=
  match flush_loop (length (pending v)) v with
  | (Some o, v) => (o, v)
  | (None, v) =>
      match rs_poll_flush (rp_inner (inner v)) with
      | (Ready (Ok _), i) =>
          (Ready (Ok tt), set_writer v (if switch_write v then rs_write_direct i else i) (write_first v) (write_plain v) [] 0 false)
      | (o, i) => (o, set_writer v i (write_first v) (write_plain v) (pending v) (written v) (switch_write v))
      end
  end.

(** The command of the next frame: go on, end of padding, or direct I/O. *)
Definition frame_command (s : InnerTls) (bytes : list Z) : Z :=
  if tls s && bool_decide (take 3 bytes = [23; 3; 3]) then (if tls13 s then 2 else 1)
  else if (remaining s =? 0) || (negb (tls s) && (8 <=? length (client s))%nat) then 1
  else 0.

(** [random] is the number drawn. *)
Definition frame_padding (s : InnerTls) (bytes : list Z) (random : nat) : nat :=
  if (900 <=? length bytes)%nat then 0 else if tls s then 900 - length bytes + random else random.

Definition poll_write (v : VisionStream) (bytes : list Z) (random : nat) : poll nat * VisionStream :=
  match flush_frame v with
  | (Pending, v) => (Pending, v)
  | (Ready (Err e), v) => (Ready (Err e), v)
  | (Ready Panicked, v) => (Ready Panicked, v)
  | (Ready (Ok _), v) =>
      if write_plain v then
        let '(o, i) := rs_poll_write (rp_inner (inner v)) bytes in
        (o, set_writer v i (write_first v) (write_plain v) (pending v) (written v) (switch_write v))
      else if bool_decide (bytes = []) then (Ready (Ok 0%nat), v)
      else
        let bytes := take (Z.to_nat (8192 - 21)) bytes in
        let v := set_sniff v (inner_observe (sniff v) bytes false) in
        let cmd := frame_command (sniff v) bytes in
        let pad := frame_padding (sniff v) bytes random in
        let frame := (if write_first v then id v else []) ++ [cmd] ++ be16 (len bytes) ++ be16 (Z.of_nat pad) ++ bytes ++
                     replicate pad 0 in
        (Ready (Ok (length bytes)),
         set_writer v (rp_inner (inner v)) false (write_plain v || negb (cmd =? 0)) (pending v ++ frame) (written v) (cmd =? 2))
  end.

(** *** Reading *)

(** [while padding > 0]: every round takes a byte at least. *)
Fixpoint padding_loop (fuel : nat) (v : VisionStream) : option (poll (list Z)) * VisionStream :=
  if (padding v =? 0)%nat then (None, v)
  else match fuel with
       | O => (Some Pending, v)
       | S fuel =>
           match resp_poll_read (Nat.min (padding v) (Z.to_nat 2048)) (inner v) with
           | (Ready (Ok []), i) => (Some (Ready (Err UnexpectedEof)), set_inner v i)
           | (Ready (Ok b), i) =>
               padding_loop fuel (set_reader v i (read_header v) (read_first v) (content v) (padding v - length b) (command v) (read_plain v))
           | (o, i) => (Some o, set_inner v i)
           end
       end.

(** [while read_header.len() < need]. *)
Fixpoint read_header_loop (fuel : nat) (need : nat) (v : VisionStream) : option (poll (list Z)) * VisionStream :=
  if (need <=? length (read_header v))%nat then (None, v)
  else match fuel with
       | O => (Some Pending, v)
       | S fuel =>
           let start := length (read_header v) in
           match resp_poll_read (need - start) (inner v) with
           | (Ready (Ok []), i) => (Some (Ready (if (start =? 0)%nat then Ok [] else Err UnexpectedEof)), set_inner v i)
           | (Ready (Ok b), i) =>
               read_header_loop fuel need
                 (set_reader v i (read_header v ++ b) (read_first v) (content v) (padding v) (command v) (read_plain v))
           | (o, i) => (Some o, set_inner v i)
           end
       end.

Definition header_need (first : bool) : nat := if first then 21%nat else 5%nat.

(** The outer loop of [poll_read], for [room] bytes.  A round returns, or reads
    the header of a frame, or ends the framing: with the limit of 64 frames, 66
    rounds are enough. *)
Fixpoint frame_loop (fuel frames : nat) (room : nat) (v : VisionStream) : poll (list Z) * VisionStream :=
  match fuel with
  | O => (Pending, v)
  | S fuel =>
      if read_plain v then
        if negb (bool_decide (read_header v = [])) then
          (Ready (Ok (take room (read_header v))),
           set_reader v (inner v) (drop room (read_header v)) (read_first v) (content v) (padding v) (command v) true)
        else let '(o, i) := resp_poll_read room (inner v) in (o, set_inner v i)
      else if (0 <? content v)%nat then
        match resp_poll_read (Nat.min room (content v)) (inner v) with
        | (Ready (Ok []), i) => (Ready (Err UnexpectedEof), set_inner v i)
        | (Ready (Ok b), i) =>
            let v := set_sniff v (inner_observe (sniff v) b true) in
            (Ready (Ok b), set_reader v i (read_header v) (read_first v) (content v - length b) (padding v) (command v) (read_plain v))
        | (o, i) => (o, set_inner v i)
        end
      else
        match padding_loop (padding v) v with
        | (Some o, v) => (o, v)
        | (None, v) =>
            if negb (command v =? 0) then
              let i := if command v =? 2 then direct_read (inner v) else inner v in
              frame_loop fuel frames room (set_reader v i (read_header v) (read_first v) (content v) (padding v) (command v) true)
            else
              match read_header_loop (header_need (read_first v)) (header_need (read_first v)) v with
              | (Some o, v) => (o, v)
              | (None, v) =>
                  if read_first v && negb (bool_decide (take 16 (read_header v) = id v)) then
                    (Ready (Ok (take room (read_header v))),
                     set_reader v (inner v) (drop room (read_header v)) false (content v) (padding v) (command v) true)
                  else
                    let h := drop (if read_first v then 16 else 0) (read_header v) in
                    if 2 <? nth 0 h 0 then
                      (Ready (Err (text "invalid Vision command")),
                       set_failed (set_reader v (inner v) (read_header v) false (content v) (padding v) (nth 0 h 0) (read_plain v)))
                    else
                      let v := set_reader v (inner v) [] false (Z.to_nat (u16_at h 1)) (Z.to_nat (u16_at h 3)) (nth 0 h 0) (read_plain v) in
                      if (64 <=? S frames)%nat then (Pending, v) else frame_loop fuel (S frames) room v
              end
        end
  end.

Definition poll_read (room : nat) (v : VisionStream) : poll (list Z) * VisionStream :=
  if (room =? 0)%nat then (Ready (Ok []), v)
  else if failed v then (Ready (Err (text "invalid Vision stream")), v)
  else match flush_frame v with
       | (Ready (Err e), v) => (Ready (Err e), v)
       | (_, v) => frame_loop 66 0 room v
       end.
