(* ===== verification/VisionRead.v ===== *)
(** * Reading through the Vision stream

    What a stream has left to deliver, as an interface: bytes, and how it ends.
    Every layer, the transport, [ResponseStream] and [VisionStream], is shown to
    deliver exactly what it has left, whatever the pieces of the transport and
    the sizes of the buffers. *)

From S2P Require Import Prelude FfiAbi RustStr IpText IpTextFacts Target Vless VisionTls Vision.
Local Open Scope Z_scope.

(** ** The interface *)

Inductive ending := Ends | Breaks.
Definition stream : Type := list Z * ending.
Definition prepend (b : list Z) (s : stream) : stream := (b ++ s.1, s.2).

Lemma prepend_nil s : prepend [] s = s.
Proof. by destruct s. Qed.

Lemma prepend_app a b s : prepend (a ++ b) s = prepend a (prepend b s).
Proof. unfold prepend. cbn [fst snd]. by rewrite <- app_assoc. Qed.

(** [left] is what a stream will deliver, [work] bounds the polls until it has. *)
Class Reader (S : Type) := { rd : nat -> S -> poll (list Z) * S; left : S -> stream; work : S -> nat; rd_ok : S -> Prop }.

(** What a poll does, given what was left before. *)
Definition delivers {S} `{Reader S} (n : nat) (before : stream) (w : nat) (r : poll (list Z) * S) : Prop :=
  match r with
  | (Pending, s) => rd_ok s /\ left s = before /\ (work s < w)%nat
  | (Ready (Ok []), s) => rd_ok s /\ before = ([], Ends) /\ left s = ([], Ends)
  | (Ready (Ok b), s) => rd_ok s /\ before = prepend b (left s) /\ (length b <= n)%nat /\ (work s + length b <= w)%nat
  | (Ready (Err _), _) => before = ([], Breaks)
  | (Ready Panicked, _) => False
  end.

Class ReaderLaws (S : Type) `{Reader S} := { rd_delivers : forall n s, (0 < n)%nat -> rd_ok s -> delivers n (left s) (work s) (rd n s) }.

(** Reading to the end: with buffers of any sizes, as often as [sizes] says. *)
Fixpoint read_to_end {S} `{Reader S} (sizes : list nat) (s : S) : option stream :=
  match sizes with
  | [] => None
  | n :: sizes =>
      match rd n s with
      | (Pending, s) => read_to_end sizes s
      | (Ready (Ok []), _) => Some ([], Ends)
      | (Ready (Ok b), s) => prepend b <$> read_to_end sizes s
      | (Ready _, _) => Some ([], Breaks)
      end
  end.

Lemma read_to_end_left {S} `{ReaderLaws S} sizes : forall s, rd_ok s -> Forall (lt 0) sizes -> (work s < length sizes)%nat ->
  read_to_end sizes s = Some (left s).
Proof.
  induction sizes as [|n sizes IH]; intros s Hs Hn Hw; [simpl in Hw; lia|]. apply Forall_cons in Hn as [Hn Hsz]. cbn [read_to_end].
  pose proof (rd_delivers n s Hn Hs) as Hd. simpl in Hw. destruct (rd n s) as [[|[[|x b]|e|]] s']; cbn [delivers] in Hd.
  - destruct Hd as (Hok & <- & Hlt). apply IH; [done | done | lia].
  - by destruct Hd as (_ & -> & _).
  - destruct Hd as (Hok & -> & _ & Hlt). simpl in Hlt. rewrite IH; [done | done | done | lia].
  - by rewrite Hd.
  - done.
Qed.

(** ** The transport *)

Definition source_work (s : source) : nat := foldr (fun p n => S (length p) + n)%nat 0%nat s.

#[global] Instance source_reader : Reader source := {
  rd := source_read; left s := (concat s, Ends); work := source_work; rd_ok _ := True
}.

#[global] Instance source_laws : ReaderLaws source.
Proof.
  split. intros n s Hn _. cbn [rd source_reader]. unfold source_read. destruct s as [|[|x p] s].
  - done.
  - cbn [delivers left work source_reader]. split; [done|]. split; [done|]. simpl. lia.
  - destruct n as [|n]; [lia|]. cbn [take delivers left work source_reader rd_ok]. split; [done|].
    assert (Hpre : x :: take n p = take (S n) (x :: p)) by done. rewrite Hpre. unfold prepend. cbn [fst snd].
    destruct (Nat.leb_spec (length (x :: p)) (S n)) as [Hl|Hl].
    + rewrite take_ge by done. split; [done|]. split; [done|]. simpl. lia.
    + split; [|split].
      * cbn [concat]. by rewrite app_assoc, take_drop.
      * rewrite length_take. lia.
      * cbn [source_work foldr]. rewrite length_take, length_drop. fold (source_work s). simpl in Hl. simpl length. lia.
Qed.

(** [RecordStream]: the bytes of one of two sources. *)
#[global] Instance rs_reader : Reader RecordStream := {
  rd := rs_poll_read; left s := left (if read_direct s then raw_in s else tls_in s);
  work s := (source_work (tls_in s) + source_work (raw_in s))%nat; rd_ok _ := True
}.

(** Reading leaves alone the direction, what is to come on the other source, and
    what has been written. *)
Record rs_same (s s' : RecordStream) : Prop := {
  sm_direct : read_direct s' = read_direct s;
  sm_raw : read_direct s = false -> raw_in s' = raw_in s;
  sm_tls_out : tls_out s' = tls_out s;
  sm_raw_out : raw_out s' = raw_out s;
  sm_write : write_direct s' = write_direct s;
  sm_events : events s' = events s
}.

#[global] Instance rs_same_refl : Reflexive rs_same.
Proof. by split. Qed.
#[global] Instance rs_same_trans : Transitive rs_same.
Proof. intros a b c [] []. split; try congruence. intros E. rewrite sm_raw1 by congruence. auto. Qed.

Lemma rs_read_same n s : rs_same s (rs_poll_read n s).2.
Proof. unfold rs_poll_read. destruct (read_direct s) eqn:E; destruct (source_read _ _); split; (done || congruence). Qed.

#[global] Instance rs_laws : ReaderLaws RecordStream.
Proof.
  split. intros n s Hn _. cbn [rd rs_reader]. unfold rs_poll_read. cbn [left work rs_reader]. destruct (read_direct s).
  - pose proof (rd_delivers n (raw_in s) Hn I) as Hd. cbn [rd left work source_reader] in Hd.
    destruct (source_read n (raw_in s)) as [[|[[|x b]|e|]] i]; cbn [delivers left work rs_reader source_reader rd_ok read_direct raw_in tls_in] in *;
      try done; destruct Hd as (_ & ? & ?); repeat split; (done || lia).
  - pose proof (rd_delivers n (tls_in s) Hn I) as Hd. cbn [rd left work source_reader] in Hd.
    destruct (source_read n (tls_in s)) as [[|[[|x b]|e|]] i]; cbn [delivers left work rs_reader source_reader rd_ok read_direct raw_in tls_in] in *;
      try done; destruct Hd as (_ & ? & ?); repeat split; (done || lia).
Qed.

(** ** [ResponseStream] *)

Definition strip (n : nat) (s : stream) : stream := if (length s.1 <? n)%nat then ([], Breaks) else (drop n s.1, s.2).

Definition resp_left (r : ResponseStream) : stream :=
  if rp_failed r then ([], Breaks)
  else if ready r then left (rp_inner r)
  else if (2 <=? length (header r))%nat then strip (discard r) (left (rp_inner r))
  else match header r ++ (left (rp_inner r)).1 with
       | version :: n :: rest =>
           if negb (version =? 0) then ([], Breaks) else strip (Z.to_nat n) (rest, (left (rp_inner r)).2)
       | _ => ([], Breaks)
       end.

Definition resp_ok (r : ResponseStream) : Prop := (length (header r) <= 2)%nat /\ (ready r = true -> length (header r) = 2%nat /\ rp_failed r = false).

#[global] Instance resp_reader : Reader ResponseStream := {
  rd := resp_poll_read; left := resp_left; work r := work (rp_inner r); rd_ok := resp_ok
}.

Lemma rs_ends s : (left (S := RecordStream) s).2 = Ends.
Proof. done. Qed.

(** What a poll of the inner stream can give. *)
Lemma rs_cases n s : (0 < n)%nat -> exists s', rs_same s s' /\
  ((rs_poll_read n s = (Pending, s') /\ left s' = left s /\ (work s' < work s)%nat) \/
   (rs_poll_read n s = (Ready (Ok []), s') /\ left s = ([], Ends) /\ left s' = ([], Ends)) \/
   (exists x b, rs_poll_read n s = (Ready (Ok (x :: b)), s') /\ left s = prepend (x :: b) (left s') /\ (length (x :: b) <= n)%nat /\
      (work s' + length (x :: b) <= work s)%nat)).
Proof.
  intros Hn. exists (rs_poll_read n s).2. split; [apply rs_read_same|].
  pose proof (rd_delivers n s Hn I) as Hd. cbn [rd rs_reader] in Hd.
  destruct (rs_poll_read n s) as [[|[[|x b]|e|]] s']; cbn [delivers snd] in *.
  - left. by destruct Hd as (_ & ? & ?).
  - right. left. by destruct Hd as (_ & ? & ?).
  - right. right. exists x, b. by destruct Hd as (_ & ? & ?).
  - apply (f_equal snd) in Hd. rewrite rs_ends in Hd. done.
  - done.
Qed.

(** What a loop at the start of a read may come to: an answer of the whole read,
    or a stream with as much left. *)
Definition resp_steps (r : ResponseStream) (res : option (poll (list Z)) * ResponseStream) : Prop :=
  rs_same (rp_inner r) (rp_inner res.2) /\ (ready r = true -> ready res.2 = true) /\
  match res with
  | (Some (Ready (Ok _)), _) => False
  | (Some o, r') => forall n, delivers n (resp_left r) (work r) (o, r')
  | (None, r') => resp_left r' = resp_left r /\ (work r' <= work r)%nat /\ resp_ok r' /\ rp_failed r' = false
  end.

Lemma resp_steps_more r r' res : resp_left r' = resp_left r -> (work r' <= work r)%nat -> rs_same (rp_inner r) (rp_inner r') ->
  (ready r = true -> ready r' = true) -> resp_steps r' res -> resp_steps r res.
Proof.
  intros El Hw Hs Hr (Hs' & Hr' & H). split; [by etrans|]. split; [auto|].
  destruct res as [[[|[b|e|]]|] r2]; try done.
  - intros n. specialize (H n). cbn [delivers] in *. rewrite <- El. destruct H as (? & ? & ?). split; [done|]. split; [done | lia].
  - intros n. specialize (H n). cbn [delivers] in *. by rewrite <- El.
  - destruct H as (? & ? & ? & ?). rewrite <- El. split; [done|]. split; [lia | done].
Qed.

Lemma header_loop_steps fuel : forall r, resp_ok r -> rp_failed r = false -> (2 - length (header r) <= fuel)%nat ->
  resp_steps r (header_loop fuel r) /\ ((header_loop fuel r).1 = None -> length (header (header_loop fuel r).2) = 2%nat).
Proof.
  induction fuel as [|fuel IH]; intros r [Hh Hr] Hf Hfu.
  all: cbn [header_loop]; destruct (Nat.leb_spec 2 (length (header r))) as [H2|H2].
  all: try (split; [split; [done|]; split; [done|]; done | intros _; cbn [snd]; lia]).
  { lia. }
  assert (Hrd : ready r = false) by (destruct (ready r); [destruct (Hr eq_refl); lia | done]).
  assert (Hl : resp_left r = match header r ++ (left (rp_inner r)).1 with
     | version :: n :: rest => if negb (version =? 0) then ([], Breaks) else strip (Z.to_nat n) (rest, (left (rp_inner r)).2)
     | _ => ([], Breaks) end).
  { unfold resp_left. rewrite Hf, Hrd. by rewrite (proj2 (Nat.leb_gt _ _)) by done. }
  destruct (rs_cases (2 - length (header r)) (rp_inner r)) as (i & Hs & Hc); [lia|].
  destruct Hc as [(-> & El & Hw)|[(-> & El & _)|(x & b & -> & El & Hlen & Hw)]].
  - split; [|done]. split; [done|]. split; [done|]. intros n. split; [by split|]. split; [|done].
    rewrite Hl. cbn [left resp_reader]. unfold resp_left. cbn [with_inner rp_failed ready header rp_inner]. rewrite Hf, Hrd, El.
    by rewrite (proj2 (Nat.leb_gt _ _)) by done.
  - split; [|done]. split; [done|]. split; [done|]. intros n. cbn [delivers]. rewrite Hl, El. cbn [fst]. rewrite app_nil_r.
    by destruct (header r) as [|? [|? ?]]; [..|simpl in H2; lia].
  - set (h := header r ++ x :: b) in *. assert (Hhl : (length h <= 2)%nat) by (unfold h; rewrite length_app; lia).
    assert (Hh1 : (length (header r) < length h)%nat) by (unfold h; rewrite length_app; simpl; lia).
    rewrite El in Hl. unfold prepend in Hl. cbn [fst snd] in Hl. rewrite app_assoc in Hl. fold h in Hl.
    destruct (Nat.eqb_spec (length h) 2) as [E2|E2].
    + destruct h as [|v [|k [|? ?]]] eqn:Eh; try (simpl in E2; lia). cbn [app nth] in *. destruct (negb (v =? 0)) eqn:Ev.
      * split; [|done]. split; [done|]. split; [done|]. done.
      * set (r1 := mk_resp i [v; k] (Z.to_nat k) (ready r) (rp_failed r)).
        assert (Hr1 : resp_ok r1) by (split; [done | intros _; done]).
        destruct (IH r1 Hr1 Hf) as [Hst Hn]; [simpl; lia|]. split; [|exact Hn].
        apply (resp_steps_more r r1); [|simpl in *; lia | done | done | done].
        rewrite Hl. unfold resp_left, r1. cbn [rp_failed ready header rp_inner discard length]. rewrite Hf, Hrd. cbn [Nat.leb]. by destruct (left i).
    + set (r1 := mk_resp i h (discard r) (ready r) (rp_failed r)).
      assert (Hr1 : resp_ok r1) by (split; [done | unfold r1; cbn [ready]; rewrite Hrd; done]).
      destruct (IH r1 Hr1 Hf) as [Hst Hn]; [unfold r1; cbn [header]; lia|]. split; [|exact Hn].
      apply (resp_steps_more r r1); [|simpl in *; lia | done | done | done].
      rewrite Hl. unfold resp_left, r1. cbn [rp_failed ready header rp_inner]. rewrite Hf, Hrd. by rewrite (proj2 (Nat.leb_gt _ _)) by lia.
Qed.

Lemma strip_prepend n b s : (length b <= n)%nat -> strip n (prepend b s) = strip (n - length b) s.
Proof.
  intros Hb. unfold strip, prepend. cbn [fst snd]. rewrite length_app.
  destruct (Nat.ltb_spec (length b + length s.1) n), (Nat.ltb_spec (length s.1) (n - length b)); try lia; [done|].
  by rewrite drop_app_ge by lia.
Qed.

Lemma discard_loop_steps fuel : forall r, length (header r) = 2%nat -> rp_failed r = false -> (discard r <= fuel)%nat ->
  resp_steps r (discard_loop fuel r) /\
  ((discard_loop fuel r).1 = None -> length (header (discard_loop fuel r).2) = 2%nat /\
     (ready (discard_loop fuel r).2 = true \/ discard (discard_loop fuel r).2 = 0%nat)).
Proof.
  induction fuel as [|fuel IH]; intros r Hh Hf Hfu.
  all: cbn [discard_loop]; destruct (ready r || (discard r =? 0)%nat) eqn:E.
  all: try (split; [split; [done|]; split; [done|]; split; [done|]; split; [done|]; split; [split; [lia | done] | done] |
    intros _; cbn [snd]; split; [done|]; apply orb_true_iff in E as [|E%Nat.eqb_eq]; auto]).
  { apply orb_false_iff in E as [_ E%Nat.eqb_neq]. lia. }
  apply orb_false_iff in E as [Hrd Hd%Nat.eqb_neq].
  assert (Hl : forall i d, resp_left (mk_resp i (header r) d (ready r) (rp_failed r)) = strip d (left i)).
  { intros i d. unfold resp_left. cbn [rp_failed ready header rp_inner discard]. rewrite Hf, Hrd, Hh. done. }
  assert (Hl0 : resp_left r = strip (discard r) (left (rp_inner r))) by (rewrite <- Hl; by destruct r).
  assert (Hok : forall i d, resp_ok (mk_resp i (header r) d (ready r) (rp_failed r))).
  { intros i d. split; cbn [header ready]; [lia | done]. }
  destruct (rs_cases (discard r) (rp_inner r)) as (i & Hs & Hc); [lia|].
  destruct Hc as [(-> & El & Hw)|[(-> & El & _)|(x & b & -> & El & Hlen & Hw)]].
  - split; [|done]. split; [done|]. split; [done|]. intros n. split; [apply Hok|]. split; [|done].
    cbn [left resp_reader]. unfold with_inner. by rewrite Hl, Hl0, El.
  - split; [|done]. split; [done|]. split; [done|]. intros n. cbn [delivers]. rewrite Hl0, El. unfold strip. cbn [fst length].
    by rewrite (proj2 (Nat.ltb_lt _ _)) by lia.
  - set (r1 := mk_resp i (header r) (discard r - length (x :: b)) (ready r) (rp_failed r)).
    destruct (IH r1 Hh Hf) as [Hst Hn]; [unfold r1; cbn [discard]; simpl length in *; lia|]. split; [|exact Hn].
    apply (resp_steps_more r r1); [|simpl in *; lia | done | done | done].
    unfold r1. rewrite Hl, Hl0, El. by rewrite strip_prepend.
Qed.

Lemma resp_read_spec n r : (0 < n)%nat -> resp_ok r ->
  delivers n (resp_left r) (work r) (resp_poll_read n r) /\ rs_same (rp_inner r) (rp_inner (resp_poll_read n r).2) /\
  (ready r = true -> ready (resp_poll_read n r).2 = true) /\
  (match (resp_poll_read n r).1 with Ready (Ok _) => ready (resp_poll_read n r).2 = true | _ => True end).
Proof.
  intros Hn Hok. unfold resp_poll_read. rewrite (proj2 (Nat.eqb_neq n 0)) by lia.
  destruct (rp_failed r) eqn:Hf; [split; [|done]; unfold resp_left; by rewrite Hf|].
  destruct (header_loop_steps 2 r Hok Hf) as [(Hs1 & Hr1 & H1) Hn1]; [lia|].
  destruct (header_loop 2 r) as [[[|[b|e|]]|] r1]; cbn [fst snd] in *; try done; [by split; [apply (H1 n)|]..|].
  destruct H1 as (El1 & Hw1 & Hok1 & Hf1). specialize (Hn1 eq_refl).
  destruct (discard_loop_steps (discard r1) r1 Hn1 Hf1) as [(Hs2 & Hr2 & H2) Hn2]; [lia|].
  destruct (discard_loop (discard r1) r1) as [[[|[b|e|]]|] r2]; cbn [fst snd] in *; try done.
  - split; [|split; [by etrans | by auto]]. specialize (H2 n). cbn [delivers] in *. rewrite <- El1. destruct H2 as (? & ? & ?).
    split; [done|]. split; [done | lia].
  - split; [|split; [by etrans | by auto]]. specialize (H2 n). cbn [delivers] in *. by rewrite <- El1.
  - by destruct (H2 n).
  - destruct H2 as (El2 & Hw2 & Hok2 & Hf2). destruct (Hn2 eq_refl) as [Hh2 Hd2].
    assert (El : resp_left r = left (rp_inner r2)).
    { rewrite <- El1, <- El2. unfold resp_left. rewrite Hf2, Hh2. destruct (ready r2); [done|]. destruct Hd2 as [|Hd2]; [done|].
      unfold strip. rewrite Hd2. cbn [Nat.leb Nat.ltb]. rewrite drop_0. by destruct (left (rp_inner r2)). }
    assert (Hready : forall i, resp_left (with_inner (mk_resp (rp_inner r2) (header r2) (discard r2) true (rp_failed r2)) i) = left i).
    { intros i. unfold resp_left. cbn [with_inner rp_failed ready rp_inner]. by rewrite Hf2. }
    assert (Hrok : forall i, resp_ok (with_inner (mk_resp (rp_inner r2) (header r2) (discard r2) true (rp_failed r2)) i)).
    { intros i. split; cbn [with_inner header]; [lia | done]. }
    cbn [rp_inner]. destruct (rs_cases n (rp_inner r2) Hn) as (i & Hs & Hc).
    assert (Hsame : rs_same (rp_inner r) i) by (etrans; [|exact Hs]; by etrans).
    destruct Hc as [(-> & Ei & Hw)|[(-> & Ei & Ei')|(x & b & -> & Ei & Hlen & Hw)]]; (split; [|done]).
    + split; [apply Hrok|]. cbn [left resp_reader]. rewrite Hready, Ei. split; [done|]. cbn [work resp_reader with_inner rp_inner] in *. lia.
    + split; [apply Hrok|]. cbn [left resp_reader]. rewrite Hready, Ei'. split; [by rewrite El|done].
    + split; [apply Hrok|]. cbn [left resp_reader]. rewrite Hready, El. split; [done|]. split; [done|].
      cbn [work resp_reader with_inner rp_inner] in *. lia.
Qed.

#[global] Instance resp_laws : ReaderLaws ResponseStream.
Proof. split. intros n r Hn Hok. by apply resp_read_spec. Qed.

(** The same, by cases. *)
Lemma resp_cases n r : (0 < n)%nat -> resp_ok r -> exists r', rs_same (rp_inner r) (rp_inner r') /\ (ready r = true -> ready r' = true) /\
  ((resp_poll_read n r = (Pending, r') /\ resp_ok r' /\ left r' = left r /\ (work r' < work r)%nat) \/
   (resp_poll_read n r = (Ready (Ok []), r') /\ resp_ok r' /\ left r = ([], Ends) /\ left r' = ([], Ends) /\ ready r' = true) \/
   (exists x b, resp_poll_read n r = (Ready (Ok (x :: b)), r') /\ resp_ok r' /\ left r = prepend (x :: b) (left r') /\
      (length (x :: b) <= n)%nat /\ (work r' + length (x :: b) <= work r)%nat /\ ready r' = true) \/
   (exists e, resp_poll_read n r = (Ready (Err e), r') /\ left r = ([], Breaks))).
Proof.
  intros Hn Hok. exists (resp_poll_read n r).2. destruct (resp_read_spec n r Hn Hok) as (Hd & Hs & Hr & Hk). split; [done|]. split; [done|].
  destruct (resp_poll_read n r) as [[|[[|x b]|e|]] r']; cbn [delivers fst snd] in *; [| | | |done].
  - left. by destruct Hd as (? & ? & ?).
  - right. left. by destruct Hd as (? & ? & ?).
  - right. right. left. exists x, b. by destruct Hd as (? & ? & ? & ?).
  - right. right. right. by exists e.
Qed.
