(* ===== verification/VisionDecode.v ===== *)
(** * The Vision stream delivers what its frames contain

    The framing as a function of all the bytes, and the proof that the stream,
    polled in any way, delivers exactly that. *)

From S2P Require Import Prelude FfiAbi RustStr IpText IpTextFacts Target Vless VisionTls Vision VisionRead.
Local Open Scope Z_scope.

(** ** The framing *)

(** A frame behind its header: [c] bytes of content and [p] of padding; then the
    next frame, or the plain bytes, or the bytes under TLS. *)
Definition frame_body (c p : nat) (cmd : Z) (T raw : stream) (next : stream -> stream) : stream :=
  if (length T.1 <? c)%nat then (T.1, Breaks)
  else prepend (take c T.1)
    (if (length (drop c T.1) <? p)%nat then ([], Breaks)
     else
       let T := (drop p (drop c T.1), T.2) in
       if cmd =? 0 then next T else if cmd =? 2 then raw else T).

(** From the header of a frame on; a frame takes five bytes or more. *)
Fixpoint decode_frames (fuel : nat) (id : list Z) (first : bool) (T raw : stream) : stream :=
  match fuel with
  | O => ([], Breaks)
  | S fuel =>
      if bool_decide (T.1 = []) then T
      else if (length T.1 <? header_need first)%nat then ([], Breaks)
      else if first && negb (bool_decide (take 16 T.1 = id)) then T
      else
        let h := drop (if first then 16 else 0) T.1 in
        if 2 <? nth 0 h 0 then ([], Breaks)
        else frame_body (Z.to_nat (u16_at h 1)) (Z.to_nat (u16_at h 3)) (nth 0 h 0) (drop 5 h, T.2) raw
               (fun T => decode_frames fuel id false T raw)
  end.

Definition decode (id : list Z) (first : bool) (T raw : stream) : stream := decode_frames (S (length T.1)) id first T raw.

Lemma frame_body_ext c p cmd T raw k k' : (forall T', (length T'.1 <= length T.1)%nat -> k T' = k' T') ->
  frame_body c p cmd T raw k = frame_body c p cmd T raw k'.
Proof.
  intros Hk. unfold frame_body. destruct (_ <? c)%nat; [done|]. f_equal. destruct (_ <? p)%nat; [done|]. cbv zeta.
  destruct (cmd =? 0); [|done]. apply Hk. cbn [fst]. rewrite !length_drop. lia.
Qed.

Lemma decode_frames_fuel n : forall n' id first T raw, (length T.1 < n)%nat -> (n <= n')%nat ->
  decode_frames n id first T raw = decode_frames n' id first T raw.
Proof.
  induction n as [|n IH]; intros n' id first T raw Hn Hnn; [lia|]. destruct n' as [|n']; [lia|]. cbn [decode_frames].
  destruct (bool_decide _); [done|]. destruct (Nat.ltb_spec (length T.1) (header_need first)) as [|Hl]; [done|].
  destruct (_ && _); [done|]. cbv zeta. destruct (2 <? _); [done|]. apply frame_body_ext. intros T' HT. apply IH; [|lia].
  cbn [fst] in HT. rewrite !length_drop in HT. unfold header_need in Hl. destruct first; lia.
Qed.

Lemma decode_step id first T raw : T.1 <> [] -> (header_need first <= length T.1)%nat ->
  (first && negb (bool_decide (take 16 T.1 = id))) = false ->
  decode id first T raw =
    let h := drop (if first then 16 else 0) T.1 in
    if 2 <? nth 0 h 0 then ([], Breaks)
    else frame_body (Z.to_nat (u16_at h 1)) (Z.to_nat (u16_at h 3)) (nth 0 h 0) (drop 5 h, T.2) raw (fun T => decode id false T raw).
Proof.
  intros Hne Hl Hid. unfold decode at 1. cbn [decode_frames]. rewrite bool_decide_eq_false_2 by done.
  rewrite (proj2 (Nat.ltb_ge _ _)) by done. rewrite Hid. cbv zeta. destruct (2 <? _); [done|]. apply frame_body_ext.
  intros T' HT. unfold decode. symmetry. apply decode_frames_fuel; [lia|].
  cbn [fst] in HT. rewrite !length_drop in HT. unfold header_need in Hl. destruct first; lia.
Qed.

Lemma decode_nil id first e raw : decode id first ([], e) raw = ([], e).
Proof. done. Qed.

Lemma decode_short id first T raw : T.1 <> [] -> (length T.1 < header_need first)%nat -> decode id first T raw = ([], Breaks).
Proof.
  intros Hne Hl. unfold decode. cbn [decode_frames]. rewrite bool_decide_eq_false_2 by done. by rewrite (proj2 (Nat.ltb_lt _ _)).
Qed.

Lemma decode_pass id T raw : T.1 <> [] -> (21 <= length T.1)%nat -> take 16 T.1 <> id -> decode id true T raw = T.
Proof.
  intros Hne Hl Hid. unfold decode. cbn [decode_frames]. rewrite bool_decide_eq_false_2 by done.
  rewrite (proj2 (Nat.ltb_ge _ _)) by done. by rewrite bool_decide_eq_false_2.
Qed.

(** Content and padding come off the front. *)
Lemma frame_body_content c p cmd b T raw k : (length b <= c)%nat ->
  frame_body c p cmd (prepend b T) raw k = prepend b (frame_body (c - length b) p cmd T raw k).
Proof.
  intros Hb. unfold frame_body. cbn [prepend fst snd]. rewrite length_app.
  destruct (Nat.ltb_spec (length b + length T.1) c), (Nat.ltb_spec (length T.1) (c - length b)); try lia; [done|].
  rewrite take_app_ge, drop_app_ge by done. by rewrite prepend_app.
Qed.

Lemma frame_body_padding p cmd b T raw k : (length b <= p)%nat ->
  frame_body 0 p cmd (prepend b T) raw k = frame_body 0 (p - length b) cmd T raw k.
Proof.
  intros Hb. unfold frame_body. rewrite !(proj2 (Nat.ltb_ge _ 0)) by lia. cbn [prepend fst snd]. rewrite !take_0, !drop_0, length_app. f_equal.
  destruct (Nat.ltb_spec (length b + length T.1) p), (Nat.ltb_spec (length T.1) (p - length b)); try lia; [done|].
  by rewrite drop_app_ge.
Qed.

Lemma frame_body_done cmd T raw k : frame_body 0 0 cmd T raw k = if cmd =? 0 then k T else if cmd =? 2 then raw else T.
Proof.
  unfold frame_body. rewrite !(proj2 (Nat.ltb_ge _ 0)) by lia. rewrite take_0, !drop_0, prepend_nil. by destruct T.
Qed.

(** ** The stream as a reader *)

Definition raw_left (v : VisionStream) : stream := (concat (raw_in (rp_inner (inner v))), Ends).

Definition vision_left (v : VisionStream) : stream :=
  if failed v then ([], Breaks)
  else if read_plain v then prepend (read_header v) (left (inner v))
  else frame_body (content v) (padding v) (command v) (left (inner v)) (raw_left v)
         (fun T => decode (id v) (read_first v) (prepend (read_header v) T) (raw_left v)).

Definition vision_work (v : VisionStream) : nat := (2 * work (inner v) + length (read_header v))%nat.

(** A transport that takes what is written, sooner or later. *)
Definition event_good (e : event) : Prop := match e with Wait => True | Accept n => (0 < n)%nat | Fault _ => False end.

Record vision_ok (v : VisionStream) : Prop := {
  vo_resp : resp_ok (inner v);
  vo_direct : read_plain v = false -> read_direct (rp_inner (inner v)) = false;
  vo_header : read_plain v = false -> (length (read_header v) < header_need (read_first v))%nat;
  vo_between : read_plain v = false -> read_header v <> [] -> content v = 0%nat /\ padding v = 0%nat /\ command v = 0;
  vo_ready : read_plain v = false -> read_header v <> [] \/ command v <> 0 -> ready (inner v) = true;
  vo_failed : failed v = false;
  vo_events : Forall event_good (events (rp_inner (inner v)))
}.

#[global] Instance vision_reader : Reader VisionStream := {
  rd := poll_read; left := vision_left; work := vision_work; rd_ok := vision_ok
}.

Lemma delivers_more n (b b' : stream) w w' (r : poll (list Z) * VisionStream) : delivers n b' w' r -> b' = b -> (w' <= w)%nat -> delivers n b w r.
Proof.
  intros Hd <- Hw. destruct r as [[|[[|x c]|e|]] v]; cbn [delivers] in *; try done.
  - destruct Hd as (? & ? & ?). split; [done|]. split; [done | lia].
  - destruct Hd as (? & ? & ? & ?). split; [done|]. split; [done|]. split; [done | lia].
Qed.

(** A state of the reader after a step of the stream below. *)
Lemma reader_ok v i h first c p cmd plain : vision_ok v -> resp_ok i -> rs_same (rp_inner (inner v)) (rp_inner i) ->
  (plain = false -> read_plain v = false) ->
  (plain = false -> (length h < header_need first)%nat /\ (h <> [] -> c = 0%nat /\ p = 0%nat /\ cmd = 0) /\
     (h <> [] \/ cmd <> 0 -> ready i = true)) ->
  vision_ok (set_reader v i h first c p cmd plain).
Proof.
  intros Hv Hi Hs Hpl Hh. destruct Hs. split; cbn [set_reader inner read_plain read_header read_first content padding command failed]; try done.
  - intros Hp. rewrite sm_direct. apply (vo_direct v Hv). auto.
  - intros Hp. by apply Hh.
  - intros Hp. by apply Hh.
  - intros Hp. by apply Hh.
  - apply (vo_failed v Hv).
  - rewrite sm_events. apply (vo_events v Hv).
Qed.

Lemma raw_left_same v i h first c p cmd plain : rs_same (rp_inner (inner v)) (rp_inner i) -> read_direct (rp_inner (inner v)) = false ->
  raw_left (set_reader v i h first c p cmd plain) = raw_left v.
Proof. intros Hs Hd. unfold raw_left. cbn [set_reader inner]. by rewrite (sm_raw _ _ Hs Hd). Qed.

(** What is left, between the content of frames. *)
Lemma vision_left_frame v : failed v = false -> read_plain v = false ->
  vision_left v = frame_body (content v) (padding v) (command v) (left (inner v)) (raw_left v)
    (fun T => decode (id v) (read_first v) (prepend (read_header v) T) (raw_left v)).
Proof. intros Hf Hp. unfold vision_left. by rewrite Hf, Hp. Qed.

(** A loop in the middle of a read ends the read, or goes on with as much left. *)
Definition vision_steps (v : VisionStream) (res : option (poll (list Z)) * VisionStream) (post : VisionStream -> Prop) : Prop :=
  match res with
  | (Some o, v') => forall n, delivers n (vision_left v) (vision_work v) (o, v')
  | (None, v') => vision_ok v' /\ vision_left v' = vision_left v /\ (vision_work v' <= vision_work v)%nat /\ post v'
  end.

Lemma vision_steps_more v v1 res post : vision_left v1 = vision_left v -> (vision_work v1 <= vision_work v)%nat ->
  vision_steps v1 res post -> vision_steps v res post.
Proof.
  intros El Hw H. destruct res as [[o|] v'].
  - intros n. eapply delivers_more; [apply (H n) | done | done].
  - destruct H as (? & E & ? & ?). split; [done|]. split; [by rewrite E|]. split; [lia | done].
Qed.

Lemma padding_loop_spec fuel : forall v, vision_ok v -> read_plain v = false -> content v = 0%nat -> (padding v <= fuel)%nat ->
  vision_steps v (padding_loop fuel v) (fun v' => padding v' = 0%nat /\ content v' = 0%nat /\ read_plain v' = false).
Proof.
  induction fuel as [|fuel IH]; intros v Hv Hp Hc Hfu.
  all: cbn [padding_loop]; destruct (Nat.eqb_spec (padding v) 0) as [E0|E0]; [by split|].
  { lia. }
  assert (Hh : read_header v = []).
  { destruct (decide (read_header v = [])) as [|Hne]; [done|]. by destruct (vo_between v Hv Hp Hne) as (_ & ? & _). }
  pose proof (vo_failed v Hv) as Hf. pose proof (vision_left_frame v Hf Hp) as Hl. rewrite Hc in Hl.
  pose proof (vo_direct v Hv Hp) as Hd.
  destruct (resp_cases (Nat.min (padding v) (Z.to_nat 2048)) (inner v)) as (i & Hs & Hr & Hcases); [lia | apply (vo_resp v Hv)|].
  assert (Hok : forall p, resp_ok i -> vision_ok (set_reader v i (read_header v) (read_first v) (content v) p (command v) (read_plain v))).
  { intros p Hi. apply reader_ok; try done. intros _. split; [by apply vo_header|]. split; [done|]. intros [?|?]; [done|].
    apply Hr. by apply (vo_ready v Hv Hp); right. }
  destruct Hcases as [(-> & Hi & El & Hw)|[(-> & Hi & El & _)|[(x & b & -> & Hi & El & Hlen & Hw & _)|(e & -> & El)]]].
  - intros n. cbn [delivers]. split; [by apply Hok|]. split.
    + cbn [left vision_reader]. rewrite vision_left_frame, Hl by done. unfold set_inner. rewrite (raw_left_same v i) by done.
      cbn [set_reader content padding command inner id read_first read_header]. by rewrite Hc, El.
    + cbn [work vision_reader]. unfold vision_work. cbn [set_inner set_reader inner read_header]. lia.
  - intros n. cbn [delivers]. rewrite Hl, El. unfold frame_body. cbn [fst length drop take]. rewrite (proj2 (Nat.ltb_ge _ 0)) by lia.
    rewrite drop_nil. by rewrite (proj2 (Nat.ltb_lt _ _)) by (simpl; lia).
  - set (v1 := set_reader v i (read_header v) (read_first v) (content v) (padding v - length (x :: b)) (command v) (read_plain v)).
    apply (vision_steps_more v v1).
    + rewrite (vision_left_frame v1) by done. unfold v1. rewrite (raw_left_same v i) by done.
      cbn [set_reader content padding command inner id read_first read_header]. rewrite Hc, Hl, El. rewrite frame_body_padding by lia. done.
    + unfold vision_work, v1. cbn [set_reader inner read_header]. lia.
    + apply IH; [by apply Hok | done | done |]. unfold v1. cbn [set_reader padding]. simpl length. lia.
  - intros n. cbn [delivers]. rewrite Hl, El. unfold frame_body. cbn [fst]. rewrite (proj2 (Nat.ltb_ge _ 0)) by lia.
    rewrite drop_nil. by rewrite (proj2 (Nat.ltb_lt _ _)) by (simpl; lia).
Qed.

Lemma read_header_loop_spec fuel : forall v, vision_ok v -> read_plain v = false -> content v = 0%nat -> padding v = 0%nat -> command v = 0 ->
  (header_need (read_first v) - length (read_header v) <= fuel)%nat ->
  match read_header_loop fuel (header_need (read_first v)) v with
  | (Some o, v') => forall n, delivers n (vision_left v) (vision_work v) (o, v')
  | (None, v') => length (read_header v') = header_need (read_first v) /\ (vision_work v' < vision_work v)%nat /\
      (exists i, resp_ok i /\ rs_same (rp_inner (inner v)) (rp_inner i) /\ ready i = true /\
         v' = set_reader v i (read_header v') (read_first v) 0 0 0 false /\
         prepend (read_header v') (left i) = prepend (read_header v) (left (inner v)))
  end.
Proof.
  induction fuel as [|fuel IH]; intros v Hv Hp Hc Hpad Hcmd Hfu.
  all: cbn [read_header_loop]; pose proof (vo_header v Hv Hp) as Hlen; rewrite (proj2 (Nat.leb_gt _ _)) by done.
  { lia. }
  pose proof (vo_failed v Hv) as Hf. pose proof (vision_left_frame v Hf Hp) as Hl. rewrite Hc, Hpad, Hcmd, frame_body_done in Hl.
  change (0 =? 0) with true in Hl. cbn iota in Hl. pose proof (vo_direct v Hv Hp) as Hd.
  destruct (resp_cases (header_need (read_first v) - length (read_header v)) (inner v)) as (i & Hs & Hr & Hcases); [lia | apply (vo_resp v Hv)|].
  destruct Hcases as [(-> & Hi & El & Hw)|[(-> & Hi & El & El' & _)|[(x & b & -> & Hi & El & Hbl & Hw & Hrd)|(e & -> & El)]]].
  - intros n. cbn [delivers]. split.
    + apply reader_ok; try done. intros _. split; [done|]. split; [done|]. intros Hor. apply Hr. by apply (vo_ready v Hv Hp).
    + split; [|cbn [work vision_reader]; unfold vision_work; cbn [set_inner set_reader inner read_header]; lia].
      cbn [left vision_reader]. rewrite vision_left_frame, Hl by done. unfold set_inner. rewrite (raw_left_same v i) by done.
      cbn [set_reader content padding command inner id read_first read_header]. by rewrite Hc, Hpad, Hcmd, frame_body_done, El.
  - intros n. rewrite El in Hl. destruct (Nat.eqb_spec (length (read_header v)) 0) as [E0|E0].
    + apply nil_length_inv in E0. rewrite E0 in Hl. cbn [delivers]. split; [|split].
      * apply reader_ok; try done. intros _. split; [done|]. split; [done|]. intros Hor. apply Hr. by apply (vo_ready v Hv Hp).
      * by rewrite Hl.
      * cbn [left vision_reader]. rewrite vision_left_frame by done. unfold set_inner. rewrite (raw_left_same v i) by done.
        cbn [set_reader content padding command inner id read_first read_header]. by rewrite Hc, Hpad, Hcmd, frame_body_done, El', E0.
    + cbn [delivers]. rewrite Hl. unfold prepend. cbn [fst]. rewrite app_nil_r. apply decode_short; [|done]. by destruct (read_header v).
  - set (v1 := set_reader v i (read_header v ++ x :: b) (read_first v) (content v) (padding v) (command v) (read_plain v)).
    assert (Ew : (vision_work v1 < vision_work v)%nat) by (unfold vision_work, v1; cbn [set_reader inner read_header]; rewrite length_app; simpl length in *; lia).
    assert (Epre : prepend (read_header v ++ x :: b) (left i) = prepend (read_header v) (left (inner v))) by (by rewrite El, prepend_app).
    destruct (decide (length (read_header v ++ x :: b) < header_need (read_first v))%nat) as [Hlt|Hge].
    + assert (Hv1 : vision_ok v1) by (apply reader_ok; done).
      assert (El1 : vision_left v1 = vision_left v).
      { rewrite (vision_left_frame v1) by done. unfold v1. rewrite (raw_left_same v i) by done.
        cbn [set_reader content padding command inner id read_first read_header]. by rewrite Hc, Hpad, Hcmd, frame_body_done, Epre, Hl. }
      specialize (IH v1 Hv1 Hp Hc Hpad Hcmd). change (read_first v1) with (read_first v) in IH.
      destruct (read_header_loop fuel (header_need (read_first v)) v1) as [[o|] v'].
      * intros n. eapply delivers_more; [apply IH | done | lia]. unfold v1. cbn [set_reader read_header]. rewrite length_app. simpl length. lia.
      * destruct IH as (Hln & Hw' & i' & Hi' & Hs' & Hrd' & Ev' & Ep').
        { unfold v1. cbn [set_reader read_header]. rewrite length_app. simpl length. lia. }
        split; [done|]. split; [lia|]. exists i'. split; [done|]. split; [by etrans|]. split; [done|].
        split; [exact Ev'|]. rewrite Ep'. exact Epre.
    + assert (Hln : length (read_header v ++ x :: b) = header_need (read_first v)) by (rewrite length_app in *; lia).
      assert (Estop : read_header_loop fuel (header_need (read_first v)) v1 = (None, v1)).
      { assert (Hleb : (header_need (read_first v) <=? length (read_header v1))%nat = true) by (apply Nat.leb_le; unfold v1; cbn [set_reader read_header]; lia).
        by destruct fuel; cbn [read_header_loop]; rewrite Hleb. }
      rewrite Estop. split; [done|]. split; [done|]. exists i. split; [done|]. split; [done|]. split; [done|].
      split; [unfold v1; cbn [set_reader read_header]; by rewrite Hc, Hpad, Hcmd, Hp | exact Epre].
  - intros n. cbn [delivers]. rewrite Hl, El. destruct (decide (read_header v = [])) as [E0|E0]; [by rewrite E0|].
    unfold prepend. cbn [fst]. apply decode_short; rewrite app_nil_r; done.
Qed.

(** ** One poll *)

Lemma take_nonempty {A} n (l : list A) : (0 < n)%nat -> l <> [] -> exists x b, take n l = x :: b.
Proof. intros Hn Hl. destruct n; [lia|]. destruct l as [|x l]; [done|]. by exists x, (take n l). Qed.

(** Handing out bytes of the header that turned out to be plain. *)
Lemma plain_header_delivers room v h i first c p cmd w : vision_ok v -> (0 < room)%nat -> h <> [] -> resp_ok i ->
  rs_same (rp_inner (inner v)) (rp_inner i) -> (2 * work i + length h <= w)%nat ->
  delivers room (prepend h (left i)) w
    (Ready (Ok (take room h)), set_reader v i (drop room h) first c p cmd true).
Proof.
  intros Hv Hr Hh Hi Hs Hw. destruct (take_nonempty room h Hr Hh) as (x & b & E). rewrite E. cbn [delivers].
  pose proof (f_equal length E) as El. rewrite length_take in El. split; [by apply reader_ok|].
  cbn [left work vision_reader]. unfold vision_left, vision_work. cbn [set_reader failed read_plain read_header inner].
  rewrite (vo_failed v Hv), <- E, <- prepend_app, take_drop, length_take, length_drop. split; [done|]. split; [lia|]. lia.
Qed.

Lemma plain_delivers room v : vision_ok v -> (0 < room)%nat -> read_plain v = true ->
  delivers room (vision_left v) (vision_work v) (frame_loop 1 0 room v).
Proof.
  intros Hv Hr Hp. pose proof (vo_failed v Hv) as Hf. cbn [frame_loop]. rewrite Hp. unfold vision_left. rewrite Hf, Hp.
  case_bool_decide as Hh; cbn [negb].
  - rewrite Hh, prepend_nil. destruct (resp_cases room (inner v) Hr (vo_resp v Hv)) as (i & Hs & _ & Hcases).
    assert (Hok : resp_ok i -> vision_ok (set_inner v i)) by (intros; apply reader_ok; try done; by rewrite Hp).
    assert (Hl : vision_left (set_inner v i) = left i).
    { unfold vision_left. cbn [set_inner set_reader failed read_plain read_header inner]. by rewrite Hf, Hp, Hh, prepend_nil. }
    assert (Hw : vision_work (set_inner v i) = (2 * work i + 0)%nat /\ vision_work v = (2 * work (inner v) + 0)%nat).
    { unfold vision_work. cbn [set_inner set_reader read_header inner]. by rewrite Hh. }
    destruct Hw as [Hw1 Hw2]. rewrite Hw2.
    destruct Hcases as [(-> & Hi & El & Hw)|[(-> & Hi & El & El' & _)|[(x & b & -> & Hi & El & Hbl & Hw & Hrd)|(e & -> & El)]]];
      cbn [delivers]; cbn [left work rd_ok vision_reader]; rewrite ?Hl, ?Hw1.
    + split; [by apply Hok|]. split; [done | lia].
    + by split; [apply Hok|].
    + split; [by apply Hok|]. split; [done|]. split; [done|]. simpl length in *. lia.
    + done.
  - apply plain_header_delivers; try done. apply (vo_resp v Hv).
Qed.

Lemma plain_any_fuel fuel frames room v : read_plain v = true -> frame_loop (S fuel) frames room v = frame_loop 1 0 room v.
Proof. intros Hp. cbn [frame_loop]. by rewrite Hp. Qed.

(** The end of the framing. *)
Lemma switch_plain v : vision_ok v -> read_plain v = false -> content v = 0%nat -> padding v = 0%nat -> command v <> 0 ->
  let v' := set_reader v (if command v =? 2 then direct_read (inner v) else inner v) (read_header v) (read_first v) (content v) (padding v) (command v) true in
  vision_ok v' /\ vision_left v' = vision_left v /\ vision_work v' = vision_work v.
Proof.
  intros Hv Hp Hc Hpad Hcmd v'. pose proof (vo_failed v Hv) as Hf. pose proof (vo_ready v Hv Hp (or_intror Hcmd)) as Hrd.
  assert (Hh : read_header v = []).
  { destruct (decide (read_header v = [])) as [|Hne]; [done|]. by destruct (vo_between v Hv Hp Hne) as (_ & _ & ?). }
  destruct (vo_resp v Hv) as [Hlen Hrok]. destruct (Hrok Hrd) as [Hh2 Hrf].
  assert (Hi : resp_ok (if command v =? 2 then direct_read (inner v) else inner v)) by (by destruct (command v =? 2)).
  split; [|split].
  - subst v'. split; cbn [set_reader inner read_plain failed]; try done. destruct (command v =? 2); apply (vo_events v Hv).
  - rewrite (vision_left_frame v Hf Hp), Hc, Hpad, frame_body_done. rewrite (proj2 (Z.eqb_neq _ 0)) by done.
    unfold vision_left, v'. cbn [set_reader failed read_plain read_header inner]. rewrite Hf, Hh, prepend_nil.
    destruct (command v =? 2); [|done]. cbn [left resp_reader]. unfold resp_left. cbn [direct_read with_inner rp_failed ready rp_inner].
    by rewrite Hrf, Hrd.
  - unfold vision_work, v'. cbn [set_reader inner read_header]. by destruct (command v =? 2).
Qed.

(** Content of a frame. *)
Lemma content_delivers fuel frames room v : vision_ok v -> (0 < room)%nat -> read_plain v = false -> (0 < content v)%nat ->
  delivers room (vision_left v) (vision_work v) (frame_loop (S fuel) frames room v).
Proof.
  intros Hv Hr Hp Hc. pose proof (vo_failed v Hv) as Hf. pose proof (vo_direct v Hv Hp) as Hd. cbn [frame_loop].
  rewrite Hp, (proj2 (Nat.ltb_lt _ _)) by done. rewrite (vision_left_frame v Hf Hp).
  assert (Hh : read_header v = []).
  { destruct (decide (read_header v = [])) as [|Hne]; [done|]. destruct (vo_between v Hv Hp Hne) as (? & _). lia. }
  destruct (resp_cases (Nat.min room (content v)) (inner v)) as (i & Hs & Hrk & Hcases); [lia | apply (vo_resp v Hv)|].
  assert (Hok : forall c, resp_ok i -> vision_ok (set_reader v i (read_header v) (read_first v) c (padding v) (command v) (read_plain v))).
  { intros c Hi. apply reader_ok; try done. intros _. split; [by apply vo_header|]. split; [done|]. intros [?|?]; [done|].
    apply Hrk. by apply (vo_ready v Hv Hp); right. }
  assert (Hl : forall c, vision_left (set_reader v i (read_header v) (read_first v) c (padding v) (command v) (read_plain v)) =
    frame_body c (padding v) (command v) (left i) (raw_left v) (fun T => decode (id v) (read_first v) (prepend (read_header v) T) (raw_left v))).
  { intros c. rewrite vision_left_frame by done. by rewrite (raw_left_same v i). }
  assert (Hw0 : forall c, vision_work (set_reader v i (read_header v) (read_first v) c (padding v) (command v) (read_plain v)) = (2 * work i + length (read_header v))%nat) by done.
  assert (Hshort : forall e, frame_body (content v) (padding v) (command v) ([], e) (raw_left v)
    (fun T => decode (id v) (read_first v) (prepend (read_header v) T) (raw_left v)) = ([], Breaks)).
  { intros e. unfold frame_body. cbn [fst length]. by rewrite (proj2 (Nat.ltb_lt _ _)). }
  destruct Hcases as [(-> & Hi & El & Hw)|[(-> & Hi & El & El' & _)|[(x & b & -> & Hi & El & Hbl & Hw & Hrd)|(e & -> & El)]]]; cbn [delivers].
  - split; [by apply Hok|]. cbn [left work vision_reader]. unfold set_inner. rewrite Hl, El, Hw0. split; [done|]. unfold vision_work. lia.
  - by rewrite El, Hshort.
  - split; [|split; [|split; [lia|]]].
    + destruct (Hok (content v - length (x :: b))%nat Hi). by split.
    + rewrite El, frame_body_content by lia. f_equal. symmetry. exact (Hl _).
    + cbn [work vision_reader]. unfold vision_work in *. cbn [set_reader set_sniff inner read_header]. simpl length in *. lia.
  - by rewrite El, Hshort.
Qed.

(** A complete header: plain bytes, a bad command, or the next frame. *)
Lemma header_cases v i h : vision_ok v -> read_plain v = false -> content v = 0%nat -> padding v = 0%nat -> command v = 0 ->
  resp_ok i -> rs_same (rp_inner (inner v)) (rp_inner i) -> ready i = true -> length h = header_need (read_first v) ->
  prepend h (left i) = prepend (read_header v) (left (inner v)) ->
  let off := if read_first v then 16%nat else 0%nat in
  let f := drop off h in
  if read_first v && negb (bool_decide (take 16 h = id v)) then vision_left v = prepend h (left i)
  else if 2 <? nth 0 f 0 then vision_left v = ([], Breaks)
  else
    let v' := set_reader v i [] false (Z.to_nat (u16_at f 1)) (Z.to_nat (u16_at f 3)) (nth 0 f 0) false in
    vision_ok v' /\ vision_left v' = vision_left v.
Proof.
  intros Hv Hp Hc Hpad Hcmd Hi Hs Hrd Hlen Hpre off f. pose proof (vo_failed v Hv) as Hf. pose proof (vo_direct v Hv Hp) as Hd.
  assert (Hl : vision_left v = decode (id v) (read_first v) (prepend h (left i)) (raw_left v)).
  { rewrite (vision_left_frame v Hf Hp), Hc, Hpad, Hcmd, frame_body_done, Hpre. done. }
  assert (Hne : (prepend h (left i)).1 <> []) by (destruct h; [destruct (read_first v); done | done]).
  assert (Hge : (header_need (read_first v) <= length (prepend h (left i)).1)%nat) by (unfold prepend; cbn [fst]; rewrite length_app; lia).
  assert (Htake : read_first v = true -> take 16 (prepend h (left i)).1 = take 16 h).
  { intros E. rewrite E in Hlen. unfold prepend. cbn [fst]. apply take_app_le. rewrite Hlen. simpl. lia. }
  destruct (read_first v && negb (bool_decide (take 16 h = id v))) eqn:Epass.
  { apply andb_true_iff in Epass as [E1 E2%negb_true_iff%bool_decide_eq_false]. rewrite Hl, E1. rewrite E1 in Hge. apply decode_pass; [done | done|].
    by rewrite Htake. }
  rewrite decode_step in Hl; [|done | done | destruct (read_first v); [rewrite Htake by done; done | done]].
  assert (Hf5 : length f = 5%nat) by (unfold f, off; rewrite length_drop, Hlen; by destruct (read_first v)).
  assert (Hdrop : drop (if read_first v then 16 else 0) (prepend h (left i)).1 = f ++ (left i).1).
  { unfold prepend. cbn [fst]. apply drop_app_le. rewrite Hlen. destruct (read_first v); simpl; lia. }
  rewrite Hdrop in Hl. cbv zeta in Hl. rewrite app_nth1 in Hl by lia. destruct (2 <? nth 0 f 0); [done|]. intros v'.
  assert (Hv' : vision_ok v').
  { apply reader_ok; try done. intros _. split; [simpl; lia|]. by split. }
  split; [done|]. rewrite (vision_left_frame v' Hf) by done. subst v'. rewrite (raw_left_same v i) by done.
  cbn [set_reader content padding command inner id read_first read_header]. rewrite Hl.
  unfold u16_at. rewrite !app_nth1 by lia. rewrite drop_app_length' by done. rewrite (surjective_pairing (left i)) at 1.
  apply frame_body_ext. intros T' _. by rewrite prepend_nil.
Qed.

Lemma frame_loop_delivers room fuel : forall frames v, vision_ok v -> (0 < room)%nat -> (frames < 64)%nat ->
  ((if read_plain v then 1 else 66 - frames) <= fuel)%nat ->
  delivers room (vision_left v) (vision_work v) (frame_loop fuel frames room v).
Proof.
  induction fuel as [|fuel IH]; intros frames v Hv Hr Hfr Hfu; [destruct (read_plain v); lia|].
  destruct (read_plain v) eqn:Hp; [rewrite plain_any_fuel by done; by apply plain_delivers|].
  destruct (decide (0 < content v)%nat) as [Hc|Hc]; [by apply content_delivers|].
  cbn [frame_loop]. rewrite Hp, (proj2 (Nat.ltb_ge _ _)) by lia.
  pose proof (padding_loop_spec (padding v) v Hv Hp ltac:(lia) ltac:(lia)) as Hpad.
  destruct (padding_loop (padding v) v) as [[o|] v1]; [apply Hpad|]. destruct Hpad as (Hv1 & El1 & Hw1 & Hp1 & Hc1 & Hpl1).
  apply (delivers_more _ _ (vision_left v1) _ (vision_work v1)); [|done | done]. clear dependent v. rename v1 into v.
  destruct (Z.eqb_spec (command v) 0) as [Hcmd|Hcmd]; cbn [negb].
  2: { destruct (switch_plain v Hv1 Hpl1 Hc1 Hp1 Hcmd) as (Hok & El & Ew). destruct fuel as [|fuel]; [lia|].
       rewrite plain_any_fuel by done. rewrite <- El, <- Ew. by apply plain_delivers. }
  pose proof (read_header_loop_spec (header_need (read_first v)) v Hv1 Hpl1 Hc1 Hp1 Hcmd ltac:(lia)) as Hhd.
  destruct (read_header_loop _ _ v) as [[o|] v2]; [apply Hhd|].
  destruct Hhd as (Hlen & Hw & i & Hi & Hs & Hrd & Ev2 & Hpre). set (h := read_header v2) in *.
  pose proof (header_cases v i h Hv1 Hpl1 Hc1 Hp1 Hcmd Hi Hs Hrd Hlen Hpre) as Hcases. cbv zeta in Hcases.
  assert (Hwork : (2 * work i + length h <= vision_work v)%nat) by (rewrite Ev2 in Hw; unfold vision_work in *; cbn [set_reader inner read_header] in Hw; lia).
  assert (E1 : read_first v2 = read_first v) by (by rewrite Ev2). assert (E2 : id v2 = id v) by (by rewrite Ev2).
  assert (E3 : inner v2 = i) by (by rewrite Ev2). assert (E4 : read_plain v2 = false) by (by rewrite Ev2).
  assert (Hset : forall i' h' first c p cmd plain, set_reader v2 i' h' first c p cmd plain = set_reader v i' h' first c p cmd plain) by (intros; by rewrite Ev2).
  rewrite E1, E2, E3, E4, !Hset.
  assert (Hne : h <> []) by (intros E; rewrite E in Hlen; by destruct (read_first v)).
  destruct (read_first v && negb (bool_decide (take 16 h = id v))); [rewrite Hcases; by apply plain_header_delivers|].
  destruct (2 <? nth 0 (drop (if read_first v then 16 else 0) h) 0); [done|]. destruct Hcases as [Hok El].
  set (f := drop (if read_first v then 16 else 0) h) in *.
  set (v' := set_reader v i [] false _ _ _ false) in *.
  assert (Hw' : (vision_work v' < vision_work v)%nat).
  { unfold v', vision_work in *. cbn [set_reader inner read_header length]. destruct (read_first v); simpl header_need in *; lia. }
  destruct (Nat.leb_spec 64 (S frames)).
  - by split.
  - apply (delivers_more _ _ (vision_left v') _ (vision_work v')); [|done | lia]. apply IH; [done | done | lia |]. change (read_plain v') with false. cbn iota. lia.
Qed.

(** ** Writing does not disturb reading *)

Definition same_input (s s' : RecordStream) : Prop := tls_in s' = tls_in s /\ raw_in s' = raw_in s /\ read_direct s' = read_direct s.

Lemma next_event_input s : same_input s (next_event s).2 /\ (Forall event_good (events s) -> event_good (next_event s).1 /\ Forall event_good (events (next_event s).2)).
Proof.
  unfold next_event. destruct (events s) as [|e l] eqn:E; cbn [fst snd].
  - split; [done|]. intros _. split; [simpl; lia|]. by rewrite E.
  - split; [done|]. intros [? ?]%Forall_cons. done.
Qed.

Lemma rs_append_input s b : same_input s (rs_append s b) /\ events (rs_append s b) = events s.
Proof. unfold rs_append. by destruct (write_direct s). Qed.

(** A reader that has been written to. *)
Lemma set_writer_reads v i first plain pend w sw : vision_ok v -> same_input (rp_inner (inner v)) i -> Forall event_good (events i) ->
  let v' := set_writer v i first plain pend w sw in
  vision_ok v' /\ vision_left v' = vision_left v /\ vision_work v' = vision_work v.
Proof.
  intros Hv (Ht & Hraw & Hd) He v'. pose proof (vo_failed v Hv) as Hf.
  assert (El : left (with_inner (inner v) i) = left (inner v)).
  { cbn [left resp_reader]. unfold resp_left. cbn [with_inner rp_failed ready header discard rp_inner].
    assert (Ei : left i = left (rp_inner (inner v))) by (cbn [left rs_reader]; by rewrite Ht, Hraw, Hd). by rewrite Ei. }
  split; [|split].
  - destruct Hv. subst v'. split; cbn [set_writer inner read_plain read_header read_first content padding command failed]; try done.
    intros Hp. cbn [with_inner rp_inner]. rewrite Hd. auto.
  - unfold vision_left, v', raw_left. cbn [set_writer inner read_plain read_header read_first content padding command failed id].
    rewrite El. cbn [with_inner rp_inner]. by rewrite Hraw.
  - unfold vision_work, v'. cbn [set_writer inner read_header with_inner work resp_reader rs_reader rp_inner]. by rewrite Ht, Hraw.
Qed.

Definition undisturbed (v v' : VisionStream) : Prop := vision_ok v' /\ vision_left v' = vision_left v /\ vision_work v' = vision_work v.

#[local] Instance undisturbed_trans : Transitive undisturbed.
Proof. intros a b c (? & ? & ?) (? & ? & ?). split; [done|]. split; congruence. Qed.

Lemma flush_loop_undisturbed fuel : forall v, vision_ok v -> undisturbed v (flush_loop fuel v).2 /\
  match (flush_loop fuel v).1 with Some (Ready _) => False | _ => True end.
Proof.
  induction fuel as [|fuel IH]; intros v Hv; cbn [flush_loop].
  all: destruct (Nat.leb_spec (length (pending v)) (written v)) as [Hl|Hl]; [by split|].
  { by split. }
  unfold rs_poll_write. destruct (next_event_input (rp_inner (inner v))) as [Hin Hev]. specialize (Hev (vo_events v Hv)).
  destruct (next_event (rp_inner (inner v))) as [e i]. cbn [fst snd] in *. destruct Hev as [Hg He].
  destruct e as [|n|]; [| |done].
  - split; [by apply set_writer_reads | done].
  - destruct (rs_append_input i (take n (drop (written v) (pending v)))) as [Hin2 Hev2].
    assert (Hpos : Nat.min n (length (drop (written v) (pending v))) <> 0%nat) by (rewrite length_drop; simpl in Hg; lia).
    rewrite (proj2 (Nat.eqb_neq _ 0)) by done.
    assert (Hu : undisturbed v (set_writer v (rs_append i (take n (drop (written v) (pending v)))) (write_first v) (write_plain v) (pending v)
      (written v + Nat.min n (length (drop (written v) (pending v)))) (switch_write v))).
    { apply set_writer_reads; [done| |by rewrite Hev2]. destruct Hin as (? & ? & ?), Hin2 as (? & ? & ?). split; [congruence|]. split; congruence. }
    destruct (IH _ (proj1 Hu)) as [Hu2 Hr]. split; [by etrans | done].
Qed.

Lemma flush_frame_undisturbed v : vision_ok v -> undisturbed v (flush_frame v).2 /\
  match (flush_frame v).1 with Ready (Err _) | Ready Panicked => False | _ => True end.
Proof.
  intros Hv. unfold flush_frame. destruct (flush_loop_undisturbed (length (pending v)) v Hv) as [Hu Hr].
  destruct (flush_loop _ v) as [[[|o]|] v1]; cbn [fst snd] in *; [done | done |].
  unfold rs_poll_flush. destruct (next_event_input (rp_inner (inner v1))) as [Hin Hev]. specialize (Hev (vo_events v1 (proj1 Hu))).
  destruct (next_event (rp_inner (inner v1))) as [e i]. cbn [fst snd] in *. destruct Hev as [Hg He].
  destruct e as [|n|]; [| |done]; cbn [fst snd].
  - split; [|done]. etrans; [exact Hu|]. by apply set_writer_reads; [apply Hu|..].
  - split; [|done]. etrans; [exact Hu|]. by apply set_writer_reads; [apply Hu | destruct (switch_write v1); [exact Hin | exact Hin] | destruct (switch_write v1)].
Qed.

#[global] Instance vision_laws : ReaderLaws VisionStream.
Proof.
  split. intros n v Hn Hv. cbn [rd left work vision_reader]. unfold poll_read. rewrite (proj2 (Nat.eqb_neq n 0)) by lia.
  rewrite (vo_failed v Hv). destruct (flush_frame_undisturbed v Hv) as [(Hok & El & Ew) Hr].
  destruct (flush_frame v) as [o v1]. cbn [fst snd] in *. rewrite <- El, <- Ew.
  assert (Hd : delivers n (vision_left v1) (vision_work v1) (frame_loop 66 0 n v1)).
  { apply frame_loop_delivers; [done | done | lia | destruct (read_plain v1); lia]. }
  by destruct o as [|[]].
Qed.

(** ** A stream from the start *)

Lemma framed_ok i uuid : read_direct i = false -> Forall event_good (events i) -> vision_ok (framed i uuid).
Proof.
  intros Hd He. split; cbn [framed inner read_plain read_header read_first content padding command failed]; try done.
  - split; cbn [Response_new header length ready]; [lia | done].
  - intros _. simpl. lia.
  - by intros _ [?|?].
Qed.

(** Reading to the end. *)
Lemma read_framed i uuid sizes : read_direct i = false -> Forall event_good (events i) -> Forall (lt 0) sizes ->
  (2 * (source_work (tls_in i) + source_work (raw_in i)) < length sizes)%nat ->
  read_to_end sizes (framed i uuid) =
    Some (match concat (tls_in i) with
          | version :: n :: rest =>
              if negb (version =? 0) || (length rest <? Z.to_nat n)%nat then ([], Breaks)
              else decode uuid true (drop (Z.to_nat n) rest, Ends) (concat (raw_in i), Ends)
          | _ => ([], Breaks)
          end).
Proof.
  intros Hd He Hs Hw. rewrite read_to_end_left; [|by apply framed_ok | done | cbn [work vision_reader]; unfold vision_work; simpl in *; lia].
  f_equal. cbn [left vision_reader]. rewrite vision_left_frame by done.
  cbn [framed content padding command inner id read_first read_header]. rewrite frame_body_done. change (0 =? 0) with true. cbn iota.
  rewrite prepend_nil. unfold raw_left. cbn [framed inner Response_new rp_inner]. cbn [left resp_reader]. unfold resp_left.
  cbn [Response_new rp_failed ready header length Nat.leb rp_inner app]. cbn [left rs_reader source_reader]. rewrite Hd. cbn [left source_reader fst snd].
  destruct (concat (tls_in i)) as [|x [|n rest]]; [done..|]. destruct (negb (x =? 0)); [done|]. cbn [orb]. unfold strip. cbn [fst snd].
  by destruct (length rest <? Z.to_nat n)%nat.
Qed.

(** The stream at its first read, after any writes: the writer may be in any state,
    with any part of any frame still to be written. *)
Definition half_written (i : RecordStream) (uuid : list Z) (first plain : bool) (pend : list Z) (at_ : nat) (switch : bool) (s : InnerTls) : VisionStream :=
  set_sniff (set_writer (framed i uuid) i first plain pend at_ switch) s.

Lemma half_written_reads i uuid first plain pend at_ switch s : read_direct i = false -> Forall event_good (events i) ->
  let v := half_written i uuid first plain pend at_ switch s in
  vision_ok v /\ vision_left v = vision_left (framed i uuid) /\ vision_work v = vision_work (framed i uuid).
Proof.
  intros Hd He v. destruct (set_writer_reads (framed i uuid) i first plain pend at_ switch) as (Hok & El & Ew); [by apply framed_ok | done | done |].
  split; [|done]. by destruct Hok.
Qed.

(** C18: the Vision stream delivers exactly what its frames contain: read to the
    end, with the bytes of the transport cut in any pieces and delayed in any way,
    with buffers of any sizes, and with any bytes of the writer still to be written
    to a transport that takes them sooner or later, it yields the content of the
    frames in order, without padding, then the plain bytes or, from a direct switch
    on, the bytes under TLS; and a stream that is cut off or malformed ends in an
    error behind the content before it.  The reads end: as many are enough as there
    are bytes and delays, twice. *)
Theorem vision_reads_frames i uuid first plain pend at_ switch s sizes :
  read_direct i = false -> Forall event_good (events i) -> Forall (lt 0) sizes ->
  (2 * (source_work (tls_in i) + source_work (raw_in i)) < length sizes)%nat ->
  read_to_end sizes (half_written i uuid first plain pend at_ switch s) =
    Some (match concat (tls_in i) with
          | version :: n :: rest =>
              if negb (version =? 0) || (length rest <? Z.to_nat n)%nat then ([], Breaks)
              else decode uuid true (drop (Z.to_nat n) rest, Ends) (concat (raw_in i), Ends)
          | _ => ([], Breaks)
          end).
Proof.
  intros Hd He Hs Hw. rewrite <- (read_framed i uuid sizes Hd He Hs Hw).
  destruct (half_written_reads i uuid first plain pend at_ switch s Hd He) as (Hok & El & Ew).
  assert (Hwork : (vision_work (framed i uuid) < length sizes)%nat) by (unfold vision_work; simpl in *; lia).
  rewrite !read_to_end_left; [|by apply framed_ok | done | done | done | done | cbn [work vision_reader]; by rewrite Ew].
  cbn [left vision_reader]. by rewrite El.
Qed.

(** Two frames and plain bytes, in pieces with delays. *)
Definition ex_stream : RecordStream :=
  mk_rs [[0]; []; [0] ++ replicate 16 9 ++ [0; 0; 1; 0; 3; 97; 0]; [0; 0; 1; 0; 1]; []; [0; 2; 98; 0; 0; 112; 113]] [] false [] [] false [Wait].

Lemma vision_reads_frames_witness : read_to_end (replicate 200 2%nat) (half_written ex_stream (replicate 16 9) false false [5; 6; 7] 1 true InnerTls_new) =
  Some ([97; 98; 112; 113], Ends).
Proof.
  rewrite (vision_reads_frames ex_stream (replicate 16 9) false false [5; 6; 7] 1 true InnerTls_new (replicate 200 2%nat)).
  - vm_compute. reflexivity.
  - reflexivity.
  - repeat constructor.
  - apply Forall_replicate. lia.
  - vm_compute. lia.
Defined.

(** A reply of a peer that does not use the framing is passed on only from 21
    bytes on: one that is shorter, and is all the peer sends, is not delivered,
    and the stream ends in an error. *)
Theorem vision_short_reply_lost i uuid sizes reply : read_direct i = false -> Forall event_good (events i) -> Forall (lt 0) sizes ->
  (2 * (source_work (tls_in i) + source_work (raw_in i)) < length sizes)%nat ->
  concat (tls_in i) = [0; 0] ++ reply -> reply <> [] -> (length reply < 21)%nat ->
  read_to_end sizes (framed i uuid) = Some ([], Breaks).
Proof.
  intros Hd He Hs Hw Hc Hne Hl. rewrite read_framed by done. rewrite Hc. cbn [app]. change (negb (0 =? 0)) with false. cbn [orb].
  rewrite (proj2 (Nat.ltb_ge _ _)) by (simpl; lia). f_equal. by apply decode_short.
Qed.

Lemma vision_short_reply_lost_witness :
  read_to_end (replicate 50 8%nat) (framed (mk_rs [[0; 0; 79; 75]] [] false [] [] false []) (replicate 16 9)) = Some ([], Breaks).
Proof.
  apply (vision_short_reply_lost (mk_rs [[0; 0; 79; 75]] [] false [] [] false []) (replicate 16 9) (replicate 50 8%nat) [79; 75]);
    [reflexivity | constructor | apply Forall_replicate; lia | vm_compute; lia | reflexivity | discriminate | simpl; lia].
Defined.
