(* ===== verification/VisionWrite.v ===== *)
(** * Writing through the Vision stream

    What has been written, taken as a whole, decodes to the data that was
    accepted, whatever the transport does and whatever is read in between. *)

From S2P Require Import Prelude FfiAbi RustStr IpText IpTextFacts Target Vless VisionTls Vision VisionRead VisionDecode.
Local Open Scope Z_scope.

(** ** Reading does not disturb writing *)

Definition out_of (s : RecordStream) : list Z * list Z * bool := (tls_out s, raw_out s, write_direct s).
Definition writer_of (v : VisionStream) : list Z * bool * bool * list Z * nat * bool * (list Z * list Z * bool) :=
  (id v, write_first v, write_plain v, pending v, written v, switch_write v, out_of (rp_inner (inner v))).

Lemma rs_read_out n s : out_of (rs_poll_read n s).2 = out_of s.
Proof. unfold out_of. destruct (rs_read_same n s). congruence. Qed.

Lemma header_loop_out fuel : forall r, out_of (rp_inner (header_loop fuel r).2) = out_of (rp_inner r).
Proof.
  induction fuel as [|fuel IH]; intros r; cbn [header_loop]; destruct (2 <=? _)%nat; try done.
  pose proof (rs_read_out (2 - length (header r)) (rp_inner r)) as Ho.
  destruct (rs_poll_read _ _) as [[|[[|x b]|e|]] i]; cbn [snd] in Ho; try done.
  destruct (_ =? 2)%nat; [destruct (negb _); [done|]|]; rewrite IH; done.
Qed.

Lemma discard_loop_out fuel : forall r, out_of (rp_inner (discard_loop fuel r).2) = out_of (rp_inner r).
Proof.
  induction fuel as [|fuel IH]; intros r; cbn [discard_loop]; destruct (_ || _); try done.
  pose proof (rs_read_out (discard r) (rp_inner r)) as Ho.
  destruct (rs_poll_read _ _) as [[|[[|x b]|e|]] i]; cbn [snd] in Ho; try done. by rewrite IH.
Qed.

Lemma resp_read_out n r : out_of (rp_inner (resp_poll_read n r).2) = out_of (rp_inner r).
Proof.
  unfold resp_poll_read. destruct (n =? 0)%nat; [done|]. destruct (rp_failed r); [done|].
  pose proof (header_loop_out 2 r) as H1. destruct (header_loop 2 r) as [[o|] r1]; [done|]. cbn [snd] in H1.
  pose proof (discard_loop_out (discard r1) r1) as H2. destruct (discard_loop (discard r1) r1) as [[o|] r2]; cbn [snd] in *; [congruence|].
  cbv zeta. cbn [rp_inner]. pose proof (rs_read_out n (rp_inner r2)) as H3. destruct (rs_poll_read n (rp_inner r2)) as [o i].
  cbn [snd with_inner rp_inner] in *. congruence.
Qed.

Lemma set_reader_writer v i h first c p cmd plain : out_of (rp_inner i) = out_of (rp_inner (inner v)) ->
  writer_of (set_reader v i h first c p cmd plain) = writer_of v.
Proof. intros E. unfold writer_of. cbn [set_reader id write_first write_plain pending written switch_write inner]. by rewrite E. Qed.

Lemma padding_loop_writer fuel : forall v, writer_of (padding_loop fuel v).2 = writer_of v.
Proof.
  induction fuel as [|fuel IH]; intros v; cbn [padding_loop]; destruct (_ =? 0)%nat; try done.
  pose proof (resp_read_out (Nat.min (padding v) (Z.to_nat 2048)) (inner v)) as Ho.
  destruct (resp_poll_read _ _) as [[|[[|x b]|e|]] i]; cbn [snd] in *; rewrite ?IH; by apply set_reader_writer.
Qed.

Lemma read_header_loop_writer fuel need : forall v, writer_of (read_header_loop fuel need v).2 = writer_of v.
Proof.
  induction fuel as [|fuel IH]; intros v; cbn [read_header_loop]; destruct (need <=? _)%nat; try done. cbv zeta.
  pose proof (resp_read_out (need - length (read_header v)) (inner v)) as Ho.
  destruct (resp_poll_read _ _) as [[|[[|x b]|e|]] i]; cbn [snd] in *; rewrite ?IH; by apply set_reader_writer.
Qed.

Lemma frame_loop_writer room fuel : forall frames v, writer_of (frame_loop fuel frames room v).2 = writer_of v.
Proof.
  induction fuel as [|fuel IH]; intros frames v; cbn [frame_loop]; [done|]. destruct (read_plain v).
  { destruct (negb _); [by apply set_reader_writer|]. pose proof (resp_read_out room (inner v)) as Ho.
    destruct (resp_poll_read _ _) as [o i]. by apply set_reader_writer. }
  destruct (0 <? content v)%nat.
  { pose proof (resp_read_out (Nat.min room (content v)) (inner v)) as Ho.
    destruct (resp_poll_read _ _) as [[|[[|x b]|e|]] i]; cbn [snd] in *; (etrans; [by apply set_reader_writer | done]). }
  pose proof (padding_loop_writer (padding v) v) as H1. destruct (padding_loop (padding v) v) as [[o|] v1]; [done|]. cbn [snd] in H1.
  destruct (negb (command v1 =? 0)).
  { rewrite IH, set_reader_writer; [done|]. by destruct (command v1 =? 2). }
  pose proof (read_header_loop_writer (header_need (read_first v1)) (header_need (read_first v1)) v1) as H2.
  destruct (read_header_loop _ _ v1) as [[o|] v2]; cbn [snd] in H2; [by cbn [snd]; rewrite H2|].
  rewrite <- H1, <- H2. destruct (_ && _); [by apply set_reader_writer|]. cbv zeta. destruct (2 <? _); [done|].
  destruct (64 <=? _)%nat; [done|]. by rewrite IH.
Qed.

(** ** A frame decodes to its content *)

Definition frame_bytes (uuid : list Z) (first : bool) (cmd : Z) (bytes : list Z) (pad : nat) : list Z :=
  (if first then uuid else []) ++ [cmd] ++ be16 (len bytes) ++ be16 (Z.of_nat pad) ++ bytes ++ replicate pad 0.

Lemma decode_frame uuid first cmd bytes pad T R : length uuid = 16%nat -> cmd <= 2 -> len bytes < 65536 -> Z.of_nat pad < 65536 ->
  decode uuid first (prepend (frame_bytes uuid first cmd bytes pad) T) R =
  prepend bytes (if cmd =? 0 then decode uuid false T R else if cmd =? 2 then R else T).
Proof.
  intros Hid Hcmd Hb Hp.
  assert (Hl : (header_need first <= length (frame_bytes uuid first cmd bytes pad))%nat).
  { unfold frame_bytes. rewrite !length_app. destruct first; simpl length; simpl header_need; lia. }
  set (f := [cmd] ++ be16 (len bytes) ++ be16 (Z.of_nat pad) ++ bytes ++ replicate pad 0).
  assert (Ef : frame_bytes uuid first cmd bytes pad = (if first then uuid else []) ++ f) by done.
  rewrite decode_step.
  - assert (Hd : drop (if first then 16 else 0) (prepend (frame_bytes uuid first cmd bytes pad) T).1 = f ++ T.1).
    { unfold prepend. cbn [fst]. rewrite Ef, <- app_assoc. destruct first; [|done]. by apply drop_app_length'. }
    rewrite Hd. cbv zeta. assert (E0 : nth 0 (f ++ T.1) 0 = cmd) by done. rewrite E0.
    rewrite (proj2 (Z.ltb_ge _ _)) by lia.
    assert (E1 : u16_at (f ++ T.1) 1 = len bytes) by (unfold u16_at, f; cbn [be16 app nth]; apply of_be16_be16; lia).
    assert (E3 : u16_at (f ++ T.1) 3 = Z.of_nat pad) by (unfold u16_at, f; cbn [be16 app nth]; apply of_be16_be16; lia).
    assert (E5 : (drop 5 (f ++ T.1), (prepend (frame_bytes uuid first cmd bytes pad) T).2) = prepend bytes (prepend (replicate pad 0) T)).
    { unfold f, prepend. cbn [be16 app drop fst snd]. by rewrite drop_0, <- app_assoc. }
    rewrite E1, E3, E5, !Nat2Z.id, frame_body_content by lia. rewrite Nat.sub_diag, frame_body_padding by (rewrite length_replicate; lia).
    by rewrite length_replicate, Nat.sub_diag, frame_body_done.
  - unfold prepend. cbn [fst]. rewrite Ef. by destruct first, uuid.
  - unfold prepend. cbn [fst]. rewrite length_app. lia.
  - unfold prepend. cbn [fst]. rewrite Ef, <- app_assoc. destruct first; [|done]. rewrite take_app_length' by done.
    by rewrite bool_decide_eq_true_2.
Qed.

(** ** The writer *)

(** What the peer will have decoded when all of [pending] is out, before more
    bytes [T] and, under TLS, [R]. *)
Record wrote (v : VisionStream) (data : list Z) : Prop := {
  wr_id : length (id v) = 16%nat;
  wr_direct : write_direct (rp_inner (inner v)) = true -> write_plain v = true /\ pending v = [] /\ switch_write v = false;
  wr_switch : switch_write v = true -> write_plain v = true;
  wr_raw : write_direct (rp_inner (inner v)) = false -> raw_out (rp_inner (inner v)) = [];
  wr_decode : forall T R, decode (id v) true (prepend (tls_out (rp_inner (inner v)) ++ drop (written v) (pending v)) T) (prepend (raw_out (rp_inner (inner v))) R) =
    prepend data (if write_plain v then (if write_direct (rp_inner (inner v)) || switch_write v then R else T) else decode (id v) (write_first v) T R)
}.

Lemma wrote_writer v v' data : writer_of v' = writer_of v -> wrote v data -> wrote v' data.
Proof.
  unfold writer_of, out_of. intros E []. injection E as E1 E2 E3 E4 E5 E6 E7 E8 E9.
  split; rewrite ?E1, ?E2, ?E3, ?E4, ?E5, ?E6, ?E7, ?E8, ?E9; done.
Qed.

Lemma framed_wrote i uuid : length uuid = 16%nat -> tls_out i = [] -> raw_out i = [] -> write_direct i = false -> wrote (framed i uuid) [].
Proof.
  intros Hid Ht Hr Hw. split; cbn [framed inner Response_new rp_inner id write_plain pending written switch_write write_first]; try done.
  - by rewrite Hw.
  - intros T R. rewrite Ht, Hr. by rewrite !prepend_nil.
Qed.

Lemma next_event_out s : out_of (next_event s).2 = out_of s.
Proof. unfold next_event. by destruct (events s). Qed.

Lemma out_of_inj s s' : out_of s = out_of s' -> tls_out s = tls_out s' /\ raw_out s = raw_out s' /\ write_direct s = write_direct s'.
Proof. unfold out_of. by intros [= -> -> ->]. Qed.

(** Only the calls of the transport went on. *)
Lemma wrote_events v i data : out_of i = out_of (rp_inner (inner v)) -> wrote v data ->
  wrote (set_writer v i (write_first v) (write_plain v) (pending v) (written v) (switch_write v)) data.
Proof.
  intros E. apply wrote_writer. unfold writer_of. cbn [set_writer id write_first write_plain pending written switch_write inner with_inner rp_inner].
  by rewrite E.
Qed.

Lemma flush_loop_wrote fuel data : forall v, wrote v data -> wrote (flush_loop fuel v).2 data /\
  match (flush_loop fuel v).1 with
  | None => (length (pending (flush_loop fuel v).2) <= written (flush_loop fuel v).2)%nat
  | Some (Ready (Ok _)) => False
  | _ => True
  end.
Proof.
  induction fuel as [|fuel IH]; intros v Hv; cbn [flush_loop].
  all: destruct (Nat.leb_spec (length (pending v)) (written v)) as [Hl|Hl]; [by split|].
  { by split. }
  unfold rs_poll_write. pose proof (next_event_out (rp_inner (inner v))) as Ho.
  destruct (next_event (rp_inner (inner v))) as [e i]. cbn [snd] in Ho. destruct e as [|n|e].
  - split; [by apply wrote_events | done].
  - set (unsent := drop (written v) (pending v)) in *.
    assert (Hw : wrote (set_writer v (rs_append i (take n unsent)) (write_first v) (write_plain v) (pending v) (written v + Nat.min n (length unsent)) (switch_write v)) data).
    { apply out_of_inj in Ho as (E1 & E2 & E3). destruct Hv as [Hid Hd Hs Hr Hdec].
      assert (Hnd : write_direct (rp_inner (inner v)) = false).
      { destruct (write_direct _); [|done]. destruct (Hd eq_refl) as (_ & Hp & _). rewrite Hp in Hl. simpl in Hl. lia. }
      unfold rs_append. rewrite E3, Hnd.
      split; cbn [set_writer id write_first write_plain pending written switch_write inner with_inner rp_inner tls_out raw_out write_direct]; try done.
      - intros _. rewrite E2. by apply Hr.
      - intros T R. specialize (Hdec T R). rewrite E1, E2. rewrite Hnd in Hdec. rewrite <- Hdec. do 2 f_equal.
        rewrite <- app_assoc. f_equal. rewrite <- drop_drop. fold unsent.
        destruct (decide (n <= length unsent)%nat); [rewrite Nat.min_l by done; apply take_drop|].
        rewrite Nat.min_r by lia. rewrite take_ge, drop_all by lia. apply app_nil_r. }
    destruct (_ =? 0)%nat; [by split|]. by apply IH.
  - split; [by apply wrote_events | done].
Qed.

Lemma flush_frame_wrote v data : wrote v data -> wrote (flush_frame v).2 data /\
  match (flush_frame v).1 with
  | Ready (Ok _) => pending (flush_frame v).2 = [] /\ written (flush_frame v).2 = 0%nat /\ switch_write (flush_frame v).2 = false
  | _ => True
  end.
Proof.
  intros Hv. unfold flush_frame. destruct (flush_loop_wrote (length (pending v)) data v Hv) as [H1 Hn].
  destruct (flush_loop _ v) as [[o|] v1]; cbn [fst snd] in *; [split; [done|]; by destruct o as [|[]]|].
  unfold rs_poll_flush. pose proof (next_event_out (rp_inner (inner v1))) as Ho.
  destruct (next_event (rp_inner (inner v1))) as [e i]. cbn [snd] in Ho. destruct e as [|n|e]; cbn [fst snd].
  - split; [by apply wrote_events | done].
  - split; [|done]. apply out_of_inj in Ho as (E1 & E2 & E3). destruct H1 as [Hid Hd Hs Hr Hdec].
    rewrite (drop_ge (pending v1)) in Hdec by lia.
    split; cbn [set_writer id write_first write_plain pending written switch_write inner with_inner rp_inner]; try done.
    + destruct (switch_write v1); [by auto|]. rewrite E3. intros Hw. by destruct (Hd Hw).
    + destruct (switch_write v1); [done|]. rewrite E3, E2. done.
    + intros T R. rewrite drop_nil, orb_false_r. specialize (Hdec T R). destruct (switch_write v1); cbn [rs_write_direct tls_out raw_out write_direct].
      * rewrite E1, E2, Hdec, orb_true_r. done.
      * rewrite E1, E2, E3, Hdec, orb_false_r. done.
  - split; [by apply wrote_events | done].
Qed.

(** A call of [poll_write]: what it says it took is decoded behind the rest. *)
Lemma poll_write_wrote v data bytes random : wrote v data -> (random < 500)%nat ->
  wrote (poll_write v bytes random).2
    (data ++ match (poll_write v bytes random).1 with Ready (Ok n) => take n bytes | _ => [] end).
Proof.
  intros Hv Hrand. unfold poll_write. destruct (flush_frame_wrote v data Hv) as [Hf Hz].
  destruct (flush_frame v) as [[|[u|e|]] v1]; cbn [fst snd] in *; try by rewrite app_nil_r.
  destruct Hz as (Hp & Hw & Hsw). destruct (write_plain v1) eqn:Hplain.
  - unfold rs_poll_write. pose proof (next_event_out (rp_inner (inner v1))) as Ho.
    destruct (next_event (rp_inner (inner v1))) as [e i]. cbn [snd] in Ho. destruct e as [|n|e]; cbn [fst snd].
    + rewrite app_nil_r. rewrite <- Hplain. by apply wrote_events.
    + apply out_of_inj in Ho as (E1 & E2 & E3). destruct Hf as [Hid Hd Hs Hr Hdec].
      replace (take (Nat.min n (length bytes)) bytes) with (take n bytes).
      2: { destruct (decide (n <= length bytes)%nat); [by rewrite Nat.min_l|]. rewrite Nat.min_r by lia. by rewrite !take_ge by lia. }
      rewrite Hp, Hw, Hsw, orb_false_r, Hplain, drop_nil, app_nil_r in Hdec.
      unfold rs_append. rewrite E3. destruct (write_direct (rp_inner (inner v1))) eqn:Hdir.
      * split; cbn [set_writer id write_first write_plain pending written switch_write inner with_inner rp_inner tls_out raw_out write_direct]; try done.
        intros T R. rewrite Hp, Hw, drop_nil, app_nil_r, E1, E2. rewrite (prepend_app (raw_out _)), Hdec. cbn [orb]. by rewrite prepend_app.
      * split; cbn [set_writer id write_first write_plain pending written switch_write inner with_inner rp_inner tls_out raw_out write_direct]; try done.
        -- intros _. rewrite E2. by apply Hr.
        -- intros T R. rewrite Hp, Hw, Hsw, drop_nil, app_nil_r, E1, E2. rewrite (prepend_app (tls_out _)), Hdec. cbn [orb]. by rewrite prepend_app.
    + rewrite app_nil_r. rewrite <- Hplain. by apply wrote_events.
  - case_bool_decide as Hb; [by rewrite app_nil_r|]. cbv zeta.
    set (b := take (Z.to_nat (8192 - 21)) bytes). cbn [set_sniff sniff write_first id pending inner written write_plain fst snd].
    set (s := inner_observe (sniff v1) b false). set (cmd := frame_command s b). set (pad := frame_padding s b random).
    assert (Hbl : (length b <= Z.to_nat (8192 - 21))%nat) by (unfold b; rewrite length_take; lia).
    assert (Hcmd : cmd <= 2) by (unfold cmd, frame_command; repeat case_match; lia).
    assert (Hpad : Z.of_nat pad < 65536) by (unfold pad, frame_padding; repeat case_match; lia).
    replace (take (length b) bytes) with b by (unfold b; rewrite length_take; destruct (decide (Z.to_nat (8192 - 21) <= length bytes)%nat);
      [by rewrite Nat.min_l | rewrite Nat.min_r by lia; by rewrite !take_ge by lia]).
    destruct Hf as [Hid Hd Hs Hr Hdec]. assert (Hnd : write_direct (rp_inner (inner v1)) = false).
    { destruct (write_direct _); [|done]. destruct (Hd eq_refl) as [? _]. congruence. }
    rewrite Hp, Hw, Hplain, drop_nil, app_nil_r in Hdec. specialize (Hr Hnd). rewrite Hr in Hdec.
    split; cbn [set_writer set_sniff id write_first write_plain pending written switch_write inner with_inner rp_inner]; try done.
    + by rewrite Hnd.
    + intros ->%Z.eqb_eq. by rewrite orb_true_r.
    + intros T R. rewrite Hp, Hw, Hnd, Hplain, Hr, app_nil_l, drop_0, !orb_false_l.
      fold (frame_bytes (id v1) (write_first v1) cmd b pad). specialize (Hdec (prepend (frame_bytes (id v1) (write_first v1) cmd b pad) T) R).
      rewrite prepend_nil in *. rewrite prepend_app, Hdec, decode_frame by (done || lia). rewrite prepend_app. f_equal. f_equal.
      destruct (Z.eqb_spec cmd 0) as [->|]; [done|]. done.
Qed.

(** ** Both ends *)

(** What a user of the stream does, and the data it was told is written. *)
Inductive vision_run (v : VisionStream) : list Z -> VisionStream -> Prop :=
  | vr_start : vision_run v [] v
  | vr_write data v1 bytes random : vision_run v data v1 -> (random < 500)%nat ->
      vision_run v (data ++ match (poll_write v1 bytes random).1 with Ready (Ok n) => take n bytes | _ => [] end) (poll_write v1 bytes random).2
  | vr_flush data v1 : vision_run v data v1 -> vision_run v data (flush_frame v1).2
  | vr_read data v1 room : vision_run v data v1 -> vision_run v data (poll_read room v1).2.

Lemma poll_read_wrote room v data : wrote v data -> wrote (poll_read room v).2 data.
Proof.
  intros Hv. unfold poll_read. destruct (room =? 0)%nat; [done|]. destruct (failed v); [done|].
  destruct (flush_frame_wrote v data Hv) as [Hf _]. destruct (flush_frame v) as [o v1]. cbn [snd] in Hf.
  assert (Hl : wrote (frame_loop 66 0 room v1).2 data) by (eapply wrote_writer; [apply frame_loop_writer | done]).
  by destruct o as [|[]].
Qed.

Lemma vision_run_wrote v data v' : wrote v [] -> vision_run v data v' -> wrote v' data.
Proof.
  intros Hv Hr. induction Hr as [|data v1 bytes random _ IH Hrand|data v1 _ IH|data v1 room _ IH]; [done|..].
  - by apply poll_write_wrote.
  - by apply flush_frame_wrote.
  - by apply poll_read_wrote.
Qed.

(** The identifier of the user stays. *)
Lemma flush_loop_id fuel : forall v, id (flush_loop fuel v).2 = id v.
Proof.
  induction fuel as [|fuel IH]; intros v; cbn [flush_loop]; destruct (_ <=? _)%nat; try done.
  destruct (rs_poll_write _ _) as [[|[n|e|]] i]; try done. cbv zeta. destruct (n =? 0)%nat; [done|]. by rewrite IH.
Qed.

Lemma flush_frame_id v : id (flush_frame v).2 = id v.
Proof.
  unfold flush_frame. pose proof (flush_loop_id (length (pending v)) v) as E. destruct (flush_loop _ v) as [[o|] v1]; [done|]. cbn [snd] in E.
  by destruct (rs_poll_flush _) as [[|[]] i].
Qed.

Lemma vision_run_id v data v' : vision_run v data v' -> id v' = id v.
Proof.
  induction 1 as [|data v1 bytes random _ IH Hrand|data v1 _ IH|data v1 room _ IH]; [done|..]; rewrite <- IH.
  - unfold poll_write. pose proof (flush_frame_id v1) as E. destruct (flush_frame v1) as [[|[u|e|]] v2]; cbn [snd] in E; try done.
    destruct (write_plain v2); [by destruct (rs_poll_write _ _)|]. by destruct (bool_decide _).
  - apply flush_frame_id.
  - unfold poll_read. destruct (room =? 0)%nat; [done|]. destruct (failed v1); [done|].
    pose proof (flush_frame_id v1) as E. destruct (flush_frame v1) as [o v2]. cbn [snd] in E.
    assert (Hl : id (frame_loop 66 0 room v2).2 = id v2).
    { pose proof (frame_loop_writer room 66 0 v2) as Hw. destruct (frame_loop 66 0 room v2) as [o' v3]. cbn [snd] in *.
      unfold writer_of in Hw. congruence. }
    destruct o as [|[]]; cbn [snd]; congruence.
Qed.

(** C19: data survives the Vision stream: whatever is written and read at one end,
    in calls of any sizes and whatever the transport does with them, once it has
    been flushed a Vision stream at the other end, fed with the response header
    and the bytes that were written under TLS and directly, in any pieces, reads
    exactly the data that the writer was told is written, and then the end. *)
Theorem vision_roundtrip i uuid data v j sizes : length uuid = 16%nat -> tls_out i = [] -> raw_out i = [] -> write_direct i = false ->
  vision_run (framed i uuid) data v -> pending v = [] ->
  read_direct j = false -> Forall event_good (events j) -> Forall (lt 0) sizes ->
  (2 * (source_work (tls_in j) + source_work (raw_in j)) < length sizes)%nat ->
  concat (tls_in j) = [0; 0] ++ tls_out (rp_inner (inner v)) -> concat (raw_in j) = raw_out (rp_inner (inner v)) ->
  read_to_end sizes (framed j uuid) = Some (data, Ends).
Proof.
  intros Hid Ht Hr Hw Hrun Hp Hd He Hs Hwk Hct Hcr. pose proof (vision_run_id _ _ _ Hrun) as Hidv. cbn [framed id] in Hidv. rewrite read_framed by done. rewrite Hct. cbn [app].
  change (negb (0 =? 0)) with false. cbn [orb]. rewrite (proj2 (Nat.ltb_ge _ _)) by (simpl; lia). rewrite drop_0, Hcr. f_equal.
  destruct (vision_run_wrote _ _ _ (framed_wrote i uuid Hid Ht Hr Hw) Hrun) as [_ _ _ _ Hdec].
  specialize (Hdec ([], Ends) ([], Ends)). rewrite Hp, drop_nil, Hidv in Hdec. unfold prepend in Hdec. cbn [fst snd] in Hdec.
  rewrite !app_nil_r in Hdec. rewrite Hdec. destruct (write_plain v); [by destruct (_ || _); rewrite app_nil_r|].
  rewrite decode_nil. cbn [fst snd]. by rewrite app_nil_r.
Qed.

(** A short write, flushed, read at the other end in two pieces. *)
Definition ex_uuid : list Z := replicate 16 9.
Definition ex_writer : VisionStream := framed (mk_rs [] [] false [] [] false [Wait; Accept 7]) ex_uuid.
Definition ex_first : VisionStream := (poll_write (flush_frame ex_writer).2 [97; 98] 3).2.
Definition ex_written : VisionStream := (flush_frame ex_first).2.
Definition ex_reader : RecordStream := mk_rs [[0]; [0] ++ ex_uuid ++ [0; 0; 2]; []; [0; 3; 97; 98; 0; 0; 0]] [] false [] [] false [].

Lemma vision_roundtrip_witness : read_to_end (replicate 100 5%nat) (framed ex_reader ex_uuid) = Some ([97; 98], Ends).
Proof.
  refine (vision_roundtrip (mk_rs [] [] false [] [] false [Wait; Accept 7]) ex_uuid [97; 98] ex_written ex_reader (replicate 100 5%nat) _ _ _ _ _ _ _ _ _ _ _ _);
    try reflexivity.
  - apply vr_flush. apply (vr_write _ [] (flush_frame ex_writer).2 [97; 98] 3); [apply vr_flush, vr_start | lia].
  - constructor.
  - apply Forall_replicate. lia.
  - vm_compute. lia.
Defined.
