(* ===== verification/RecordBounded.v ===== *)
(** * Reading one TLS record at a time

    [RecordBoundedStream] of crates/protocol/src/record.rs, on which the TLS
    library reads: it never takes a byte behind the record that is being read, so
    that the bytes under TLS are still there when Vision switches to them. *)

From S2P Require Import Prelude FfiAbi RustStr IpText IpTextFacts Target Vless VisionTls Vision VisionRead.
Local Open Scope Z_scope.

Definition HEADER : nat := 5.
Definition SCRATCH : nat := Z.to_nat (16 * 1024).

(** [record_header] are the first [header_filled] bytes of the array. *)
Record RecordBoundedStream := mk_rb { rb_inner : source; record_header : list Z; record_remaining : nat; yield_after_record : bool }.
Definition RecordBounded_new (inner : source) : RecordBoundedStream := mk_rb inner [] 0 false.

Definition rb_poll_read_raw (n : nat) (s : RecordBoundedStream) : poll (list Z) * RecordBoundedStream :=
  let '(o, i) := source_read n (rb_inner s) in (o, mk_rb i (record_header s) (record_remaining s) false).

Definition rb_poll_read (n : nat) (s : RecordBoundedStream) : poll (list Z) * RecordBoundedStream :=
  if (n =? 0)%nat then (Ready (Ok []), s)
  else if yield_after_record s then (Pending, mk_rb (rb_inner s) (record_header s) (record_remaining s) false)
  else
    let in_header := (length (record_header s) <? HEADER)%nat in
    let remaining := if in_header then (HEADER - length (record_header s))%nat else record_remaining s in
    let limit := Nat.min (Nat.min remaining n) SCRATCH in
    match source_read limit (rb_inner s) with
    | (Ready (Ok []), i) => (Ready (Ok []), mk_rb i (record_header s) (record_remaining s) false)
    | (Ready (Ok bytes), i) =>
        (Ready (Ok bytes),
         if in_header then
           let h := record_header s ++ bytes in
           if (length h =? HEADER)%nat then
             let remaining := Z.to_nat (u16_at h 3) in
             if (remaining =? 0)%nat then mk_rb i [] remaining true else mk_rb i h remaining false
           else mk_rb i h (record_remaining s) false
         else
           let remaining := (record_remaining s - length bytes)%nat in
           if (remaining =? 0)%nat then mk_rb i [] remaining true else mk_rb i (record_header s) remaining false)
    | (o, i) => (o, mk_rb i (record_header s) (record_remaining s) false)
    end.

(** ** Records *)

(** A whole record, and a part of one, from its start. *)
Definition whole_record (r : list Z) : Prop := (5 <= length r)%nat /\ length r = (5 + Z.to_nat (u16_at r 3))%nat.
Definition part_record (p : list Z) : Prop := (length p < 5)%nat \/ (5 <= length p)%nat /\ (length p < 5 + Z.to_nat (u16_at p 3))%nat.

(** [p] has been read of the record that is being read. *)
Definition reading (s : RecordBoundedStream) (p : list Z) : Prop :=
  record_header s = take 5 p /\ part_record p /\
  ((5 <= length p)%nat -> record_remaining s = (5 + Z.to_nat (u16_at p 3) - length p)%nat) /\
  (yield_after_record s = true -> p = []).

Lemma u16_at_app_l p b : (5 <= length p)%nat -> u16_at (p ++ b) 3 = u16_at p 3.
Proof. intros Hp. unfold u16_at. by rewrite !app_nth1 by lia. Qed.

(** A poll reads on in the same record, or to its end and no further; then the
    next poll is not ready, without a read. *)
Lemma rb_poll_read_spec n s p : (0 < n)%nat -> reading s p ->
  match rb_poll_read n s with
  | (Pending, s') => (if yield_after_record s then rb_inner s' = rb_inner s else concat (rb_inner s') = concat (rb_inner s)) /\ reading s' p
  | (Ready (Ok b), s') => yield_after_record s = false /\ concat (rb_inner s) = b ++ concat (rb_inner s') /\ (length b <= n)%nat /\
      (b = [] -> concat (rb_inner s) = []) /\
      (reading s' (p ++ b) \/ whole_record (p ++ b) /\ reading s' [] /\ yield_after_record s' = true)
  | (Ready _, _) => False
  end.
Proof.
  intros Hn (Hh & Hpart & Hrem & Hy). unfold rb_poll_read. rewrite (proj2 (Nat.eqb_neq n 0)) by lia.
  destruct (yield_after_record s) eqn:Ey; [split; [done|]; done|].
  assert (Hlen : length (record_header s) = Nat.min 5 (length p)) by (by rewrite Hh, length_take).
  set (hd := (length (record_header s) <? HEADER)%nat). cbv zeta.
  assert (Hhd : hd = bool_decide (length p < 5)%nat).
  { unfold hd, HEADER. rewrite Hlen. case_bool_decide; [apply Nat.ltb_lt | apply Nat.ltb_ge]; lia. }
  set (rem := if hd then (HEADER - length (record_header s))%nat else record_remaining s).
  assert (Hremp : (0 < rem)%nat /\ (hd = true -> rem = (5 - length p)%nat)).
  { unfold rem. rewrite Hhd. case_bool_decide; unfold HEADER; [lia|]. destruct Hpart as [?|[? ?]]; [lia|]. rewrite Hrem by lia. split; [lia | done]. }
  destruct Hremp as [Hpos Hrh].
  pose proof (rd_delivers (Nat.min (Nat.min rem n) SCRATCH) (rb_inner s) ltac:(unfold SCRATCH; lia) I) as Hd. cbn [rd source_reader] in Hd.
  destruct (source_read _ (rb_inner s)) as [[|[[|x b]|e|]] i]; cbn [delivers left source_reader] in Hd; [| | |by inversion Hd|done].
  - destruct Hd as (_ & [= Ed] & _). split; [done|]. by split; [|split].
  - destruct Hd as (_ & [= Ed] & [= Ei]). rewrite app_nil_r. cbn [rb_inner]. rewrite Ed, Ei. split; [done|]. split; [done|]. split; [simpl; lia|]. split; [done|].
    left. by split; [|split].
  - destruct Hd as (_ & [= Ed] & Hb & _). set (c := x :: b) in *.
    assert (Hcat : concat (rb_inner s) = c ++ concat i) by exact Ed. assert (Hc1 : (1 <= length c)%nat) by (simpl; lia).
    assert (Hcn : (length c <= n)%nat) by lia. assert (Hcr : (length c <= rem)%nat) by lia. clearbody c. clear Ed Hb.
    assert (Hgoal : forall s', rb_inner s' = i -> (reading s' (p ++ c) \/ whole_record (p ++ c) /\ reading s' [] /\ yield_after_record s' = true) ->
      false = false /\ concat (rb_inner s) = c ++ concat (rb_inner s') /\ (length c <= n)%nat /\ (c = [] -> concat (rb_inner s) = []) /\
      (reading s' (p ++ c) \/ whole_record (p ++ c) /\ reading s' [] /\ yield_after_record s' = true)).
    { intros s' -> Hor. split; [done|]. split; [done|]. split; [done|]. split; [|done]. intros ->. simpl in Hc1. lia. }
    assert (Hdone : forall i' k, reading (mk_rb i' [] k true) []).
    { intros i' k. split; [done|]. split; [left; simpl; lia|]. split; [simpl; lia | done]. }
    destruct hd eqn:Ehd.
    + symmetry in Hhd. apply bool_decide_eq_true in Hhd. rewrite Hh, (take_ge p) by lia. unfold HEADER. rewrite (Hrh eq_refl) in Hcr.
      assert (Hpc : (length (p ++ c) <= 5)%nat) by (rewrite length_app; lia).
      destruct (Nat.eqb_spec (length (p ++ c)) 5) as [E5|E5].
      * destruct (Nat.eqb_spec (Z.to_nat (u16_at (p ++ c) 3)) 0) as [E0|E0]; apply Hgoal; try done.
        -- right. split; [split; lia | by split].
        -- left. split; [cbn [record_header]; by rewrite take_ge by lia|]. split; [right; lia|]. split; [cbn [record_remaining]; lia | done].
      * apply Hgoal; [done|]. left. split; [cbn [record_header]; by rewrite take_ge by lia|]. split; [left; lia|]. split; [lia | done].
    + symmetry in Hhd. apply bool_decide_eq_false in Hhd. destruct Hpart as [?|[H5 Hlt]]; [lia|]. specialize (Hrem H5). unfold rem in Hcr. rewrite Hrem in Hcr.
      pose proof (u16_at_app_l p c H5) as Eu. assert (Hlc : length (p ++ c) = (length p + length c)%nat) by apply length_app.
      rewrite Hrem. destruct (Nat.eqb_spec (5 + Z.to_nat (u16_at p 3) - length p - length c) 0) as [E0|E0]; apply Hgoal; try done.
      * right. split; [split; [lia | rewrite Eu; lia] | by split].
      * left. split; [cbn [record_header]; rewrite Hh; by rewrite take_app_le by lia|]. split; [right; rewrite Eu; lia|].
        split; [cbn [record_remaining]; intros _; rewrite Eu; lia | done].
Qed.

(** What has been taken from the transport by reads. *)
Inductive rb_run (src : source) : list Z -> RecordBoundedStream -> Prop :=
  | rb_start : rb_run src [] (RecordBounded_new src)
  | rb_read taken s n : rb_run src taken s -> (0 < n)%nat ->
      rb_run src (taken ++ match (rb_poll_read n s).1 with Ready (Ok b) => b | _ => [] end) (rb_poll_read n s).2.

Lemma rb_run_inv src taken s : rb_run src taken s ->
  exists recs p, Forall whole_record recs /\ reading s p /\ taken = concat recs ++ p /\ concat src = taken ++ concat (rb_inner s).
Proof.
  induction 1 as [|taken s n _ (recs & p & Hrecs & Hp & -> & Hsrc) Hn].
  - exists [], []. split; [constructor|]. split; [|done]. split; [done|]. split; [left; simpl; lia|]. split; [simpl; lia | done].
  - pose proof (rb_poll_read_spec n s p Hn Hp) as Hs. destruct (rb_poll_read n s) as [[|[b|e|]] s']; cbn [fst snd] in *; [| |done..].
    + destruct Hs as [Hi Hr]. exists recs, p. rewrite app_nil_r. split; [done|]. split; [done|]. split; [done|].
      destruct (yield_after_record s); [by rewrite Hi | by rewrite Hi].
    + destruct Hs as (_ & Hi & _ & _ & [Hr|(Hw & Hr & _)]).
      * exists recs, (p ++ b). split; [done|]. split; [done|]. split; [by rewrite app_assoc|]. rewrite Hsrc, Hi. by rewrite <- !app_assoc.
      * exists (recs ++ [p ++ b]), []. split; [apply Forall_app; split; [done | by constructor]|]. split; [done|].
        split; [rewrite concat_app; cbn [concat]; by rewrite !app_nil_r, app_assoc|]. rewrite Hsrc, Hi. by rewrite <- !app_assoc.
Qed.

(** C21: the TLS library never gets a byte of the next record together with the one
    it reads: after any reads, what has been taken from the transport is what was
    handed out, some whole records and a part of one; the next read hands out
    bytes of that record only, and when they are its last, the read after it is
    not ready and leaves the transport alone, so that a switch to direct reads
    finds exactly the bytes behind the record. *)
Theorem record_boundary_kept src taken s n : rb_run src taken s -> (0 < n)%nat ->
  exists recs p, Forall whole_record recs /\ part_record p /\ taken = concat recs ++ p /\ concat src = taken ++ concat (rb_inner s) /\
  match rb_poll_read n s with
  | (Ready (Ok b), s') => concat (rb_inner s) = b ++ concat (rb_inner s') /\
      (part_record (p ++ b) \/
       whole_record (p ++ b) /\ (forall n', (0 < n')%nat -> (rb_poll_read n' s').1 = Pending /\ rb_inner (rb_poll_read n' s').2 = rb_inner s'))
  | (Pending, s') => concat (rb_inner s') = concat (rb_inner s)
  | (Ready _, _) => False
  end.
Proof.
  intros Hr Hn. destruct (rb_run_inv src taken s Hr) as (recs & p & Hrecs & Hp & Ht & Hsrc). exists recs, p.
  split; [done|]. split; [apply Hp|]. split; [done|]. split; [done|].
  pose proof (rb_poll_read_spec n s p Hn Hp) as Hs. destruct (rb_poll_read n s) as [[|[b|e|]] s']; [| |done..].
  - destruct Hs as [Hi _]. destruct (yield_after_record s); [by rewrite Hi | done].
  - destruct Hs as (_ & Hi & _ & _ & Hor). split; [done|]. destruct Hor as [(_ & ? & _)|(Hw & _ & Hy)]; [by left | right]. split; [done|].
    intros n' Hn'. unfold rb_poll_read. rewrite (proj2 (Nat.eqb_neq n' 0)) by lia. by rewrite Hy.
Qed.

(** A record of two bytes with raw bytes right behind it, read with room for all. *)
Lemma record_boundary_kept_witness :
  let src := [[23; 3; 3; 0; 2; 1; 2; 77; 78]] in
  let s := (rb_poll_read 100 (RecordBounded_new src)).2 in
  (rb_poll_read 100 s).1 = Ready (Ok [1; 2]) /\
  exists recs p, Forall whole_record recs /\ part_record p /\ [23; 3; 3; 0; 2] = concat recs ++ p /\ concat src = [23; 3; 3; 0; 2] ++ concat (rb_inner s) /\
  match rb_poll_read 100 s with
  | (Ready (Ok b), s') => concat (rb_inner s) = b ++ concat (rb_inner s') /\
      (part_record (p ++ b) \/
       whole_record (p ++ b) /\ (forall n', (0 < n')%nat -> (rb_poll_read n' s').1 = Pending /\ rb_inner (rb_poll_read n' s').2 = rb_inner s'))
  | (Pending, s') => concat (rb_inner s') = concat (rb_inner s)
  | (Ready _, _) => False
  end.
Proof.
  intros src s. split; [reflexivity|]. apply (record_boundary_kept src [23; 3; 3; 0; 2] s 100); [|lia].
  apply (rb_read src [] (RecordBounded_new src) 100); [constructor | lia].
Defined.
