(* ===== verification/WebSocket.v ===== *)
(** * WebSocket streams

    [WsStream] of crates/protocol/src/websocket.rs behind the upgrade: frames
    written and parsed, and the stream polled over a transport, which is modelled
    as in Vision.v.  Sizes are 64-bit, sums of them wrap around. *)

From S2P Require Import Prelude FfiAbi RustStr IpText IpTextFacts Target Vless VisionTls Vision VisionRead.
Local Open Scope Z_scope.

(** ** Frames *)

(** [u64::to_be_bytes]. *)
Definition be64 (n : Z) : list Z := (fun k => n / 256 ^ k mod 256) <$> [7; 6; 5; 4; 3; 2; 1; 0].

(** [b ^ mask[i % 4]] for every byte. *)
Definition apply_mask (mask bytes : list Z) : list Z := imap (fun i b => Z.lxor b (nth (i mod 4) mask 0)) bytes.

(** [WsStream::frame], with the mask drawn. *)
Definition ws_frame (mask bytes : list Z) (opcode : Z) : list Z :=
  [Z.lor 128 opcode] ++
  (if len bytes <? 126 then [Z.lor 128 (len bytes mod 256)]
   else if len bytes <=? 65535 then Z.lor 128 126 :: be16 (len bytes)
   else Z.lor 128 127 :: be64 (len bytes)) ++
  mask ++ apply_mask mask bytes.

(** The parsing of [parse_frame], up to what is done with the frame. *)
Inductive ws_parsed := WsMore | WsPanic | WsFrame (opcode : Z) (data rest : list Z).

(** From the mask on; slicing panics when the end comes before the start. *)
Definition parse_data (s : list Z) (opcode at_ size : Z) (mask : option (list Z)) : ws_parsed :=
  let stop := (at_ + size) mod 2 ^ 64 in
  if len s <? stop then WsMore
  else if stop <? at_ then WsPanic
  else
    let data := take (Z.to_nat (stop - at_)) (drop (Z.to_nat at_) s) in
    WsFrame opcode (match mask with Some m => apply_mask m data | None => data end) (drop (Z.to_nat stop) s).

Definition parse_mask (s : list Z) (opcode : Z) (masked : bool) (at_ size : Z) : ws_parsed :=
  if masked then
    if len s <? at_ + 4 then WsMore
    else parse_data s opcode (at_ + 4) size (Some (take 4 (drop (Z.to_nat at_) s)))
  else parse_data s opcode at_ size None.

Definition ws_parse (s : list Z) : ws_parsed :=
  if (length s <? 2)%nat then WsMore
  else
    let opcode := Z.land (nth 0 s 0) 15 in
    let masked := negb (Z.land (nth 1 s 0) 128 =? 0) in
    let size := Z.land (nth 1 s 0) 127 in
    if size =? 126 then
      if (length s <? 4)%nat then WsMore else parse_mask s opcode masked 4 (u16_at s 2)
    else if size =? 127 then
      if (length s <? 10)%nat then WsMore else parse_mask s opcode masked 10 (horner 256 (take 8 (drop 2 s)))
    else parse_mask s opcode masked 2 size.

(** ** The stream *)

(** [masks] are the masks that will be drawn. *)
Record WsStream := mk_ws {
  ws_in : source; ws_out : list Z; ws_events : list event; raw : bool; incoming : list Z; payload : list Z; payload_at : nat;
  outgoing : list Z; outgoing_at : nat; closed : bool; masks : list (list Z)
}.
(** [WsStream::new], when the upgrade is done. *)
Definition Ws_new (i : source) (events : list event) (is_raw : bool) (ms : list (list Z)) : WsStream :=
  mk_ws i [] events is_raw [] [] 0 [] 0 false ms.

Definition set_read (s : WsStream) (i : source) (inc pay : list Z) (at_ : nat) : WsStream :=
  mk_ws i (ws_out s) (ws_events s) (raw s) inc pay at_ (outgoing s) (outgoing_at s) (closed s) (masks s).
Definition set_write (s : WsStream) (out : list Z) (ev : list event) (og : list Z) (at_ : nat) (ms : list (list Z)) : WsStream :=
  mk_ws (ws_in s) out ev (raw s) (incoming s) (payload s) (payload_at s) og at_ (closed s) ms.
Definition set_closed (s : WsStream) : WsStream :=
  mk_ws (ws_in s) (ws_out s) (ws_events s) (raw s) (incoming s) (payload s) (payload_at s) (outgoing s) (outgoing_at s) true (masks s).

Definition draw (s : WsStream) : list Z * list (list Z) := match masks s with m :: ms => (m, ms) | [] => ([0; 0; 0; 0], []) end.

Definition parse_frame (s : WsStream) : outcome bool * WsStream :=
  match ws_parse (incoming s) with
  | WsMore => (Ok false, s)
  | WsPanic => (Panicked, s)
  | WsFrame opcode data rest =>
      let s := set_read s (ws_in s) rest (payload s) (payload_at s) in
      if (opcode =? 0) || (opcode =? 2) then (Ok true, set_read s (ws_in s) rest data 0)
      else if opcode =? 8 then (Ok true, set_closed s)
      else if opcode =? 9 then
        let '(mask, ms) := draw s in
        (Ok true, set_write s (ws_out s) (ws_events s) (outgoing s ++ ws_frame mask data 10) (outgoing_at s) ms)
      else if opcode =? 10 then (Ok true, s)
      else (Err (text "unsupported WebSocket frame"), s)
  end.

(** Handing out the payload. *)
Definition give (room : nat) (s : WsStream) : poll (list Z) * WsStream :=
  let n := Nat.min room (length (payload s) - payload_at s) in
  (Ready (Ok (take n (drop (payload_at s) (payload s)))), set_read s (ws_in s) (incoming s) (payload s) (payload_at s + n)).

(** The loop of [poll_read]; a round that goes on has taken bytes off the
    transport, and [fuel] is more than it can deliver. *)
Fixpoint ws_loop (fuel : nat) (room : nat) (s : WsStream) : poll (list Z) * WsStream :=
  match fuel with
  | O => (Pending, s)
  | S fuel =>
      if closed s then (Ready (Ok []), s)
      else match parse_frame s with
           | (Err e, s) => (Ready (Err e), s)
           | (Panicked, s) => (Ready Panicked, s)
           | (Ok parsed, s) =>
               if parsed && (payload_at s <? length (payload s))%nat then give room s
               else match source_read (Z.to_nat 8192) (ws_in s) with
                    | (Ready (Ok []), i) => (Ready (Ok []), set_read s i (incoming s) (payload s) (payload_at s))
                    | (Ready (Ok b), i) => ws_loop fuel room (set_read s i (incoming s ++ b) (payload s) (payload_at s))
                    | (o, i) => (o, set_read s i (incoming s) (payload s) (payload_at s))
                    end
           end
  end.

Definition ws_poll_read (room : nat) (s : WsStream) : poll (list Z) * WsStream :=
  if raw s then
    if negb (bool_decide (incoming s = [])) then
      (Ready (Ok (take room (incoming s))), set_read s (ws_in s) (drop room (incoming s)) (payload s) (payload_at s))
    else let '(o, i) := source_read room (ws_in s) in (o, set_read s i (incoming s) (payload s) (payload_at s))
  else if (payload_at s <? length (payload s))%nat then give room s
  else ws_loop (S (source_work (ws_in s))) room s.

(** [flush_outgoing]; every round writes a byte or ends. *)
Definition ws_event (s : WsStream) : event * WsStream :=
  match ws_events s with
  | [] => (Accept (Z.to_nat (2 ^ 16)), s)
  | e :: l => (e, set_write s (ws_out s) l (outgoing s) (outgoing_at s) (masks s))
  end.

Fixpoint ws_flush_loop (fuel : nat) (s : WsStream) : option (poll unit) * WsStream :=
  if (length (outgoing s) <=? outgoing_at s)%nat then (None, s)
  else match fuel with
       | O => (Some Pending, s)
       | S fuel =>
           match ws_event s with
           | (Wait, s) => (Some Pending, s)
           | (Fault e, s) => (Some (Ready (Err e)), s)
           | (Accept n, s) =>
               let b := take n (drop (outgoing_at s) (outgoing s)) in
               let s := set_write s (ws_out s ++ b) (ws_events s) (outgoing s) (outgoing_at s + length b) (masks s) in
               if (length b =? 0)%nat then (Some (Ready (Err WriteZero)), s) else ws_flush_loop fuel s
           end
       end.

Definition flush_outgoing (s : WsStream) : poll unit * WsStream :=
  match ws_flush_loop (length (outgoing s)) s with
  | (Some o, s) => (o, s)
  | (None, s) =>
      match ws_event (set_write s (ws_out s) (ws_events s) [] 0 (masks s)) with
      | (Wait, s) => (Pending, s)
      | (Fault e, s) => (Ready (Err e), s)
      | (Accept _, s) => (Ready (Ok tt), s)
      end
  end.

Definition ws_poll_write (s : WsStream) (bytes : list Z) : poll nat * WsStream :=
  match flush_outgoing s with
  | (Pending, s) => (Pending, s)
  | (Ready (Err e), s) => (Ready (Err e), s)
  | (Ready Panicked, s) => (Ready Panicked, s)
  | (Ready (Ok _), s) =>
      if raw s then
        match ws_event s with
        | (Wait, s) => (Pending, s)
        | (Fault e, s) => (Ready (Err e), s)
        | (Accept n, s) =>
            let b := take n bytes in
            (Ready (Ok (length b)), set_write s (ws_out s ++ b) (ws_events s) (outgoing s) (outgoing_at s) (masks s))
        end
      else
        let b := take (Z.to_nat (16 * 1024)) bytes in
        let '(mask, ms) := draw s in
        (Ready (Ok (length b)), set_write s (ws_out s) (ws_events s) (ws_frame mask b 2) (outgoing_at s) ms)
  end.
