(* ===== verification/WebSocketFacts.v ===== *)
(** * WebSocket streams: frames are read back, except behind control frames *)

From S2P Require Import Prelude FfiAbi RustStr IpText IpTextFacts Target Vless VisionTls VisionTlsFacts Vision VisionRead WebSocket.
Local Open Scope Z_scope.

(** ** Parsing *)

Lemma parse_data_mono s op a n m b : 0 <= a <= len s ->
  match parse_data s op a n m with
  | WsMore => True
  | WsPanic => parse_data (s ++ b) op a n m = WsPanic
  | WsFrame op' d r => parse_data (s ++ b) op a n m = WsFrame op' d (r ++ b) /\ (length d + length r <= length s)%nat
  end.
Proof.
  intros Ha. unfold parse_data. pose proof (Z.mod_pos_bound (a + n) (2 ^ 64) ltac:(lia)) as Hm. set (stop := (a + n) mod 2 ^ 64) in *.
  destruct (Z.ltb_spec (len s) stop); [done|]. rewrite (proj2 (Z.ltb_ge (len (s ++ b)) stop)) by (rewrite length_app; lia).
  destruct (Z.ltb_spec stop a); [done|]. rewrite !drop_app_le by lia. rewrite take_app_le by (rewrite length_drop; lia).
  split; [done|]. assert (Hl : (length (take (Z.to_nat (stop - a)) (drop (Z.to_nat a) s)) + length (drop (Z.to_nat stop) s) <= length s)%nat)
    by (rewrite length_take, !length_drop; lia).
  destruct m as [m|]; [|done]. unfold apply_mask. by rewrite length_imap.
Qed.

Lemma parse_mask_mono s op masked a n b : 0 <= a <= len s ->
  match parse_mask s op masked a n with
  | WsMore => True
  | WsPanic => parse_mask (s ++ b) op masked a n = WsPanic
  | WsFrame op' d r => parse_mask (s ++ b) op masked a n = WsFrame op' d (r ++ b) /\ (length d + length r <= length s)%nat
  end.
Proof.
  intros Ha. unfold parse_mask. destruct masked; [|by apply parse_data_mono].
  destruct (Z.ltb_spec (len s) (a + 4)); [done|]. rewrite (proj2 (Z.ltb_ge (len (s ++ b)) (a + 4))) by (rewrite length_app; lia).
  rewrite drop_app_le by lia. rewrite take_app_le by (rewrite length_drop; lia). apply parse_data_mono. lia.
Qed.

(** A frame that is complete is parsed the same whatever follows it. *)
Lemma ws_parse_mono s b :
  match ws_parse s with
  | WsMore => True
  | WsPanic => ws_parse (s ++ b) = WsPanic
  | WsFrame op d r => ws_parse (s ++ b) = WsFrame op d (r ++ b) /\ (length d + length r <= length s)%nat
  end.
Proof.
  unfold ws_parse. destruct (Nat.ltb_spec (length s) 2) as [|H2]; [done|]. rewrite (proj2 (Nat.ltb_ge (length (s ++ b)) 2)) by (rewrite length_app; lia).
  rewrite !(app_nth1 s b) by lia. cbv zeta. destruct (Z.land (nth 1 s 0) 127 =? 126).
  - destruct (Nat.ltb_spec (length s) 4) as [|H4]; [done|]. rewrite (proj2 (Nat.ltb_ge (length (s ++ b)) 4)) by (rewrite length_app; lia).
    assert (Eu : u16_at (s ++ b) 2 = u16_at s 2) by (unfold u16_at; by rewrite !app_nth1 by lia). rewrite Eu. apply parse_mask_mono. lia.
  - destruct (Z.land (nth 1 s 0) 127 =? 127).
    + destruct (Nat.ltb_spec (length s) 10) as [|H10]; [done|]. rewrite (proj2 (Nat.ltb_ge (length (s ++ b)) 10)) by (rewrite length_app; lia).
      rewrite drop_app_le, take_app_le by (rewrite ?length_drop; lia). apply parse_mask_mono. lia.
    + apply parse_mask_mono. lia.
Qed.

(** ** What is written is parsed *)

(** The frames of RFC 6455, section 5.7: a masked and an unmasked Hello, a pong,
    and 256 bytes behind a two-byte length. *)
Example rfc6455_frames :
  ws_frame [55; 250; 33; 61] [72; 101; 108; 108; 111] 1 = [129; 133; 55; 250; 33; 61; 127; 159; 77; 81; 88] /\
  ws_frame [55; 250; 33; 61] [72; 101; 108; 108; 111] 10 = [138; 133; 55; 250; 33; 61; 127; 159; 77; 81; 88] /\
  ws_parse [129; 5; 72; 101; 108; 108; 111] = WsFrame 1 [72; 101; 108; 108; 111] [] /\
  ws_parse ([130; 126; 1; 0] ++ repeat 7 256 ++ [9]) = WsFrame 2 (repeat 7 256) [9].
Proof. by vm_compute. Qed.

Lemma lxor_twice a m : Z.lxor (Z.lxor a m) m = a.
Proof. by rewrite Z.lxor_assoc, Z.lxor_nilpotent, Z.lxor_0_r. Qed.

Lemma apply_mask_twice m b : apply_mask m (apply_mask m b) = b.
Proof.
  unfold apply_mask. apply list_eq. intros i. rewrite !list_lookup_imap. destruct (b !! i); [|done]. simpl. by rewrite lxor_twice.
Qed.

Lemma apply_mask_length m b : length (apply_mask m b) = length b.
Proof. unfold apply_mask. by rewrite length_imap. Qed.

Lemma lor_128 n : 0 <= n < 128 -> Z.lor 128 n = 128 + n.
Proof.
  intros Hn. assert (H : Forall (fun n => Z.lor 128 n = 128 + n) (seqZ 0 128)) by (vm_compute; repeat constructor).
  rewrite Forall_forall in H. apply H. by apply elem_of_seqZ.
Qed.

Lemma second_byte n : 0 <= n < 128 -> Z.land (Z.lor 128 n) 127 = n /\ negb (Z.land (Z.lor 128 n) 128 =? 0) = true.
Proof.
  intros Hn. split.
  - change 127 with (Z.ones 7). rewrite Z.land_ones, lor_128 by lia. change (2 ^ 7) with 128. div_lia.
  - rewrite Z.land_comm, Z.land_lor_distr_r. change (Z.land 128 128) with 128. destruct (Z.eqb_spec (Z.lor 128 (Z.land 128 n)) 0) as [E|]; [|done].
    apply Z.lor_eq_0_iff in E as [? _]. lia.
Qed.

Lemma horner_be64 n : 0 <= n < 2 ^ 64 -> horner 256 (be64 n) = n.
Proof. intros Hn. unfold be64, horner. cbn [fmap list_fmap foldl]. change (256 ^ 0) with 1. div_lia. Qed.

Lemma parse_mask_frame pre mask d op rest : length mask = 4%nat -> len pre <= 10 -> len d < 2 ^ 63 ->
  parse_mask (pre ++ mask ++ apply_mask mask d ++ rest) op true (len pre) (len d) = WsFrame op d rest.
Proof.
  intros Hm Hp Hd. unfold parse_mask, parse_data. rewrite (Z.mod_small (len pre + 4 + len d)) by lia.
  assert (Hl : len (pre ++ mask ++ apply_mask mask d ++ rest) = len pre + 4 + len d + len rest) by (rewrite !length_app, apply_mask_length; lia).
  rewrite (proj2 (Z.ltb_ge _ (len pre + 4))) by lia. rewrite (proj2 (Z.ltb_ge _ (len pre + 4 + len d))) by lia.
  rewrite (proj2 (Z.ltb_ge _ (len pre + 4))) by lia. cbv zeta. rewrite Nat2Z.id, drop_app_length, take_app_length' by done.
  rewrite (app_assoc pre), (drop_app_length' (pre ++ mask)) by (rewrite length_app; lia).
  replace (len pre + 4 + len d - (len pre + 4)) with (len d) by lia. rewrite Nat2Z.id, take_app_length' by (by rewrite apply_mask_length).
  rewrite apply_mask_twice. f_equal. rewrite (app_assoc (pre ++ mask)). apply drop_app_length'.
  rewrite !length_app, apply_mask_length. lia.
Qed.

(** A frame that was written is parsed as it was meant, to its last byte. *)
Lemma ws_parse_frame mask d op rest : length mask = 4%nat -> 0 <= op < 16 -> len d < 2 ^ 63 ->
  ws_parse (ws_frame mask d op ++ rest) = WsFrame op d rest.
Proof.
  intros Hm Hop Hd.
  assert (Eop : Z.land (Z.lor 128 op) 15 = op) by (change 15 with (Z.ones 4); rewrite Z.land_ones, lor_128 by lia; change (2 ^ 4) with 16; div_lia).
  unfold ws_frame, ws_parse. rewrite <- !app_assoc. cbn [app length nth].
  destruct (Z.ltb_spec (len d) 126) as [H1|H1].
  - rewrite Z.mod_small by lia. destruct (second_byte (len d) ltac:(lia)) as [E1 E2]. cbn [app length nth]. rewrite E1, E2, Eop.
    change (S (S _) <? 2)%nat with false. rewrite (proj2 (Z.eqb_neq _ 126)), (proj2 (Z.eqb_neq _ 127)) by lia. cbv zeta iota.
    exact (parse_mask_frame [Z.lor 128 op; Z.lor 128 (len d)] mask d op rest Hm ltac:(simpl; lia) Hd).
  - destruct (Z.leb_spec (len d) 65535) as [H2|H2].
    + cbn [app length nth be16]. change (S (S _) <? 2)%nat with false. change (Z.land (Z.lor 128 126) 127 =? 126) with true.
      change (negb (Z.land (Z.lor 128 126) 128 =? 0)) with true. rewrite Eop. cbv zeta iota. change (S (S (S (S _))) <? 4)%nat with false.
      unfold u16_at. cbn [nth]. rewrite of_be16_be16 by lia.
      exact (parse_mask_frame [Z.lor 128 op; Z.lor 128 126; len d / 256 mod 256; len d mod 256] mask d op rest Hm ltac:(simpl; lia) Hd).
    + cbn [app length nth]. change (S (S _) <? 2)%nat with false. change (Z.land (Z.lor 128 127) 127 =? 126) with false.
      change (Z.land (Z.lor 128 127) 127 =? 127) with true. change (negb (Z.land (Z.lor 128 127) 128 =? 0)) with true. rewrite Eop. cbv zeta iota.
      assert (H10 : (length (Z.lor 128 op :: Z.lor 128 127 :: be64 (len d) ++ mask ++ apply_mask mask d ++ rest) <? 10)%nat = false)
        by (apply Nat.ltb_ge; cbn [length]; rewrite length_app; simpl; lia).
      cbn [length] in H10. rewrite H10. cbn [drop]. rewrite drop_0, take_app_length' by done. rewrite horner_be64 by lia.
      exact (parse_mask_frame (Z.lor 128 op :: Z.lor 128 127 :: be64 (len d)) mask d op rest Hm ltac:(simpl; lia) Hd).
Qed.

(** ** Reading a stream of data frames *)

(** The data of the frames, when all of them are data frames with contents; a
    frame at the end may be incomplete. *)
Fixpoint ws_decode_frames (fuel : nat) (s : list Z) : option (list Z) :=
  match fuel with
  | O => None
  | S fuel =>
      match ws_parse s with
      | WsMore => Some []
      | WsFrame op d r =>
          if ((op =? 0) || (op =? 2)) && negb (bool_decide (d = [])) then app d <$> ws_decode_frames fuel r else None
      | WsPanic => None
      end
  end.
Definition ws_decode (s : list Z) : option (list Z) := ws_decode_frames (S (length s)) s.

Lemma ws_decode_fuel n : forall n' s, (length s < n)%nat -> (n <= n')%nat -> ws_decode_frames n s = ws_decode_frames n' s.
Proof.
  induction n as [|n IH]; intros n' s Hs Hn; [lia|]. destruct n' as [|n']; [lia|]. cbn [ws_decode_frames].
  pose proof (ws_parse_mono s []) as Hm. destruct (ws_parse s) as [| |op d r]; [done..|]. destruct Hm as [_ Hl].
  destruct (_ && _) eqn:E; [|done]. apply andb_true_iff in E as [_ E%negb_true_iff%bool_decide_eq_false].
  f_equal. apply IH; [|lia]. destruct d; [done|]. simpl in Hl. lia.
Qed.

Lemma ws_decode_step s : ws_decode s =
  match ws_parse s with
  | WsMore => Some []
  | WsFrame op d r => if ((op =? 0) || (op =? 2)) && negb (bool_decide (d = [])) then app d <$> ws_decode r else None
  | WsPanic => None
  end.
Proof.
  unfold ws_decode at 1. cbn [ws_decode_frames]. pose proof (ws_parse_mono s []) as Hm. destruct (ws_parse s) as [| |op d r]; [done..|].
  destruct Hm as [_ Hl]. destruct (_ && _) eqn:E; [|done]. apply andb_true_iff in E as [_ E%negb_true_iff%bool_decide_eq_false].
  f_equal. unfold ws_decode. symmetry. apply ws_decode_fuel; [lia|]. destruct d; [done|]. simpl in Hl. lia.
Qed.

Definition ws_left (s : WsStream) : stream :=
  (drop (payload_at s) (payload s) ++ default [] (ws_decode (incoming s ++ concat (ws_in s))), Ends).
Definition ws_work (s : WsStream) : nat := (3 * source_work (ws_in s) + 2 * length (incoming s) + length (drop (payload_at s) (payload s)))%nat.
Definition ws_ok (s : WsStream) : Prop := raw s = false /\ closed s = false /\ is_Some (ws_decode (incoming s ++ concat (ws_in s))).

#[global] Instance ws_reader : Reader WsStream := { rd := ws_poll_read; left := ws_left; work := ws_work; rd_ok := ws_ok }.

Lemma give_delivers room s w : ws_ok s -> (0 < room)%nat -> (payload_at s < length (payload s))%nat -> (ws_work s <= w)%nat ->
  delivers room (ws_left s) w (give room s).
Proof.
  intros Hs Hr Hp Hw. unfold give. set (n := Nat.min room (length (payload s) - payload_at s)).
  assert (Hn : (0 < n)%nat) by (unfold n; lia). set (rest := drop (payload_at s) (payload s)) in *.
  assert (Hlr : length rest = (length (payload s) - payload_at s)%nat) by apply length_drop.
  destruct (take n rest) as [|x b] eqn:E; [apply (f_equal length) in E; rewrite length_take in E; simpl in E; lia|].
  pose proof (f_equal length E) as El. rewrite length_take in El. cbn [delivers]. split; [done|].
  cbn [left work ws_reader]. unfold ws_left, ws_work, prepend in *. cbn [set_read ws_in incoming payload payload_at fst snd]. fold rest in Hw |- *.
  rewrite <- drop_drop. fold rest. rewrite <- E. split; [by rewrite app_assoc, take_drop|]. split; [rewrite E; unfold n in *; lia|].
  rewrite length_drop, length_take. lia.
Qed.

(** What a round of the loop sees. *)
Lemma ws_loop_delivers room fuel : forall s, ws_ok s -> (0 < room)%nat -> drop (payload_at s) (payload s) = [] ->
  (source_work (ws_in s) < fuel)%nat -> delivers room (ws_left s) (ws_work s) (ws_loop fuel room s).
Proof.
  induction fuel as [|fuel IH]; intros s Hs Hr Hp Hf; [lia|]. destruct Hs as (Hraw & Hcl & Hdec). cbn [ws_loop]. rewrite Hcl.
  unfold parse_frame. pose proof (ws_parse_mono (incoming s) (concat (ws_in s))) as Hm. pose proof Hdec as Hdec0. rewrite ws_decode_step in Hdec.
  destruct (ws_parse (incoming s)) as [| |op d r] eqn:Epar.
  - cbn [andb]. pose proof (rd_delivers (Z.to_nat 8192) (ws_in s) ltac:(lia) I) as Hd. cbn [rd left work source_reader] in Hd.
    destruct (source_read _ (ws_in s)) as [[|[[|x b]|e|]] i]; cbn [delivers left work source_reader] in Hd; [| | |by inversion Hd|done].
    + destruct Hd as (_ & [= Ei] & Hw). split; [by split; [|split; [|cbn [set_read incoming ws_in]; rewrite Ei]]|].
      cbn [left work ws_reader]. unfold ws_left, ws_work. cbn [set_read incoming ws_in payload payload_at]. rewrite Ei. split; [done | lia].
    + destruct Hd as (_ & [= Ei] & [= Ei']). split; [by split; [|split; [|cbn [set_read incoming ws_in]; rewrite Ei', <- Ei]]|].
      cbn [left ws_reader]. unfold ws_left. cbn [set_read incoming ws_in payload payload_at]. rewrite Ei, Ei', app_nil_r, Hp. rewrite ws_decode_step, Epar. done.
    + destruct Hd as (_ & [= Ei] & _ & Hw). set (s1 := set_read s i (incoming s ++ x :: b) (payload s) (payload_at s)).
      assert (Eb : incoming s1 ++ concat (ws_in s1) = incoming s ++ concat (ws_in s)) by (unfold s1; cbn [set_read incoming ws_in]; rewrite Ei; by rewrite <- app_assoc).
      assert (El : ws_left s1 = ws_left s) by (unfold ws_left; rewrite Eb; done).
      assert (Hs1 : ws_ok s1) by (split; [done|]; split; [done|]; by rewrite Eb).
      assert (Hw1 : (ws_work s1 <= ws_work s)%nat) by (unfold ws_work, s1; cbn [set_read incoming ws_in payload payload_at]; rewrite length_app; simpl length in *; lia).
      specialize (IH s1 Hs1 Hr Hp). rewrite El in IH.
      assert (Hd1 : delivers room (ws_left s) (ws_work s1) (ws_loop fuel room s1)) by (apply IH; unfold s1; cbn [set_read ws_in]; simpl length in Hw; lia).
      destruct (ws_loop fuel room s1) as [[|[[|y c]|e|]] s2]; cbn [delivers] in *; try done.
      * destruct Hd1 as (? & ? & ?). split; [done|]. split; [done | lia].
      * destruct Hd1 as (? & ? & ? & ?). split; [done|]. split; [done|]. split; [done | lia].
  - rewrite Hm in Hdec. by destruct Hdec.
  - destruct Hm as [Hm Hl]. rewrite Hm in Hdec. destruct (((op =? 0) || (op =? 2)) && negb (bool_decide (d = []))) eqn:E; [|by destruct Hdec].
    apply andb_true_iff in E as [Eop Ed%negb_true_iff%bool_decide_eq_false]. rewrite Eop. cbv zeta.
    set (s1 := set_read (set_read s (ws_in s) r (payload s) (payload_at s)) (ws_in (set_read s (ws_in s) r (payload s) (payload_at s))) r d 0).
    assert (Hpos : (0 < length d)%nat) by (destruct d; [done | simpl; lia]).
    change (payload_at s1) with 0%nat. change (payload s1) with d. rewrite (proj2 (Nat.ltb_lt _ _)) by done. cbn [andb].
    assert (Hs1 : ws_ok s1) by (split; [done|]; split; [done|]; cbn [s1 set_read incoming ws_in]; by destruct (ws_decode (r ++ concat (ws_in s))); destruct Hdec).
    assert (El : ws_left s1 = ws_left s).
    { unfold ws_left. rewrite Hp. cbn [s1 set_read incoming ws_in payload payload_at]. rewrite drop_0. f_equal. rewrite (ws_decode_step (incoming s ++ _)), Hm, Eop.
      rewrite bool_decide_eq_false_2 by done. cbn [andb negb app]. destruct (ws_decode (r ++ concat (ws_in s))); [done | by destruct Hdec]. }
    rewrite <- El. apply give_delivers; [done | done | done |]. unfold ws_work. rewrite Hp. cbn [s1 set_read incoming ws_in payload payload_at].
    rewrite drop_0. simpl. lia.
Qed.

#[global] Instance ws_laws : ReaderLaws WsStream.
Proof.
  split. intros n s Hn Hs. cbn [rd left work ws_reader]. unfold ws_poll_read. destruct Hs as (Hraw & Hcl & Hdec). rewrite Hraw.
  destruct (Nat.ltb_spec (payload_at s) (length (payload s))) as [Hp|Hp]; [by apply give_delivers|].
  apply ws_loop_delivers; [done | done | by apply drop_ge | lia].
Qed.

(** ** Writing *)

(** Bytes that are frames of these data, one behind the other. *)
Inductive framed_as : list Z -> list Z -> Prop :=
  | fa_nil : framed_as [] []
  | fa_snoc bytes data mask d : framed_as bytes data -> length mask = 4%nat -> d <> [] -> len d < 2 ^ 63 ->
      framed_as (bytes ++ ws_frame mask d 2) (data ++ d).

Lemma framed_as_decode bytes data : framed_as bytes data -> forall rest, ws_decode (bytes ++ rest) = app data <$> ws_decode rest.
Proof.
  induction 1 as [|bytes data mask d _ IH Hm Hd Hl]; intros rest.
  - cbn [app]. by destruct (ws_decode rest).
  - rewrite <- app_assoc, IH, ws_decode_step, ws_parse_frame by (done || lia). change ((2 =? 0) || (2 =? 2)) with true.
    rewrite bool_decide_eq_false_2 by done. cbn [andb negb]. destruct (ws_decode rest); [|done]. simpl. by rewrite app_assoc.
Qed.

Definition ws_wrote (s : WsStream) (data : list Z) : Prop :=
  raw s = false /\ framed_as (ws_out s ++ drop (outgoing_at s) (outgoing s)) data /\ Forall (fun m => length m = 4%nat) (masks s).

Lemma ws_event_wrote s data : ws_wrote s data -> ws_wrote (ws_event s).2 data /\
  outgoing (ws_event s).2 = outgoing s /\ outgoing_at (ws_event s).2 = outgoing_at s.
Proof. unfold ws_event. by destruct (ws_events s). Qed.

Lemma ws_flush_loop_wrote fuel data : forall s, ws_wrote s data -> ws_wrote (ws_flush_loop fuel s).2 data /\
  match (ws_flush_loop fuel s).1 with
  | None => (length (outgoing (ws_flush_loop fuel s).2) <= outgoing_at (ws_flush_loop fuel s).2)%nat
  | Some (Ready (Ok _)) => False
  | _ => True
  end.
Proof.
  induction fuel as [|fuel IH]; intros s Hs; cbn [ws_flush_loop].
  all: destruct (Nat.leb_spec (length (outgoing s)) (outgoing_at s)) as [Hl|Hl]; [by split|].
  { by split. }
  destruct (ws_event_wrote s data Hs) as (Hw & _ & _). destruct (ws_event s) as [[|n|e] s1]; cbn [fst snd] in Hw; [by split | | by split].
  set (b := take n (drop (outgoing_at s1) (outgoing s1))).
  assert (Hw1 : ws_wrote (set_write s1 (ws_out s1 ++ b) (ws_events s1) (outgoing s1) (outgoing_at s1 + length b) (masks s1)) data).
  { destruct Hw as (Hr & Hf & Hm). split; [done|]. split; [|done]. cbn [set_write ws_out outgoing outgoing_at].
    rewrite <- app_assoc, <- drop_drop. unfold b. set (u := drop (outgoing_at s1) (outgoing s1)) in *. rewrite length_take.
    destruct (decide (n <= length u)%nat); [rewrite Nat.min_l by done; by rewrite take_drop|].
    rewrite Nat.min_r by lia. rewrite take_ge, drop_all by lia. by rewrite app_nil_r. }
  cbv zeta. destruct (_ =? 0)%nat; [by split|]. by apply IH.
Qed.

Lemma flush_outgoing_wrote s data : ws_wrote s data -> ws_wrote (flush_outgoing s).2 data /\
  match (flush_outgoing s).1 with
  | Ready (Ok _) => outgoing (flush_outgoing s).2 = [] /\ outgoing_at (flush_outgoing s).2 = 0%nat
  | _ => True
  end.
Proof.
  intros Hs. unfold flush_outgoing. destruct (ws_flush_loop_wrote (length (outgoing s)) data s Hs) as [Hw Hn].
  destruct (ws_flush_loop _ s) as [[o|] s1]; cbn [fst snd] in *; [split; [done|]; by destruct o as [|[]]|].
  set (s2 := set_write s1 (ws_out s1) (ws_events s1) [] 0 (masks s1)).
  assert (Hw2 : ws_wrote s2 data).
  { destruct Hw as (Hr & Hf & Hm). split; [done|]. split; [|done]. unfold s2. cbn [set_write ws_out outgoing outgoing_at].
    by rewrite drop_ge in Hf by lia. }
  destruct (ws_event_wrote s2 data Hw2) as (Hw3 & Ho & Ha). destruct (ws_event s2) as [[|n|e] s3]; cbn [fst snd] in *; by split.
Qed.

Lemma ws_poll_write_wrote s data bytes : ws_wrote s data -> bytes <> [] ->
  ws_wrote (ws_poll_write s bytes).2 (data ++ match (ws_poll_write s bytes).1 with Ready (Ok n) => take n bytes | _ => [] end).
Proof.
  intros Hs Hb. unfold ws_poll_write. destruct (flush_outgoing_wrote s data Hs) as [Hw Hz].
  destruct (flush_outgoing s) as [[|[u|e|]] s1]; cbn [fst snd] in *; try by rewrite app_nil_r.
  destruct Hz as [Ho Ha]. destruct Hw as (Hr & Hf & Hm). rewrite Hr. set (b := take (Z.to_nat (16 * 1024)) bytes).
  assert (Hbl : (length b <= Z.to_nat (16 * 1024))%nat) by (unfold b; rewrite length_take; lia).
  assert (Hbne : b <> []) by (unfold b; destruct bytes; [done|]; destruct (Z.to_nat (16 * 1024)) eqn:E; [lia | done]).
  assert (Htake : take (length b) bytes = b).
  { unfold b. rewrite length_take. destruct (decide (Z.to_nat (16 * 1024) <= length bytes)%nat);
      [by rewrite Nat.min_l | rewrite Nat.min_r by lia; by rewrite !take_ge by lia]. }
  rewrite Ho, drop_nil, app_nil_r in Hf.
  destruct (draw s1) as [mask ms] eqn:Ed.
  assert (Hmask : length mask = 4%nat /\ Forall (fun m => length m = 4%nat) ms).
  { unfold draw in Ed. destruct (masks s1) as [|m l]; simplify_eq; [done|]. by apply Forall_cons in Hm. }
  destruct Hmask as [Hm1 Hm2]. cbn [fst snd]. rewrite Htake. split; [done|]. split; [|done].
  cbn [set_write ws_out outgoing outgoing_at]. rewrite Ha, drop_0. apply fa_snoc; [done | done | done | lia].
Qed.

(** A user that writes and flushes, and the data it was told is written. *)
Inductive ws_run (s : WsStream) : list Z -> WsStream -> Prop :=
  | wr_start : ws_run s [] s
  | wr_write data s1 bytes : ws_run s data s1 -> bytes <> [] ->
      ws_run s (data ++ match (ws_poll_write s1 bytes).1 with Ready (Ok n) => take n bytes | _ => [] end) (ws_poll_write s1 bytes).2
  | wr_flush data s1 : ws_run s data s1 -> ws_run s data (flush_outgoing s1).2.

Lemma ws_run_wrote s data s' : ws_wrote s [] -> ws_run s data s' -> ws_wrote s' data.
Proof.
  intros Hs Hr. induction Hr as [|data s1 bytes _ IH Hb|data s1 _ IH]; [done | by apply ws_poll_write_wrote | by apply flush_outgoing_wrote].
Qed.

(** C22: data survives a WebSocket stream: what was accepted by non-empty writes of
    any sizes, through frames with any masks and whatever the transport does with
    them, is, once flushed, exactly what a stream at the other end reads, with the
    bytes in any pieces and buffers of any sizes, before the end.  (An empty write
    makes an empty frame, behind which a reader holds back data as behind a control
    frame.) *)
Theorem ws_roundtrip i events ms data s j events' ms' sizes : Forall (fun m => length m = 4%nat) ms ->
  ws_run (Ws_new i events false ms) data s -> outgoing s = [] -> concat j = ws_out s ->
  Forall (lt 0) sizes -> (3 * source_work j < length sizes)%nat ->
  read_to_end sizes (Ws_new j events' false ms') = Some (data, Ends).
Proof.
  intros Hms Hrun Ho Hj Hsz Hw. assert (H0 : ws_wrote (Ws_new i events false ms) []) by (split; [done|]; split; [constructor | done]).
  destruct (ws_run_wrote _ _ _ H0 Hrun) as (_ & Hf & _). rewrite Ho, drop_nil, app_nil_r in Hf.
  assert (Hd : ws_decode (ws_out s) = Some data).
  { rewrite <- (app_nil_r (ws_out s)), (framed_as_decode _ _ Hf). by cbn; rewrite app_nil_r. }
  rewrite read_to_end_left; [|split; [done|]; split; [done|]; cbn [Ws_new incoming ws_in app]; rewrite Hj, Hd; done | done |
    cbn [work ws_reader]; unfold ws_work; simpl; lia].
  cbn [left ws_reader]. unfold ws_left. cbn [Ws_new incoming ws_in payload payload_at app]. by rewrite Hj, Hd, drop_nil.
Qed.

Lemma ws_roundtrip_witness :
  let s := (flush_outgoing (ws_poll_write (Ws_new [] [Wait; Accept 3] false [[1; 2; 3; 4]]) [97; 98]).2).2 in
  let s := (ws_poll_write s [97; 98]).2 in
  let s := (flush_outgoing s).2 in
  read_to_end (replicate 60 1%nat) (Ws_new [[130]; []; [130; 1; 2; 3]; [4; 96; 96]] [] false []) = Some ([97; 98], Ends).
Proof.
  intros s0 s1 s2. refine (ws_roundtrip [] [Wait; Accept 3] [[1; 2; 3; 4]] [97; 98] s2 _ [] [] (replicate 60 1%nat) _ _ _ _ _ _).
  - by repeat constructor.
  - apply wr_flush. apply (wr_write _ [] s0 [97; 98]); [|done]. apply wr_flush.
    apply (wr_write _ [] (Ws_new [] [Wait; Accept 3] false [[1; 2; 3; 4]]) [97; 98]); [apply wr_start | done].
  - reflexivity.
  - reflexivity.
  - apply Forall_replicate. lia.
  - vm_compute. lia.
Defined.

(** ** WebSocket streams: frames that are lost, and a length that panics *)

(** Frames as a server sends them, without a mask. *)
Definition server_frame (opcode : Z) (d : list Z) : list Z := [128 + opcode; len d] ++ d.

Lemma small_length n : 0 <= n < 126 -> Z.land n 128 = 0 /\ Z.land n 127 = n.
Proof.
  intros Hn. assert (H : Forall (fun n => Z.land n 128 = 0 /\ Z.land n 127 = n) (seqZ 0 126)) by (vm_compute; by repeat constructor).
  rewrite Forall_forall in H. apply H. by apply elem_of_seqZ.
Qed.

Lemma ws_parse_server op d rest : 0 <= op < 16 -> len d < 126 -> ws_parse (server_frame op d ++ rest) = WsFrame op d rest.
Proof.
  intros Hop Hd. destruct (small_length (len d) ltac:(lia)) as [E1 E2].
  assert (Eop : Z.land (128 + op) 15 = op) by (change 15 with (Z.ones 4); rewrite Z.land_ones by lia; change (2 ^ 4) with 16; div_lia).
  unfold ws_parse, server_frame. cbn [app length nth]. change (S (S _) <? 2)%nat with false. rewrite E1, E2, Eop.
  rewrite (proj2 (Z.eqb_neq _ 126)), (proj2 (Z.eqb_neq _ 127)) by lia. change (negb (0 =? 0)) with false. cbv zeta iota.
  unfold parse_mask, parse_data. rewrite Z.mod_small by lia. cbn [length]. rewrite length_app.
  rewrite (proj2 (Z.ltb_ge _ (2 + len d))), (proj2 (Z.ltb_ge (2 + len d) 2)) by lia. cbv zeta.
  replace (Z.to_nat (2 + len d - 2)) with (length d) by lia. replace (Z.to_nat (2 + len d)) with (S (S (length d))) by lia.
  change (Z.to_nat 2) with 2%nat. cbn [drop]. rewrite drop_0, take_app_length, drop_app_length. done.
Qed.

Lemma server_frame_length op d : length (server_frame op d) = (2 + length d)%nat.
Proof. done. Qed.

Lemma read_piece b rest : (0 < length b <= Z.to_nat 8192)%nat -> source_read (Z.to_nat 8192) (b :: rest) = (Ready (Ok b), rest).
Proof.
  intros Hb. unfold source_read. destruct b as [|x b]; [simpl in Hb; lia|]. rewrite take_ge by lia. by rewrite (proj2 (Nat.leb_le _ _)) by lia.
Qed.

(** The loop takes a piece, or the end. *)
Lemma ws_loop_more n fuel s b i : closed s = false -> ws_parse (incoming s) = WsMore -> ws_in s = b :: i -> (0 < length b <= Z.to_nat 8192)%nat ->
  ws_loop (S fuel) n s = ws_loop fuel n (set_read s i (incoming s ++ b) (payload s) (payload_at s)).
Proof.
  intros Hc Hpar Hin Hb. cbn [ws_loop]. rewrite Hc. unfold parse_frame. rewrite Hpar, Hin, read_piece by done. cbn [andb].
  destruct b; [simpl in Hb; lia | done].
Qed.

Section ping.
Variables (p d : list Z) (events : list event) (ms : list (list Z)) (n : nat).
Hypotheses (Hp : len p < 126) (Hd : 0 < len d < 126) (Hn : (length d <= n)%nat).

Definition ping : list Z := server_frame 9 p.
Definition data_frame : list Z := server_frame 2 d.

(** The frames, in one piece or in two. *)
Definition one_piece : WsStream := Ws_new [ping ++ data_frame] events false ms.
Definition two_pieces : WsStream := Ws_new [ping; data_frame] events false ms.

(** A ping is answered, and the transport is read although more is there. *)
Lemma ws_loop_ping fuel s r : closed s = false -> payload s = [] -> payload_at s = 0%nat -> ws_parse (incoming s) = WsFrame 9 p r ->
  exists s', incoming s' = r /\ payload s' = [] /\ payload_at s' = 0%nat /\ closed s' = false /\ ws_in s' = ws_in s /\ raw s' = raw s /\
  ws_loop (S fuel) n s = match source_read (Z.to_nat 8192) (ws_in s) with
    | (Ready (Ok []), i) => (Ready (Ok []), set_read s' i r [] 0)
    | (Ready (Ok b), i) => ws_loop fuel n (set_read s' i (r ++ b) [] 0)
    | (o, i) => (o, set_read s' i r [] 0)
    end.
Proof.
  intros Hc Hpay Hat Hpar. set (s1 := set_read s (ws_in s) r (payload s) (payload_at s)). destruct (draw s1) as [mask ms'] eqn:Ed.
  exists (set_write s1 (ws_out s1) (ws_events s1) (outgoing s1 ++ ws_frame mask p 10) (outgoing_at s1) ms').
  split; [done|]. split; [done|]. split; [done|]. split; [done|]. split; [done|]. split; [done|].
  cbn [ws_loop]. rewrite Hc. unfold parse_frame. rewrite Hpar. change ((9 =? 0) || (9 =? 2)) with false.
  change (9 =? 8) with false. change (9 =? 9) with true. cbv zeta iota. fold s1. rewrite Ed. cbn [set_write payload payload_at]. unfold s1. cbn [set_read payload payload_at].
  rewrite Hpay, Hat. cbn [length andb Nat.ltb Nat.leb ws_in incoming]. done.
Qed.

Lemma one_piece_end : exists s, ws_poll_read n one_piece = (Ready (Ok []), s).
Proof.
  unfold ws_poll_read. cbn [one_piece Ws_new raw payload_at payload length Nat.ltb Nat.leb ws_in].
  assert (Hl : (0 < length (ping ++ data_frame) <= Z.to_nat 8192)%nat) by (unfold ping, data_frame; rewrite length_app, !server_frame_length; lia).
  change (source_work [ping ++ data_frame]) with (S (length (ping ++ data_frame) + 0)). set (k := (length (ping ++ data_frame) + 0)%nat).
  rewrite (ws_loop_more _ _ _ (ping ++ data_frame) []) by done. cbn [incoming app set_read].
  destruct (ws_loop_ping k (set_read one_piece [] ([] ++ ping ++ data_frame) [] 0) data_frame) as (s' & _ & _ & _ & _ & _ & _ & E); try done.
  { cbn [set_read incoming app]. unfold ping. apply ws_parse_server; [lia | done]. }
  eexists. exact E.
Qed.

Lemma data_parse : ws_parse data_frame = WsFrame 2 d [].
Proof. rewrite <- (app_nil_r data_frame). apply ws_parse_server; lia. Qed.

Lemma read_drained s : raw s = false -> closed s = false -> payload_at s = length (payload s) -> ws_in s = [] -> incoming s = [] ->
  ws_poll_read n s = (Ready (Ok []), set_read s [] [] (payload s) (payload_at s)).
Proof.
  intros Hr Hc Hat Hin Hinc. unfold ws_poll_read. rewrite Hr, Hat, Nat.ltb_irrefl, Hin. cbn [source_work foldr ws_loop].
  rewrite Hc. unfold parse_frame. rewrite Hinc. cbn [ws_parse length Nat.ltb Nat.leb andb]. rewrite Hin. cbn [source_read]. by rewrite Hinc, Hat.
Qed.

Lemma two_pieces_read : exists s, ws_poll_read n two_pieces = (Ready (Ok d), s) /\ ws_poll_read n s = (Ready (Ok []), set_read s [] [] d (length d)).
Proof.
  unfold ws_poll_read at 1. cbn [two_pieces Ws_new raw payload_at payload length Nat.ltb Nat.leb ws_in].
  assert (H1 : (0 < length ping <= Z.to_nat 8192)%nat) by (unfold ping; rewrite server_frame_length; lia).
  assert (H2 : (0 < length data_frame <= Z.to_nat 8192)%nat) by (unfold data_frame; rewrite server_frame_length; lia).
  change (source_work [ping; data_frame]) with (S (length ping + S (length data_frame + 0))).
  set (k := (length ping + S (length data_frame + 0))%nat). assert (Hk : exists k', k = S (S k')) by (exists (k - 2)%nat; unfold k; lia). destruct Hk as [k' Hk].
  rewrite (ws_loop_more _ _ _ ping [data_frame]) by done. rewrite Hk.
  destruct (ws_loop_ping (S (S k')) (set_read two_pieces [data_frame] ([] ++ ping) [] 0) []) as (s' & Hi & Hpay & Hat & Hc & Hin & Hraw & E); try done.
  { cbn [set_read incoming app]. rewrite <- (app_nil_r ping). unfold ping. apply ws_parse_server; [lia | done]. }
  match goal with |- context [ws_loop (S (S (S k'))) n ?s0] => change s0 with (set_read two_pieces [data_frame] ([] ++ ping) [] 0) end.
  rewrite E. cbn [set_read ws_in]. rewrite read_piece by done.
  assert (Em : forall (x y : poll (list Z) * WsStream), match data_frame with [] => x | _ :: _ => y end = y) by done. rewrite Em.
  cbn [ws_loop]. cbn [set_read closed]. rewrite Hc. unfold parse_frame. cbn [set_read incoming app]. rewrite data_parse.
  change ((2 =? 0) || (2 =? 2)) with true. cbv zeta iota. cbn [set_read payload payload_at ws_in andb].
  rewrite (proj2 (Nat.ltb_lt 0 (length d))) by lia. unfold give. cbn [set_read payload payload_at ws_in incoming]. rewrite Nat.sub_0_r, Nat.min_r by lia.
  rewrite drop_0, firstn_all. eexists. split; [reflexivity|].
  apply read_drained; done.
Qed.
End ping.

(** C23: a control frame hides the data behind it: a ping and a data frame that the
    transport delivers in one piece are read as the end of the stream when the
    server then closes, and the data is lost without an error; delivered in two
    pieces, the same bytes yield the data. *)
Theorem ws_control_frame_hides_data p d events ms n : len p < 126 -> 0 < len d < 126 -> (length d <= n)%nat ->
  read_to_end [n; n] (Ws_new [server_frame 9 p ++ server_frame 2 d] events false ms) = Some ([], Ends) /\
  read_to_end [n; n] (Ws_new [server_frame 9 p; server_frame 2 d] events false ms) = Some (d, Ends).
Proof.
  intros Hp Hd Hn. cbn [read_to_end rd ws_reader]. split.
  - destruct (one_piece_end p d events ms n Hp Hd Hn) as [s E]. unfold one_piece, ping, data_frame in E. by rewrite E.
  - destruct (two_pieces_read p d events ms n Hp Hd Hn) as (s & E1 & E2). unfold two_pieces, ping, data_frame in E1. rewrite E1, E2.
    destruct d; [simpl in Hd; lia|]. unfold prepend. simpl. by rewrite app_nil_r.
Qed.

Lemma ws_control_frame_hides_data_witness :
  read_to_end [4; 4]%nat (Ws_new [[137; 0; 130; 2; 104; 105]] [] false []) = Some ([], Ends) /\
  read_to_end [4; 4]%nat (Ws_new [[137; 0]; [130; 2; 104; 105]] [] false []) = Some ([104; 105], Ends).
Proof. apply (ws_control_frame_hides_data [] [104; 105] [] [] 4); simpl; lia. Defined.

(** A frame whose length is so large that its end wraps around 64 bits makes
    the parser slice backwards, and the read panics. *)
Theorem ws_huge_length_panics n rest events ms room : 2 ^ 64 - 10 <= n < 2 ^ 64 -> len rest <= 8000 -> (0 < room)%nat ->
  (ws_poll_read room (Ws_new [[130; 127] ++ be64 n ++ rest] events false ms)).1 = Ready Panicked.
Proof.
  intros Hn Hr Hroom. set (b := [130; 127] ++ be64 n ++ rest).
  assert (Hl : length b = (10 + length rest)%nat) by (unfold b; rewrite !length_app; done).
  assert (Hpar : ws_parse b = WsPanic).
  { unfold ws_parse. rewrite (proj2 (Nat.ltb_ge (length b) 2)), (proj2 (Nat.ltb_ge (length b) 10)) by lia.
    change (nth 0 b 0) with 130. change (nth 1 b 0) with 127. change (Z.land 127 127 =? 126) with false. change (Z.land 127 127 =? 127) with true.
    change (negb (Z.land 127 128 =? 0)) with false. cbv zeta iota. change (drop 2 b) with (be64 n ++ rest).
    rewrite take_app_length' by done. rewrite horner_be64 by lia. unfold parse_mask, parse_data.
    replace ((10 + n) mod 2 ^ 64) with (10 + n - 2 ^ 64) by (apply (Z.mod_unique_pos _ _ 1); lia).
    rewrite (proj2 (Z.ltb_ge (len b) _)), (proj2 (Z.ltb_lt _ 10)) by lia. done. }
  unfold ws_poll_read. cbn [Ws_new raw payload_at payload length Nat.ltb Nat.leb ws_in].
  clearbody b. change (source_work [b]) with (S (length b + 0)).
  rewrite (ws_loop_more room _ _ b []); [|done | done | done | lia].
  cbn [ws_loop]. change (closed _) with false. cbn iota. unfold parse_frame.
  match goal with |- context [ws_parse ?x] => change x with b end. by rewrite Hpar.
Qed.

Lemma ws_huge_length_panics_witness :
  (ws_poll_read 1 (Ws_new [[130; 127; 255; 255; 255; 255; 255; 255; 255; 255]] [] false [])).1 = Ready Panicked.
Proof. apply (ws_huge_length_panics (2 ^ 64 - 1) [] [] [] 1); [lia | simpl; lia | lia]. Defined.
