(* ===== verification/Rules.v ===== *)
(** * Routing rules

    crates/config/src/rule.rs: the conditions of rules, the sets of domains and
    addresses they use, their evaluation and their parser, and
    [PortRange::bounds] of compat.rs. *)

From stdpp Require Import sorting.
From S2P Require Import Prelude FfiAbi RustStr IpText.
Local Open Scope Z_scope.

(** ** The crates regex and ipnet, as rules use them *)
Class RuleLibs := {
  Regex : Type;
  regex_build : str -> bool -> outcome Regex;
  is_match : Regex -> str -> bool;
  IpNet : Type;
  net_parse : str -> outcome IpNet;
  net_is_ipv4 : IpNet -> bool;
  net_network : IpNet -> Z;
  net_broadcast : IpNet -> Z;
  net_contains : IpNet -> IpAddr -> bool
}.

(** What the documentation of ipnet says: a network is the range from its
    network to its broadcast address. *)
Class RuleLaws `{RuleLibs} := {
  net_ordered n : 0 <= net_network n <= net_broadcast n;
  net_width n : net_broadcast n < if net_is_ipv4 n then 2 ^ 32 else 2 ^ 128;
  net_range n a : net_contains n a = match a with
    | V4 v => net_is_ipv4 n && (net_network n <=? v) && (v <=? net_broadcast n)
    | V6 v => negb (net_is_ipv4 n) && (net_network n <=? v) && (v <=? net_broadcast n)
    end
}.

Section rules.
Context `{RuleLibs}.

(** ** Sets of domains *)

Record DomainSet := mk_domains {
  exact : gset (list Z); suffix : gset (list Z); keywords : list str; regex : list Regex
}.

(** The loop over the labels; every round drops one, [fuel] is more than there
    can be. *)
Fixpoint suffix_loop (fuel : nat) (suffixes : gset (list Z)) (label : str) : bool :=
  match fuel with
  | O => false
  | S fuel =>
      if bool_decide (label ∈ suffixes) then true
      else match split_once 46 label with
           | Some (_, rest) => suffix_loop fuel suffixes rest
           | None => false
           end
  end.

Definition domains_match (s : DomainSet) (host : str) : bool :=
  bool_decide (host ∈ exact s) || suffix_loop (S (length host)) (suffix s) host ||
  existsb (contains host) (keywords s) || existsb (fun r => is_match r host) (regex s).

(** ** Sets of addresses *)

Record IpSet := mk_ipset { v4 : list (Z * Z); v6 : list (Z * Z); inverse : bool }.

(** [sort_unstable] on pairs of numbers. *)
Definition pair_le (a b : Z * Z) : Prop := a.1 < b.1 \/ (a.1 = b.1 /\ a.2 <= b.2).
#[global] Instance pair_le_dec : RelDecision pair_le.
Proof. intros a b. unfold pair_le. apply _. Defined.

Definition saturating_add_u128 (a b : Z) : Z := Z.min (a + b) (2 ^ 128 - 1).

(** The ranges merged so far, the last one first. *)
Fixpoint merge_ranges (merged : list (Z * Z)) (ranges : list (Z * Z)) : list (Z * Z) :=
  match ranges with
  | [] => reverse merged
  | (a, b) :: rest =>
      match merged with
      | (lo, hi) :: m =>
          if a <=? saturating_add_u128 hi 1 then merge_ranges ((lo, Z.max hi b) :: m) rest
          else merge_ranges ((a, b) :: merged) rest
      | [] => merge_ranges [(a, b)] rest
      end
  end.
Definition normalize (ranges : list (Z * Z)) : list (Z * Z) := merge_ranges [] (merge_sort pair_le ranges).

Definition IpSet_new (nets : list IpNet) (inverse : bool) : IpSet :=
  let range n := (net_network n, net_broadcast n) in
  mk_ipset (normalize (range <$> filter (fun n => net_is_ipv4 n = true) nets))
    (normalize (range <$> filter (fun n => net_is_ipv4 n = false) nets)) inverse.

(** [partition_point] of a slice on which the predicate is first true and then
    false. *)
Fixpoint partition_point {A} (P : A -> bool) (l : list A) : nat :=
  match l with x :: l => if P x then S (partition_point P l) else O | [] => O end.

Definition ipset_match (s : IpSet) (ip : IpAddr) : bool :=
  let '(ranges, n) := match ip with V4 n => (v4 s, n) | V6 n => (v6 s, n) end in
  let i := partition_point (fun r => r.1 <=? n) ranges in
  xorb ((0 <? i)%nat && (n <=? snd (nth (i - 1) ranges (0, 0)))) (inverse s).

(** ** Conditions *)

Inductive Matcher :=
  | Domain (d : str) | Suffix (d : str) | Keyword (k : str) | MRegex (r : Regex) | Net (n : IpNet)
  | Port (p : Z) | Ports (l : list (Z * Z)) | Network (n : str) | GeoIp (v : str) | GeoSite (v : str)
  | RuleSet (v : str) | And (l : list Matcher) | Or (l : list Matcher) | Not (m : Matcher)
  | NoResolve (m : Matcher) | Domains (s : DomainSet) | Nets (s : IpSet) | ExternalIp (f : IpAddr -> bool) | All.

(** Induction with a hypothesis for every member of a list. *)
Fixpoint Matcher_rec' (P : Matcher -> Prop)
  (Hleaf : forall m, match m with And _ | Or _ | Not _ | NoResolve _ => True | _ => P m end)
  (Hand : forall l, Forall P l -> P (And l)) (Hor : forall l, Forall P l -> P (Or l))
  (Hnot : forall m, P m -> P (Not m)) (Hno : forall m, P m -> P (NoResolve m)) (m : Matcher) : P m :=
  let rec := Matcher_rec' P Hleaf Hand Hor Hnot Hno in
  let all := fix all l : Forall P l :=
    match l with [] => Forall_nil_2 P | m :: l => Forall_cons_2 P m l (rec m) (all l) end in
  match m with
  | And l => Hand l (all l)
  | Or l => Hor l (all l)
  | Not m => Hnot m (rec m)
  | NoResolve m => Hno m (rec m)
  | m => Hleaf m
  end.

(** The three cases of an address condition. *)
Definition on_ip (ip : option IpAddr) (can_resolve : bool) (f : IpAddr -> bool) : option bool :=
  match ip with Some ip => Some (f ip) | None => if can_resolve then None else Some false end.

Definition suffix_match (d host : str) : bool :=
  bool_decide (host = d) ||
  match strip_suffix d host with Some p => ends_with 46 p | None => false end.

Fixpoint evaluate (m : Matcher) (host : str) (ip : option IpAddr) (port : Z) (network : str)
    (can_resolve : bool) : option bool :=
  let nodes (is_and : bool) := fix loop (l : list Matcher) (unknown : bool) : option bool :=
    match l with
    | [] => if unknown then None else Some is_and
    | m :: l =>
        match evaluate m host ip port network can_resolve with
        | Some v => if Bool.eqb v is_and then loop l unknown else Some v
        | None => loop l true
        end
    end in
  match m with
  | Domain d => Some (bool_decide (host = d))
  | Suffix d => Some (suffix_match d host)
  | Keyword k => Some (contains host k)
  | MRegex r => Some (is_match r host)
  | Domains s => Some (domains_match s host)
  | Net n => on_ip ip can_resolve (net_contains n)
  | Nets s => on_ip ip can_resolve (ipset_match s)
  | ExternalIp f => on_ip ip can_resolve f
  | Port p => Some (p =? port)
  | Ports l => Some (existsb (fun r => (fst r <=? port) && (port <=? snd r)) l)
  | Network n => Some (bool_decide (n = network))
  | All => Some true
  | Not m => negb <$> evaluate m host ip port network can_resolve
  | NoResolve m => evaluate m host ip port network false
  | And l => nodes true l false
  | Or l => nodes false l false
  | GeoIp _ | GeoSite _ | RuleSet _ => Some false
  end.

Record Rule := mk_rule { matcher : Matcher; target : str; no_resolve : bool }.

Definition rule_matches (r : Rule) (host : str) (ip : option IpAddr) (port : Z) (network : str) : bool :=
  bool_decide (evaluate (matcher r) (to_ascii_lowercase (trim_end_matches 46 host)) ip port network false = Some true).

(** ** The parser *)

(** [fields]: the loop, with the characters of the current field in reverse. *)
Fixpoint fields_loop (depth : Z) (cur : str) (out : list str) (s : str) : outcome (list str) :=
  match s with
  | [] =>
      let! _ := ensure (depth =? 0) "unbalanced rule" in
      Ok (out ++ [trim (reverse cur)])
  | c :: s =>
      if c =? 40 then
        let! _ := ensure (depth + 1 <=? 32) "rule nesting limit" in fields_loop (depth + 1) (c :: cur) out s
      else if c =? 41 then
        let! _ := ensure (0 <? depth) "unbalanced rule" in fields_loop (depth - 1) (c :: cur) out s
      else if (c =? 44) && (depth =? 0) then fields_loop depth [] (out ++ [trim (reverse cur)]) s
      else fields_loop depth (c :: cur) out s
  end.
Definition fields (raw : str) : outcome (list str) :=
  let! _ := ensure (str_len raw <=? 65536) "rule too long" in
  fields_loop 0 [] [] raw.

Definition unwrap (raw : str) : outcome str :=
  match strip_prefix [40] raw with
  | Some v => match strip_suffix [41] v with
              | Some v => Ok v
              | None => Err (text "logical rule requires parentheses")
              end
  | None => Err (text "logical rule requires parentheses")
  end.

Definition compile_regex (pattern : str) : outcome Regex := regex_build pattern true.

(** [PortRange::bounds] of a textual range. *)
Definition bounds (s : str) : outcome (Z * Z) :=
  let! '(a, b) := match split_once 45 s with
                  | Some (a, b) => let! a := parse_u16 a in let! b := parse_u16 b in Ok (a, b)
                  | None => let! n := parse_u16 s in Ok (n, n)
                  end in
  let! _ := ensure ((0 <? a) && (a <=? b)) "invalid port range" in
  Ok (a, b).

(** [iter().map(f).collect::<Result<Vec<_>>>()]. *)
Fixpoint collect {A B} (f : A -> outcome B) (l : list A) : outcome (list B) :=
  match l with
  | [] => Ok []
  | x :: l => let! y := f x in let! r := collect f l in Ok (y :: r)
  end.

(** The last field when it is [no-resolve]. *)
Definition pop_no_resolve (f : list str) : list str * bool :=
  if bool_decide (last f = Some (lit "no-resolve")) then (take (length f - 1) f, true) else (f, false).

(** [parse_depth(raw, 32 - levels)]. *)
Fixpoint parse_depth (levels : nat) (raw : str) : outcome Matcher :=
  match levels with
  | O => Err (text "rule nesting limit")
  | S levels =>
      let! f := fields raw in
      let '(f, no_resolve) := pop_no_resolve f in
      let! _ := ensure (2 <=? length f)%nat "invalid condition fields" in
      let kind := nth 0 f [] in
      let first := nth 1 f [] in
      let logical := bool_decide (kind ∈ [lit "AND"; lit "OR"; lit "NOT"]) in
      let! _ := ensure (logical || (length f =? 2)%nat) "invalid condition fields" in
      let value := to_ascii_lowercase first in
      let! _ := ensure (negb (bool_decide (value = []))) "empty rule value" in
      let! m :=
        if logical then
          let! parts :=
            (let! nested := (if (length f =? 2)%nat then let! v := unwrap first in Ok (starts_with 40 v) else Ok false) in
             if nested then let! v := unwrap first in fields v else Ok (drop 1 f)) in
          let! _ := ensure (negb (bool_decide (parts = []))) "empty logical rule" in
          let! nodes := collect (fun p => let! v := unwrap p in parse_depth levels v) parts in
          if bool_decide (kind = lit "AND") then Ok (And nodes)
          else if bool_decide (kind = lit "OR") then Ok (Or nodes)
          else match nodes with [m] => Ok (Not m) | _ => Err (text "NOT requires one condition") end
        else if bool_decide (kind = lit "DOMAIN") then Ok (Domain (trim_end_matches 46 value))
        else if bool_decide (kind = lit "DOMAIN-SUFFIX") then Ok (Suffix (trim_matches 46 value))
        else if bool_decide (kind = lit "DOMAIN-KEYWORD") then Ok (Keyword value)
        else if bool_decide (kind = lit "DOMAIN-REGEX") then let! r := compile_regex first in Ok (MRegex r)
        else if bool_decide (kind ∈ [lit "IP-CIDR"; lit "IP-CIDR6"]) then
          let! n := net_parse value in
          let! _ := ensure (Bool.eqb (net_is_ipv4 n) (bool_decide (kind = lit "IP-CIDR"))) "rule IP family mismatch" in
          Ok (Net n)
        else if bool_decide (kind = lit "GEOIP") then Ok (GeoIp value)
        else if bool_decide (kind = lit "GEOSITE") then Ok (GeoSite value)
        else if bool_decide (kind = lit "RULE-SET") then Ok (RuleSet first)
        else if bool_decide (kind = lit "DST-PORT") then
          let! ports := collect bounds (split 47 value) in Ok (Ports ports)
        else if bool_decide (kind = lit "NETWORK") then
          let! _ := ensure (bool_decide (value ∈ [lit "tcp"; lit "udp"])) "invalid network" in Ok (Network value)
        else Err (text "unsupported rule type " ++ kind) in
      Ok (if no_resolve then NoResolve m else m)
  end.
Definition parse_condition (raw : str) : outcome Matcher := parse_depth 32 raw.

Definition Rule_parse (raw : str) : outcome Rule :=
  let! f := fields raw in
  let! _ := ensure (2 <=? length f)%nat "rule needs type and target" in
  let '(f, no_resolve) := pop_no_resolve f in
  let! _ := ensure (2 <=? length f)%nat "missing rule target" in
  let target := default [] (last f) in
  let f := take (length f - 1) f in
  let! _ := ensure (negb (bool_decide (target = []))) "empty rule target" in
  let! m :=
    if bool_decide (nth 0 f [] = lit "MATCH") then
      let! _ := ensure (length f =? 1)%nat "MATCH takes one target" in Ok All
    else parse_condition (join_with 44 f) in
  Ok (mk_rule m target no_resolve).

(** ** Bound resources *)

(** [bind]: conditions that name a resource are replaced. *)
Fixpoint bind (resolve : Matcher -> outcome Matcher) (m : Matcher) : outcome Matcher :=
  match m with
  | GeoIp _ | GeoSite _ | RuleSet _ => resolve m
  | And l => let! l := collect (bind resolve) l in Ok (And l)
  | Or l => let! l := collect (bind resolve) l in Ok (Or l)
  | Not m => let! m := bind resolve m in Ok (Not m)
  | NoResolve m => let! m := bind resolve m in Ok (NoResolve m)
  | m => Ok m
  end.

Inductive reference := RefGeoIp (v : str) | RefGeoSite (v : str) | RefRuleSet (v : str).
Fixpoint references (m : Matcher) : list reference :=
  match m with
  | GeoIp v => [RefGeoIp v]
  | GeoSite v => [RefGeoSite v]
  | RuleSet v => [RefRuleSet v]
  | And l | Or l => concat (references <$> l)
  | Not m | NoResolve m => references m
  | _ => []
  end.

(** [domain_pattern]: [escape] is [regex::escape] followed by the replacement of
    the stars. *)
Definition domain_pattern (escape : str -> str) (pattern : str) : outcome Matcher :=
  let p := to_ascii_lowercase (trim pattern) in
  let! _ := ensure (negb (bool_decide (p = []))) "empty domain pattern" in
  match strip_prefix (lit "+.") p, strip_prefix [46] p with
  | Some s, _ => Ok (Suffix s)
  | None, Some s => Ok (Suffix s)
  | None, None =>
      if contains p [42] then let! r := regex_build ([94] ++ escape p ++ [36]) false in Ok (MRegex r)
      else Ok (Domain p)
  end.
End rules.

(** ** Tests of rule.rs *)

(** Libraries for rules without regular expressions; networks are given as two
    hexadecimal-free decimal bounds [a-b] for IPv4. *)
#[global] Instance demo_libs : RuleLibs := {
  Regex := unit;
  regex_build _ _ := Err (text "no regular expressions");
  is_match _ _ := false;
  IpNet := Z * Z;
  net_parse s := let! r := bounds s in Ok r;
  net_is_ipv4 _ := true;
  net_network n := Z.min (Z.abs (fst n)) (Z.min (Z.abs (snd n)) (2 ^ 32 - 1));
  net_broadcast n := Z.min (Z.abs (snd n)) (2 ^ 32 - 1);
  net_contains n a := match a with
    | V4 v => (Z.min (Z.abs (fst n)) (Z.min (Z.abs (snd n)) (2 ^ 32 - 1)) <=? v) && (v <=? Z.min (Z.abs (snd n)) (2 ^ 32 - 1))
    | V6 _ => false end
}.
#[global] Instance demo_laws : RuleLaws.
Proof.
  split; simpl.
  - intros [a b]; simpl. lia.
  - intros [a b]; simpl. lia.
  - by intros [a b] [v|v].
Qed.

Definition parsed {A} (raw : string) (f : Rule -> A) : option A :=
  match Rule_parse (lit raw) with Ok r => Some (f r) | _ => None end.

Example logical_and_lazy_dns :
  parsed "AND,((NETWORK,UDP),(OR,((IP-CIDR,10-20),(DST-PORT,443)))),REJECT" (fun r =>
    (target r, evaluate (matcher r) (lit "a") None 80 (lit "tcp") true,
     evaluate (matcher r) (lit "a") None 443 (lit "udp") true,
     evaluate (matcher r) (lit "a") None 80 (lit "udp") true,
     evaluate (matcher r) (lit "a") (Some (V4 15)) 80 (lit "udp") true)) =
  Some (lit "REJECT", Some false, Some true, None, Some true).
Proof. vm_compute. reflexivity. Qed.

Example suffix_label_boundary :
  parsed "DOMAIN-SUFFIX,example.org,DIRECT" (fun r =>
    (rule_matches r (lit "WWW.Example.org.") None 443 (lit "tcp"),
     rule_matches r (lit "notexample.org") None 443 (lit "tcp"))) = Some (true, false).
Proof. vm_compute. reflexivity. Qed.

Definition refused (raw : string) : option (list Z) :=
  match Rule_parse (lit raw) with Err e => Some e | _ => None end.

Example rejected_rules :
  refused "NOT,((NETWORK,tcp),(NETWORK,udp)),DIRECT" = Some (text "NOT requires one condition") /\
  refused "AND,((NETWORK,tcp),DIRECT" = Some (text "unbalanced rule").
Proof. vm_compute. done. Qed.
