(* ===== verification/RulesFacts.v ===== *)
(** * Routing rules: what the sets and the conditions mean

    Sets of addresses and of domains answer like the separate rules they stand
    for; a condition evaluated without an address gives an answer only when
    every address gives the same one; parsed conditions have bounded nesting. *)

From stdpp Require Import sorting.
From S2P Require Import Prelude FfiAbi RustStr IpText Rules.
Local Open Scope Z_scope.

(** ** Sets of addresses *)

Definition covers (n : Z) (r : Z * Z) : bool := (r.1 <=? n) && (n <=? r.2).

(** The merge read from the left: the range at hand, then the rest. *)
Fixpoint merge_from (lo hi : Z) (ranges : list (Z * Z)) : list (Z * Z) :=
  match ranges with
  | [] => [(lo, hi)]
  | (a, b) :: rest =>
      if a <=? saturating_add_u128 hi 1 then merge_from lo (Z.max hi b) rest
      else (lo, hi) :: merge_from a b rest
  end.

Lemma merge_ranges_from m lo hi ranges : merge_ranges ((lo, hi) :: m) ranges = reverse m ++ merge_from lo hi ranges.
Proof.
  revert m lo hi. induction ranges as [|[a b] rest IH]; intros m lo hi; simpl; [by rewrite reverse_cons|].
  destruct (a <=? _); rewrite IH; [done|]. by rewrite reverse_cons, <-app_assoc.
Qed.

(** Ranges in order, none empty, none touching the one before. *)
Fixpoint ranked (from : Z) (l : list (Z * Z)) : Prop :=
  match l with [] => True | (a, b) :: r => from <= a <= b /\ ranked (b + 1) r end.

(** Ranges as sorting leaves them. *)
Fixpoint ordered (from : Z) (l : list (Z * Z)) : Prop :=
  match l with [] => True | (a, b) :: r => from <= a <= b /\ b < 2 ^ 128 /\ ordered a r end.

Lemma ordered_weaken from from' l : from' <= from -> ordered from l -> ordered from' l.
Proof. destruct l as [|[a b] l]; simpl; [done|]. intros ? (? & ? & ?). split_and!; try lia. done. Qed.
Lemma ranked_weaken from from' l : from' <= from -> ranked from l -> ranked from' l.
Proof. destruct l as [|[a b] l]; simpl; [done|]. intros ? [? ?]. split; [lia | done]. Qed.

Lemma merge_from_ranked lo hi ranges : lo <= hi -> ordered lo ranges -> ranked lo (merge_from lo hi ranges).
Proof.
  revert lo hi. induction ranges as [|[a b] rest IH]; intros lo hi Hle Ho; simpl; [lia|].
  destruct Ho as (? & ? & Ho). destruct (Z.leb_spec a (saturating_add_u128 hi 1)) as [Ha|Ha].
  - apply IH; [lia | by eapply ordered_weaken; [|exact Ho]; lia].
  - simpl. split; [lia|]. apply (ranked_weaken a); [unfold saturating_add_u128 in Ha; lia|]. apply IH; [lia | done].
Qed.

Lemma merge_from_covers n lo hi ranges : lo <= hi -> ordered lo ranges ->
  existsb (covers n) (merge_from lo hi ranges) = covers n (lo, hi) || existsb (covers n) ranges.
Proof.
  revert lo hi. induction ranges as [|[a b] rest IH]; intros lo hi Hle Ho; simpl; [done|].
  destruct Ho as (? & ? & Ho). destruct (Z.leb_spec a (saturating_add_u128 hi 1)) as [Ha|Ha].
  - rewrite IH by (lia || by eapply ordered_weaken; [|exact Ho]; lia). rewrite orb_assoc. f_equal.
    unfold saturating_add_u128 in Ha. unfold covers; simpl. lia.
  - simpl. by rewrite IH by (lia || done).
Qed.

Lemma sorted_ordered from l : StronglySorted pair_le l -> Forall (fun r => from <= r.1 <= r.2 /\ r.2 < 2 ^ 128) l ->
  ordered from l.
Proof.
  revert from. induction l as [|[a b] l IH]; intros from Hs Hf; simpl; [done|].
  apply StronglySorted_inv in Hs as [Hs Hall]. apply Forall_cons in Hf as [? Hf]. simpl in *. split_and!; try lia.
  apply IH; [done|]. rewrite Forall_forall in *. intros r Hr. specialize (Hf r Hr). specialize (Hall r Hr).
  unfold pair_le in Hall; simpl in Hall. lia.
Qed.

#[local] Instance pair_le_total : Total pair_le.
Proof. intros [a b] [c d]. unfold pair_le; simpl. lia. Qed.
#[local] Instance pair_le_trans : Transitive pair_le.
Proof. intros [a b] [c d] [e f]. unfold pair_le; simpl. lia. Qed.

Lemma existsb_pointwise {A} (f g : A -> bool) l : (forall x, f x = g x) -> existsb f l = existsb g l.
Proof. intros E. induction l; simpl; congruence. Qed.
Lemma existsb_Permutation {A} (f : A -> bool) l l' : l ≡ₚ l' -> existsb f l = existsb f l'.
Proof. induction 1; simpl; try congruence. destruct (f x), (f y); done. Qed.

Lemma normalize_spec l n : Forall (fun r => 0 <= r.1 <= r.2 /\ r.2 < 2 ^ 128) l ->
  ranked 0 (normalize l) /\ existsb (covers n) (normalize l) = existsb (covers n) l.
Proof.
  intros Hl. unfold normalize. pose proof (merge_sort_Permutation pair_le l) as Hp.
  pose proof (StronglySorted_merge_sort pair_le l) as Hs.
  rewrite <- (existsb_Permutation _ _ _ Hp). rewrite <- Hp in Hl. revert Hs Hl.
  generalize (merge_sort pair_le l). intros k Hs Hk. pose proof (sorted_ordered 0 k Hs Hk) as Ho.
  destruct k as [|[a b] k]; [done|]. simpl in Ho. destruct Ho as (? & ? & Ho). cbn [merge_ranges].
  rewrite merge_ranges_from. simpl app. split.
  - apply (ranked_weaken a); [lia|]. apply merge_from_ranked; [lia | done].
  - rewrite merge_from_covers by (lia || done). done.
Qed.

(** The search in merged ranges. *)
Lemma ranked_above from n l : ranked from l -> n < from -> existsb (covers n) l = false.
Proof.
  revert from. induction l as [|[a b] l IH]; intros from Hr Hn; simpl in *; [done|]. destruct Hr as [? Hr].
  rewrite (IH (b + 1)) by (done || lia). unfold covers; simpl. lia.
Qed.

Lemma partition_search from n l : ranked from l ->
  let i := partition_point (fun r => r.1 <=? n) l in
  (0 <? i)%nat && (n <=? snd (nth (i - 1) l (0, 0))) = existsb (covers n) l.
Proof.
  revert from. induction l as [|[a b] l IH]; intros from Hr; [done|]. destruct Hr as [Hab Hr].
  cbn [partition_point existsb fst]. specialize (IH _ Hr). cbv zeta in IH |- *. destruct (Z.leb_spec a n) as [Ha|Ha].
  - replace (0 <? S _)%nat with true by done. rewrite Nat.sub_1_r; simpl Nat.pred.
    destruct (partition_point _ l) as [|i] eqn:Ei.
    + simpl in *. rewrite <- IH, orb_false_r. unfold covers; simpl. lia.
    + simpl nth. rewrite Nat.sub_1_r in IH; simpl Nat.pred in IH. replace (0 <? S i)%nat with true in IH by done.
      rewrite andb_true_l in *. rewrite IH. unfold covers at 2; simpl.
      assert (b < n).
      { destruct l as [|[a' b'] l]; [done|]. simpl in Ei, Hr. destruct (Z.leb_spec a' n); [lia | done]. }
      replace (n <=? b) with false by lia. by rewrite andb_false_r.
  - simpl. rewrite (ranked_above (b + 1)) by (done || lia). unfold covers; simpl. lia.
Qed.

Section facts.
Context `{RuleLaws}.

Lemma family_ranges nets b n : Forall (fun r => 0 <= r.1 <= r.2 /\ r.2 < 2 ^ 128)
    ((fun n => (net_network n, net_broadcast n)) <$> filter (fun n => net_is_ipv4 n = b) nets) /\
  existsb (covers n) ((fun n => (net_network n, net_broadcast n)) <$> filter (fun n => net_is_ipv4 n = b) nets) =
  existsb (fun m => Bool.eqb (net_is_ipv4 m) b && (net_network m <=? n) && (n <=? net_broadcast m)) nets.
Proof.
  split.
  - apply Forall_fmap, Forall_forall. intros m _. simpl. pose proof (net_ordered m). pose proof (net_width m).
    destruct (net_is_ipv4 m); lia.
  - induction nets as [|m nets IH]; [done|]. rewrite filter_cons. case_decide as Hm; rewrite ?fmap_cons; cbn [existsb]; rewrite IH.
    + rewrite Hm, eqb_reflx. done.
    + destruct (net_is_ipv4 m), b; try done; by destruct Hm.
Qed.

(** C16: a set of networks, with its ranges sorted and merged and searched by
    bisection, contains an address exactly when one of the networks does, or
    none when it is inverted. *)
Theorem ip_set_is_union nets inv ip :
  ipset_match (IpSet_new nets inv) ip = xorb (existsb (fun n => net_contains n ip) nets) inv.
Proof.
  unfold ipset_match, IpSet_new; simpl.
  set (family b := normalize ((fun n => (net_network n, net_broadcast n)) <$> filter (fun n => net_is_ipv4 n = b) nets)).
  assert (E : forall b (n : Z), (0 <? partition_point (fun r : Z * Z => (r.1 <=? n)%Z) (family b))%nat &&
     (n <=? snd (nth (partition_point (fun r => r.1 <=? n) (family b) - 1) (family b) (0, 0))) =
     existsb (fun m => Bool.eqb (net_is_ipv4 m) b && (net_network m <=? n) && (n <=? net_broadcast m)) nets).
  { intros b n. destruct (family_ranges nets b n) as [Hr <-].
    destruct (normalize_spec _ n Hr) as [Hk <-]. by apply (partition_search 0). }
  fold (family true) (family false).
  destruct ip as [n|n]; rewrite E; f_equal; apply existsb_pointwise; intros m; rewrite net_range; by destruct (net_is_ipv4 m).
Qed.

(** ** Sets of domains *)

Lemma suffix_match_spec d host : suffix_match d host = true <-> host = d \/ exists p, host = p ++ 46 :: d.
Proof.
  unfold suffix_match. rewrite orb_true_iff, bool_decide_eq_true.
  split; (intros [->|Hp]; [by left|right]).
  - destruct (strip_suffix d host) as [p|] eqn:E; [|done]. apply strip_suffix_Some in E as ->.
    unfold ends_with in Hp. apply bool_decide_eq_true in Hp. apply last_Some in Hp as [l ->].
    exists l. by rewrite <- app_assoc.
  - destruct Hp as [p ->]. replace (strip_suffix d (p ++ 46 :: d)) with (Some (p ++ [46])).
    + unfold ends_with. apply bool_decide_eq_true. by rewrite last_snoc.
    + symmetry. apply strip_suffix_Some. by rewrite <- app_assoc.
Qed.

Lemma suffix_loop_spec fuel S label : (length label < fuel)%nat ->
  suffix_loop fuel S label = true <-> exists d, d ∈ S /\ (label = d \/ exists p, label = p ++ 46 :: d).
Proof.
  revert label. induction fuel as [|fuel IH]; intros label Hf; [lia|]. simpl.
  case_bool_decide as Hin; [split; [intros _; exists label; auto | intros; reflexivity]|].
  destruct (split_once 46 label) as [[a b]|] eqn:E.
  - apply split_once_Some in E as [-> Ha]. rewrite length_app in Hf. simpl in Hf. rewrite IH by lia.
    split; intros (d & Hd & Hl); exists d; (split; [done|]).
    + right. destruct Hl as [->|[p ->]]; [by exists a | exists (a ++ 46 :: p)]. by rewrite <- app_assoc.
    + destruct Hl as [<-|[p Hp]]; [done|]. revert Hp. clear - Ha. revert p.
      induction a as [|x a IHa]; intros p Hp; destruct p as [|y p]; simplify_eq/=.
      * by left.
      * right. by exists p.
      * exfalso. apply Ha. left.
      * apply not_elem_of_cons in Ha as [_ Ha]. by apply (IHa Ha p).
  - apply split_once_None in E. split; [done|]. intros (d & Hd & [->|[p ->]]); [done|]. exfalso. apply E. set_solver.
Qed.

(** A set of domains matches a host exactly when one of the rules it was
    collected from does: an exact domain, a domain suffix at a label boundary,
    a keyword or a regular expression.  The loop over the labels ends. *)
Theorem domain_set_is_union s host port network :
  domains_match s host = true <->
  exists m, evaluate m host None port network false = Some true /\
    ((exists d, d ∈ exact s /\ m = Domain d) \/ (exists d, d ∈ suffix s /\ m = Suffix d) \/
     (exists k, k ∈ keywords s /\ m = Keyword k) \/ (exists r, r ∈ regex s /\ m = MRegex r)).
Proof.
  unfold domains_match. rewrite !orb_true_iff, bool_decide_eq_true, suffix_loop_spec by lia.
  rewrite !existsb_exists. split.
  - intros [[[Hd|(d & Hd & Hm%suffix_match_spec)]|(k & Hk & Hm)]|(r & Hr & Hm)].
    + exists (Domain host). simpl. rewrite bool_decide_eq_true_2 by done. eauto 10.
    + exists (Suffix d). simpl. rewrite Hm. eauto 10.
    + apply list_elem_of_In in Hk. exists (Keyword k). simpl. rewrite Hm. eauto 10.
    + apply list_elem_of_In in Hr. exists (MRegex r). simpl. rewrite Hm. eauto 10.
  - intros (m & He & [(d & Hd & ->)|[(d & Hd & ->)|[(k & Hk & ->)|(r & Hr & ->)]]]); simpl in He; injection He as He.
    + apply bool_decide_eq_true in He as ->. auto.
    + apply suffix_match_spec in He. left; left; right. eauto.
    + left; right. exists k. by rewrite <- list_elem_of_In.
    + right. exists r. by rewrite <- list_elem_of_In.
Qed.

(** ** Evaluation without an address *)

(** The loop of AND and OR. *)
Definition node_loop (is_and : bool) (ev : Matcher -> option bool) :=
  fix loop (l : list Matcher) (unknown : bool) : option bool :=
    match l with
    | [] => if unknown then None else Some is_and
    | m :: l =>
        match ev m with
        | Some v => if Bool.eqb v is_and then loop l unknown else Some v
        | None => loop l true
        end
    end.

Lemma evaluate_And l host ip port network cr :
  evaluate (And l) host ip port network cr = node_loop true (fun m => evaluate m host ip port network cr) l false.
Proof. done. Qed.
Lemma evaluate_Or l host ip port network cr :
  evaluate (Or l) host ip port network cr = node_loop false (fun m => evaluate m host ip port network cr) l false.
Proof. done. Qed.

Lemma node_loop_unknown is_and ev l v : node_loop is_and ev l true = Some v -> v = negb is_and.
Proof.
  induction l as [|m l IH]; simpl; [done|]. destruct (ev m) as [b|]; [|done].
  destruct (Bool.eqb b is_and) eqn:E; [done|]. intros [= <-]. by destruct b, is_and.
Qed.

(** An answer that was found early stays when more is known. *)
Lemma node_loop_mono is_and (ev ev' : Matcher -> option bool) l : forall unknown unknown' v,
  Forall (fun m => forall v, ev m = Some v -> ev' m = Some v) l ->
  (unknown' = true -> unknown = true) -> Forall (fun m => ev' m <> None) l ->
  node_loop is_and ev l unknown = Some v -> node_loop is_and ev' l unknown' = Some v.
Proof.
  induction l as [|m l IH]; intros u u' v Hm Hu Ht; simpl.
  - destruct u, u'; naive_solver.
  - apply Forall_cons in Hm as [Hm Hl], Ht as [Htm Htl]. destruct (ev m) as [b|] eqn:E.
    + rewrite (Hm _ eq_refl). destruct (Bool.eqb b is_and); [by apply IH | done].
    + destruct (ev' m) as [b|]; [|done]. intros Hv. destruct (Bool.eqb b is_and) eqn:Eb.
      * apply (IH true); auto.
      * apply node_loop_unknown in Hv as ->. by destruct b, is_and.
Qed.

Lemma node_loop_total is_and ev l : Forall (fun m => ev m <> None) l -> node_loop is_and ev l false <> None.
Proof.
  induction 1 as [|m l Hm Hl IH]; simpl; [done|]. destruct (ev m) as [b|]; [|done].
  by destruct (Bool.eqb b is_and).
Qed.

(** An evaluation with an address, or with no way to get one, has an answer. *)
Lemma evaluate_total m host ip port network cr : (ip <> None \/ cr = false) ->
  evaluate m host ip port network cr <> None.
Proof.
  revert cr. pattern m. apply Matcher_rec'; clear m; [intros m|intros l IH cr Hr|intros l IH cr Hr|intros m IH cr Hr|intros m IH cr Hr].
  - destruct m; try done; intros cr Hr; simpl; unfold on_ip; destruct ip, cr; naive_solver.
  - rewrite evaluate_And. apply node_loop_total. eapply Forall_impl; [exact IH|]. auto.
  - rewrite evaluate_Or. apply node_loop_total. eapply Forall_impl; [exact IH|]. auto.
  - simpl. specialize (IH cr Hr). by destruct (evaluate m _ _ _ _ _).
  - simpl. apply IH. auto.
Qed.

(** No [NoResolve] inside. *)
Fixpoint plain (m : Matcher) : bool :=
  match m with And l | Or l => forallb plain l | Not m => plain m | NoResolve _ => false | _ => true end.

Lemma evaluate_lazy m host ip port network cr v : plain m = true -> (ip <> None \/ cr = false) ->
  evaluate m host None port network true = Some v -> evaluate m host ip port network cr = Some v.
Proof.
  intros Hp Hr. revert v Hp. pattern m.
  apply Matcher_rec'; clear m; [intros m|intros l IH v Hp|intros l IH v Hp|intros m IH v Hp|intros m IH v Hp].
  - by destruct m.
  - simpl in Hp. rewrite !evaluate_And. apply node_loop_mono; [|done|].
    + rewrite Forall_forall in IH |- *. rewrite forallb_forall in Hp. intros m Hm v' E.
      apply IH; auto. by apply Hp, list_elem_of_In.
    + apply Forall_forall. intros m _. by apply evaluate_total.
  - simpl in Hp. rewrite !evaluate_Or. apply node_loop_mono; [|done|].
    + rewrite Forall_forall in IH |- *. rewrite forallb_forall in Hp. intros m Hm v' E.
      apply IH; auto. by apply Hp, list_elem_of_In.
    + apply Forall_forall. intros m _. by apply evaluate_total.
  - simpl in *. destruct (evaluate m host None _ _ _) as [b|] eqn:E; [|done]. simpl. intros [= <-].
    by rewrite (IH b Hp eq_refl).
  - done.
Qed.

(** A condition without a no-resolve part asks for DNS only when it needs
    to: if it is decided without an address, every address, and the failure to
    get one, gives the same answer; and with an address, or when none can be
    had, it is always decided. *)
Theorem lazy_evaluation m host port network :
  (forall v ip cr, plain m = true -> (ip <> None \/ cr = false) ->
     evaluate m host None port network true = Some v -> evaluate m host ip port network cr = Some v) /\
  (forall ip cr, (ip <> None \/ cr = false) -> exists v, evaluate m host ip port network cr = Some v).
Proof.
  split; [intros; by apply evaluate_lazy|]. intros ip cr Hr. pose proof (evaluate_total m host ip port network cr Hr).
  destruct (evaluate m host ip port network cr); naive_solver.
Qed.

(** ** Nesting *)

Fixpoint height (m : Matcher) : nat :=
  match m with
  | And l | Or l => S (list_max (height <$> l))
  | Not m | NoResolve m => S (height m)
  | _ => 1
  end.

Lemma collect_Forall {A B} (f : A -> outcome B) (P : B -> Prop) l r :
  (forall x y, f x = Ok y -> P y) -> collect f l = Ok r -> Forall P r.
Proof.
  intros Hf. revert r. induction l as [|x l IH]; intros r E; simpl in E; [injection E as <-; constructor|].
  destruct (f x) eqn:Ex; try done. simpl in E. destruct (collect f l) eqn:El; try done. simpl in E.
  injection E as <-. constructor; eauto.
Qed.

Lemma list_max_bound l n : Forall (fun m => (height m <= n)%nat) l -> (list_max (height <$> l) <= n)%nat.
Proof. intros Hl. apply list_max_le. by apply Forall_fmap. Qed.

Lemma parse_depth_height levels raw m : parse_depth levels raw = Ok m -> (height m <= 2 * levels)%nat.
Proof.
  revert raw m. induction levels as [|levels IH]; intros raw m E; [done|]. cbn [parse_depth] in E.
  apply obind_Ok in E as (f & _ & E). destruct (pop_no_resolve f) as [f' nr].
  apply obind_Ok in E as (_ & _ & E). apply obind_Ok in E as (_ & _ & E). apply obind_Ok in E as (_ & _ & E).
  apply obind_Ok in E as (m0 & E0 & E). injection E as <-.
  enough (height m0 <= 1 + 2 * levels)%nat by (destruct nr; simpl; lia).
  destruct (bool_decide _) in E0.
  - apply obind_Ok in E0 as (parts & _ & E0). apply obind_Ok in E0 as (_ & _ & E0).
    apply obind_Ok in E0 as (nodes & En & E0).
    assert (Hn : Forall (fun m => (height m <= 2 * levels)%nat) nodes).
    { eapply collect_Forall; [|exact En]. intros p y (v & _ & Hv)%obind_Ok. eauto. }
    destruct (bool_decide _) in E0; [|destruct (bool_decide _) in E0].
    + injection E0 as <-. pose proof (list_max_bound _ _ Hn). simpl. lia.
    + injection E0 as <-. pose proof (list_max_bound _ _ Hn). simpl. lia.
    + destruct nodes as [|x [|]]; try done. injection E0 as <-. apply Forall_cons in Hn as [Hn _]. simpl. lia.
  - repeat match type of E0 with
    | (if ?b then _ else _) = _ => destruct b
    | obind _ _ = Ok _ => apply obind_Ok in E0 as (? & _ & E0)
    end; try done; injection E0 as <-; simpl; lia.
Qed.

(** The conditions of parsed rules are nested at most 64 deep, so that the
    recursion of evaluation, binding and reference collection is bounded. *)
Theorem parsed_rules_bounded raw r : Rule_parse raw = Ok r -> (height (matcher r) <= 64)%nat.
Proof.
  unfold Rule_parse. intros E. apply obind_Ok in E as (f & _ & E). apply obind_Ok in E as (_ & _ & E).
  destruct (pop_no_resolve f) as [f' nr]. apply obind_Ok in E as (_ & _ & E). apply obind_Ok in E as (_ & _ & E).
  apply obind_Ok in E as (m & Em & E). injection E as <-. cbn [matcher]. destruct (bool_decide _) in Em.
  - apply obind_Ok in Em as (_ & _ & Em). injection Em as <-. simpl. lia.
  - by apply parse_depth_height in Em.
Qed.
End facts.
