(* ===== verification/FakeIp.v ===== *)
(** * Fake addresses

    The map of names to addresses that crates/core/src/dns.rs keeps in fake-IP
    mode, what is saved of it in the profile, and the way back from an address
    to the name, [restore_target] of crates/core/src/lib.rs. *)

From S2P Require Import Prelude FfiAbi RustStr IpText IpTextFacts Target Rules.
Local Open Scope Z_scope.

(** [IpAddr::is_ipv6]. *)
Definition is_ipv6 (a : IpAddr) : bool := match a with V4 _ => false | V6 _ => true end.

#[global] Instance IpAddr_countable : Countable IpAddr.
Proof.
  refine (inj_countable' (fun a => match a with V4 n => inl n | V6 n => inr n end)
    (fun s : Z + Z => match s with inl n => V4 n | inr n => V6 n end) _).
  by intros [].
Defined.

Record FakeMap := mk_fake {
  by_name : gmap (list Z * bool) IpAddr; by_ip : gmap IpAddr (list Z); next4 : Z; next6 : Z
}.

Definition FakeMap_new : FakeMap := mk_fake ∅ ∅ 2 2.

Definition original (m : FakeMap) (ip : IpAddr) : option str := by_ip m !! ip.

Definition export_fake (m : FakeMap) : list (str * IpAddr) := (fun x => (x.2, x.1)) <$> map_to_list (by_ip m).

(** A name as queries and the saved profile are brought to it. *)
Definition normal_name (s : str) : str := to_ascii_lowercase (trim_end_matches 46 s).

Definition restore_target (m : FakeMap) (t : Target) : Target :=
  match Target_ip t with
  | Some ip => match original m ip with Some name => mk_target name (port t) | None => t end
  | None => t
  end.

Section fake.
Context `{RuleLibs}.

(** The pools of the configuration, and [absolute_name], the parser of names of
    the crate hickory. *)
Variables (fake_ip_range fake_ip_range6 : IpNet) (absolute_name : str -> outcome unit).

Definition fake_new (m : FakeMap) (v6 : bool) : outcome (IpAddr * Z * Z) :=
  if v6 then
    let address := net_network fake_ip_range6 + next6 m in
    let! _ := ensure (address <? 2 ^ 128) "fake-IP v6 pool exhausted" in
    let! _ := ensure (net_contains fake_ip_range6 (V6 address)) "fake-IP v6 pool exhausted" in
    Ok (V6 address, next4 m, (next6 m + 1) mod 2 ^ 128)
  else
    let address := (net_network fake_ip_range + next4 m) mod 2 ^ 64 in
    let! _ := ensure (address <? 2 ^ 32) "fake-IP v4 pool exhausted" in
    let! _ := ensure (net_contains fake_ip_range (V4 address) && negb (address =? net_broadcast fake_ip_range))
                "fake-IP v4 pool exhausted" in
    Ok (V4 address, (next4 m + 1) mod 2 ^ 64, next6 m).

Definition fake_address (m : FakeMap) (host : str) (v6 : bool) : outcome IpAddr * FakeMap :=
  match by_name m !! (host, v6) with
  | Some ip => (Ok ip, m)
  | None =>
      match (let! _ := ensure (Z.of_nat (size (by_name m)) <? 32768) "fake-IP capacity reached; refusing to reuse live mappings" in
             fake_new m v6) with
      | Ok (ip, n4, n6) => (Ok ip, mk_fake (<[(host, v6) := ip]> (by_name m)) (<[ip := host]> (by_ip m)) n4 n6)
      | Err e => (Err e, m)
      | Panicked => (Panicked, m)
      end
  end.

(** The checks of [import_fake] on an address, and the counters behind it. *)
Definition import_next (m : FakeMap) (ip : IpAddr) : outcome (Z * Z) :=
  match ip with
  | V4 v =>
      let! _ := ensure (net_contains fake_ip_range ip && negb (v =? net_broadcast fake_ip_range)) "saved fake-IP outside pool" in
      let n := v - net_network fake_ip_range in
      let! _ := ensure (2 <=? n) "reserved fake-IP" in
      Ok (Z.max (next4 m) (n + 1), next6 m)
  | V6 v =>
      let! _ := ensure (net_contains fake_ip_range6 ip) "saved fake-IP outside pool" in
      let n := v - net_network fake_ip_range6 in
      let! _ := ensure (2 <=? n) "reserved fake-IP" in
      let! _ := ensure (n + 1 <? 2 ^ 128) "saved pool overflow" in
      Ok (next4 m, Z.max (next6 m) (n + 1))
  end.

(** One round of its loop. *)
Definition import_entry (m : FakeMap) (e : str * IpAddr) : outcome FakeMap :=
  let '(name, ip) := e in
  let! _ := absolute_name name in
  let name := normal_name name in
  let! '(n4, n6) := import_next m ip in
  let! _ := ensure (bool_decide (by_ip m !! ip = None) && bool_decide (by_name m !! (name, is_ipv6 ip) = None))
              "duplicate saved fake-IP" in
  Ok (mk_fake (<[(name, is_ipv6 ip) := ip]> (by_name m)) (<[ip := name]> (by_ip m)) n4 n6).

Fixpoint import_loop (m : FakeMap) (entries : list (str * IpAddr)) : outcome FakeMap :=
  match entries with
  | [] => Ok m
  | e :: entries => let! m := import_entry m e in import_loop m entries
  end.

(** The map is replaced when all entries are good. *)
Definition import_fake (m : FakeMap) (entries : list (str * IpAddr)) : outcome unit * FakeMap :=
  match (let! _ := ensure (len entries <=? 32768) "saved fake-IP capacity exceeded" in import_loop FakeMap_new entries) with
  | Ok m' => (Ok tt, m')
  | Err e => (Err e, m)
  | Panicked => (Panicked, m)
  end.

(** What happens to the map: queries, as [answer] passes them on, and loading a
    profile. *)
Inductive fake_step (m : FakeMap) : FakeMap -> Prop :=
  | fs_query name v6 : fake_step m (fake_address m (normal_name name) v6).2
  | fs_import entries : fake_step m (import_fake m entries).2.

Definition fake_reaches : FakeMap -> Prop := rtc fake_step FakeMap_new.

(** ** The invariant *)

Definition in_pool (ip : IpAddr) : Prop :=
  match ip with
  | V4 v => net_network fake_ip_range + 2 <= v < net_broadcast fake_ip_range
  | V6 v => net_network fake_ip_range6 + 2 <= v <= net_broadcast fake_ip_range6
  end.

(** How many addresses of its pool come before an address, and the counter of
    the pool. *)
Definition offset (ip : IpAddr) : Z :=
  match ip with V4 v => v - net_network fake_ip_range | V6 v => v - net_network fake_ip_range6 end.
Definition next_of (m : FakeMap) (v6 : bool) : Z := if v6 then next6 m else next4 m.

Record fake_ok (m : FakeMap) : Prop := {
  fo_inverse : forall ip n, by_ip m !! ip = Some n <-> by_name m !! (n, is_ipv6 ip) = Some ip;
  fo_family : forall n b ip, by_name m !! (n, b) = Some ip -> is_ipv6 ip = b;
  fo_pool : forall ip n, by_ip m !! ip = Some n -> in_pool ip /\ offset ip < next_of m (is_ipv6 ip) /\ normal_name n = n;
  fo_next : forall b, 2 <= next_of m b < (if b then 2 ^ 128 else 2 ^ 32 + 1);
  fo_last : forall b, next_of m b = 2 \/
    exists ip n, by_ip m !! ip = Some n /\ is_ipv6 ip = b /\ next_of m b = offset ip + 1
}.
End fake.
