(* ===== verification/FakeIpFacts.v ===== *)
(** * Fake addresses: one name per address, for as long as the core runs

    The invariant of the map of fake addresses, what follows for queries and
    connections, and the round trip through the saved profile. *)

From S2P Require Import Prelude FfiAbi RustStr IpText IpTextFacts Target Rules FakeIp.
Local Open Scope Z_scope.

Section fake.
Context `{RuleLaws}.
Variables (fake_ip_range fake_ip_range6 : IpNet) (absolute_name : str -> outcome unit).
Hypothesis Hv4 : net_is_ipv4 fake_ip_range = true.
Hypothesis Hv6 : net_is_ipv4 fake_ip_range6 = false.
(** The pool for IPv6 does not begin at the address 0. *)
Hypothesis Hpool6 : 0 < net_network fake_ip_range6.

Local Abbreviation fake_ok := (fake_ok fake_ip_range fake_ip_range6).
Local Abbreviation in_pool := (in_pool fake_ip_range fake_ip_range6).
Local Abbreviation offset := (offset fake_ip_range fake_ip_range6).
Local Abbreviation fake_address := (fake_address fake_ip_range fake_ip_range6).
Local Abbreviation import_entry := (import_entry fake_ip_range fake_ip_range6 absolute_name).
Local Abbreviation import_loop := (import_loop fake_ip_range fake_ip_range6 absolute_name).
Local Abbreviation import_fake := (import_fake fake_ip_range fake_ip_range6 absolute_name).
Local Abbreviation fake_reaches := (fake_reaches fake_ip_range fake_ip_range6 absolute_name).

(** ** Adding an entry *)

Definition add_fake (m : FakeMap) (name : str) (ip : IpAddr) : FakeMap :=
  let n b := if Bool.eqb b (is_ipv6 ip) then Z.max (next_of m b) (offset ip + 1) else next_of m b in
  mk_fake (<[(name, is_ipv6 ip) := ip]> (by_name m)) (<[ip := name]> (by_ip m)) (n false) (n true).

Lemma in_pool_bounds ip : in_pool ip -> 2 <= offset ip /\ offset ip + 1 < (if is_ipv6 ip then 2 ^ 128 else 2 ^ 32 + 1) /\ ip_valid ip.
Proof.
  pose proof (net_ordered fake_ip_range). pose proof (net_ordered fake_ip_range6).
  pose proof (net_width fake_ip_range) as H4. pose proof (net_width fake_ip_range6) as H6. rewrite Hv4 in H4. rewrite Hv6 in H6.
  destruct ip as [v|v]; simpl; intros; lia.
Qed.

Lemma next_of_add m name ip b : next_of (add_fake m name ip) b =
  if Bool.eqb b (is_ipv6 ip) then Z.max (next_of m b) (offset ip + 1) else next_of m b.
Proof. by destruct b. Qed.

Lemma add_fake_ok m name ip : fake_ok m -> by_ip m !! ip = None -> by_name m !! (name, is_ipv6 ip) = None ->
  in_pool ip -> normal_name name = name -> fake_ok (add_fake m name ip).
Proof.
  intros [Hi Hf Hp Hn Hl] Hip Hna Hpool Hnorm. destruct (in_pool_bounds _ Hpool) as (Ho & Hb & _). split.
  - intros ip' n. cbn [add_fake by_ip by_name]. rewrite !lookup_insert_Some. split.
    + intros [[<- <-]|[Hne E]]; [by left|]. right. apply Hi in E as E'. split; [|done]. intros [= -> Hb']. congruence.
    + intros [[[= -> Hb'] <-]|[Hne E]]; [by left|]. right. apply Hi in E. split; [|done]. intros ->. congruence.
  - intros n b ip'. cbn [add_fake by_name]. rewrite lookup_insert_Some. intros [[[= -> <-] <-]|[_ E]]; [done | by eapply Hf].
  - intros ip' n. cbn [add_fake by_ip]. rewrite lookup_insert_Some, next_of_add. intros [[<- <-]|[_ E]].
    + rewrite Bool.eqb_reflx. split; [done|]. split; [lia | done].
    + destruct (Hp _ _ E) as (? & ? & ?). split; [done|]. split; [|done]. destruct (Bool.eqb _ _); lia.
  - intros b. rewrite next_of_add. specialize (Hn b). destruct (Bool.eqb b (is_ipv6 ip)) eqn:E; [|done].
    apply Bool.eqb_prop in E as ->. destruct (is_ipv6 ip); lia.
  - intros b. rewrite next_of_add. destruct (Bool.eqb b (is_ipv6 ip) && (next_of m b <=? offset ip + 1)) eqn:E.
    + apply andb_true_iff in E as [E1 E2%Z.leb_le]. rewrite E1. apply Bool.eqb_prop in E1 as ->. right. exists ip, name.
      cbn [add_fake by_ip]. rewrite lookup_insert_eq. split; [done|]. split; [done|]. lia.
    + assert (En : (if Bool.eqb b (is_ipv6 ip) then Z.max (next_of m b) (offset ip + 1) else next_of m b) = next_of m b)
        by (destruct (Bool.eqb b (is_ipv6 ip)); simpl in E; lia).
      rewrite En. destruct (Hl b) as [?|(ip' & n & E1 & E2 & E3)]; [by left|]. right. exists ip', n. cbn [add_fake by_ip].
      rewrite lookup_insert_ne by congruence. done.
Qed.

Lemma add_fake_size m name ip : by_name m !! (name, is_ipv6 ip) = None ->
  size (by_name (add_fake m name ip)) = S (size (by_name m)).
Proof. intros. cbn [add_fake by_name]. by apply map_size_insert_None. Qed.

(** ** Queries *)

Definition next_ip (m : FakeMap) (v6 : bool) : IpAddr :=
  if v6 then V6 (net_network fake_ip_range6 + next6 m) else V4 (net_network fake_ip_range + next4 m).

Lemma next_ip_family m v6 : is_ipv6 (next_ip m v6) = v6.
Proof. by destruct v6. Qed.

Lemma next_ip_offset m v6 : offset (next_ip m v6) = next_of m v6.
Proof. destruct v6; simpl; lia. Qed.

(** The next address is new. *)
Lemma next_ip_fresh m v6 : fake_ok m -> by_ip m !! next_ip m v6 = None.
Proof.
  intros Hm. destruct (by_ip m !! next_ip m v6) as [n|] eqn:E; [|done]. exfalso.
  destruct (fo_pool _ _ _ Hm _ _ E) as (_ & Hlt & _). rewrite next_ip_family, next_ip_offset in Hlt. lia.
Qed.

(** The two families are alike: a new address is the next one of the pool. *)
Lemma fake_new_spec m v6 : fake_ok m ->
  (in_pool (next_ip m v6) /\ fake_new fake_ip_range fake_ip_range6 m v6 =
    Ok (next_ip m v6, next4 m + (if v6 then 0 else 1), next6 m + (if v6 then 1 else 0))) \/
  (~ in_pool (next_ip m v6) /\ exists e, fake_new fake_ip_range fake_ip_range6 m v6 = Err e).
Proof.
  intros Hm. pose proof (net_ordered fake_ip_range). pose proof (net_ordered fake_ip_range6).
  pose proof (net_width fake_ip_range) as H4. pose proof (net_width fake_ip_range6) as H6. rewrite Hv4 in H4. rewrite Hv6 in H6.
  unfold fake_new. pose proof (fo_next _ _ _ Hm v6) as Hn. destruct v6; cbn [next_of] in Hn; cbn [next_ip in_pool].
  - destruct (Z.ltb_spec (net_network fake_ip_range6 + next6 m) (2 ^ 128)); cbn [ensure obind]; [|right; split; [lia | eauto]].
    rewrite net_range, Hv6. cbn [negb andb]. rewrite (proj2 (Z.leb_le (net_network fake_ip_range6) _)) by lia. cbn [andb].
    destruct (Z.leb_spec (net_network fake_ip_range6 + next6 m) (net_broadcast fake_ip_range6)); cbn [ensure obind].
    + left. split; [lia|]. rewrite Z.add_0_r, Z.mod_small by lia. done.
    + right. split; [lia | eauto].
  - rewrite !Z.mod_small by lia.
    destruct (Z.ltb_spec (net_network fake_ip_range + next4 m) (2 ^ 32)); cbn [ensure obind]; [|right; split; [lia | eauto]].
    rewrite net_range, Hv4. cbn [negb andb]. rewrite (proj2 (Z.leb_le (net_network fake_ip_range) _)) by lia. cbn [andb].
    destruct (Z.leb_spec (net_network fake_ip_range + next4 m) (net_broadcast fake_ip_range)); cbn [ensure obind andb];
      [|right; split; [lia | eauto]].
    destruct (Z.eqb_spec (net_network fake_ip_range + next4 m) (net_broadcast fake_ip_range)); cbn [ensure obind negb].
    + right. split; [lia | eauto].
    + left. split; [lia|]. by rewrite Z.add_0_r.
Qed.

Lemma fake_address_spec m name v6 : fake_ok m ->
  match by_name m !! (name, v6) with
  | Some ip => fake_address m name v6 = (Ok ip, m)
  | None =>
      (Z.of_nat (size (by_name m)) < 32768 /\ in_pool (next_ip m v6) /\
        fake_address m name v6 = (Ok (next_ip m v6), add_fake m name (next_ip m v6))) \/
      (~ (Z.of_nat (size (by_name m)) < 32768 /\ in_pool (next_ip m v6)) /\ exists e, fake_address m name v6 = (Err e, m))
  end.
Proof.
  intros Hm. unfold fake_address. destruct (by_name m !! (name, v6)) as [ip|] eqn:En; [done|].
  destruct (Z.ltb_spec (Z.of_nat (size (by_name m))) 32768) as [Hs|Hs]; cbn [ensure obind]; [|right; split; [lia | eauto]].
  destruct (fake_new_spec m v6 Hm) as [[Hp ->]|[Hp [e ->]]].
  - left. split; [done|]. split; [done|]. f_equal. unfold add_fake. rewrite next_ip_family, next_ip_offset.
    destruct v6; cbn [Bool.eqb next_of]; f_equal; lia.
  - right. split; [naive_solver | eauto].
Qed.

(** ** Loading a profile *)

Lemma import_next_spec m ip :
  (in_pool ip /\ import_next fake_ip_range fake_ip_range6 m ip = Ok (next4 (add_fake m [] ip), next6 (add_fake m [] ip))) \/
  (~ in_pool ip /\ exists e, import_next fake_ip_range fake_ip_range6 m ip = Err e).
Proof.
  pose proof (net_ordered fake_ip_range). pose proof (net_ordered fake_ip_range6).
  pose proof (net_width fake_ip_range) as H4. pose proof (net_width fake_ip_range6) as H6. rewrite Hv4 in H4. rewrite Hv6 in H6.
  unfold import_next. destruct ip as [v|v]; rewrite net_range, ?Hv4, ?Hv6; cbn [in_pool negb andb].
  - destruct (Z.leb_spec (net_network fake_ip_range) v), (Z.leb_spec v (net_broadcast fake_ip_range)),
      (Z.eqb_spec v (net_broadcast fake_ip_range)), (Z.leb_spec 2 (v - net_network fake_ip_range));
      cbn [negb andb ensure obind]; first [left; split; [lia | done] | right; split; [lia | eauto]].
  - destruct (Z.leb_spec (net_network fake_ip_range6) v), (Z.leb_spec v (net_broadcast fake_ip_range6)),
      (Z.leb_spec 2 (v - net_network fake_ip_range6)), (Z.ltb_spec (v - net_network fake_ip_range6 + 1) (2 ^ 128));
      cbn [negb andb ensure obind]; first [left; split; [lia | done] | right; split; [lia | eauto]].
Qed.

(** What [import_entry] accepts, and what it makes of it. *)
Definition entry_good (m : FakeMap) (e : str * IpAddr) : Prop :=
  absolute_name e.1 = Ok tt /\ in_pool e.2 /\ by_ip m !! e.2 = None /\ by_name m !! (normal_name e.1, is_ipv6 e.2) = None.

Lemma import_entry_spec m e m' : import_entry m e = Ok m' <-> entry_good m e /\ m' = add_fake m (normal_name e.1) e.2.
Proof.
  destruct e as [name ip]. unfold import_entry, entry_good. cbn [fst snd].
  destruct (absolute_name name) as [[]| |]; cbn [obind]; [|naive_solver..].
  destruct (import_next_spec m ip) as [[Hp ->]|[Hp [e ->]]]; cbn [obind]; [|naive_solver].
  do 2 case_bool_decide; cbn [andb ensure obind]; [|naive_solver..].
  split; [intros [= <-]; naive_solver | intros [_ ->]; done].
Qed.

Lemma import_loop_ok l : forall m m', fake_ok m -> import_loop m l = Ok m' ->
  fake_ok m' /\ size (by_name m') = (size (by_name m) + length l)%nat.
Proof.
  induction l as [|e l IH]; intros m m' Hm E; cbn [import_loop] in E.
  - apply Ok_inj in E as <-. simpl. split; [done | lia].
  - apply obind_Ok in E as (m1 & E1 & E). apply import_entry_spec in E1 as [(Ha & Hp & Hi & Hn) ->].
    apply IH in E as [Hm' Hs]; [|by apply add_fake_ok; [..|apply normal_host_idem]].
    split; [done|]. rewrite Hs, add_fake_size by done. simpl. lia.
Qed.

(** ** What holds in every state *)

Lemma FakeMap_new_ok : fake_ok FakeMap_new.
Proof.
  split; cbn [FakeMap_new by_name by_ip].
  - intros ip n. by rewrite !lookup_empty.
  - intros n b ip. by rewrite lookup_empty.
  - intros ip n. by rewrite lookup_empty.
  - intros []; simpl; lia.
  - intros []; by left.
Qed.

Definition fake_inv (m : FakeMap) : Prop := fake_ok m /\ Z.of_nat (size (by_name m)) <= 32768.

Lemma fake_address_inv m name v6 : fake_inv m -> fake_inv (fake_address m (normal_name name) v6).2.
Proof.
  intros [Hm Hs]. pose proof (fake_address_spec m (normal_name name) v6 Hm) as Hf.
  destruct (by_name m !! (normal_name name, v6)) eqn:En; [by rewrite Hf|].
  destruct Hf as [(Hlt & Hp & ->)|(_ & e & ->)]; [|done]. cbn [snd].
  assert (Hfr : by_name m !! (normal_name name, is_ipv6 (next_ip m v6)) = None) by (by rewrite next_ip_family). split.
  - apply add_fake_ok; try done; [by apply next_ip_fresh | apply normal_host_idem].
  - rewrite add_fake_size by done. lia.
Qed.

Lemma import_fake_inv m l : fake_inv m -> fake_inv (import_fake m l).2.
Proof.
  intros Hm. unfold import_fake. destruct (Z.leb_spec (len l) 32768); cbn [ensure obind]; [|done].
  destruct (import_loop FakeMap_new l) as [m'| |] eqn:E; [|done..].
  apply import_loop_ok in E as [Hm' Hs]; [|apply FakeMap_new_ok]. cbn [snd]. split; [done|]. rewrite Hs. cbn [FakeMap_new by_name].
  rewrite map_size_empty. lia.
Qed.

Lemma fake_reaches_inv m : fake_reaches m -> fake_inv m.
Proof.
  unfold fake_reaches. assert (Hinit : fake_inv FakeMap_new) by (split; [apply FakeMap_new_ok | by cbn [FakeMap_new by_name]; rewrite map_size_empty]). revert Hinit.
  generalize FakeMap_new. intros m0 Hinit Hr. induction Hr as [|m0 m1 m2 Hs _ IH]; [done|]. apply IH.
  destruct Hs; [by apply fake_address_inv | by apply import_fake_inv].
Qed.

(** C36: no two names share a fake address: in every state the map can reach, by
    queries and by loading profiles, the address of a name is of the family asked
    for and within its pool, leads back to that name and to no other, and at most
    32768 are in use. *)
Theorem fake_ip_exclusive m : fake_reaches m ->
  Z.of_nat (size (by_name m)) <= 32768 /\
  forall n b ip, by_name m !! (n, b) = Some ip ->
    original m ip = Some n /\ is_ipv6 ip = b /\ in_pool ip /\
    forall n' b', by_name m !! (n', b') = Some ip -> n' = n /\ b' = b.
Proof.
  intros [Hm Hs]%fake_reaches_inv. split; [done|]. intros n b ip E. pose proof (fo_family _ _ _ Hm _ _ _ E) as <-.
  apply (fo_inverse _ _ _ Hm) in E. split; [done|]. split; [done|]. split; [by apply (fo_pool _ _ _ Hm) in E as []|].
  intros n' b' E'. pose proof (fo_family _ _ _ Hm _ _ _ E') as <-. apply (fo_inverse _ _ _ Hm) in E'. by simplify_eq.
Qed.

(** Queries only add to the map. *)
Lemma fake_address_grows m name v6 : fake_inv m -> by_name m ⊆ by_name (fake_address m name v6).2.
Proof.
  intros [Hm _]. pose proof (fake_address_spec m name v6 Hm) as Hf. destruct (by_name m !! (name, v6)) eqn:En; [by rewrite Hf|].
  destruct Hf as [(_ & _ & ->)|(_ & e & ->)]; [|done]. cbn [snd add_fake by_name]. apply insert_subseteq. by rewrite next_ip_family.
Qed.

Definition queries (m : FakeMap) (l : list (str * bool)) : FakeMap :=
  foldl (fun m q => (fake_address m (normal_name q.1) q.2).2) m l.

Lemma queries_grow l : forall m, fake_inv m -> fake_inv (queries m l) /\ by_name m ⊆ by_name (queries m l).
Proof.
  induction l as [|[q v6] l IH]; intros m Hm; [done|]. cbn [queries foldl fst snd].
  destruct (IH _ (fake_address_inv m q v6 Hm)) as [Hm' Hsub]. split; [done|]. etrans; [|exact Hsub]. by apply fake_address_grows.
Qed.

(** C37: a fake address stays with its name: once a query has been answered with
    it, then after any further queries the same query has the same answer, and
    does not change the map, and a connection to the address, as text and with
    any port, is restored to the name. *)
Theorem fake_ip_stable m q v6 ip m1 later p : fake_reaches m -> fake_address m (normal_name q) v6 = (Ok ip, m1) ->
  let m2 := queries m1 later in
  fake_address m2 (normal_name q) v6 = (Ok ip, m2) /\ original m2 ip = Some (normal_name q) /\
  restore_target m2 (mk_target (ip_display ip) p) = mk_target (normal_name q) p.
Proof.
  intros Hm%fake_reaches_inv E m2. pose proof (fake_address_inv m q v6 Hm) as Hm1. rewrite E in Hm1. cbn [snd] in Hm1.
  assert (E1 : by_name m1 !! (normal_name q, v6) = Some ip).
  { pose proof (fake_address_spec m (normal_name q) v6 (proj1 Hm)) as Hf. destruct (by_name m !! (normal_name q, v6)) eqn:En.
    - rewrite Hf in E. by simplify_eq.
    - destruct Hf as [(_ & _ & Hf)|(_ & e & Hf)]; rewrite Hf in E; simplify_eq. cbn [add_fake by_name].
      rewrite next_ip_family. by rewrite lookup_insert_eq. }
  destruct (queries_grow later m1 Hm1) as [[Hm2 _] Hsub]. fold m2 in Hm2, Hsub. eapply lookup_weaken in E1; [|exact Hsub].
  pose proof (fo_family _ _ _ Hm2 _ _ _ E1) as Hfam. split; [unfold fake_address; by rewrite E1|].
  assert (Ho : original m2 ip = Some (normal_name q)) by (apply (fo_inverse _ _ _ Hm2); by rewrite Hfam). split; [done|].
  unfold restore_target, Target_ip. cbn [host port]. rewrite ip_text_roundtrip, Ho; [done|].
  apply (fo_pool _ _ _ Hm2) in Ho as [Hp _]. by apply in_pool_bounds.
Qed.

(** ** The saved profile *)

Lemma next_of_le m m' b : fake_ok m -> fake_ok m' -> by_ip m = by_ip m' -> next_of m b <= next_of m' b.
Proof.
  intros Hm Hm' E. pose proof (fo_next _ _ _ Hm' b). destruct (fo_last _ _ _ Hm b) as [?|(ip & n & Hip & Hb & ->)]; [lia|].
  rewrite E in Hip. destruct (fo_pool _ _ _ Hm' _ _ Hip) as (_ & Hlt & _). rewrite Hb in Hlt. lia.
Qed.

(** The map is determined by its addresses. *)
Lemma fake_ok_ext m m' : fake_ok m -> fake_ok m' -> by_ip m = by_ip m' -> m = m'.
Proof.
  intros Hm Hm' E.
  assert (Hsub : forall m m', fake_ok m -> fake_ok m' -> by_ip m = by_ip m' -> forall k ip, by_name m !! k = Some ip -> by_name m' !! k = Some ip).
  { clear. intros m m' Hm Hm' E [n b] ip Hk. pose proof (fo_family _ _ _ Hm _ _ _ Hk) as <-.
    apply (fo_inverse _ _ _ Hm) in Hk. rewrite E in Hk. by apply (fo_inverse _ _ _ Hm'). }
  assert (En : by_name m = by_name m').
  { apply map_eq. intros k. apply option_eq. intros ip. split; apply Hsub; done. }
  assert (Hnext : forall b, next_of m b = next_of m' b).
  { intros b. apply Z.le_antisymm; by apply next_of_le. }
  pose proof (Hnext false). pose proof (Hnext true). destruct m, m'. simpl in *. by subst.
Qed.

(** Entries that are good and different are all taken. *)
Lemma import_loop_all l : forall m, fake_ok m -> NoDup l.*2 -> NoDup ((fun e => (e.1, is_ipv6 e.2)) <$> l) ->
  Forall (fun e => normal_name e.1 = e.1 /\ entry_good m e) l ->
  exists m', import_loop m l = Ok m' /\ forall ip n, by_ip m' !! ip = Some n <-> (n, ip) ∈ l \/ by_ip m !! ip = Some n.
Proof.
  induction l as [|[name ip] l IH]; intros m Hm Hd1 Hd2 Hl.
  - exists m. split; [done|]. intros ip n. rewrite elem_of_nil. naive_solver.
  - apply NoDup_cons in Hd1 as [Hni1 Hd1], Hd2 as [Hni2 Hd2].
    apply Forall_cons in Hl as [(Hnm & Hg) Hl]. cbn [fst snd] in Hnm, Hni1, Hni2.
    assert (E : import_entry m (name, ip) = Ok (add_fake m name ip)).
    { apply import_entry_spec. split; [done|]. cbn [fst snd]. by rewrite Hnm. }
    destruct Hg as (Ha & Hp & Hi & Hn). cbn [fst snd] in Hp, Hi, Hn. rewrite Hnm in Hn.
    destruct (IH (add_fake m name ip)) as (m' & E' & Hm'); try done.
    + by apply add_fake_ok.
    + apply Forall_forall. intros [n' ip'] Hin. rewrite Forall_forall in Hl. destruct (Hl _ Hin) as (Hnm' & Ha' & Hp' & Hi' & Hn').
      cbn [fst snd] in *. split; [done|]. split; [done|]. split; [done|]. cbn [fst snd add_fake by_ip by_name]. split.
      * rewrite lookup_insert_ne; [done|]. intros ->. apply Hni1. apply list_elem_of_fmap. by exists (n', ip').
      * rewrite lookup_insert_ne; [done|]. intros [= -> Hb]. apply Hni2. apply list_elem_of_fmap. exists (n', ip').
        cbn [fst snd]. by rewrite Hnm', Hb.
    + exists m'. cbn [import_loop]. rewrite E. cbn [obind]. split; [done|]. intros ip' n'. rewrite Hm', elem_of_cons.
      cbn [add_fake by_ip]. rewrite lookup_insert_Some. split; [naive_solver|]. intros [[[= -> ->]|?]|Hip]; [by auto..|].
      right. right. split; [|done]. intros ->. congruence.
Qed.

Lemma export_elem m n ip : (n, ip) ∈ export_fake m <-> by_ip m !! ip = Some n.
Proof.
  unfold export_fake. rewrite list_elem_of_fmap. split.
  - intros ([ip' n'] & [= -> ->] & Hin). by apply elem_of_map_to_list in Hin.
  - intros E. exists (ip, n). split; [done|]. by apply elem_of_map_to_list.
Qed.

(** The saved profile restores the fake addresses: the entries that
    [export_fake] saves, in whatever order the hash map yields them, are imported
    without error, and the map is again exactly the one that was saved, with the
    counters from which new addresses are taken. *)
Theorem fake_ip_profile m m0 l : fake_reaches m -> (forall ip n, by_ip m !! ip = Some n -> absolute_name n = Ok tt) ->
  l ≡ₚ export_fake m -> import_fake m0 l = (Ok tt, m).
Proof.
  intros [Hm Hs]%fake_reaches_inv Habs Hl.
  assert (Hel : forall n ip, (n, ip) ∈ l <-> by_ip m !! ip = Some n) by (intros; by rewrite Hl, export_elem).
  assert (Hd : NoDup l.*2).
  { rewrite Hl. unfold export_fake. rewrite <- list_fmap_compose. apply NoDup_fst_map_to_list. }
  assert (Hnn : NoDup ((fun e => (e.1, is_ipv6 e.2)) <$> l)).
  { apply NoDup_fmap_2_strong; [|by eapply NoDup_fmap_1]. intros [n ip] [n' ip'] H1%Hel H2%Hel [= -> Hb].
    apply (fo_inverse _ _ _ Hm) in H1, H2. rewrite Hb in H1. by simplify_eq. }
  assert (Hlen : (length l <= size (by_name m))%nat).
  { rewrite <- (length_fmap (fun e => (e.1, is_ipv6 e.2)) l), <- size_dom, <- (size_list_to_set (C := gset (list Z * bool))) by done.
    apply subseteq_size. intros [n b] Hin. apply elem_of_list_to_set, list_elem_of_fmap in Hin as ([n' ip] & [= -> ->] & Hin).
    apply Hel, (fo_inverse _ _ _ Hm) in Hin. by apply elem_of_dom_2 in Hin. }
  destruct (import_loop_all l FakeMap_new FakeMap_new_ok Hd Hnn) as (m' & E & Hm').
  { apply Forall_forall. intros [n ip] Hin%Hel. destruct (fo_pool _ _ _ Hm _ _ Hin) as (Hp & _ & Hn).
    split; [done|]. split; [by eapply Habs|]. split; [done|]. cbn [FakeMap_new by_ip by_name]. by rewrite !lookup_empty. }
  unfold import_fake. rewrite (proj2 (Z.leb_le _ _)) by lia. cbn [ensure obind]. rewrite E. f_equal.
  apply fake_ok_ext; [by eapply import_loop_ok; [apply FakeMap_new_ok|] | done |].
  apply map_eq. intros ip. apply option_eq. intros n. rewrite Hm', Hel. cbn [FakeMap_new by_ip]. rewrite lookup_empty. naive_solver.
Qed.
End fake.

(** ** The pools of the default configuration *)

(** Networks by their bounds. *)
Definition clamp (lo hi v : Z) : Z := Z.max lo (Z.min v hi).
Definition width (v4 : bool) : Z := if v4 then 2 ^ 32 - 1 else 2 ^ 128 - 1.
#[local] Instance pool_libs : RuleLibs := {
  Regex := unit;
  regex_build _ _ := Err (text "no regular expressions");
  is_match _ _ := false;
  IpNet := bool * Z * Z;
  net_parse _ := Err (text "no networks");
  net_is_ipv4 n := n.1.1;
  net_network n := clamp 0 (width n.1.1) n.1.2;
  net_broadcast n := clamp (clamp 0 (width n.1.1) n.1.2) (width n.1.1) n.2;
  net_contains n a := match a with
    | V4 v => n.1.1 && (clamp 0 (width n.1.1) n.1.2 <=? v) && (v <=? clamp (clamp 0 (width n.1.1) n.1.2) (width n.1.1) n.2)
    | V6 v => negb n.1.1 && (clamp 0 (width n.1.1) n.1.2 <=? v) && (v <=? clamp (clamp 0 (width n.1.1) n.1.2) (width n.1.1) n.2)
    end
}.
#[local] Instance pool_laws : RuleLaws (H := pool_libs).
Proof.
  split; simpl.
  - intros [[b l] h]; unfold clamp, width; destruct b; simpl; lia.
  - intros [[b l] h]; unfold clamp, width; destruct b; simpl; lia.
  - by intros [[b l] h] [v|v].
Qed.

(** 198.18.0.0/16 and fdfe:dcba:9876::/64. *)
Definition pool4 : IpNet := (true, 0xc6120000, 0xc612ffff).
Definition pool6 : IpNet := (false, 0xfdfedcba98760000 * 2 ^ 64, 0xfdfedcba98760000 * 2 ^ 64 + 2 ^ 64 - 1).
Definition any_name (_ : str) : outcome unit := Ok tt.

(** A query for a name, then one for another and for its IPv6 address. *)
Definition one_query : FakeMap := (fake_address pool4 pool6 FakeMap_new (normal_name (lit "Example.test.")) false).2.

Lemma one_query_reaches : fake_reaches pool4 pool6 any_name one_query.
Proof. apply rtc_once. apply (fs_query pool4 pool6 any_name FakeMap_new (lit "Example.test.") false). Qed.

Lemma fake_ip_exclusive_witness : original one_query (V4 0xc6120002) = Some (lit "example.test").
Proof.
  destruct (fake_ip_exclusive pool4 pool6 any_name eq_refl eq_refl ltac:(vm_compute; reflexivity) one_query one_query_reaches) as [_ Hx].
  apply (Hx (lit "example.test") false (V4 0xc6120002)). vm_compute. reflexivity.
Defined.

Lemma fake_ip_stable_witness :
  let m2 := queries pool4 pool6 one_query [(lit "other.test", false); (lit "example.test", true)] in
  restore_target m2 (mk_target (lit "198.18.0.2") 443) = mk_target (lit "example.test") 443.
Proof.
  apply (fake_ip_stable pool4 pool6 any_name eq_refl eq_refl ltac:(vm_compute; reflexivity) FakeMap_new (lit "Example.test.") false
    (V4 0xc6120002) one_query _ 443); [apply rtc_refl | vm_compute; reflexivity].
Defined.

Lemma fake_ip_profile_witness : import_fake pool4 pool6 any_name FakeMap_new [(lit "example.test", V4 0xc6120002)] = (Ok tt, one_query).
Proof.
  apply (fake_ip_profile pool4 pool6 any_name eq_refl eq_refl ltac:(vm_compute; reflexivity)); [apply one_query_reaches | done |].
  replace (export_fake one_query) with [(lit "example.test", V4 0xc6120002)] by (vm_compute; reflexivity). reflexivity.
Defined.
