(* ===== verification/Policy.v ===== *)
(** * Policy: groups, selections and routing

    The part of crates/config/src/lib.rs that validates names, groups and rules,
    and the part of crates/core/src/lib.rs that keeps the policy of a running
    core: the mode, the rules and the selected member of every group. *)

From S2P Require Import Prelude FfiAbi RustStr IpText Target Rules.
Local Open Scope Z_scope.

Definition DIRECT : str := lit "DIRECT".
Definition REJECT : str := lit "REJECT".
Definition GLOBAL : str := lit "GLOBAL".

Inductive GroupKind := Select | UrlTest.
#[global] Instance GroupKind_eq_dec : EqDecision GroupKind.
Proof. solve_decision. Defined.
#[global] Instance Mode_eq_dec : EqDecision Mode.
Proof. solve_decision. Defined.

Record Group := mk_group {
  group_name : str; group_kind : GroupKind; group_proxies : list str; url : str; interval : Z;
  tolerance : Z
}.

(** The fields of the configuration the policy depends on; [proxies] are the
    names of the proxies. *)
Record Config := mk_config {
  proxies : list str; proxy_groups : list Group; config_rules : list str; config_mode : Mode;
  rule_providers : gset (list Z); store_selected : bool
}.

Section policy.
Context `{RuleLibs}.

(** ** Validation *)

(** Names are added one by one; a name that is empty or there already is an
    error. *)
Fixpoint add_names (what : string) (names : gset (list Z)) (l : list str) : outcome (gset (list Z)) :=
  match l with
  | [] => Ok names
  | n :: l =>
      if bool_decide (n = []) || bool_decide (n ∈ names)
      then Err (text ("duplicate/reserved " +:+ what +:+ " name: ") ++ n)
      else add_names what ({[n]} ∪ names) l
  end.

Fixpoint check_groups (names : gset (list Z)) (l : list Group) : outcome (gset (list Z)) :=
  match l with
  | [] => Ok names
  | g :: l =>
      let! names := add_names "group" names [group_name g] in
      let! _ := (if bool_decide (group_proxies g = []) then Err (text "empty group " ++ group_name g) else Ok tt) in
      let! _ := ensure (0 <? interval g) "group interval must be positive" in
      check_groups names l
  end.

Definition group_map (l : list Group) : gmap (list Z) Group := list_to_map ((fun g => (group_name g, g)) <$> l).

(** A loop that threads the path; [None] when [visit] runs out of fuel. *)
Fixpoint visit_all (v : gset (list Z) -> str -> option (outcome (gset (list Z)))) (path : gset (list Z)) (l : list str) :
    option (outcome (gset (list Z))) :=
  match l with
  | [] => Some (Ok path)
  | c :: l => match v path c with Some (Ok path) => visit_all v path l | r => r end
  end.

Fixpoint visit (fuel : nat) (groups : gmap (list Z) Group) (names path : gset (list Z)) (name : str) :
    option (outcome (gset (list Z))) :=
  match fuel with
  | O => None
  | S fuel =>
      if negb (bool_decide (name ∈ names) && negb (bool_decide (name = GLOBAL)))
      then Some (Err (text "unknown or invalid group target: " ++ name))
      else match groups !! name with
           | None => Some (Ok path)
           | Some g =>
               if bool_decide (name ∈ path) then Some (Err (text "cyclic group: " ++ name))
               else match visit_all (visit fuel groups names) ({[name]} ∪ path) (group_proxies g) with
                    | Some (Ok path) => Some (Ok (path ∖ {[name]}))
                    | r => r
                    end
           end
  end.

(** More than the depth of any recursion. *)
Definition visit_fuel (groups : list Group) : nat := S (S (length groups)).

Fixpoint visit_groups (groups : list Group) (names : gset (list Z)) (l : list Group) : option (outcome unit) :=
  match l with
  | [] => Some (Ok tt)
  | g :: l =>
      match visit (visit_fuel groups) (group_map groups) names ∅ (group_name g) with
      | Some (Ok _) => visit_groups groups names l
      | Some (Err e) => Some (Err e)
      | Some Panicked => Some Panicked
      | None => None
      end
  end.

(** [with_context]: the index in front of the error. *)
Definition context (i : nat) (o : outcome Rules.Rule) : outcome Rules.Rule :=
  match o with Err e => Err (text ("rules[" +:+ decimal i +:+ "]: ") ++ e) | o => o end.

Definition known_provider (c : Config) (r : reference) : bool :=
  match r with RefRuleSet v => bool_decide (v ∈ rule_providers c) | _ => true end.

Fixpoint check_rules (c : Config) (names : gset (list Z)) (i : nat) (l : list str) : outcome unit :=
  match l with
  | [] => Ok tt
  | raw :: l =>
      let! r := context i (Rule_parse raw) in
      let! _ := (if bool_decide (target r ∈ names) then Ok tt
                 else Err (text ("rules[" +:+ decimal i +:+ "]: unknown target ") ++ target r)) in
      let! _ := (if forallb (known_provider c) (references (matcher r)) then Ok tt
                 else Err (text ("rules[" +:+ decimal i +:+ "]: unknown rule provider"))) in
      check_rules c names (S i) l
  end.

(** [Config::validate] on names, groups and rules; the other checks of the
    function, on fields that are not modelled, only refuse more
    configurations. *)
Definition validate (c : Config) : option (outcome (gset (list Z))) :=
  match (let! names := add_names "proxy" {[DIRECT; REJECT; GLOBAL]} (proxies c) in check_groups names (proxy_groups c)) with
  | Ok names =>
      match visit_groups (proxy_groups c) names (proxy_groups c) with
      | Some (Ok _) => Some (let! _ := check_rules c names 0 (config_rules c) in Ok names)
      | Some (Err e) => Some (Err e)
      | Some Panicked => Some Panicked
      | None => None
      end
  | r => Some r
  end.

(** ** The policy *)

Record Policy := mk_policy {
  mode : Mode; rules : list Rules.Rule; raw_rules : list str;
  selection : gmap (list Z) (list Z); delay : gmap (list Z) Z
}.

Fixpoint initial_selection (m : gmap (list Z) (list Z)) (l : list Group) : gmap (list Z) (list Z) :=
  match l with
  | [] => m
  | g :: l => initial_selection (<[group_name g := nth 0 (group_proxies g) []]> m) l
  end.

(** [Core::new]. *)
Definition Core_new (c : Config) : option (outcome Policy) :=
  match validate c with
  | Some (Ok _) =>
      Some (let! rules := collect Rule_parse (config_rules c) in
            Ok (mk_policy (config_mode c) rules (config_rules c) (initial_selection ∅ (proxy_groups c)) ∅))
  | Some (Err e) => Some (Err e)
  | Some Panicked => Some Panicked
  | None => None
  end.

Fixpoint leaf_loop (n : nat) (selection : gmap (list Z) (list Z)) (name : str) : outcome str :=
  match n with
  | O => Err (text "group cycle")
  | S n => match selection !! name with Some selected => leaf_loop n selection selected | None => Ok name end
  end.

Definition global_target (c : Config) : str :=
  match proxy_groups c, proxies c with g :: _, _ => group_name g | [], p :: _ => p | [], [] => DIRECT end.

Definition leaf (c : Config) (p : Policy) (name : str) : outcome str :=
  leaf_loop (S (length (proxy_groups c))) (selection p) (if bool_decide (name = GLOBAL) then global_target c else name).

(** [select]; the policy is changed before the profile is saved, [saved] is the
    outcome of that. *)
Definition select (c : Config) (p : Policy) (group name : str) (saved : outcome unit) : outcome unit * Policy :=
  match List.find (fun g => bool_decide (group_name g = group)) (proxy_groups c) with
  | None => (Err (text "group not found"), p)
  | Some g =>
      if bool_decide (name ∈ group_proxies g)
      then (saved, mk_policy (mode p) (rules p) (raw_rules p) (<[group := name]> (selection p)) (delay p))
      else (Err (text "node not in group"), p)
  end.

Definition set_mode (p : Policy) (m : Mode) : Policy :=
  mk_policy m (rules p) (raw_rules p) (selection p) (delay p).

(** The routing data that is loaded, by kind and name. *)
Definition Resources : Type := gmap (list Z * list Z) Matcher.

Definition resource_get (res : Resources) (m : Matcher) : outcome Matcher :=
  let get kind v := match (res : gmap (list Z * list Z) Matcher) !! (lit kind, v) with
                    | Some m => Ok m
                    | None => Err (text "referenced routing data is not loaded")
                    end in
  match m with
  | GeoIp v => get "geoip"%string v
  | GeoSite v => get "geosite"%string v
  | RuleSet v => get "rule-set"%string v
  | _ => Panicked
  end.
Definition Resources_bind (res : Resources) (m : Matcher) : outcome Matcher := bind (resource_get res) m.

Definition resource_rules (res : Resources) (raw : list str) : outcome (list Rules.Rule) :=
  collect (fun s => let! r := Rule_parse s in let! m := Resources_bind res (matcher r) in
                    Ok (mk_rule m (target r) (no_resolve r))) raw.

Definition with_policy (c : Config) (mode : option Mode) (rules : list str) : Config :=
  mk_config (proxies c) (proxy_groups c) rules (default (config_mode c) mode) (rule_providers c) (store_selected c).

Definition update_policy (c : Config) (p : Policy) (res : Resources)
    (new_mode : option Mode) (new_rules : option (list str)) : option (outcome unit * Policy) :=
  let cfg := with_policy c new_mode (default (raw_rules p) new_rules) in
  match validate cfg with
  | Some (Ok _) =>
      match resource_rules res (config_rules cfg) with
      | Ok rs =>
          let p := match new_rules with
                   | Some _ => mk_policy (mode p) rs (config_rules cfg) (selection p) (delay p)
                   | None => p
                   end in
          Some (Ok tt, match new_mode with Some m => set_mode p m | None => p end)
      | Err e => Some (Err e, p)
      | Panicked => Some (Panicked, p)
      end
  | Some (Err e) => Some (Err e, p)
  | Some Panicked => Some (Panicked, p)
  | None => None
  end.

(** [prepare_resources]: [loaded] is the outcome of [Resources::load],
    [configured] the outcome of [Resolver::configure]. *)
Definition prepare_resources (p : Policy) (loaded : outcome Resources) (configured : outcome unit) :
    outcome unit * Policy :=
  match (let! next := loaded in let! rs := resource_rules next (raw_rules p) in let! _ := configured in Ok rs) with
  | Ok rs => (Ok tt, mk_policy (mode p) rs (raw_rules p) (selection p) (delay p))
  | Err e => (Err e, p)
  | Panicked => (Panicked, p)
  end.

(** [load_profile]: the saved selections, in some order. *)
Fixpoint load_selection (c : Config) (m : gmap (list Z) (list Z)) (saved : list (str * str)) : gmap (list Z) (list Z) :=
  match saved with
  | [] => m
  | (group, node) :: saved =>
      load_selection c
        (if existsb (fun g => bool_decide (group_name g = group) && bool_decide (node ∈ group_proxies g)) (proxy_groups c)
         then <[group := node]> m else m) saved
  end.
(** [saved] is what the file holds, once the fake addresses are imported: the
    selections, none when there is no file, or the error. *)
Definition load_profile (c : Config) (p : Policy) (saved : outcome (list (str * str))) : outcome unit * Policy :=
  match saved with
  | Ok saved =>
      (Ok tt, if store_selected c
              then mk_policy (mode p) (rules p) (raw_rules p) (load_selection c (selection p) saved) (delay p)
              else p)
  | Err e => (Err e, p)
  | Panicked => (Panicked, p)
  end.

(** ** Groups that test their members *)

Definition u64_max : Z := 2 ^ 64 - 1.

(** [probe] records the delay when the probe succeeds. *)
Definition record_delay (p : Policy) (name : str) (elapsed : Z) : Policy :=
  mk_policy (mode p) (rules p) (raw_rules p) (selection p) (<[name := elapsed]> (delay p)).

(** What a round keeps of an answer: [best] is replaced when [d] is less. *)
Definition keep_best (best : option (str * Z)) (target : str) (d : Z) : option (str * Z) :=
  if match best with None => true | Some (_, b) => d <? b end then Some (target, d) else best.

(** The end of a round, under one lock of the policy. *)
Definition choose_best (g : Group) (p : Policy) (best : option (str * Z)) : Policy :=
  match best with
  | None => p
  | Some (target, d) =>
      let old := default u64_max (n ← selection p !! group_name g; delay p !! n) in
      if Z.min (d + tolerance g) u64_max <? old
      then mk_policy (mode p) (rules p) (raw_rules p) (<[group_name g := target]> (selection p)) (delay p)
      else p
  end.

(** The probes of a round, one after the other; [results] are the members that are
    still to be probed, with the outcomes.  The task waits at every probe, so that
    the other tasks of the core, which do [others], may change the policy before
    each answer and before the decision at the end. *)
Inductive url_round (others : Policy -> Policy -> Prop) :
    list (str * option Z) -> Policy -> option (str * Z) -> Policy -> option (str * Z) -> Prop :=
  | ur_end p best : url_round others [] p best p best
  | ur_other results p p1 best p' best' : others p p1 -> url_round others results p1 best p' best' -> url_round others results p best p' best'
  | ur_fail target results p best p' best' : url_round others results p best p' best' -> url_round others ((target, None) :: results) p best p' best'
  | ur_answer target d results p best p' best' : url_round others results (record_delay p target d) (keep_best best target d) p' best' ->
      url_round others ((target, Some d) :: results) p best p' best'.

(** The rounds of the task of a group; [probes] are the outcomes of each. *)
Inductive url_test (others : Policy -> Policy -> Prop) (g : Group) : list (list (option Z)) -> Policy -> Policy -> Prop :=
  | ut_end p : url_test others g [] p p
  | ut_round probes rounds p p1 best p2 : length probes = length (group_proxies g) -> url_round others (zip (group_proxies g) probes) p None p1 best ->
      url_test others g rounds (choose_best g p1 best) p2 -> url_test others g (probes :: rounds) p p2.

(** ** Routing *)

(** The characters are visited from the last; [rev] are those before the
    current one, [suffix] those after it. *)
Fixpoint last_field_loop (depth : Z) (rev suffix : str) (expected : str) : option str :=
  match rev with
  | [] => None
  | c :: rest =>
      if c =? 41 then last_field_loop (depth + 1) rest (c :: suffix) expected
      else if c =? 40 then last_field_loop (Z.max 0 (depth - 1)) rest (c :: suffix) expected
      else if (c =? 44) && (depth =? 0) && eq_ignore_ascii_case (trim suffix) expected
      then Some (trim_end (reverse rest))
      else last_field_loop depth rest (c :: suffix) expected
  end.
Definition without_last_rule_field (raw expected : str) : str :=
  default raw (last_field_loop 0 (reverse raw) [] expected).

Definition kind_names : list (str * str) :=
  [(lit "DOMAIN", lit "Domain"); (lit "DOMAIN-SUFFIX", lit "DomainSuffix"); (lit "DOMAIN-KEYWORD", lit "DomainKeyword");
   (lit "DOMAIN-REGEX", lit "DomainRegex"); (lit "IP-CIDR", lit "IPCIDR"); (lit "IP-CIDR6", lit "IPCIDR6");
   (lit "GEOIP", lit "GeoIP"); (lit "GEOSITE", lit "GeoSite"); (lit "RULE-SET", lit "RuleSet");
   (lit "DST-PORT", lit "DstPort"); (lit "NETWORK", lit "Network"); (lit "AND", lit "And"); (lit "OR", lit "Or");
   (lit "NOT", lit "Not")].

Definition describe_rule (raw target : str) : str :=
  let raw := without_last_rule_field raw (lit "no-resolve") in
  let raw := without_last_rule_field raw target in
  match split_once 44 raw with
  | None => if eq_ignore_ascii_case raw (lit "MATCH") then lit "Match" else raw
  | Some (kind, value) =>
      let kind := trim kind in
      let value := trim value in
      let name := default kind (snd <$> List.find (fun kn => bool_decide (fst kn = to_ascii_uppercase kind)) kind_names) in
      name ++ [40] ++ value ++ [41]
  end.

Record RouteDecision := mk_decision { node : str; group : str; rule : str }.

(** The resolver's first address for a host, when it has one. *)
Variable lookup_ip : str -> Z -> option IpAddr.

(** The loop over the rules, with the number of DNS lookups made; [p] is the
    policy when routing began and [now] the one when the proxy is looked up. *)
Fixpoint route_loop (c : Config) (p now : Policy) (t : Target) (network : str) (index : nat) (rs : list Rules.Rule)
    (ip : option IpAddr) (resolved : bool) (lookups : nat) : outcome RouteDecision * nat :=
  match rs with
  | [] => (Ok (mk_decision DIRECT DIRECT (lit "Fallback")), lookups)
  | r :: rs =>
      let hst := to_ascii_lowercase (trim_end_matches 46 (host t)) in
      let matched := evaluate (matcher r) hst ip (port t) network (negb (no_resolve r) && negb resolved) in
      let asks := bool_decide (matched = None) && negb (no_resolve r) && negb resolved in
      let '(ip, resolved, lookups) :=
        if asks then (lookup_ip (host t) (port t), true, S lookups) else (ip, resolved, lookups) in
      if bool_decide (matched = Some true) || (bool_decide (matched = None) && rule_matches r hst ip (port t) network)
      then ((let! n := leaf c now (target r) in
             Ok (mk_decision n (target r)
                   (match raw_rules p !! index with Some raw => describe_rule raw (target r) | None => lit "Match" end))),
            lookups)
      else route_loop c p now t network (S index) rs ip resolved lookups
  end.

Definition route_decision (c : Config) (p now : Policy) (t : Target) (network : str) : outcome RouteDecision * nat :=
  match mode p with
  | Direct => (Ok (mk_decision DIRECT DIRECT (lit "Mode(Direct)")), O)
  | Global => ((let! n := leaf c now GLOBAL in Ok (mk_decision n GLOBAL (lit "Mode(Global)"))), O)
  | FfiAbi.Rule => route_loop c p now t network 0 (rules p) (Target_ip t) (bool_decide (Target_ip t <> None)) 0
  end.
End policy.

(** The tests of [describe_rule]. *)
Example clash_style_rule_descriptions :
  describe_rule (lit "MATCH,DIRECT") DIRECT = lit "Match" /\
  describe_rule (lit "DOMAIN-SUFFIX,chatgpt.com,OpenAI") (lit "OpenAI") = lit "DomainSuffix(chatgpt.com)" /\
  describe_rule (lit "GEOIP,CN,DIRECT,no-resolve") DIRECT = lit "GeoIP(CN)" /\
  describe_rule (lit "DOMAIN-SUFFIX, example.com, Proxy Group") (lit "Proxy Group") = lit "DomainSuffix(example.com)".
Proof. vm_compute. done. Qed.
