(* ===== verification/PolicyFacts.v ===== *)
(** * Policy: groups are acyclic, routing is total and lazy

    The validation of groups ends and rules out cycles; every operation of the
    core keeps the selection inside the groups; so that routing always finds a
    proxy, and asks for DNS at most once and only when a rule needs it. *)

From S2P Require Import Prelude FfiAbi RustStr IpText Target Rules RulesFacts Policy.
Local Open Scope Z_scope.

Section visiting.
Variable groups : gmap (list Z) Group.
Variable names : gset (list Z).

(** ** The search for cycles ends *)

Lemma visit_all_path v path l p : (forall c q, v path c = Some (Ok q) -> q = path) ->
  visit_all v path l = Some (Ok p) -> p = path /\ forall c, c ∈ l -> v path c = Some (Ok path).
Proof.
  intros Hv. induction l as [|c l IH]; simpl; intros E.
  - simplify_eq. split; [done|]. by intros c ?%elem_of_nil.
  - destruct (v path c) as [[q| |]|] eqn:Ec; try done. pose proof (Hv _ _ Ec) as ->.
    destruct (IH E) as [-> Hl]. split; [done|]. intros c' [->|?]%elem_of_cons; auto.
Qed.

Lemma visit_path fuel path name p : visit fuel groups names path name = Some (Ok p) -> p = path.
Proof.
  revert path name p. induction fuel as [|fuel IH]; intros path name p; simpl; [done|].
  destruct (negb _); [done|]. destruct (groups !! name) as [g|]; [|by intros [= <-]].
  destruct (bool_decide (name ∈ path)) eqn:Hp; [done|]. apply bool_decide_eq_false in Hp.
  destruct (visit_all _ _ _) as [[q| |]|] eqn:E; try done. intros [= <-].
  apply visit_all_path in E as [-> _]; [|by intros; eapply IH]. set_solver.
Qed.

Lemma visit_all_total v path l : (forall c q, v path c = Some (Ok q) -> q = path) ->
  (forall c, v path c <> None) -> visit_all v path l <> None.
Proof.
  intros Hp Ht. induction l as [|c l IH]; simpl; [done|].
  destruct (v path c) as [[q| |]|] eqn:Ec; try done; [|by destruct (Ht c)]. by rewrite (Hp _ _ Ec).
Qed.

Lemma visit_total fuel path name : (size (dom groups ∖ path) < fuel)%nat ->
  visit fuel groups names path name <> None.
Proof.
  revert path name. induction fuel as [|fuel IH]; intros path name Hf; [lia|]. simpl.
  destruct (negb _); [done|]. destruct (groups !! name) as [g|] eqn:Eg; [|done].
  destruct (bool_decide (name ∈ path)) eqn:Hp; [done|]. apply bool_decide_eq_false in Hp.
  assert (Ht : visit_all (visit fuel groups names) ({[name]} ∪ path) (group_proxies g) <> None).
  { apply visit_all_total; [intros; by eapply visit_path|]. intros c. apply IH.
    assert (dom groups ∖ ({[name]} ∪ path) ⊂ dom groups ∖ path) as Hs%subset_size; [|lia].
    assert (name ∈ dom groups) by (by apply elem_of_dom). set_solver. }
  by destruct (visit_all _ _ _) as [[| |]|].
Qed.

(** ** What it rules out *)

(** A descent through groups, with the groups it passes. *)
Inductive walk : str -> list str -> Prop :=
  | walk_nil name : walk name []
  | walk_cons name g child l : groups !! name = Some g -> child ∈ group_proxies g -> walk child l ->
      walk name (name :: l).

Lemma visit_walk fuel path name l : visit fuel groups names path name = Some (Ok path) -> walk name l ->
  NoDup l /\ forall x, x ∈ l -> (x ∉ path) /\ x ∈ dom groups.
Proof.
  intros Hv Hw. revert fuel path Hv. induction Hw as [|name g child l Hg Hc Hw IH]; intros fuel path Hv.
  - split; [constructor|]. by intros x ?%elem_of_nil.
  - destruct fuel as [|fuel]; simpl in Hv; [done|]. destruct (negb _) in Hv; [done|]. rewrite Hg in Hv.
    destruct (bool_decide (name ∈ path)) eqn:Hp; [done|]. apply bool_decide_eq_false in Hp.
    destruct (visit_all _ _ _) as [[q| |]|] eqn:E; try done.
    apply visit_all_path in E as [-> Hall]; [|by intros; eapply visit_path].
    destruct (IH _ _ (Hall _ Hc)) as [Hnd Hx]. split.
    + constructor; [|done]. intros Hin. destruct (Hx _ Hin) as [Hn _]. set_solver.
    + intros x [->|Hin]%elem_of_cons; [split; [done | by apply elem_of_dom]|].
      destruct (Hx _ Hin). set_solver.
Qed.

Lemma visit_short fuel name l : visit fuel groups names ∅ name = Some (Ok ∅) -> walk name l ->
  (length l <= size (dom groups))%nat.
Proof.
  intros Hv Hw. destruct (visit_walk _ _ _ _ Hv Hw) as [Hnd Hx].
  rewrite <- (size_list_to_set (C := gset (list Z)) l Hnd). apply subseteq_size. intros x Hin.
  apply elem_of_list_to_set in Hin. by apply Hx.
Qed.

(** Every member of a visited group is a known name. *)
Lemma visit_known fuel path name g child : visit fuel groups names path name = Some (Ok path) ->
  groups !! name = Some g -> child ∈ group_proxies g -> child ∈ names /\ child <> GLOBAL.
Proof.
  destruct fuel as [|fuel]; simpl; intros Hv Hg Hc; [done|]. destruct (negb _) in Hv; [done|]. rewrite Hg in Hv.
  destruct (bool_decide (name ∈ path)); [done|]. destruct (visit_all _ _ _) as [[q| |]|] eqn:E; try done.
  apply visit_all_path in E as [_ Hall]; [|by intros; eapply visit_path]. specialize (Hall _ Hc).
  destruct fuel as [|fuel]; simpl in Hall; [done|]. destruct (negb _) eqn:En in Hall; [done|].
  apply negb_false_iff, andb_true_iff in En as [E1 E2]. apply bool_decide_eq_true in E1.
  apply negb_true_iff, bool_decide_eq_false in E2. done.
Qed.
End visiting.

Section validation.
Context `{RuleLibs}.

(** ** What validation establishes *)

Lemma add_names_OK what names l names' : add_names what names l = Ok names' ->
  NoDup l /\ (forall n, n ∈ l -> n ∉ names) /\ names' = names ∪ list_to_set l.
Proof.
  revert names. induction l as [|n l IH]; intros names E; simpl in E.
  - simplify_eq. split; [constructor|]. split; [by intros n ?%elem_of_nil | set_solver].
  - destruct (bool_decide (n = []) || bool_decide (n ∈ names)) eqn:Eb; [done|].
    apply orb_false_iff in Eb as [_ Hn%bool_decide_eq_false]. apply IH in E as (Hnd & Hd & ->).
    split; [constructor; [|done]; intros Hin; apply Hd in Hin; set_solver|].
    split; [|set_solver]. intros x [->|Hin]%elem_of_cons; [done|]. apply Hd in Hin. set_solver.
Qed.

Lemma check_groups_OK names l names' : check_groups names l = Ok names' ->
  NoDup (group_name <$> l) /\ (forall g, g ∈ l -> (group_name g ∉ names) /\ group_proxies g <> []) /\
  names' = names ∪ list_to_set (group_name <$> l).
Proof.
  revert names. induction l as [|g l IH]; intros names E; cbn [check_groups] in E.
  - simplify_eq. split; [constructor|]. split; [by intros n ?%elem_of_nil | set_solver].
  - destruct (add_names "group" names [group_name g]) as [n1| |] eqn:En; [|done..]. simpl in E.
    apply add_names_OK in En as (_ & Hn & ->). specialize (Hn (group_name g) ltac:(left)).
    destruct (bool_decide (group_proxies g = [])) eqn:Ep; [done|]. apply bool_decide_eq_false in Ep. simpl in E.
    destruct (0 <? interval g); [|done]. simpl in E. apply IH in E as (Hnd & Hd & ->).
    rewrite fmap_cons. split; [|split].
    + constructor; [|done]. intros (g' & Hg' & Hin)%list_elem_of_fmap. apply Hd in Hin. rewrite <- Hg' in Hin. set_solver.
    + intros g' [->|Hin]%elem_of_cons; [done|]. apply Hd in Hin. set_solver.
    + set_solver.
Qed.

Lemma group_map_lookup l name g : NoDup (group_name <$> l) ->
  group_map l !! name = Some g <-> g ∈ l /\ group_name g = name.
Proof.
  intros Hnd. unfold group_map. rewrite <- elem_of_list_to_map.
  - rewrite list_elem_of_fmap. naive_solver.
  - rewrite <- list_fmap_compose. done.
Qed.

Lemma visit_groups_OK groups names l : visit_groups groups names l = Some (Ok tt) ->
  forall g, g ∈ l -> visit (visit_fuel groups) (group_map groups) names ∅ (group_name g) = Some (Ok ∅).
Proof.
  induction l as [|g0 l IH]; cbn [visit_groups]; intros E g Hg; [by apply elem_of_nil in Hg|].
  destruct (visit _ _ _ _ (group_name g0)) as [[q| |]|] eqn:Ev; try done.
  apply elem_of_cons in Hg as [->|Hg]; [|by apply IH]. by rewrite Ev, (visit_path _ _ _ _ _ _ Ev).
Qed.

Lemma group_map_size l : (size (dom (group_map l)) <= length l)%nat.
Proof.
  induction l as [|g l IH].
  - replace (dom (group_map [])) with (∅ : gset (list Z)) by (symmetry; apply dom_empty_L). by rewrite size_empty.
  - unfold group_map in *. rewrite fmap_cons, list_to_map_cons, dom_insert_L.
    rewrite size_union_alt, size_singleton. cbn [length].
    set (d := dom (list_to_map _)) in *. pose proof (subseteq_size (d ∖ {[group_name g]}) d ltac:(set_solver)). lia.
Qed.

(** C15: the recursive search for cyclic groups ends for every configuration:
    the fuel of the model is more than it can use. *)
Theorem validation_terminates c : validate c <> None.
Proof.
  unfold validate. destruct (obind _ _) as [names| |]; [|done..].
  assert (Hv : forall l, visit_groups (proxy_groups c) names l <> None).
  { induction l as [|g l IH]; cbn [visit_groups]; [done|].
    assert (Ht : visit (visit_fuel (proxy_groups c)) (group_map (proxy_groups c)) names ∅ (group_name g) <> None).
    { apply visit_total. rewrite difference_empty_L. pose proof (group_map_size (proxy_groups c)). unfold visit_fuel. lia. }
    by destruct (visit _ _ _ _ _) as [[| |]|]. }
  specialize (Hv (proxy_groups c)). by destruct (visit_groups _ _ _) as [[| |]|].
Qed.

(** What a valid configuration has. *)
Record valid (c : Config) (names : gset (list Z)) : Prop := {
  va_nodup : NoDup (group_name <$> proxy_groups c);
  va_members : forall g, g ∈ proxy_groups c -> group_proxies g <> [];
  va_names : names = {[DIRECT; REJECT; GLOBAL]} ∪ list_to_set (proxies c) ∪ list_to_set (group_name <$> proxy_groups c);
  va_reserved : forall n, n ∈ proxies c \/ n ∈ group_name <$> proxy_groups c -> n <> GLOBAL;
  va_fresh : forall g, g ∈ proxy_groups c -> group_name g ∉ ({[DIRECT; REJECT]} ∪ list_to_set (proxies c) : gset (list Z));
  va_visited : forall g, g ∈ proxy_groups c ->
    visit (visit_fuel (proxy_groups c)) (group_map (proxy_groups c)) names ∅ (group_name g) = Some (Ok ∅);
  va_rules : check_rules c names 0 (config_rules c) = Ok tt
}.

Lemma validate_valid c names : validate c = Some (Ok names) -> valid c names.
Proof.
  unfold validate. intros E.
  destruct (add_names "proxy" _ _) as [n1| |] eqn:En; [|done..]. simpl in E.
  destruct (check_groups n1 _) as [n2| |] eqn:Eg; [|done..].
  destruct (visit_groups _ _ _) as [[[]| |]|] eqn:Ev; try done.
  destruct (check_rules c n2 0 (config_rules c)) as [[]| |] eqn:Er; simplify_eq/=.
  apply add_names_OK in En as (_ & Hp & ->). apply check_groups_OK in Eg as (Hnd & Hg & ->).
  split; try done.
  - intros g Hin. by apply Hg.
  - intros n [Hn|(g & -> & Hin)%list_elem_of_fmap]; [apply Hp in Hn | apply Hg in Hin]; set_solver.
  - intros g Hin. apply Hg in Hin as [Hin _]. set_solver.
  - by apply visit_groups_OK.
Qed.

Lemma check_rules_OK c names i l : check_rules c names i l = Ok tt ->
  forall raw, raw ∈ l -> exists r, Rule_parse raw = Ok r /\ target r ∈ names.
Proof.
  revert i. induction l as [|raw0 l IH]; intros i E raw Hin; [by apply elem_of_nil in Hin|].
  cbn [check_rules] in E. apply obind_Ok in E as (r & Er & E). apply obind_Ok in E as (u & Et & E).
  apply obind_Ok in E as (_ & _ & E). apply elem_of_cons in Hin as [->|Hin]; [|by eapply IH].
  exists r. destruct (Rule_parse raw0) eqn:Ep; simplify_eq/=. split; [done|].
  destruct (bool_decide (target r ∈ names)) eqn:Eb in Et; [|done]. by apply bool_decide_eq_true in Eb.
Qed.

(** ** The invariant of the policy *)

(** Every group has a selected member, and every rule a target that exists. *)
Record policy_ok (c : Config) (names : gset (list Z)) (p : Policy) : Prop := {
  po_groups : dom (selection p) = list_to_set (group_name <$> proxy_groups c);
  po_member : forall g n, g ∈ proxy_groups c -> selection p !! group_name g = Some n -> n ∈ group_proxies g;
  po_rules : forall r, r ∈ rules p -> target r ∈ names;
  po_raw : forall raw, raw ∈ raw_rules p -> exists r, Rule_parse raw = Ok r /\ target r ∈ names
}.

Lemma collect_elem {A B} (f : A -> outcome B) l r y : collect f l = Ok r -> y ∈ r -> exists x, x ∈ l /\ f x = Ok y.
Proof.
  revert r. induction l as [|x l IH]; intros r E Hy; simpl in E; [simplify_eq; by apply elem_of_nil in Hy|].
  apply obind_Ok in E as (z & Ez & E). apply obind_Ok in E as (k & Ek & E). simplify_eq.
  apply elem_of_cons in Hy as [->|Hy]; [exists x; split; [left|done]|].
  destruct (IH _ Ek Hy) as (x' & ? & ?). exists x'. split; [by right|done].
Qed.

Lemma resource_rules_targets res raw rs r : resource_rules res raw = Ok rs -> r ∈ rs ->
  exists s r', s ∈ raw /\ Rule_parse s = Ok r' /\ target r = target r'.
Proof.
  intros E Hr. destruct (collect_elem _ _ _ _ E Hr) as (s & Hs & Es).
  apply obind_Ok in Es as (r' & Ep & Es). apply obind_Ok in Es as (m & _ & Es). simplify_eq. by exists s, r'.
Qed.

(** The targets of rules made from valid texts. *)
Lemma resource_rules_ok (res : Resources) (names : gset (list Z)) (raw : list str) rs :
  (forall s, s ∈ raw -> exists r, Rule_parse s = Ok r /\ target r ∈ names) ->
  resource_rules res raw = Ok rs -> forall r, r ∈ rs -> target r ∈ names.
Proof.
  intros Hraw E r Hr. destruct (resource_rules_targets _ _ _ _ E Hr) as (s & r' & Hs & Ep & ->).
  destruct (Hraw s Hs) as (r'' & E' & Ht). rewrite Ep in E'. by injection E' as ->.
Qed.

Lemma same_group c names g g' : valid c names -> g ∈ proxy_groups c -> g' ∈ proxy_groups c ->
  group_name g = group_name g' -> g = g'.
Proof.
  intros V Hg Hg' E.
  pose proof (proj2 (group_map_lookup _ _ g (va_nodup _ _ V)) (conj Hg eq_refl)) as L.
  pose proof (proj2 (group_map_lookup _ _ g' (va_nodup _ _ V)) (conj Hg' eq_refl)) as L'.
  rewrite E in L. congruence.
Qed.

(** A selection inside the groups stays so when a group selects a member. *)
Lemma insert_selection (c : Config) (names : gset (list Z)) (s : gmap (list Z) (list Z)) (g : Group) (n : str) : valid c names -> g ∈ proxy_groups c -> n ∈ group_proxies g ->
  dom s = list_to_set (group_name <$> proxy_groups c) ->
  (forall g n, g ∈ proxy_groups c -> s !! group_name g = Some n -> n ∈ group_proxies g) ->
  dom (<[group_name g := n]> s) = list_to_set (group_name <$> proxy_groups c) /\
  (forall g' n', g' ∈ proxy_groups c -> <[group_name g := n]> s !! group_name g' = Some n' -> n' ∈ group_proxies g').
Proof.
  intros V Hg Hn Hd Hm. split.
  - rewrite dom_insert_L, Hd. assert (group_name g ∈ group_name <$> proxy_groups c) by (by apply list_elem_of_fmap_2).
    set_solver.
  - intros g' n' Hg' [[E <-]|[Hne E]]%lookup_insert_Some; [|by apply Hm].
    by rewrite <- (same_group _ _ _ _ V Hg Hg' E).
Qed.

Lemma initial_selection_spec (m : gmap (list Z) (list Z)) (l : list Group) : NoDup (group_name <$> l) ->
  dom (initial_selection m l) = dom m ∪ list_to_set (group_name <$> l) /\
  (forall name, name ∉ group_name <$> l -> initial_selection m l !! name = m !! name) /\
  (forall g, g ∈ l -> initial_selection m l !! group_name g = Some (nth 0 (group_proxies g) [])).
Proof.
  revert m. induction l as [|g l IH]; intros m Hnd; cbn [initial_selection].
  - split; [set_solver|]. split; [done|]. by intros g ?%elem_of_nil.
  - rewrite fmap_cons in *. apply NoDup_cons in Hnd as [Hn Hnd].
    destruct (IH (<[group_name g := nth 0 (group_proxies g) []]> m) Hnd) as (Hd & Ho & Hi). split; [|split].
    + rewrite Hd, dom_insert_L. set_solver.
    + intros name Hname. apply not_elem_of_cons in Hname as [Hne Hname]. rewrite Ho by done.
      by rewrite lookup_insert_ne.
    + intros g' [->|Hin]%elem_of_cons; [|by apply Hi]. rewrite Ho by done. by rewrite lookup_insert_eq.
Qed.

Lemma Core_new_ok (c : Config) p : Core_new c = Some (Ok p) -> exists names, valid c names /\ policy_ok c names p.
Proof.
  unfold Core_new. destruct (validate c) as [[names| |]|] eqn:Ev; [|done..]. intros [= E].
  apply obind_Ok in E as (rs & Er & E). injection E as <-. exists names. apply validate_valid in Ev as V. split; [done|].
  destruct (initial_selection_spec ∅ _ (va_nodup _ _ V)) as (Hd & _ & Hi).
  pose proof (check_rules_OK _ _ _ _ (va_rules _ _ V)) as Hr. split; simpl.
  - rewrite Hd. set_solver.
  - intros g n Hg Hn. pose proof (eq_trans (eq_sym Hn) (Hi _ Hg)) as E. injection E as ->. pose proof (va_members _ _ V _ Hg).
    destruct (group_proxies g) as [|x l]; [done|]. left.
  - intros r Hin. destruct (collect_elem _ _ _ _ Er Hin) as (raw & Hraw & E).
    destruct (Hr _ Hraw) as (r' & E' & Ht). rewrite E in E'. by injection E' as ->.
  - exact Hr.
Qed.

(** ** The operations of a running core *)

(** One change of the policy: the calls of the controller, the start of the
    core, the probes of the groups and the decision at the end of a round. *)
Inductive pstep (c : Config) (p : Policy) : Policy -> Prop :=
  | ps_select group name saved : pstep c p (select c p group name saved).2
  | ps_update res m rs r p' : update_policy c p res m rs = Some (r, p') -> pstep c p p'
  | ps_mode m : pstep c p (set_mode p m)
  | ps_prepare loaded configured : pstep c p (prepare_resources p loaded configured).2
  | ps_profile saved : pstep c p (load_profile c p saved).2
  | ps_probe name elapsed : pstep c p (record_delay p name elapsed)
  | ps_choose g target d : g ∈ proxy_groups c -> target ∈ group_proxies g ->
      pstep c p (choose_best g p (Some (target, d))).

(** The policies a core can have. *)
Inductive core_reaches (c : Config) : Policy -> Prop :=
  | cr_new p : Core_new c = Some (Ok p) -> core_reaches c p
  | cr_step p p' : core_reaches c p -> pstep c p p' -> core_reaches c p'.

Lemma with_policy_valid (c : Config) (m : option Mode) (rs : list str) (names : gset (list Z)) : valid (with_policy c m rs) names ->
  forall names', valid c names' -> names' = names.
Proof. intros V names' V'. rewrite (va_names _ _ V), (va_names _ _ V'). done. Qed.

Lemma load_selection_ok (c : Config) (names : gset (list Z)) (saved : list (str * str)) : valid c names ->
  forall s : gmap (list Z) (list Z), dom s = list_to_set (group_name <$> proxy_groups c) ->
  (forall g n, g ∈ proxy_groups c -> s !! group_name g = Some n -> n ∈ group_proxies g) ->
  dom (load_selection c s saved) = list_to_set (group_name <$> proxy_groups c) /\
  (forall g n, g ∈ proxy_groups c -> load_selection c s saved !! group_name g = Some n -> n ∈ group_proxies g).
Proof.
  intros V. induction saved as [|[group node] saved IH]; intros s Hd Hm; cbn [load_selection]; [done|].
  destruct (existsb _ _) eqn:Ex; [|by apply IH]. apply existsb_exists in Ex as (g & Hg & E).
  apply andb_true_iff in E as [E1%bool_decide_eq_true E2%bool_decide_eq_true]. apply list_elem_of_In in Hg. subst group.
  destruct (insert_selection _ _ _ _ _ V Hg E2 Hd Hm). by apply IH.
Qed.

Lemma pstep_ok (c : Config) names p p' : valid c names -> policy_ok c names p -> pstep c p p' -> policy_ok c names p'.
Proof.
  intros V [Hd Hm Hr Hraw] St. destruct St as [group name saved|res m rs r p' E|m|loaded configured|saved|name e|g tg d Hg Ht].
  - unfold select. destruct (List.find _ _) as [g|] eqn:Ef; [|done]. apply find_some in Ef as [Hg Eg%bool_decide_eq_true].
    apply list_elem_of_In in Hg. subst group. destruct (bool_decide (name ∈ _)) eqn:En; [|done].
    apply bool_decide_eq_true in En. destruct (insert_selection _ _ _ _ _ V Hg En Hd Hm). by split.
  - unfold update_policy in E. destruct (validate _) as [[n'| |]|] eqn:Ev; simplify_eq/=; [|done..].
    apply validate_valid in Ev as V'. pose proof (with_policy_valid _ _ _ _ V' _ V) as <-.
    pose proof (check_rules_OK _ _ _ _ (va_rules _ _ V')) as Hnew. cbn [config_rules with_policy] in Hnew.
    destruct (resource_rules res _) as [l| |] eqn:Er; simplify_eq/=; [|done..].
    pose proof (resource_rules_ok _ _ _ _ Hnew Er) as Hl. destruct rs as [rs|], m as [m|]; by split.
  - by split.
  - unfold prepare_resources. destruct (obind _ _) as [rs| |] eqn:E; [|done..].
    apply obind_Ok in E as (resolve & _ & E). apply obind_Ok in E as (rs' & Er & E). apply obind_Ok in E as (u & _ & E).
    injection E as ->. split; try done. by apply (resource_rules_ok _ _ _ _ Hraw Er).
  - unfold load_profile. destruct saved as [saved| |]; [|done..]. cbn [snd]. destruct (store_selected c); [|done].
    destruct (load_selection_ok c names saved V _ Hd Hm). by split.
  - by split.
  - cbn [choose_best]. destruct (Z.ltb _ _); [|done]. destruct (insert_selection _ _ _ _ _ V Hg Ht Hd Hm). by split.
Qed.

Lemma core_reaches_ok (c : Config) p : core_reaches c p -> exists names, valid c names /\ policy_ok c names p.
Proof.
  induction 1 as [p Hp|p p' _ (names & V & Hok) St]; [by apply Core_new_ok|]. exists names. split; [done|].
  by eapply pstep_ok.
Qed.

(** C14: in every policy a core can reach, by any sequence of selections, rule
    updates, mode changes, reloads, restored profiles, probes and rounds of
    group tests, every group has a selected member that is one of its own,
    nothing else has one, and every rule has a target that exists. *)
Theorem selection_invariant (c : Config) p : core_reaches c p ->
  (forall g, g ∈ proxy_groups c -> exists n, selection p !! group_name g = Some n /\ n ∈ group_proxies g) /\
  (forall name n, selection p !! name = Some n -> exists g, g ∈ proxy_groups c /\ group_name g = name) /\
  (forall r, r ∈ rules p -> target r ∈ [DIRECT; REJECT; GLOBAL] ++ proxies c ++ (group_name <$> proxy_groups c)).
Proof.
  intros (names & V & Hok)%core_reaches_ok. split; [|split].
  - intros g Hg. assert (Hin : group_name g ∈ dom (selection p)).
    { rewrite (po_groups _ _ _ Hok). apply elem_of_list_to_set. by apply list_elem_of_fmap_2. }
    apply elem_of_dom in Hin as [n Hn]. exists n. split; [done|]. by apply (po_member _ _ _ Hok).
  - intros name n Hn. assert (Hin : name ∈ dom (selection p)) by (by apply elem_of_dom).
    rewrite (po_groups _ _ _ Hok) in Hin. apply elem_of_list_to_set, list_elem_of_fmap in Hin as (g & -> & Hg). by exists g.
  - intros r Hr. apply (po_rules _ _ _ Hok) in Hr. rewrite (va_names _ _ V) in Hr. set_solver.
Qed.

(** ** Looking up the proxy *)

Section leaf.
Context (c : Config) (names : gset (list Z)) (p : Policy) (V : valid c names) (Hok : policy_ok c names p).

Lemma selected_member (name n : str) : selection p !! name = Some n ->
  exists g, group_map (proxy_groups c) !! name = Some g /\ n ∈ group_proxies g /\ n ∈ names /\ n <> GLOBAL.
Proof.
  intros Hs. assert (Hin : name ∈ dom (selection p)) by (by apply elem_of_dom). rewrite (po_groups _ _ _ Hok) in Hin.
  apply elem_of_list_to_set, list_elem_of_fmap in Hin as (g & -> & Hg). exists g.
  pose proof (proj2 (group_map_lookup _ _ g (va_nodup _ _ V)) (conj Hg eq_refl)) as L.
  pose proof (po_member _ _ _ Hok _ _ Hg Hs) as Hn. split; [done|]. split; [done|].
  by eapply visit_known; [exact (va_visited _ _ V _ Hg) | exact L |].
Qed.

(** The loop gives up only after a descent through as many groups as it makes
    rounds. *)
Lemma leaf_loop_walk n (name : str) : (exists r, leaf_loop n (selection p) name = Ok r /\ selection p !! r = None /\
    (r = name \/ (r ∈ names /\ r <> GLOBAL))) \/
  exists l, length l = n /\ walk (group_map (proxy_groups c)) name l.
Proof.
  revert name. induction n as [|n IH]; intros name; cbn [leaf_loop]; [right; exists []; by split; [|constructor]|].
  destruct (selection p !! name) as [s|] eqn:Es; [|left; exists name; auto].
  destruct (selected_member _ _ Es) as (g & Hg & Hc & Hn & Hgl). destruct (IH s) as [(r & Hr & Hnone & Hk)|(l & Hl & Hw)].
  - left. exists r. split; [done|]. split; [done|]. right. by destruct Hk as [->|].
  - right. exists (name :: l). split; [simpl; lia|]. by econstructor.
Qed.

(** A proxy, or one of the two built-in policies. *)
Definition outbound (n : str) : Prop := n = DIRECT \/ n = REJECT \/ n ∈ proxies c.

Lemma leaf_total (name : str) : name ∈ names -> exists r, leaf c p name = Ok r /\ outbound r.
Proof.
  intros Hname. unfold leaf. set (start := if bool_decide (name = GLOBAL) then global_target c else name).
  assert (Hs : start ∈ names /\ start <> GLOBAL).
  { unfold start. case_bool_decide as Hgl; [|done]. unfold global_target.
    rewrite (va_names _ _ V). pose proof (va_reserved _ _ V) as Hr.
    destruct (proxy_groups c) as [|g gs] eqn:Eg; [destruct (proxies c) as [|q qs] eqn:Ep|].
    - split; [set_solver | done].
    - split; [set_solver | apply Hr; left; left].
    - split; [set_solver | apply Hr; right; left]. }
  destruct (leaf_loop_walk (S (length (proxy_groups c))) start) as [(r & Hr & Hnone & Hk)|(l & Hl & Hw)].
  - exists r. split; [done|]. assert (Hrn : r ∈ names /\ r <> GLOBAL) by (destruct Hk as [->|]; done).
    destruct Hrn as [Hrn Hrg]. apply not_elem_of_dom in Hnone. rewrite (po_groups _ _ _ Hok) in Hnone.
    rewrite (va_names _ _ V) in Hrn. unfold outbound. clear - Hrn Hrg Hnone. set_solver.
  - exfalso. destruct l as [|x l]; [done|]. inversion Hw as [|? g ch ? Hg Hc Hw']; subst.
    apply group_map_lookup in Hg as Hg'; [|exact (va_nodup _ _ V)]. destruct Hg' as [Hin <-].
    pose proof (visit_short _ _ _ _ _ (va_visited _ _ V _ Hin) Hw) as Hlen.
    pose proof (group_map_size (proxy_groups c)). lia.
Qed.
End leaf.

(** ** Routing *)

Section routing.
Variable lookup_ip : str -> Z -> option IpAddr.

Lemma route_loop_total (c : Config) p now t network names (V : valid c names) (Hnow : policy_ok c names now) (rs : list Rules.Rule) :
  (forall r, r ∈ rs -> target r ∈ names) -> forall index ip resolved lookups,
  exists d k, route_loop lookup_ip c p now t network index rs ip resolved lookups = (Ok d, k) /\
    outbound c (node d) /\ (lookups <= k <= lookups + if resolved then 0 else 1)%nat.
Proof.
  induction rs as [|r rs IH]; intros Hr index ip resolved lookups; cbn [route_loop].
  - eexists _, _. split; [reflexivity|]. split; [by left | destruct resolved; lia].
  - set (hst := to_ascii_lowercase _). set (matched := evaluate (matcher r) hst ip (port t) network _). cbv zeta.
    assert (Hdone : forall k : nat, exists d, ((let! n := leaf c now (target r) in
      Ok (mk_decision n (target r) (match raw_rules p !! index with Some raw => describe_rule raw (target r) | None => lit "Match" end))),
      k) = (Ok d, k) /\ outbound c (node d)).
    { intros k. destruct (leaf_total c names now V Hnow (target r) (Hr r ltac:(left))) as (n & -> & Hn).
      eexists. split; [reflexivity | done]. }
    assert (Hrs : forall r, r ∈ rs -> target r ∈ names) by (intros; apply Hr; by right).
    destruct (bool_decide (matched = None) && negb (no_resolve r) && negb resolved) eqn:Ea.
    + apply andb_true_iff in Ea as [_ Er%negb_true_iff]. rewrite Er. destruct (_ || _).
      * destruct (Hdone (S lookups)) as (d & E & Hd). exists d, (S lookups). split; [done|]. split; [done | lia].
      * destruct (IH Hrs (S index) (lookup_ip (host t) (port t)) true (S lookups)) as (d & k & E & Hd & Hk).
        exists d, k. split; [done|]. split; [done | lia].
    + destruct (_ || _).
      * destruct (Hdone lookups) as (d & E & Hd). exists d, lookups. split; [done|]. split; [done | destruct resolved; lia].
      * destruct (IH Hrs (S index) ip resolved lookups) as (d & k & E & Hd & Hk).
        exists d, k. by split.
Qed.

(** Routing decides in every state of the core, with a policy that other calls
    may change while it waits for DNS, and whatever the resolver answers. *)
Lemma routing_decides (c : Config) p now t network : core_reaches c p -> core_reaches c now ->
  exists d k, route_decision lookup_ip c p now t network = (Ok d, k) /\ outbound c (node d) /\ (k <= 1)%nat /\
    (Target_ip t <> None \/ mode p <> FfiAbi.Rule -> k = 0%nat).
Proof.
  intros (names & V & Hp)%core_reaches_ok (names' & V' & Hnow)%core_reaches_ok.
  assert (names' = names) as -> by (by rewrite (va_names _ _ V), (va_names _ _ V')). unfold route_decision.
  destruct (mode p) eqn:Em.
  - destruct (route_loop_total c p now t network names V Hnow (rules p) (po_rules _ _ _ Hp) 0 (Target_ip t)
      (bool_decide (Target_ip t <> None)) 0) as (d & k & E & Hd & Hk).
    exists d, k. split; [done|]. split; [done|]. case_bool_decide; (split; [lia|]); intros [?|?]; (done || lia).
  - destruct (leaf_total c names now V Hnow GLOBAL) as (n & -> & Hn).
    { rewrite (va_names _ _ V). set_solver. }
    eexists _, _. split; [reflexivity|]. split; [done|]. split; [lia | done].
  - eexists _, _. split; [reflexivity|]. split; [by left|]. split; [lia | done].
Qed.

(** The reference: the address is found first, and the first rule that matches
    it decides. *)
Fixpoint first_match (host : str) (ip : option IpAddr) (port : Z) (network : str) (index : nat) (rs : list Rules.Rule) :
    option (nat * Rules.Rule) :=
  match rs with
  | [] => None
  | r :: rs => if rule_matches r host ip port network then Some (index, r) else first_match host ip port network (S index) rs
  end.

Definition eager_decision (c : Config) (p now : Policy) (t : Target) (network : str) : outcome RouteDecision :=
  let ip := match Target_ip t with Some a => Some a | None => lookup_ip (host t) (port t) end in
  match first_match (host t) ip (port t) network 0 (rules p) with
  | Some (index, r) =>
      let! n := leaf c now (target r) in
      Ok (mk_decision n (target r)
            (match raw_rules p !! index with Some raw => describe_rule raw (target r) | None => lit "Match" end))
  | None => Ok (mk_decision DIRECT DIRECT (lit "Fallback"))
  end.

(** One rule of the lazy loop agrees with the eager match. *)
Lemma lazy_rule (r : Rules.Rule) (h : str) (full ip : option IpAddr) (port : Z) (network : str) (resolved : bool) :
  plain (matcher r) = true -> no_resolve r = false -> ip = (if resolved then full else None) ->
  let hst := to_ascii_lowercase (trim_end_matches 46 h) in
  let matched := evaluate (matcher r) hst ip port network (negb (no_resolve r) && negb resolved) in
  let ip' := if bool_decide (matched = None) && negb (no_resolve r) && negb resolved then full else ip in
  (bool_decide (matched = Some true) || (bool_decide (matched = None) && rule_matches r hst ip' port network)) =
  rule_matches r h full port network.
Proof.
  intros Hp Hn Hip hst matched ip'. unfold rule_matches.
  assert (Hh : to_ascii_lowercase (trim_end_matches 46 hst) = hst) by apply normal_host_idem.
  change (to_ascii_lowercase (trim_end_matches 46 h)) with hst. rewrite Hh.
  subst ip' matched. rewrite Hn. cbn [negb andb]. rewrite andb_true_r. destruct resolved; cbn [negb] in *.
  - rewrite Hip. pose proof (evaluate_total (matcher r) hst full port network false (or_intror eq_refl)) as Ht.
    rewrite (bool_decide_eq_false_2 (_ = None)) by done. by rewrite orb_false_r.
  - rewrite Hip. destruct (evaluate (matcher r) hst None port network true) as [v|] eqn:E.
    + rewrite (evaluate_lazy _ _ full _ _ false _ Hp (or_intror eq_refl) E).
      rewrite (bool_decide_eq_false_2 (Some v = None)) by done. by rewrite orb_false_r.
    + rewrite (bool_decide_eq_false_2 (None = Some true)) by done. by rewrite (bool_decide_eq_true_2 (None = None)) by done.
Qed.

Lemma route_loop_eager (c : Config) (p now : Policy) (t : Target) (network : str) (rs : list Rules.Rule) :
  let full := match Target_ip t with Some a => Some a | None => lookup_ip (host t) (port t) end in
  Forall (fun r => plain (matcher r) = true /\ no_resolve r = false) rs ->
  forall index ip (resolved : bool) lookups, ip = (if resolved then full else None) ->
  (resolved = false -> Target_ip t = None) ->
  (route_loop lookup_ip c p now t network index rs ip resolved lookups).1 =
  match first_match (host t) full (port t) network index rs with
  | Some (index, r) =>
      let! n := leaf c now (target r) in
      Ok (mk_decision n (target r)
            (match raw_rules p !! index with Some raw => describe_rule raw (target r) | None => lit "Match" end))
  | None => Ok (mk_decision DIRECT DIRECT (lit "Fallback"))
  end.
Proof.
  intros full. induction 1 as [|r rs [Hp Hn] Hrs IH]; intros index ip resolved lookups Hip Hl; [done|].
  cbn [route_loop first_match]. pose proof (lazy_rule r (host t) full ip (port t) network resolved Hp Hn Hip) as E.
  cbv zeta in E |- *. rewrite <- E. clear E.
  set (hst := to_ascii_lowercase _). set (matched := evaluate (matcher r) hst ip (port t) network _).
  destruct (bool_decide (matched = None) && negb (no_resolve r) && negb resolved) eqn:Ea.
  - apply andb_true_iff in Ea as [_ Er%negb_true_iff]. assert (lookup_ip (host t) (port t) = full) as ->.
    { unfold full. by rewrite (Hl Er). }
    destruct (_ || _); [done|]. by apply IH.
  - destruct (_ || _); [done|]. by apply IH.
Qed.

(** C13: the lazy search, which asks for DNS only when a rule needs the address,
    decides as the search that resolves the host first and then takes the first
    rule that matches: for rules without the no-resolve option, in every state. *)
Theorem lazy_routing_is_eager (c : Config) p now t network : mode p = FfiAbi.Rule ->
  Forall (fun r => plain (matcher r) = true /\ no_resolve r = false) (rules p) ->
  (route_decision lookup_ip c p now t network).1 = eager_decision c p now t network.
Proof.
  intros Hm Hr. unfold route_decision, eager_decision. rewrite Hm.
  apply (route_loop_eager c p now t network (rules p) Hr).
  - by destruct (Target_ip t).
  - by destruct (Target_ip t).
Qed.
End routing.
End validation.
