(* ===== verification/UrlTest.v ===== *)
(** * Groups that test their members

    What a round of probes of a url-test group does to the selection, whatever the
    other tasks of the core do meanwhile: the selected member is the fastest, or
    one whose recorded delay is within the tolerance of it; a member that stops
    answering keeps its last delay. *)

From S2P Require Import Prelude FfiAbi RustStr IpText Target Rules RulesFacts Policy PolicyFacts.
Local Open Scope Z_scope.

Section url_test.
Context `{RuleLibs}.

(** [b] is the least of the answers, or what the round began with. *)
Lemma keep_best_le best target d n b : keep_best best target d = Some (n, b) ->
  (best = Some (n, b) \/ (n, b) = (target, d)) /\ b <= d /\ forall n' b', best = Some (n', b') -> b <= b'.
Proof.
  unfold keep_best. destruct best as [[m e]|]; [destruct (Z.ltb_spec d e)|]; intros [= <- <-];
    (split; [auto|]); (split; [lia|]); intros n' b'; try done; intros [= <- <-]; lia.
Qed.

Lemma keep_best_some best target d : exists n b, keep_best best target d = Some (n, b).
Proof. unfold keep_best. destruct best as [[m e]|]; [destruct (d <? e)|]; eauto. Qed.

(** The best answer of a round. *)
Lemma round_best others results p best p' best' : url_round others results p best p' best' ->
  match best' with
  | None => best = None /\ forall n d, (n, Some d) ∉ results
  | Some (n, d) => (best = Some (n, d) \/ (n, Some d) ∈ results) /\
      (forall m e, (m, Some e) ∈ results \/ best = Some (m, e) -> d <= e)
  end.
Proof.
  induction 1 as [p best|results p p1 best p' best' _ _ IH|target results p best p' best' _ IH|target e results p best p' best' _ IH].
  - destruct best as [[n d]|]; [|split; [done|]; by intros n d ?%elem_of_nil].
    split; [by left|]. intros m e [?%elem_of_nil|[= -> ->]]; [done | lia].
  - exact IH.
  - destruct best' as [[n d]|].
    + destruct IH as [Hin Hle]. split; [destruct Hin; [by left | right; by right]|].
      intros k x [[E|Hk]%elem_of_cons|Hk]; [done| |]; apply (Hle k); auto.
    + destruct IH as [-> Hn]. split; [done|]. intros n d [E|Hin]%elem_of_cons; [done | by apply (Hn n d)].
  - destruct (keep_best_some best target e) as (m & b & Eb). rewrite Eb in IH.
    destruct (keep_best_le _ _ _ _ _ Eb) as (Hb & Hbe & Hbest). destruct best' as [[n d]|]; [|by destruct IH].
    destruct IH as [Hin Hle]. assert (d <= b) by (apply (Hle m); by right). split.
    + destruct Hin as [[= -> ->]|Hin]; [|right; by right]. destruct Hb as [Hb|[= -> ->]]; [by left | right; left].
    + intros k x [[[= -> ->]|Hk]%elem_of_cons|Hk]; [lia | apply (Hle k); by left | specialize (Hbest _ _ Hk); lia].
Qed.

(** The other tasks take the policy through states the core can reach. *)
Lemma round_reaches (c : Config) results p best p' best' : url_round (pstep c) results p best p' best' -> core_reaches c p -> core_reaches c p'.
Proof.
  induction 1 as [p best|results p p1 best p' best' Hs _ IH|target results p best p' best' _ IH|target e results p best p' best' _ IH]; intros Hp.
  - done.
  - apply IH. by eapply cr_step.
  - by apply IH.
  - apply IH. by eapply cr_step; [|apply ps_probe].
Qed.

Lemma zip_member (l : list str) (probes : list (option Z)) n r : (n, r) ∈ zip l probes -> n ∈ l.
Proof. intros Hin. by apply elem_of_zip_l in Hin. Qed.

(** C17: a round of tests of a group leaves it with a good member.  Whatever
    selections, probes, reloads and rounds of other groups come between its probes,
    when a member has answered, the member that is selected after the round is the
    fastest to answer, or the one that was selected before the decision, if its
    recorded delay is at most the least answer plus the tolerance (a member without
    a record counts as 2^64-1); in the latter case it is kept.  When none answers,
    the round decides nothing. *)
Theorem url_test_within_tolerance (c : Config) (g : Group) p p1 best probes :
  core_reaches c p -> g ∈ proxy_groups c -> url_round (pstep c) (zip (group_proxies g) probes) p None p1 best ->
  let p' := choose_best g p1 best in
  core_reaches c p' /\
  ((forall n d, (n, Some d) ∉ zip (group_proxies g) probes) -> p' = p1) /\
  forall m e, (m, Some e) ∈ zip (group_proxies g) probes ->
    exists n b, (exists f, (f, Some b) ∈ zip (group_proxies g) probes) /\ (forall m' e', (m', Some e') ∈ zip (group_proxies g) probes -> b <= e') /\
      selection p' !! group_name g = Some n /\ n ∈ group_proxies g /\
      ((n, Some b) ∈ zip (group_proxies g) probes \/
       selection p1 !! group_name g = Some n /\ default u64_max (delay p1 !! n) <= b + tolerance g) /\
      (forall n0, selection p1 !! group_name g = Some n0 -> default u64_max (delay p1 !! n0) <= Z.min (b + tolerance g) u64_max -> n = n0).
Proof.
  intros Hp Hg Hr p'. pose proof (round_best _ _ _ _ _ _ Hr) as Hb. pose proof (round_reaches _ _ _ _ _ _ Hr Hp) as Hp1.
  assert (Hp' : core_reaches c p').
  { unfold p'. destruct best as [[n d]|]; [|done]. destruct Hb as [[?|Hin] _]; [done|].
    eapply cr_step; [exact Hp1|]. apply ps_choose; [done | by eapply zip_member]. }
  split; [done|]. split.
  { intros Hno. unfold p'. destruct best as [[n d]|]; [|done]. destruct Hb as [[?|Hin] _]; [done|]. by apply Hno in Hin. }
  intros m e Hme. destruct best as [[f b]|]; [|destruct Hb as [_ Hno]; by apply Hno in Hme].
  destruct Hb as [[?|Hin] Hle]; [done|]. destruct (core_reaches_ok c p1 Hp1) as (names & V & Hok).
  assert (Hdom : group_name g ∈ dom (selection p1)).
  { rewrite (po_groups _ _ _ Hok). apply elem_of_list_to_set. by apply list_elem_of_fmap_2. }
  apply elem_of_dom in Hdom as [n0 Hn0]. pose proof (po_member _ _ _ Hok _ _ Hg Hn0) as Hmem.
  assert (Hmin : forall m' e', (m', Some e') ∈ zip (group_proxies g) probes -> b <= e') by (intros; eapply Hle; by left).
  unfold p', choose_best. rewrite Hn0. cbn [mbind option_bind].
  destruct (Z.ltb_spec (Z.min (b + tolerance g) u64_max) (default u64_max (delay p1 !! n0))) as [Hlt|Hge].
  - exists f, b. cbn [selection]. split; [by exists f|]. split; [done|]. split; [by apply lookup_insert_eq|].
    split; [by eapply zip_member|]. split; [by left|]. intros n1 [= <-] Hold. lia.
  - exists n0, b. split; [by exists f|]. split; [done|]. split; [done|]. split; [done|]. split; [right; split; [done | lia]|].
    by intros n1 [= <-] _.
Qed.

(** What a round leaves alone when the others do. *)
Lemma round_keeps others (name n : str) results p best p' best' : url_round others results p best p' best' ->
  (forall q q', others q q' -> selection q' !! name = selection q !! name /\ delay q' !! n = delay q !! n) ->
  (forall d, (n, Some d) ∉ results) -> selection p' !! name = selection p !! name /\ delay p' !! n = delay p !! n.
Proof.
  intros Hr Ho. induction Hr as [p best|results p p1 best p' best' Hs _ IH|target results p best p' best' _ IH|target e results p best p' best' _ IH]; intros Hn.
  - done.
  - destruct (Ho _ _ Hs) as [<- <-]. by apply IH.
  - apply IH. intros d Hin. apply (Hn d). by right.
  - destruct IH as [-> ->]; [intros d Hin; apply (Hn d); by right|]. split; [done|]. cbn [record_delay delay].
    apply lookup_insert_ne. intros ->. apply (Hn e). left.
Qed.

(** A member that does not answer keeps its last delay: while the others are
    not faster than that delay by more than the tolerance, and no other task
    selects in the group or probes the member, the group stays with the member that
    is down, however often it is tested. *)
Theorem url_test_keeps_dead_member others (g : Group) (n : str) (old : Z) (rounds : list (list (option Z))) p p' :
  url_test others g rounds p p' ->
  (forall q q', others q q' -> selection q' !! group_name g = selection q !! group_name g /\ delay q' !! n = delay q !! n) ->
  selection p !! group_name g = Some n -> delay p !! n = Some old -> old <= u64_max ->
  Forall (fun probes => forall d m, (m, Some d) ∈ zip (group_proxies g) probes -> m <> n /\ old <= d + tolerance g) rounds ->
  selection p' !! group_name g = Some n.
Proof.
  intros Ht Ho. induction Ht as [p|probes rounds p p1 best p2 _ Hr _ IH]; intros Hs Hd Hold Hall; [done|].
  apply Forall_cons in Hall as [Hp Hall].
  destruct (round_keeps _ (group_name g) n _ _ _ _ _ Hr Ho) as [Es Ed]; [intros d Hin; by destruct (Hp _ _ Hin)|].
  rewrite Hs in Es. rewrite Hd in Ed.
  assert (Ek : choose_best g p1 best = p1).
  { pose proof (round_best _ _ _ _ _ _ Hr) as Hb. destruct best as [[m d]|]; [|done]. destruct Hb as [[?|Hin] _]; [done|].
    destruct (Hp _ _ Hin) as [_ Hle]. unfold choose_best. rewrite Es. cbn [mbind option_bind]. rewrite Ed.
    change (default u64_max (Some old)) with old. destruct (Z.ltb_spec (Z.min (d + tolerance g) u64_max) old); [lia | done]. }
  rewrite Ek in IH. by apply IH.
Qed.
End url_test.
