(* ===== verification/PolicyExamples.v ===== *)
(** * A configuration of the core

    Two groups, one inside the other, three rules, and the theorems on rules,
    policy and routing at this configuration. *)

From S2P Require Import Prelude FfiAbi RustStr IpText Target Rules RulesFacts Policy PolicyFacts UrlTest.
Local Open Scope Z_scope.

Definition demo_outer : Group := mk_group (lit "Outer") Select [lit "Inner"; lit "node-a"] (lit "http://t.test/") 300 50.
Definition demo_inner : Group := mk_group (lit "Inner") UrlTest [lit "node-a"; lit "node-b"] (lit "http://t.test/") 300 50.
Definition demo_config : Config :=
  mk_config [lit "node-a"; lit "node-b"] [demo_outer; demo_inner]
    [lit "DOMAIN-SUFFIX,example.org,Outer"; lit "AND,((IP-CIDR,1-5),(DST-PORT,443)),Inner"; lit "MATCH,GLOBAL"]
    FfiAbi.Rule ∅ true.

Definition demo_core : Policy :=
  match Core_new demo_config with Some (Ok p) => p | _ => mk_policy FfiAbi.Direct [] [] ∅ ∅ end.

Lemma demo_core_new : Core_new demo_config = Some (Ok demo_core).
Proof.
  assert (E : match Core_new demo_config with Some (Ok _) => true | _ => false end = true) by (vm_compute; reflexivity).
  unfold demo_core. by destruct (Core_new demo_config) as [[p| |]|].
Qed.

(** The core after the member of the outer group is changed, a probe and the end
    of a round of tests. *)
Definition demo_later : Policy :=
  choose_best demo_inner (record_delay (select demo_config demo_core (lit "Outer") (lit "node-a") (Ok tt)).2 (lit "node-b") 30)
    (Some (lit "node-b", 30)).

Lemma demo_later_reached : core_reaches demo_config demo_later.
Proof.
  eapply cr_step; [|apply ps_choose; [right; left | right; left]].
  eapply cr_step; [|apply ps_probe]. eapply cr_step; [|apply ps_select]. apply cr_new, demo_core_new.
Qed.

Definition demo_dns (host : str) (port : Z) : option IpAddr := Some (V4 3).
Definition demo_target (host : string) : Target := mk_target (lit host) 443.
Definition decided (d : outcome RouteDecision * nat) : option (str * str * str * nat) :=
  match d with (Ok d, k) => Some (node d, group d, rule d, k) | _ => None end.

(** A domain decides without DNS; the address decides with one lookup; a later
    selection is followed. *)
Example demo_routes :
  decided (route_decision demo_dns demo_config demo_core demo_core (demo_target "WWW.Example.org.") (lit "tcp")) =
    Some (lit "node-a", lit "Outer", lit "DomainSuffix(example.org)", 0%nat) /\
  decided (route_decision demo_dns demo_config demo_core demo_core (demo_target "other.net") (lit "tcp")) =
    Some (lit "node-a", lit "Inner", lit "And(((IP-CIDR,1-5),(DST-PORT,443)))", 1%nat) /\
  decided (route_decision demo_dns demo_config demo_later demo_later (demo_target "other.net") (lit "tcp")) =
    Some (lit "node-b", lit "Inner", lit "And(((IP-CIDR,1-5),(DST-PORT,443)))", 1%nat).
Proof. vm_compute. done. Qed.

(** A group inside itself, an unknown member and an unknown target are refused. *)
Definition accepted (c : Config) : bool := match validate c with Some (Ok _) => true | _ => false end.
Example demo_validation :
  accepted demo_config = true /\
  accepted (mk_config [] [mk_group (lit "A") Select [lit "B"] [] 1 0;
    mk_group (lit "B") Select [lit "A"] [] 1 0] [] FfiAbi.Rule ∅ true) = false /\
  accepted (mk_config [] [mk_group (lit "A") Select [lit "C"] [] 1 0] [] FfiAbi.Rule ∅ true) = false /\
  accepted (mk_config [] [] [lit "MATCH,A"] FfiAbi.Rule ∅ true) = false.
Proof. vm_compute. done. Qed.

(** ** Witnesses *)

Lemma ip_set_is_union_witness : ipset_match (IpSet_new [(1, 5); (4, 9); (20, 30)] false) (V4 7) = xorb true false.
Proof. exact (ip_set_is_union [(1, 5); (4, 9); (20, 30)] false (V4 7)). Defined.

Definition demo_domains : DomainSet := mk_domains {[lit "a.test"]} {[lit "example.org"]} [lit "ads"] [].
Lemma domain_set_is_union_witness : exists m,
  evaluate m (lit "www.example.org") None 443 (lit "tcp") false = Some true /\
  ((exists d, d ∈ exact demo_domains /\ m = Domain d) \/ (exists d, d ∈ suffix demo_domains /\ m = Suffix d) \/
   (exists k, k ∈ keywords demo_domains /\ m = Keyword k) \/ (exists r, r ∈ regex demo_domains /\ m = MRegex r)).
Proof. apply (domain_set_is_union demo_domains (lit "www.example.org") 443 (lit "tcp")). vm_compute. reflexivity. Defined.

Definition demo_rule_text : str := lit "AND,((IP-CIDR,1-5),(DST-PORT,443)),Inner".
Definition demo_rule : Rules.Rule := match Rule_parse demo_rule_text with Ok r => r | _ => mk_rule All [] false end.
Lemma demo_rule_parsed : Rule_parse demo_rule_text = Ok demo_rule.
Proof.
  assert (E : match Rule_parse demo_rule_text with Ok _ => true | _ => false end = true) by (vm_compute; reflexivity).
  unfold demo_rule. by destruct (Rule_parse demo_rule_text).
Qed.

Lemma parsed_rules_bounded_witness : (height (matcher demo_rule) <= 64)%nat.
Proof. exact (parsed_rules_bounded demo_rule_text demo_rule demo_rule_parsed). Defined.

Lemma selection_invariant_witness :
  exists n, selection demo_later !! group_name demo_inner = Some n /\ n ∈ group_proxies demo_inner.
Proof. exact (proj1 (selection_invariant demo_config demo_later demo_later_reached) demo_inner ltac:(right; left)). Defined.

Lemma demo_plain : Forall (fun r => plain (matcher r) = true /\ no_resolve r = false) (rules demo_core).
Proof.
  assert (E : forallb (fun r => plain (matcher r) && negb (no_resolve r)) (rules demo_core) = true) by (vm_compute; reflexivity).
  apply Forall_forall. intros r Hr. rewrite forallb_forall in E. apply list_elem_of_In, E, andb_true_iff in Hr as [? ?%negb_true_iff].
  done.
Qed.

Lemma lazy_routing_is_eager_witness :
  (route_decision demo_dns demo_config demo_core demo_later (demo_target "other.net") (lit "tcp")).1 =
  eager_decision demo_dns demo_config demo_core demo_later (demo_target "other.net") (lit "tcp").
Proof.
  exact (lazy_routing_is_eager demo_dns demo_config demo_core demo_later (demo_target "other.net") (lit "tcp")
           ltac:(vm_compute; reflexivity) demo_plain).
Defined.

(** A round in which another task selects a member and probes it before the second
    answer. *)
Definition demo_round : Policy :=
  record_delay (record_delay (select demo_config (record_delay demo_core (lit "node-a") 200) (lit "Inner") (lit "node-b") (Ok tt)).2
    (lit "node-b") 90) (lit "node-b") 40.

Lemma demo_round_run : url_round (pstep demo_config) (zip (group_proxies demo_inner) [Some 200; Some 40]) demo_core None
  demo_round (Some (lit "node-b", 40)).
Proof.
  apply ur_answer. eapply ur_other; [apply (ps_select _ _ (lit "Inner") (lit "node-b") (Ok tt))|].
  eapply ur_other; [apply (ps_probe _ _ (lit "node-b") 90)|]. apply ur_answer. apply ur_end.
Qed.

Lemma url_test_within_tolerance_witness : exists n b,
  selection (choose_best demo_inner demo_round (Some (lit "node-b", 40))) !! group_name demo_inner = Some n /\
  n ∈ group_proxies demo_inner /\ b <= 40.
Proof.
  destruct (url_test_within_tolerance demo_config demo_inner demo_core demo_round (Some (lit "node-b", 40)) [Some 200; Some 40]
    (cr_new _ _ demo_core_new) ltac:(right; left) demo_round_run) as (_ & _ & Hm).
  destruct (Hm (lit "node-b") 40 ltac:(right; left)) as (n & b & _ & Hle & Hs & Hn & _). exists n, b.
  split; [exact Hs|]. split; [exact Hn|]. apply (Hle (lit "node-b")). right. left.
Defined.

(** The selected node is down and the other one answers in 60 ms. *)
Lemma url_test_keeps_dead_member_witness :
  selection (record_delay (record_delay (record_delay demo_core (lit "node-a") 20) (lit "node-b") 60) (lit "node-b") 60)
    !! group_name demo_inner = Some (lit "node-a").
Proof.
  apply (url_test_keeps_dead_member (fun _ _ => False) demo_inner (lit "node-a") 20 [[None; Some 60]; [None; Some 60]]
    (record_delay demo_core (lit "node-a") 20)).
  - eapply ut_round; [done | apply ur_fail, ur_answer, ur_end|]. eapply ut_round; [done | apply ur_fail, ur_answer, ur_end|].
    apply ut_end.
  - done.
  - vm_compute. reflexivity.
  - vm_compute. reflexivity.
  - vm_compute. discriminate.
  - apply Forall_cons; split; [|apply Forall_cons; split; [|by apply Forall_nil]]; intros d m Hin; (apply elem_of_cons in Hin as [E|Hin]; [discriminate E|]);
      (apply elem_of_cons in Hin as [E|Hin]; [injection E as -> ->; split; [discriminate | vm_compute; discriminate]|]);
      by apply elem_of_nil in Hin.
Defined.
