(* ===== verification/FfiPolicy.v ===== *)
(** * The C interface over the policy of the core

    The core of Policy.v behind the handles of FfiHost.v: an instance of
    [CoreOps] whose state is the configuration, the policy and the routing data
    of a core.  Its tasks are those of crates/core that change them: the start
    of the core and its periodic reloads, the group tests and the requests of
    the HTTP controller (api.rs).  A session on a configuration is at the end. *)

From S2P Require Import Prelude FfiAbi FfiHost FfiStep FfiFacts FfiLifecycle FfiCore FfiRun RustStr IpText Target Rules Policy PolicyFacts PolicyExamples.
Local Open Scope Z_scope.

Section core.
Context `{RuleLibs}.

Record MetaCore := mk_core { mc_config : Policy.Config; mc_policy : Policy.Policy; mc_resources : Resources }.

Definition set_policy (c : MetaCore) (p : Policy.Policy) : MetaCore := mk_core (mc_config c) p (mc_resources c).

(** Error texts cross the interface as bytes. *)
Definition in_bytes {A} (o : outcome A) : outcome A := match o with Err e => Err (utf8 e) | o => o end.

Definition core_new (c : Policy.Config) : outcome MetaCore :=
  match Policy.Core_new c with
  | Some o => in_bytes (let! p := o in Ok (mk_core c p ∅))
  | None => Panicked
  end.

Definition update (c : MetaCore) (mode : option Mode) (rules : option (list str)) : outcome unit * MetaCore :=
  match Policy.update_policy (mc_config c) (mc_policy c) (mc_resources c) mode rules with
  | Some (o, p) => (in_bytes o, set_policy c p)
  | None => (Panicked, c)
  end.

Inductive meta_task :=
  | TaskSelect (group node : str) (saved : outcome unit)
  | TaskUpdate (mode : option Mode) (rules : option (list str))
  | TaskReload (loaded : outcome Resources) (configured : outcome unit)
  | TaskProfile (saved : outcome (list (str * str)))
  | TaskProbe (name : str) (elapsed : Z)
  | TaskRound (group member : nat) (delay : Z).

Definition run_task (c : MetaCore) (x : meta_task) : MetaCore :=
  match x with
  | TaskSelect group node saved => set_policy c (Policy.select (mc_config c) (mc_policy c) group node saved).2
  | TaskUpdate mode rules => (update c mode rules).2
  | TaskReload loaded configured =>
      let '(o, p) := Policy.prepare_resources (mc_policy c) loaded configured in
      mk_core (mc_config c) p (match o, loaded with Ok _, Ok next => next | _, _ => mc_resources c end)
  | TaskProfile saved => set_policy c (Policy.load_profile (mc_config c) (mc_policy c) saved).2
  | TaskProbe name elapsed => set_policy c (Policy.record_delay (mc_policy c) name elapsed)
  | TaskRound group member delay =>
      match (g ← proxy_groups (mc_config c) !! group; target ← group_proxies g !! member; Some (g, target)) with
      | Some (g, target) =>
          if bool_decide (group_kind g = UrlTest)
          then set_policy c (Policy.choose_best g (mc_policy c) (Some (target, delay))) else c
      | None => c
      end
  end.

(** The crates serde_json and serde_yaml, and the serialisation of a snapshot. *)
Variable parse : list Z -> outcome Policy.Config.
Variable tun : Policy.Config -> bool.
Variable snapshot : MetaCore -> bool -> outcome (list Z).
Variable from_slice : list Z -> outcome json.
Variable to_mode : json -> outcome Mode.
Variable to_rules : json -> outcome (list (list Z)).

#[export] Instance meta_core : CoreOps := {
  FfiHost.Config := Policy.Config;
  FfiHost.Core := MetaCore;
  Config_parse := parse;
  tun_enable := tun;
  FfiHost.Core_new := core_new;
  core_select c saved group node :=
    let '(o, p) := Policy.select (mc_config c) (mc_policy c) (chars group) (chars node) saved in (o, set_policy c p);
  core_update_policy c mode rules := update c mode (fmap (M := list) chars <$> rules);
  core_close_connections c := c;
  core_network_changed c := c;
  core_task := meta_task;
  core_run := run_task;
  core_snapshot := snapshot;
  json_from_slice := from_slice;
  mode_from_value := to_mode;
  rules_from_value := to_rules
}.

(** ** The interface keeps the invariant of the policy *)

Definition core_good (c : MetaCore) : Prop := core_reaches (mc_config c) (mc_policy c).

(** The configuration stays, and the policy makes a step of its own. *)
Definition core_step (c c' : MetaCore) : Prop :=
  mc_config c' = mc_config c /\
  (mc_policy c' = mc_policy c \/ pstep (mc_config c) (mc_policy c) (mc_policy c')).

Lemma update_core_step c mode rules : core_step c (update c mode rules).2.
Proof.
  unfold update, core_step. destruct (Policy.update_policy _ _ _ _ _) as [[o p]|] eqn:E; [|auto]. simpl.
  split; [done|]. right. by eapply ps_update.
Qed.

Lemma run_task_core_step c x : core_step c (run_task c x).
Proof.
  destruct x as [group node saved|mode rules|loaded configured|saved|name elapsed|group member d]; cbn [run_task].
  - split; [done|]. right. apply ps_select.
  - apply update_core_step.
  - pose proof (ps_prepare (mc_config c) (mc_policy c) loaded configured) as Hp.
    destruct (Policy.prepare_resources _ _ _) as [o p]. split; [done|]. right. exact Hp.
  - split; [done|]. right. apply ps_profile.
  - split; [done|]. right. apply ps_probe.
  - destruct (proxy_groups (mc_config c) !! group) as [g|] eqn:Eg; [|by split; auto].
    cbn [mbind option_bind]. destruct (group_proxies g !! member) as [tg|] eqn:Et; [|by split; auto].
    cbn [mbind option_bind]. case_bool_decide; [|by split; auto]. split; [done|]. right.
    apply ps_choose; by eapply list_elem_of_lookup_2.
Qed.

Lemma core_action_step (c c' : MetaCore) : @core_action meta_core c c' -> core_step c c'.
Proof.
  intros [d [sys group node|mode rules|]| |x]; try (by split; auto).
  - cbn [core_select meta_core].
    pose proof (ps_select (mc_config c) (mc_policy c) (chars group) (chars node) sys) as Hp.
    destruct (Policy.select _ _ _ _ _) as [o p]. split; [done|]. right. exact Hp.
  - apply update_core_step.
  - apply run_task_core_step.
Qed.

#[export] Instance core_good_laws : CoreLaws core_good.
Proof.
  split.
  - intros config c E. cbn [FfiHost.Core_new meta_core] in E. unfold core_new in E.
    destruct (Policy.Core_new config) as [[p| |]|] eqn:En; try done. simpl in E. injection E as <-. by apply cr_new.
  - intros c c' Ha Hc. destruct (core_action_step _ _ Ha) as [Ec Hp]. unfold core_good in *. rewrite Ec.
    destruct Hp as [->|Hp]; [done | by eapply cr_step].
Qed.

Lemma actions_config (c c' : MetaCore) : rtc core_action c c' -> mc_config c' = mc_config c.
Proof. induction 1 as [|c c1 c' Ha _ IH]; [done|]. rewrite IH. by destruct (core_action_step _ _ Ha). Qed.

(** C12: routing decides in every state that hosts can bring the library to,
    whatever they call, on any threads, and whatever the tasks of the core do:
    for a connection that reads the policy of a handle in one state and looks up
    its proxy in a later one, the result is a proxy of the configuration of the
    handle, DIRECT or REJECT, and never the error for a cycle of groups; at most
    one DNS lookup is made, and none for a literal address or in the modes that
    use no rules. *)
Theorem abi_routing_total android lookup_ip tr w tr' w' id h t network :
  run android initial tr w -> objects w !! id = Some h -> run android w tr' w' ->
  exists h' d k, objects w' !! id = Some h' /\
    route_decision lookup_ip (mc_config (core h)) (mc_policy (core h)) (mc_policy (core h')) t network = (Ok d, k) /\
    outbound (mc_config (core h)) (node d) /\ (k <= 1)%nat /\
    (Target_ip t <> None \/ mode (mc_policy (core h)) <> FfiAbi.Rule -> k = 0%nat).
Proof.
  intros Hr Hh Hr'. pose proof (reachable_wf _ _ _ Hr) as Hw.
  destruct (run_core _ _ _ _ _ _ Hr' Hw Hh) as (h' & Hh' & Ha).
  pose proof (reachable_cores core_good _ _ _ _ _ Hr Hh) as Hc.
  pose proof (reachable_cores core_good _ _ _ _ _ (run_app _ _ _ _ _ _ Hr Hr') Hh') as Hc'.
  unfold core_good in Hc'. rewrite (actions_config _ _ Ha) in Hc'.
  destruct (routing_decides lookup_ip _ _ _ t network Hc Hc') as (d & k & E & Hd & Hk & Hz). by exists h', d, k.
Qed.
End core.

(** ** Routing behind the C interface, on a configuration

    A host creates a core, selects a member of a group through the interface
    and is refused a name that is no member; routing follows. *)

#[local] Instance example_core : CoreOps :=
  meta_core (fun _ => Ok demo_config) (fun _ => false) (fun _ _ => Ok []) (fun _ => Ok JNull)
    (fun _ => Err (text "unknown variant")) (fun _ => Err (text "invalid type")).

Definition bytes (s : string) : in_buffer := mk_in (Some (text s)) (len (text s)).
Definition create_and_select : list action :=
  [ACall 1 (Ok tt) (meta_create_v1 (bytes "config") None (Some 0));
   ACall 1 (Ok tt) (meta_select_v1 1 (bytes "Outer") (bytes "node-a"))].
Definition refused_select : list action :=
  [ACall 2 (Ok tt) (meta_select_v1 1 (bytes "Outer") (bytes "node-b"));
   ACore 1 (TaskRound 1 1 30)].

Definition after (w : world) (l : list action) : list event * world := default ([], w) (play false w l).
Definition selected : world := snd (after initial create_and_select).
Definition later : world := snd (after selected refused_select).

Lemma after_play w l : bool_decide (is_Some (play false w l)) = true -> run false w (fst (after w l)) (snd (after w l)).
Proof.
  unfold after. intros [[tr w'] E]%bool_decide_eq_true. rewrite E. by apply play_run with l.
Qed.

Lemma selected_run : run false initial (fst (after initial create_and_select)) selected.
Proof. apply after_play. vm_compute. reflexivity. Qed.
Lemma later_run : run false selected (fst (after selected refused_select)) later.
Proof. apply after_play. vm_compute. reflexivity. Qed.

(** The statuses of the calls, and where a connection is sent before and after. *)
Definition statuses (l : list event) : list Z := omap (fun e => match e with Return _ _ s _ => Some s | _ => None end) l.
Definition sent (w w' : world) (host : string) : option (str * str * str * nat) :=
  h ← objects w !! 1; h' ← objects w' !! 1;
  decided (route_decision demo_dns (mc_config (core h)) (mc_policy (core h)) (mc_policy (core h')) (demo_target host) (lit "tcp")).
Example selected_through_the_interface :
  statuses (fst (after initial create_and_select)) = [META_OK; META_OK] /\
  statuses (fst (after selected refused_select)) = [META_ERROR] /\
  sent selected selected "other.net" = Some (lit "node-a", lit "Inner", lit "And(((IP-CIDR,1-5),(DST-PORT,443)))", 1%nat) /\
  sent selected later "other.net" = Some (lit "node-b", lit "Inner", lit "And(((IP-CIDR,1-5),(DST-PORT,443)))", 1%nat).
Proof. vm_compute. done. Qed.

Definition selected_handle : handle :=
  default (mk_handle (mk_core demo_config demo_core ∅) false false false false false false [] Selecting false false false false
             [] [] None []) (objects selected !! 1).
Lemma selected_lookup : objects selected !! 1 = Some selected_handle.
Proof.
  assert (E : bool_decide (is_Some (objects selected !! 1)) = true) by (vm_compute; reflexivity).
  apply bool_decide_eq_true in E as [h E]. unfold selected_handle. by rewrite E.
Qed.

Lemma abi_routing_total_witness : exists h' d k, objects later !! 1 = Some h' /\
  route_decision demo_dns (mc_config (core selected_handle)) (mc_policy (core selected_handle)) (mc_policy (core h'))
    (demo_target "other.net") (lit "tcp") = (Ok d, k) /\
  outbound (mc_config (core selected_handle)) (node d) /\ (k <= 1)%nat /\
  (Target_ip (demo_target "other.net") <> None \/ mode (mc_policy (core selected_handle)) <> FfiAbi.Rule -> k = 0%nat).
Proof.
  exact (abi_routing_total _ _ _ _ _ _ false demo_dns _ selected _ later 1 selected_handle (demo_target "other.net") (lit "tcp")
           selected_run selected_lookup later_run).
Defined.
