(* ===== verification/Ipv6Frag.v ===== *)
(** * IPv6 fragments

    crates/core/src/packet_ipv6.rs: the fragments of the packets that the stack
    writes to the TUN device, and the queue that puts fragments read from it
    together again.  The crate smoltcp (the fields of headers, the set of ranges
    received) is the class [Smoltcp], what its documentation and RFC 8200 say
    about it the class [SmoltcpLaws]. *)

From S2P Require Import Prelude FfiAbi.
Local Open Scope Z_scope.

(** ** What the code uses of smoltcp *)

Class Smoltcp := {
  (** [Ipv6Packet]: [new_checked], and the fields. *)
  ip6_checked : list Z -> bool;
  ip6_payload_len : list Z -> Z;
  ip6_next_header : list Z -> Z;
  ip6_src_addr : list Z -> list Z;
  ip6_dst_addr : list Z -> list Z;
  ip6_payload : list Z -> list Z;
  ip6_set_payload_len : Z -> list Z -> list Z;
  ip6_set_next_header : Z -> list Z -> list Z;
  (** [Ipv6ExtHeader]. *)
  ext_checked : list Z -> bool;
  ext_next_header : list Z -> Z;
  ext_header_len : list Z -> Z;
  (** [Ipv6FragmentHeader], and [Ipv6FragmentRepr::emit] to its six bytes. *)
  frag_checked : list Z -> bool;
  frag_offset : list Z -> Z;
  frag_more : list Z -> bool;
  frag_ident : list Z -> Z;
  frag_emit : Z -> bool -> Z -> list Z;
  (** [Assembler]: [new], [add], [iter_data(0)], [peek_front]. *)
  Assembler : Type;
  asm_new : Assembler;
  asm_add : Assembler -> nat -> nat -> option Assembler;
  asm_data : Assembler -> list (nat * nat);
  asm_front : Assembler -> nat
}.

(** A byte is in one of the ranges received. *)
Definition covers `{Smoltcp} (a : Assembler) (x : nat) : Prop := exists r, In r (asm_data a) /\ (r.1 <= x < r.2)%nat.

(** The fields are those of RFC 8200.  An assembler is a set of ranges, at most
    [asm_max] of them; a new range is refused only when it has as many. *)
Class SmoltcpLaws `{Smoltcp} := {
  ip6_checked_spec : forall b, ip6_checked b = (40 <=? len b) && (40 + ip6_payload_len b <=? len b);
  ip6_payload_len_spec : forall b, (40 <= length b)%nat -> ip6_payload_len b = be_decode (take 2 (drop 4 b));
  ip6_next_header_spec : forall b, (40 <= length b)%nat -> ip6_next_header b = nth 6 b 0;
  ip6_src_addr_spec : forall b, (40 <= length b)%nat -> ip6_src_addr b = take 16 (drop 8 b);
  ip6_dst_addr_spec : forall b, (40 <= length b)%nat -> ip6_dst_addr b = take 16 (drop 24 b);
  ip6_payload_spec : forall b, ip6_checked b = true -> ip6_payload b = take (Z.to_nat (ip6_payload_len b)) (drop 40 b);
  ip6_set_payload_len_spec : forall n b, (40 <= length b)%nat -> ip6_set_payload_len n b = mem_write b 4 (be_encode 2 n);
  ip6_set_next_header_spec : forall n b, (40 <= length b)%nat -> ip6_set_next_header n b = mem_write b 6 [n];
  frag_checked_spec : forall h, frag_checked h = (6 <=? len h);
  frag_emit_length : forall o m i, length (frag_emit o m i) = 6%nat;
  frag_emit_offset : forall o m i, 0 <= o < 2 ^ 13 -> frag_offset (frag_emit o m i) = o;
  frag_emit_more : forall o m i, 0 <= o < 2 ^ 13 -> frag_more (frag_emit o m i) = m;
  frag_emit_ident : forall o m i, 0 <= o < 2 ^ 13 -> 0 <= i < 2 ^ 32 -> frag_ident (frag_emit o m i) = i;
  ext_header_len_nonneg : forall h, 0 <= ext_header_len h;
  asm_max : nat;
  asm_new_data : asm_data asm_new = [];
  asm_data_ranges : forall a r, In r (asm_data a) -> (r.1 < r.2)%nat;
  asm_add_covers : forall a s n a', asm_add a s n = Some a' -> (0 < n)%nat ->
    forall x, covers a' x <-> covers a x \/ (s <= x < s + n)%nat;
  asm_add_ranges : forall a s n a', asm_add a s n = Some a' -> (length (asm_data a') <= S (length (asm_data a)))%nat;
  asm_add_ok : forall a s n, (length (asm_data a) < asm_max)%nat -> is_Some (asm_add a s n);
  asm_front_covered : forall a x, (x < asm_front a)%nat -> covers a x;
  asm_front_end : forall a, ~ covers a (asm_front a)
}.

(** ** Packets *)

Definition HopByHop : Z := 0.
Definition Tcp : Z := 6.
Definition Udp : Z := 17.
Definition Ipv6Route : Z := 43.
Definition Ipv6Frag : Z := 44.
Definition Icmpv6 : Z := 58.
Definition Ipv6Opts : Z := 60.

Definition MAX_PACKETS : nat := 64.
Definition MAX_PACKET : nat := Z.to_nat 65535.
(** In nanoseconds. *)
Definition LIFETIME : Z := 30 * 10 ^ 9.

(** [bytes.get(i..j)]. *)
Definition get_range (b : list Z) (i j : nat) : option (list Z) :=
  if (i <=? j)%nat && (j <=? length b)%nat then Some (take (j - i) (drop i b)) else None.

(** [Key]: source, destination, identifier. *)
Abbreviation key := (list Z * list Z * Z)%type.

Section code.
Context `{Smoltcp}.

(** The loop over the extension headers: the protocol after them, where its
    header is and where the protocol was announced. *)
Fixpoint ext_chain (rounds : nat) (b : list Z) (protocol : Z) (offset previous : nat) : option (Z * nat * nat) :=
  match rounds with
  | O => Some (protocol, offset, previous)
  | S rounds =>
      if (protocol =? HopByHop) || (protocol =? Ipv6Opts) || (protocol =? Ipv6Route) then
        if (offset <=? length b)%nat && ext_checked (drop offset b) then
          ext_chain rounds b (ext_next_header (drop offset b)) (offset + Z.to_nat ((ext_header_len (drop offset b) + 1) * 8)) offset
        else None
      else Some (protocol, offset, previous)
  end.

(** What [accept] reads off a fragment: [bytes[..offset]], the fields of the
    headers, the payload. *)
Record fragment_of := mk_frag {
  f_key : key; f_prefix : list Z; f_previous : nat; f_next : Z; f_start : nat; f_more : bool; f_payload : list Z
}.
Definition f_end (f : fragment_of) : nat := f_start f + length (f_payload f).

Inductive parsed := Dropped | Whole (b : list Z) | Fragment (f : fragment_of).

(** The first part of [accept], which does not look at the queue. *)
Definition parse_packet (bytes : list Z) : parsed :=
  match bytes with
  | [] => Dropped
  | b0 :: _ =>
      if negb (Z.shiftr b0 4 =? 6) then Whole bytes
      else if negb (ip6_checked bytes) then Dropped
      else match get_range bytes 0 (40 + Z.to_nat (ip6_payload_len bytes)) with
      | None => Dropped
      | Some b =>
          match ext_chain 8 b (ip6_next_header bytes) 40 6 with
          | None => Dropped
          | Some (protocol, offset, previous) =>
              if negb (protocol =? Ipv6Frag) then Whole b
              else match get_range b (offset + 2) (offset + 8), get_range b (offset + 8) (length b) with
              | Some h, Some payload =>
                  if negb (frag_checked h) then Dropped
                  else if nth offset b 0 =? Ipv6Frag then Dropped
                  else Fragment (mk_frag (ip6_src_addr bytes, ip6_dst_addr bytes, frag_ident h) (take offset b) previous (nth offset b 0)
                         (Z.to_nat (frag_offset h * 8)) (frag_more h) payload)
              | _, _ => Dropped
              end
          end
      end
  end.

(** [prefix[previous] = next], the payload behind it, and its length. *)
Definition rebuild (prefix : list Z) (previous : nat) (next : Z) (payload : list Z) : outcome (list Z) :=
  if (previous <? length prefix)%nat then
    let result := <[previous := next]> prefix ++ payload in
    if (40 <=? length result)%nat then Ok (ip6_set_payload_len ((len result - 40) mod 2 ^ 16) result) else Panicked
  else Panicked.

(** ** The queue *)

(** [Reassembly] is a map of keys to assemblies. *)
Record Assembly := mk_assembly {
  created : Z; prefix : list Z; previous : nat; next : Z; asm_bytes : list Z; received : Assembler; total : option nat; rejected : bool
}.

(** [duration_since] is zero for a later instant. *)
Definition alive (now : Z) (v : Assembly) : bool := Z.max 0 (now - created v) <? LIFETIME.
Definition expire (now : Z) (pending : gmap key Assembly) : gmap key Assembly := filter (fun kv => alive now kv.2 = true) pending.

Definition assembly_new (now : Z) (f : fragment_of) : Assembly :=
  mk_assembly now (f_prefix f) (f_previous f) (f_next f) (replicate (MAX_PACKET - length (f_prefix f)) 0) asm_new None false.

Definition invalid (v : Assembly) (f : fragment_of) : bool :=
  bool_decide (f_payload f = [])
  || f_more f && negb (length (f_payload f) mod 8 =? 0)%nat
  || (length (asm_bytes v) <? f_end f)%nat
  || negb (length (prefix v) =? length (f_prefix f))%nat
  || negb (previous v =? f_previous f)%nat
  || negb (next v =? f_next f)
  || match total v with
     | Some t => (t <? f_end f)%nat || negb (f_more f) && negb (f_end f =? t)%nat || f_more f && (t <=? f_end f)%nat
     | None => false
     end
  || negb (f_more f) && existsb (fun r => f_end f <? r.2)%nat (asm_data (received v))
  || existsb (fun r => (f_start f <? r.2)%nat && (r.1 <? f_end f)%nat) (asm_data (received v)).

Definition reject (v : Assembly) : Assembly :=
  mk_assembly (created v) (prefix v) (previous v) (next v) [] (received v) (total v) true.

(** Copying a valid fragment into the assembly. *)
Definition fill (v : Assembly) (f : fragment_of) (a : Assembler) : Assembly :=
  mk_assembly (created v) (if (f_start f =? 0)%nat then f_prefix f else prefix v) (previous v) (next v)
    (mem_write (asm_bytes v) (f_start f) (f_payload f)) a (if f_more f then total v else Some (f_end f)) false.

(** [copy_from_slice] panics when the lengths differ, slices when they are too
    short. *)
Definition fill_panics (v : Assembly) (f : fragment_of) : bool :=
  (f_start f =? 0)%nat && negb (length (prefix v) =? length (f_prefix f))%nat || (length (asm_bytes v) <? f_end f)%nat.

(** The assembly of a fragment, made when there is none and room for it. *)
Definition entry (pending : gmap key Assembly) (f : fragment_of) (now : Z) : option Assembly :=
  match pending !! f_key f with
  | Some v => Some v
  | None => if (base.size pending <? MAX_PACKETS)%nat && (length (f_prefix f) <? MAX_PACKET)%nat then Some (assembly_new now f) else None
  end.

(** Adding a fragment to its assembly [v]. *)
Definition put (pending : gmap key Assembly) (v : Assembly) (f : fragment_of) : outcome (option (list Z)) * gmap key Assembly :=
  if rejected v then (Ok None, <[f_key f := v]> pending)
  else match (if invalid v f then None else asm_add (received v) (f_start f) (length (f_payload f))) with
  | None => (Ok None, <[f_key f := reject v]> pending)
  | Some a =>
      if fill_panics v f then (Panicked, <[f_key f := v]> pending)
      else
        let v := fill v f a in
        match total v with
        | Some t =>
            if (asm_front a =? t)%nat then
              (if (length (asm_bytes v) <? t)%nat then Panicked
               else let! b := rebuild (prefix v) (previous v) (next v) (take t (asm_bytes v)) in Ok (Some b), delete (f_key f) pending)
            else (Ok None, <[f_key f := v]> pending)
        | None => (Ok None, <[f_key f := v]> pending)
        end
  end.

Definition join (pending : gmap key Assembly) (f : fragment_of) (now : Z) : outcome (option (list Z)) * gmap key Assembly :=
  if negb (f_more f) && (f_start f =? 0)%nat then
    (let! b := rebuild (f_prefix f) (f_previous f) (f_next f) (f_payload f) in Ok (Some b), pending)
  else
    let pending := expire now pending in
    match entry pending f now with
    | None => (Ok None, pending)
    | Some v => put pending v f
    end.

Definition accept (pending : gmap key Assembly) (bytes : list Z) (now : Z) : outcome (option (list Z)) * gmap key Assembly :=
  match parse_packet bytes with
  | Dropped => (Ok None, pending)
  | Whole b => (Ok (Some b), pending)
  | Fragment f => join pending f now
  end.

(** ** Writing fragments *)

(** [slice::chunks]. *)
Fixpoint chunks (fuel : nat) (n : nat) (l : list Z) : list (list Z) :=
  match fuel, l with
  | S fuel, _ :: _ => take n l :: chunks fuel n (drop n l)
  | _, _ => []
  end.

(** One frame of the loop of [fragment]. *)
Definition frame_of (bytes : list Z) (ident : Z) (step whole : nat) (index : nat) (chunk : list Z) : list Z :=
  let header := ip6_set_payload_len ((8 + len chunk) mod 2 ^ 16) (ip6_set_next_header Ipv6Frag (take 40 bytes ++ replicate (8 + length chunk) 0)) in
  let frame := <[40%nat := ip6_next_header bytes]> header in
  let frame := mem_write frame 42 (frag_emit (Z.of_nat (index * step / 8) mod 2 ^ 16) (index * step + length chunk <? whole)%nat ident) in
  mem_write frame 48 chunk.

Definition fragment (bytes : list Z) (mtu : nat) (ident : Z) : outcome (list (list Z)) :=
  if (length bytes <=? mtu)%nat || match bytes with [] => true | b0 :: _ => negb (Z.shiftr b0 4 =? 6) end then Ok [bytes]
  else
    let! _ := ensure ((1280 <=? mtu)%nat && (length bytes <=? MAX_PACKET)%nat) "IPv6 packet/MTU limit" in
    let! _ := ensure (ip6_checked bytes) "truncated packet" in
    let protocol := ip6_next_header bytes in
    let! _ := ensure ((protocol =? Udp) || (protocol =? Tcp) || (protocol =? Icmpv6)) "unexpected generated IPv6 extension headers" in
    let step := ((mtu - 48) / 8 * 8)%nat in
    let payload := ip6_payload bytes in
    Ok (imap (frame_of bytes ident step (length payload)) (chunks (length payload) step payload)).

End code.
