(* ===== verification/Ipv6FragFacts.v ===== *)
(** * Reassembly of IPv6 fragments

    What the queue of Ipv6Frag.v puts together: a packet it returns is the chain
    of fragments of one packet, whatever was received before. *)

From S2P Require Import Prelude FfiAbi Ipv6Frag.
Local Open Scope Z_scope.

(** ** Chains of fragments *)

(** The fragments follow each other from [x] to [t]. *)
Fixpoint chain (x : nat) (fs : list fragment_of) (t : nat) : Prop :=
  match fs with
  | [] => x = t
  | f :: fs => f_start f = x /\ chain (f_end f) fs t
  end.

Definition apart (f g : fragment_of) : Prop := (f_end f <= f_start g \/ f_end g <= f_start f)%nat.
Definition in_frag (f : fragment_of) (x : nat) : Prop := (f_start f <= x < f_end f)%nat.

(** Fragments that are apart and cover everything up to [t] contain a chain. *)
Lemma chain_of_cover fs data t :
  (forall f g, In f fs -> In g fs -> f = g \/ apart f g) ->
  (forall f, In f fs -> f_payload f <> [] /\ (f_end f <= t)%nat /\ take (length (f_payload f)) (drop (f_start f) data) = f_payload f) ->
  forall n x, (t - x <= n)%nat -> (x <= t)%nat ->
  (forall y, (x <= y < t)%nat -> exists f, In f fs /\ in_frag f y) ->
  (forall f, In f fs -> (f_start f < x)%nat -> (f_end f <= x)%nat) ->
  exists cs, chain x cs t /\ (forall f, In f cs -> In f fs) /\ concat (f_payload <$> cs) = take (t - x) (drop x data) /\
    (forall l, last cs = Some l -> f_end l = t).
Proof.
  intros Hap Hfs. induction n as [|n IH]; intros x Hn Hx Hc Hb.
  { exists []. replace (t - x)%nat with 0%nat by lia. split; [simpl; lia|]. done. }
  destruct (decide (x = t)) as [->|Hne]; [exists []; rewrite Nat.sub_diag; done|].
  destruct (Hc x) as (f & Hf & Hin); [lia|]. destruct (Hfs f Hf) as (Hp & He & Hd). unfold in_frag in Hin.
  assert (Hs : f_start f = x) by (destruct (decide (f_start f < x)%nat) as [Hl|]; [specialize (Hb f Hf Hl); lia | lia]).
  destruct (IH (f_end f)) as (cs & Hch & Hsub & Hcat & Hlast); [lia | lia | intros y Hy; apply Hc; lia | |].
  { intros g Hg Hl. destruct (Hap f g Hf Hg) as [->|[|]]; [lia | lia |].
    destruct (decide (f_start g < x)%nat) as [Hl2|]; [specialize (Hb g Hg Hl2); lia | lia]. }
  exists (f :: cs). split; [done|]. split; [intros g [->|Hg]; auto|]. split.
  - cbn [fmap list_fmap concat]. rewrite Hcat, <- Hd, Hs. unfold f_end. rewrite Hs.
    replace (t - x)%nat with (length (f_payload f) + (t - (x + length (f_payload f))))%nat by (unfold f_end in He; lia).
    by rewrite <- (take_take_drop (drop x data)), drop_drop.
  - intros l Hl. destruct cs as [|c cs]; [cbn in Hl; injection Hl as <-; exact Hch | by apply Hlast].
Qed.

(** Reading apart from a write. *)
Lemma mem_write_other m off src s n : (off + length src <= length m)%nat -> (s + n <= off \/ off + length src <= s)%nat ->
  take n (drop s (mem_write m off src)) = take n (drop s m).
Proof.
  intros Hl Ha. apply list_eq. intros i. destruct (decide (i < n)%nat) as [Hi|Hi]; [|by rewrite !lookup_take_ge by lia].
  rewrite !lookup_take_lt, !lookup_drop by lia. unfold mem_write. destruct Ha as [Ha|Ha].
  - rewrite lookup_app_l by (rewrite length_take; lia). apply lookup_take_lt. lia.
  - rewrite lookup_app_r, length_take, Nat.min_l by (rewrite ?length_take; lia).
    rewrite lookup_app_r by lia. rewrite lookup_drop. f_equal. lia.
Qed.

(** ** What an assembly holds *)

Section facts.
Context `{SmoltcpLaws}.

(** A fragment as the parser gives it. *)
Definition frag_wf (f : fragment_of) : Prop := (40 <= length (f_prefix f))%nat /\ (f_previous f < length (f_prefix f))%nat.

Lemma ext_chain_wf rounds b : forall protocol offset previous protocol' offset' previous',
  ext_chain rounds b protocol offset previous = Some (protocol', offset', previous') -> (40 <= offset)%nat -> (previous < offset)%nat ->
  (40 <= offset')%nat /\ (previous' < offset')%nat.
Proof.
  induction rounds as [|rounds IH]; intros protocol offset previous protocol' offset' previous'; cbn [ext_chain]; [by intros [= <- <- <-]|].
  destruct (_ || _); [|by intros [= <- <- <-]]. destruct (_ && _); [|done]. intros E Ho Hp.
  pose proof (ext_header_len_nonneg (drop offset b)). eapply IH; [exact E | lia | lia].
Qed.

Lemma get_range_Some b i j r : get_range b i j = Some r -> (i <= j <= length b)%nat /\ r = take (j - i) (drop i b).
Proof. unfold get_range. destruct (Nat.leb_spec i j), (Nat.leb_spec j (length b)); simpl; try done. intros [= <-]. done. Qed.

Lemma parse_wf bytes f : parse_packet bytes = Fragment f -> frag_wf f.
Proof.
  unfold parse_packet. destruct bytes as [|b0 l]; [done|]. destruct (negb _); [done|]. destruct (negb _); [done|].
  destruct (get_range _ 0 _) as [b|]; [|done]. destruct (ext_chain _ _ _ _ _) as [[[protocol offset] prev]|] eqn:E; [|done].
  apply ext_chain_wf in E as [Ho Hp]; [|lia..]. destruct (negb _); [done|].
  destruct (get_range b (offset + 2) _) as [h|] eqn:Eh; [|done]. destruct (get_range b (offset + 8) _) as [p|] eqn:Ep; [|done].
  apply get_range_Some in Ep as [Hl _]. destruct (negb _); [done|]. destruct (_ =? _); [done|]. intros [= <-].
  unfold frag_wf. cbn [f_prefix f_previous]. rewrite length_take. lia.
Qed.

(** [v] holds the fragments [fs]. *)
Record holds (fs : list fragment_of) (v : Assembly) : Prop := {
  ho_prefix : (40 <= length (prefix v) < MAX_PACKET)%nat /\ (previous v < length (prefix v))%nat;
  ho_len : length (asm_bytes v) = (MAX_PACKET - length (prefix v))%nat;
  ho_frag : forall f, In f fs -> f_payload f <> [] /\ length (f_prefix f) = length (prefix v) /\ f_previous f = previous v /\ f_next f = next v;
  ho_first : forall f, In f fs -> f_start f = 0%nat -> prefix v = f_prefix f;
  ho_data : forall f, In f fs -> (f_end f <= length (asm_bytes v))%nat /\ take (length (f_payload f)) (drop (f_start f) (asm_bytes v)) = f_payload f;
  ho_apart : forall f g, In f fs -> In g fs -> f = g \/ apart f g;
  ho_covers : forall x, covers (received v) x <-> exists f, In f fs /\ in_frag f x;
  ho_ranges : (length (asm_data (received v)) <= length fs)%nat;
  ho_total : match total v with
             | Some t => (forall f, In f fs -> (f_end f <= t)%nat /\ (f_more f = false <-> f_end f = t)) /\ exists f, In f fs /\ f_end f = t
             | None => forall f, In f fs -> f_more f = true
             end
}.

Lemma assembly_new_holds now f : frag_wf f -> (length (f_prefix f) < MAX_PACKET)%nat -> holds [] (assembly_new now f).
Proof.
  intros [Hp Hq] Hm. split; cbn [assembly_new prefix previous next asm_bytes received total]; try done.
  - by rewrite length_replicate.
  - intros x. split; [intros (r & Hr & _); by rewrite asm_new_data in Hr | by intros (f' & [] & _)].
  - by rewrite asm_new_data.
Qed.

(** The tests of [invalid], for an assembly that holds [fs]. *)
Record valid (fs : list fragment_of) (v : Assembly) (f : fragment_of) : Prop := {
  va_payload : f_payload f <> [];
  va_end : (f_end f <= length (asm_bytes v))%nat;
  va_prefix : length (f_prefix f) = length (prefix v);
  va_previous : f_previous f = previous v;
  va_next : f_next f = next v;
  va_total : match total v with Some t => (f_end f <= t)%nat /\ (f_more f = false <-> f_end f = t) | None => True end;
  va_last : f_more f = false -> forall g, In g fs -> (f_end g <= f_end f)%nat;
  va_apart : forall g, In g fs -> apart f g
}.

Lemma payload_pos (f : fragment_of) : f_payload f <> [] -> (f_start f < f_end f)%nat.
Proof. unfold f_end. destruct (f_payload f); simpl; [done | lia]. Qed.

Lemma valid_of fs v f : holds fs v -> invalid v f = false -> valid fs v f.
Proof.
  intros Hv E. unfold invalid in E. rewrite !orb_false_iff in E. destruct E as ((((((((E1 & _) & E3) & E4) & E5) & E6) & E7) & E8) & E9).
  apply bool_decide_eq_false in E1. apply Nat.ltb_ge in E3. apply negb_false_iff in E4, E5, E6. apply Nat.eqb_eq in E4, E5. apply Z.eqb_eq in E6.
  assert (Hcov : forall x r, In r (asm_data (received v)) -> (r.1 <= x < r.2)%nat -> ~ in_frag f x).
  { intros x r Hr Hx Hin. unfold in_frag in Hin. apply not_true_iff_false in E9. apply E9, existsb_exists. exists r. split; [done|].
    apply andb_true_iff. rewrite !Nat.ltb_lt. lia. }
  assert (Hin : forall g x, In g fs -> in_frag g x -> exists r, In r (asm_data (received v)) /\ (r.1 <= x < r.2)%nat).
  { intros g x Hg Hx. apply (ho_covers _ _ Hv x). by exists g. }
  split; auto.
  - destruct (total v) as [t|]; [|done]. rewrite !orb_false_iff in E7. destruct E7 as [[E7 E7'] E7'']. apply Nat.ltb_ge in E7. split; [done|].
    destruct (f_more f); simpl in *; [apply Nat.leb_gt in E7''; split; [done | lia] |].
    apply negb_false_iff, Nat.eqb_eq in E7'. done.
  - intros Hm g Hg. destruct (ho_frag _ _ Hv g Hg) as (Hp%payload_pos & _).
    destruct (Hin g (f_end g - 1)%nat Hg) as (r & Hr & Hx); [unfold in_frag; lia|].
    rewrite Hm in E8. apply not_true_iff_false in E8. destruct (decide (f_end g <= f_end f)%nat); [done|]. destruct E8. simpl.
    apply existsb_exists. exists r. split; [done|]. apply Nat.ltb_lt. lia.
  - intros g Hg. destruct (ho_frag _ _ Hv g Hg) as (Hp%payload_pos & _). apply payload_pos in E1. unfold apart.
    destruct (decide (f_end f <= f_start g)%nat); [by left|]. right. destruct (decide (f_end g <= f_start f)%nat); [done|]. exfalso.
    destruct (Hin g (Nat.max (f_start f) (f_start g)) Hg) as (r & Hr & Hx); [unfold in_frag; lia|]. eapply Hcov; [done | done |]. unfold in_frag. lia.
Qed.

Lemma fill_holds fs v f a : holds fs v -> valid fs v f -> asm_add (received v) (f_start f) (length (f_payload f)) = Some a ->
  holds (f :: fs) (fill v f a).
Proof.
  intros Hv Hf Ha. pose proof (payload_pos f (va_payload _ _ _ Hf)) as Hpos. pose proof (va_end _ _ _ Hf) as Hend.
  assert (Hpl : length (if (f_start f =? 0)%nat then f_prefix f else prefix v) = length (prefix v)).
  { destruct (_ =? _)%nat; [apply (va_prefix _ _ _ Hf) | done]. }
  assert (Hml : length (mem_write (asm_bytes v) (f_start f) (f_payload f)) = length (asm_bytes v)) by (apply length_mem_write; done).
  split; cbn [fill prefix previous next asm_bytes received total]; rewrite ?Hpl, ?Hml.
  - apply (ho_prefix _ _ Hv).
  - apply (ho_len _ _ Hv).
  - intros g [<-|Hg]; [destruct Hf; auto | by apply (ho_frag _ _ Hv)].
  - intros g [<-|Hg] Hs; [by rewrite Hs|]. destruct (va_apart _ _ _ Hf g Hg) as [Ho|Ho].
    + lia.
    + pose proof (payload_pos g (proj1 (ho_frag _ _ Hv g Hg))). destruct (Nat.eqb_spec (f_start f) 0) as [E|E]; [lia|].
      by apply (ho_first _ _ Hv).
  - intros g [<-|Hg]; [split; [done | by apply mem_write_read]|]. destruct (ho_data _ _ Hv g Hg) as [Hge Hgd]. split; [done|].
    rewrite mem_write_other; [done | done |]. destruct (va_apart _ _ _ Hf g Hg) as [Ho|Ho]; [by right | by left].
  - intros g g' [<-|Hg] [<-|Hg']; [by left | right; by apply (va_apart _ _ _ Hf) | right | by apply (ho_apart _ _ Hv)].
    destruct (va_apart _ _ _ Hf g Hg); [by right | by left].
  - intros x. rewrite (asm_add_covers _ _ _ _ Ha) by (unfold f_end in Hpos; lia). rewrite (ho_covers _ _ Hv). split.
    + intros [(g & Hg & Hx)|Hx]; [exists g; by split; [right|] | exists f; by split; [left|]].
    + intros (g & [<-|Hg] & Hx); [by right | left; by exists g].
  - pose proof (asm_add_ranges _ _ _ _ Ha). pose proof (ho_ranges _ _ Hv). simpl. lia.
  - pose proof (ho_total _ _ Hv) as Ht. pose proof (va_total _ _ _ Hf) as Ht'. destruct (f_more f) eqn:Em.
    + destruct (total v) as [t|].
      * destruct Ht as [Hall (l & Hl & Hlt)]. split; [|exists l; by split; [right|]]. intros g [<-|Hg]; [by rewrite Em | by apply Hall].
      * intros g [<-|Hg]; [done | by apply Ht].
    + split; [|exists f; by split; [left|]]. intros g [<-|Hg]; [done|]. pose proof (va_last _ _ _ Hf Em g Hg) as Hle. split; [done|].
      destruct (ho_frag _ _ Hv g Hg) as (Hp%payload_pos & _).
      assert (Hne : f_end g <> f_end f) by (destruct (va_apart _ _ _ Hf g Hg); lia).
      destruct (total v) as [t|]; [|rewrite (Ht g Hg); done]. destruct Ht as [Hall _]. destruct (Hall g Hg) as [_ Hgm].
      destruct Ht' as [_ Ht']. destruct Ht' as [Ht' _]. rewrite Hgm, <- (Ht' eq_refl). done.
Qed.

(** ** Packets put together *)

(** [q] is the packet of the chain [fs]: fragments of one packet, from the start
    to one that is the last, behind the headers of the first. *)
Definition joined (fs : list fragment_of) (q : list Z) : Prop := exists f0 t l,
  head fs = Some f0 /\ last fs = Some l /\ f_more l = false /\ chain 0 fs t /\ (forall f, In f fs -> f_key f = f_key f0) /\
  rebuild (f_prefix f0) (f_previous f0) (f_next f0) (concat (f_payload <$> fs)) = Ok q.

Lemma rebuild_ok p i n d : (40 <= length p)%nat -> (i < length p)%nat -> exists q, rebuild p i n d = Ok q.
Proof.
  intros Hp Hi. unfold rebuild. rewrite (proj2 (Nat.ltb_lt _ _) Hi). rewrite (proj2 (Nat.leb_le _ _)); [by eexists|].
  rewrite length_app, length_insert. lia.
Qed.

Lemma last_In {A} (l : list A) x : last l = Some x -> In x l.
Proof. intros E%last_Some_elem_of. by apply list_elem_of_In. Qed.

Lemma complete_joined fs v t k : holds fs v -> total v = Some t -> asm_front (received v) = t -> (forall f, In f fs -> f_key f = k) ->
  (t <= length (asm_bytes v))%nat /\ exists q cs, rebuild (prefix v) (previous v) (next v) (take t (asm_bytes v)) = Ok q /\
    joined cs q /\ (forall f, In f cs -> In f fs).
Proof.
  intros Hv Et Ef Hk. pose proof (ho_total _ _ Hv) as Ht. rewrite Et in Ht. destruct Ht as [Hall (l & Hl & Hlt)].
  assert (Htl : (t <= length (asm_bytes v))%nat) by (destruct (ho_data _ _ Hv l Hl); lia). split; [done|].
  assert (Hpos : (0 < t)%nat) by (pose proof (payload_pos l (proj1 (ho_frag _ _ Hv l Hl))); lia).
  destruct (chain_of_cover fs (asm_bytes v) t (ho_apart _ _ Hv)) with (n := t) (x := 0%nat) as (cs & Hch & Hsub & Hcat & Hlast);
    [| lia | lia | | lia |].
  { intros f Hf. destruct (ho_frag _ _ Hv f Hf) as (? & _), (ho_data _ _ Hv f Hf), (Hall f Hf). done. }
  { intros y Hy. apply (ho_covers _ _ Hv), asm_front_covered. lia. }
  rewrite drop_0, Nat.sub_0_r in Hcat. destruct cs as [|c cs]; [simpl in Hch; lia|].
  assert (Hc : In c fs) by (apply Hsub; by left). destruct Hch as [Hc0 Hch].
  destruct (ho_frag _ _ Hv c Hc) as (_ & _ & Ep & En). destruct (ho_prefix _ _ Hv) as [[Hp _] Hq].
  destruct (rebuild_ok (prefix v) (previous v) (next v) (take t (asm_bytes v)) Hp Hq) as [q Eq].
  exists q, (c :: cs). split; [done|]. split; [|done]. destruct (last (c :: cs)) as [d|] eqn:El; [|by apply last_None in El].
  exists c, t, d. split; [done|]. split; [done|]. split; [apply Hall; [apply Hsub; by apply last_In | by apply Hlast]|].
  split; [by split|]. split; [intros f Hf; rewrite !Hk; auto|]. by rewrite Ep, En, <- (ho_first _ _ Hv c Hc Hc0), Hcat.
Qed.

(** ** The queue *)

(** The packets read so far with their times, and the queue they leave. *)
Inductive reach : list (list Z * Z) -> gmap key Assembly -> Prop :=
  | reach_new : reach [] ∅
  | reach_accept h p b now : reach h p -> Forall (fun e => e.2 <= now) h -> reach (h ++ [(b, now)]) (accept p b now).2
  | reach_expire h p now : reach h p -> reach h (expire now p).

(** [f] was read from a packet of [h], not before [t0]. *)
Definition read_in (h : list (list Z * Z)) (t0 : Z) (f : fragment_of) : Prop := exists b t, In (b, t) h /\ parse_packet b = Fragment f /\ t0 <= t.

Definition assembly_inv (h : list (list Z * Z)) (k : key) (v : Assembly) : Prop :=
  (length (asm_bytes v) + length (prefix v) <= MAX_PACKET)%nat /\ (exists b, In (b, created v) h) /\
  (rejected v = false -> exists fs, holds fs v /\ forall f, In f fs -> f_key f = k /\ read_in h (created v) f).

Definition queue_inv (h : list (list Z * Z)) (p : gmap key Assembly) : Prop :=
  (base.size p <= MAX_PACKETS)%nat /\ forall k v, p !! k = Some v -> assembly_inv h k v.

Lemma assembly_inv_more h e k v : assembly_inv h k v -> assembly_inv (h ++ [e]) k v.
Proof.
  intros (Hl & [b Hb] & Hr). split; [done|]. split; [exists b; apply in_or_app; by left|]. intros E. destruct (Hr E) as (fs & Hfs & Hf). exists fs.
  split; [done|]. intros f Hin. destruct (Hf f Hin) as (Hk & b' & t & Hbt & Hp & Ht). split; [done|]. exists b', t. split; [apply in_or_app; by left | done].
Qed.

Lemma expire_inv h now p : queue_inv h p -> queue_inv h (expire now p).
Proof.
  intros [Hs Hp]. split.
  - etrans; [|exact Hs]. apply (map_subseteq_size ), map_filter_subseteq.
  - intros k v [Hk _]%map_lookup_filter_Some. by apply Hp.
Qed.

Lemma queue_inv_more h e p : queue_inv h p -> queue_inv (h ++ [e]) p.
Proof. intros [Hs Hp]. split; [done|]. intros k v Hk. by apply assembly_inv_more, Hp. Qed.

Lemma queue_insert h p k v : queue_inv h p -> (is_Some (p !! k) \/ (base.size p < MAX_PACKETS)%nat) -> assembly_inv h k v -> queue_inv h (<[k := v]> p).
Proof.
  intros [Hs Hp] Hk Hv. split.
  - rewrite map_size_insert. destruct (p !! k) eqn:E; [done|]. destruct Hk as [[? ?]|]; [done | lia].
  - intros k' v' [[<- <-]|[_ Hk']]%lookup_insert_Some; [done | by apply Hp].
Qed.

Lemma queue_delete h p k : queue_inv h p -> queue_inv h (delete k p).
Proof.
  intros [Hs Hp]. split; [etrans; [|exact Hs]; apply (map_subseteq_size ), delete_subseteq|]. intros k' v' [_ Hk']%lookup_delete_Some. by apply Hp.
Qed.

(** What a call to [accept] may return. *)
Definition returns_joined (h : list (list Z * Z)) (now : Z) (r : outcome (option (list Z))) : Prop :=
  exists o, r = Ok o /\ forall q, o = Some q -> exists fs, joined fs q /\
    forall f, In f fs -> exists b t, In (b, t) h /\ parse_packet b = Fragment f /\ now - LIFETIME < t <= now.

Lemma returns_none h now : returns_joined h now (Ok None).
Proof. by exists None. Qed.

(** An assembly of the queue, or a new one. *)
Lemma entry_inv h p f b now v : queue_inv h p -> frag_wf f -> In (b, now) h -> (forall k w, p !! k = Some w -> alive now w = true) -> entry p f now = Some v ->
  (is_Some (p !! f_key f) \/ (base.size p < MAX_PACKETS)%nat) /\ assembly_inv h (f_key f) v /\ now - LIFETIME < created v.
Proof.
  intros Hp Hwf Hb Hal. unfold entry. destruct (p !! f_key f) as [w|] eqn:Ew.
  - intros [= <-]. split; [by left; eexists|]. split; [by apply Hp|]. specialize (Hal _ _ Ew). apply Z.ltb_lt in Hal. lia.
  - destruct (_ && _) eqn:Er; [|done]. intros [= <-]. apply andb_true_iff in Er as [Er%Nat.ltb_lt Er2%Nat.ltb_lt].
    split; [by right|]. split; [|simpl; unfold LIFETIME; lia]. pose proof (assembly_new_holds now f Hwf Er2) as Hh.
    split; [pose proof (ho_len _ _ Hh); pose proof (ho_prefix _ _ Hh); lia|]. split; [by exists b|]. intros _. by exists [].
Qed.

Lemma valid_no_panic fs v f : valid fs v f -> fill_panics v f = false.
Proof.
  intros Hva. unfold fill_panics. rewrite (va_prefix _ _ _ Hva), Nat.eqb_refl, (proj2 (Nat.ltb_ge _ _) (va_end _ _ _ Hva)). by rewrite andb_false_r.
Qed.

Lemma put_inv h p f v b now : queue_inv h p -> (is_Some (p !! f_key f) \/ (base.size p < MAX_PACKETS)%nat) -> assembly_inv h (f_key f) v ->
  now - LIFETIME < created v -> parse_packet b = Fragment f -> In (b, now) h -> (forall b' t, In (b', t) h -> t <= now) ->
  queue_inv h (put p v f).2 /\ returns_joined h now (put p v f).1.
Proof.
  intros Hp Hroom Hv Hc Hf Hnow Hle. unfold put.
  assert (Hins : forall v', assembly_inv h (f_key f) v' -> queue_inv h (<[f_key f := v']> p)) by (intros; by apply queue_insert).
  destruct (rejected v) eqn:Erej; [split; [by apply Hins | apply returns_none]|].
  destruct Hv as (Hl & [b0 Hb0] & Hr). destruct (Hr Erej) as (fs & Hfs & Hfr).
  assert (Hrej : queue_inv h (<[f_key f := reject v]> p)) by (apply Hins; split; [simpl; lia|]; by split; [exists b0|]).
  destruct (invalid v f) eqn:Einv; [split; [done | apply returns_none]|].
  destruct (asm_add _ _ _) as [a|] eqn:Eadd; [|split; [done | apply returns_none]].
  pose proof (valid_of _ _ _ Hfs Einv) as Hva. pose proof (fill_holds _ _ _ _ Hfs Hva Eadd) as Hfill.
  rewrite (valid_no_panic _ _ _ Hva). cbv zeta.
  assert (Hall : forall g, In g (f :: fs) -> f_key g = f_key f /\ read_in h (created v) g).
  { intros g [<-|Hg]; [|by apply Hfr]. split; [done|]. exists b, now. split; [done|]. split; [done|]. by eapply Hle. }
  assert (Hkeep : queue_inv h (<[f_key f := fill v f a]> p)).
  { apply Hins. split; [pose proof (ho_len _ _ Hfill); pose proof (ho_prefix _ _ Hfill); lia|]. split; [by exists b0|].
    intros _. exists (f :: fs). by split. }
  destruct (total (fill v f a)) as [t|] eqn:Et; [|split; [done | apply returns_none]].
  destruct (Nat.eqb_spec (asm_front a) t) as [Ef|Ef]; [|split; [done | apply returns_none]].
  destruct (complete_joined (f :: fs) (fill v f a) t (f_key f) Hfill Et Ef) as (Htl & q & cs & Eq & Hj & Hsub); [intros g Hg; by apply Hall|].
  rewrite (proj2 (Nat.ltb_ge _ _) Htl), Eq. split; [by apply queue_delete|]. exists (Some q). split; [done|]. intros q' [= <-].
  exists cs. split; [done|]. intros g Hg. destruct (Hall g (Hsub g Hg)) as (_ & b' & t' & Hin & Hpg & Htc). exists b', t'.
  split; [done|]. split; [done|]. specialize (Hle b' t' Hin). lia.
Qed.

Lemma join_fragment_inv h p f b now : queue_inv h p -> Forall (fun e => e.2 <= now) h -> parse_packet b = Fragment f ->
  queue_inv (h ++ [(b, now)]) (join p f now).2 /\ returns_joined (h ++ [(b, now)]) now (join p f now).1.
Proof.
  intros Hp Ht Hf. pose proof (parse_wf _ _ Hf) as Hwf. set (h' := h ++ [(b, now)]). unfold join.
  assert (Hnow : In (b, now) h') by (apply in_or_app; right; by left).
  destruct (negb (f_more f) && (f_start f =? 0)%nat) eqn:Ea.
  - apply andb_true_iff in Ea as [Em%negb_true_iff Es%Nat.eqb_eq]. destruct Hwf as [Hw1 Hw2].
    destruct (rebuild_ok _ _ (f_next f) (f_payload f) Hw1 Hw2) as [q Eq]. rewrite Eq. split; [by apply queue_inv_more|].
    exists (Some q). split; [done|]. intros q' [= <-]. exists [f]. split.
    + exists f, (f_end f), f. split; [done|]. split; [done|]. split; [done|]. split; [done|]. split; [by intros g [<-|[]]|].
      cbn [fmap list_fmap concat]. by rewrite app_nil_r.
    + intros g [<-|[]]. exists b, now. unfold LIFETIME. split; [done|]. split; [done | lia].
  - apply (expire_inv h now) in Hp. apply (queue_inv_more h (b, now)) in Hp. fold h' in Hp. cbv zeta.
    destruct (entry _ f now) as [v|] eqn:Ee; [|split; [done | apply returns_none]].
    destruct (entry_inv h' _ f b now v Hp Hwf Hnow) as (Hroom & Hv & Hc); [|done|].
    { by intros k w [_ Hw]%map_lookup_filter_Some. }
    apply (put_inv h' _ f v b now); try done. intros b' t [Hin|[[= <- <-]|[]]]%in_app_or; [|lia].
    by apply (proj1 (List.Forall_forall _ _) Ht (b', t)).
Qed.

Lemma reach_inv h p : reach h p -> queue_inv h p.
Proof.
  induction 1 as [|h p b now Hr IH Ht|h p now Hr IH]; [by split; [vm_compute; lia|] | | by apply expire_inv].
  unfold accept. destruct (parse_packet b) as [|w|f] eqn:E; [by apply queue_inv_more..|]. by apply join_fragment_inv.
Qed.

(** C30: the queue never forges a packet and never panics.  After any packets, read
    at times that do not go back, a packet that [accept] returns is either the
    packet it was given, or the chain of fragments, each of them read in the last
    30 seconds, of one source, destination and identifier, that follow each other
    from offset zero to one that is marked as the last. *)
Theorem reassembly_sound h p b now : reach h p -> Forall (fun e => e.2 <= now) h -> exists o, (accept p b now).1 = Ok o /\
  forall q, o = Some q -> parse_packet b = Whole q \/ exists fs, joined fs q /\
    forall f, In f fs -> exists b' t, In (b', t) (h ++ [(b, now)]) /\ parse_packet b' = Fragment f /\ now - LIFETIME < t <= now.
Proof.
  intros Hr%reach_inv Ht. unfold accept. destruct (parse_packet b) as [|w|f] eqn:E.
  - by exists None.
  - exists (Some w). split; [done|]. intros q [= <-]. by left.
  - destruct (join_fragment_inv h p f b now Hr Ht E) as [_ (o & Eo & Hq)]. exists o. split; [done|]. intros q Hs. right. by apply Hq.
Qed.

(** The queue is bounded: it never holds more than 64 packets, of at most 65535
    bytes each with their headers, whatever is received. *)
Theorem queue_bounded h p : reach h p -> (base.size p <= 64)%nat /\ forall k v, p !! k = Some v -> len (asm_bytes v) + len (prefix v) <= 65535.
Proof.
  intros [Hs Hp]%reach_inv. split; [done|]. intros k v Hk. destruct (Hp k v Hk) as (Hl & _). unfold MAX_PACKET in Hl. lia.
Qed.

End facts.
