(* ===== verification/Ipv6FragRoundtrip.v ===== *)
(** * Fragments and reassembly together

    The frames of a packet, received in any order and among other packets, are
    put together to the packet.  At the end, an instance of the laws of smoltcp and
    the theorems about fragments at a packet. *)

From Stdlib Require Import Sorted.
From S2P Require Import Prelude FfiAbi Ipv6Frag Ipv6FragFacts.
Local Open Scope Z_scope.

(** ** Chunks *)

Fixpoint chunked (n : nat) (cs : list (list Z)) : Prop :=
  match cs with
  | [] => True
  | [c] => (0 < length c <= n)%nat
  | c :: cs => length c = n /\ chunked n cs
  end.

Lemma chunks_chunked n : (0 < n)%nat -> forall fuel l, (length l <= fuel)%nat -> chunked n (chunks fuel n l) /\ concat (chunks fuel n l) = l.
Proof.
  intros Hn. induction fuel as [|fuel IH]; intros l Hl; [by destruct l; [|simpl in Hl; lia]|]. destruct l as [|x l]; [done|].
  destruct n as [|n]; [lia|]. assert (Hd : (length (drop (S n) (x :: l)) <= fuel)%nat) by (rewrite length_drop; simpl in *; lia).
  cbn [chunks]. destruct (IH _ Hd) as [Hc Hcat]. split; [|cbn [concat]; by rewrite Hcat, take_drop].
  cbn [chunked]. destruct (chunks fuel (S n) (drop (S n) (x :: l))) as [|c cs] eqn:E; [rewrite length_take; simpl; lia|].
  split; [|done]. rewrite length_take. destruct (decide (S n <= length (x :: l))%nat); [lia|].
  exfalso. rewrite drop_ge in E by lia. by destruct fuel.
Qed.

Lemma chunked_cons n c cs : (0 < n)%nat -> chunked n (c :: cs) -> (0 < length c <= n)%nat /\ (cs <> [] -> length c = n) /\ chunked n cs.
Proof. intros Hn. destruct cs as [|d cs]; [done|]. intros [-> Hcs]. split; [lia | done]. Qed.

Section roundtrip.
Context `{SmoltcpLaws}.

(** ** The frames of a packet *)

(** A packet the stack may write: IPv6, complete, without extension headers. *)
Record packet (b : list Z) : Prop := {
  pk_bytes : bytes b;
  pk_version : match b with b0 :: _ => Z.shiftr b0 4 = 6 | [] => False end;
  pk_header : (40 <= length b <= MAX_PACKET)%nat;
  pk_length : ip6_payload_len b = len b - 40;
  pk_next : ip6_next_header b = Udp \/ ip6_next_header b = Tcp \/ ip6_next_header b = Icmpv6
}.

(** The header of a frame, and the fragment of it that the parser sees. *)
Definition frame_header (b : list Z) (n : Z) : list Z := mem_write (mem_write (take 40 b) 6 [Ipv6Frag]) 4 (be_encode 2 n).

Definition frag_at (b : list Z) (ident : Z) (step : nat) (index : nat) (chunk : list Z) : fragment_of :=
  mk_frag (ip6_src_addr b, ip6_dst_addr b, ident) (frame_header b (8 + len chunk)) 6 (ip6_next_header b) (index * step)
    (index * step + length chunk <? length b - 40)%nat chunk.

(** Forty bytes and the rest. *)
Ltac split_header b :=
  do 40 (destruct b as [|? b]; [simpl in *; lia|]).

Lemma frame_of_eq b ident step whole index chunk : (40 <= length b)%nat -> len chunk < 2 ^ 16 - 8 ->
  frame_of b ident step whole index chunk = frame_header b (8 + len chunk) ++ [ip6_next_header b; 0] ++
    frag_emit (Z.of_nat (index * step / 8) mod 2 ^ 16) (index * step + length chunk <? whole)%nat ident ++ chunk.
Proof.
  intros Hb Hc. unfold frame_of. set (nx := ip6_next_header b). set (e := frag_emit _ _ _).
  assert (He : length e = 6%nat) by apply frag_emit_length. clearbody nx e.
  assert (Hl : length (take 40 b ++ replicate (8 + length chunk) 0) = (48 + length chunk)%nat).
  { rewrite length_app, length_take, length_replicate. lia. }
  rewrite ip6_set_next_header_spec by lia. rewrite ip6_set_payload_len_spec by (rewrite length_mem_write; cbn [length]; lia).
  rewrite Z.mod_small by lia. unfold frame_header. clear Hl. split_header b.
  change (be_encode 2 (8 + len chunk)) with ([((8 + len chunk) / 256) mod 256; (8 + len chunk) mod 256]).
  set (u := ((8 + len chunk) / 256) mod 256). set (w := (8 + len chunk) mod 256). clearbody u w.
  destruct e as [|e0 [|e1 [|e2 [|e3 [|e4 [|e5 [|? ?]]]]]]]; try (simpl in He; lia). unfold mem_write. simpl.
  rewrite drop_0, (drop_ge (replicate _ _)) by (rewrite length_replicate; lia). by rewrite app_nil_r.
Qed.

(** The fields of a packet that starts with the header of a frame. *)
Lemma frame_header_fields b n rest : packet b -> 0 <= n < 2 ^ 16 -> let f := frame_header b n ++ rest in
  length (frame_header b n) = 40%nat /\ match f with b0 :: _ => Z.shiftr b0 4 = 6 | [] => False end /\ ip6_payload_len f = n /\
  ip6_next_header f = Ipv6Frag /\ ip6_src_addr f = ip6_src_addr b /\ ip6_dst_addr f = ip6_dst_addr b.
Proof.
  intros [_ Hv Hl _ _] Hn f. assert (Hh : length (frame_header b n) = 40%nat).
  { assert (L : length (take 40 b) = 40%nat) by (rewrite length_take; lia). assert (L2 : length (mem_write (take 40 b) 6 [Ipv6Frag]) = 40%nat)
      by (rewrite length_mem_write; cbn [length]; lia). unfold frame_header. rewrite length_mem_write; [done|]. rewrite length_be_encode. lia. }
  assert (Hf : (40 <= length f)%nat) by (unfold f; rewrite length_app; lia). split; [done|].
  rewrite ip6_payload_len_spec, ip6_next_header_spec, !ip6_src_addr_spec, !ip6_dst_addr_spec by lia.
  assert (En : be_decode (be_encode 2 n) = n) by (rewrite be_decode_encode, Z.mod_small; [done | change (256 ^ Z.of_nat 2) with (2 ^ 16); lia]).
  unfold f, frame_header. clear Hf Hh f. destruct Hl as [Hl _]. split_header b. change (be_encode 2 n) with [(n / 256) mod 256; n mod 256] in *.
  unfold mem_write. simpl in *. done.
Qed.

Lemma parse_frame b ident step index chunk : packet b -> (step mod 8 = 0)%nat -> (index * step + length chunk <= length b - 40)%nat ->
  0 <= ident < 2 ^ 32 -> parse_packet (frame_of b ident step (length b - 40) index chunk) = Fragment (frag_at b ident step index chunk).
Proof.
  intros Hb H8 Hi Hid. pose proof (pk_header _ Hb) as Hl. unfold MAX_PACKET in Hl. rewrite frame_of_eq by lia.
  assert (Eo : (index * step / 8 * 8 = index * step)%nat).
  { rewrite Nat.mul_comm. symmetry. apply Nat.Div0.div_exact. by rewrite Nat.Div0.mul_mod, H8, Nat.mul_0_r. }
  set (o := (index * step / 8)%nat) in *. rewrite (Z.mod_small (Z.of_nat o)) by lia.
  set (e := frag_emit _ _ _). set (tail := [ip6_next_header b; 0] ++ e ++ chunk).
  destruct (frame_header_fields b (8 + len chunk) tail Hb) as (Hh & Hv & Hpl & Hnx & Hsrc & Hdst); [lia|].
  set (hd := frame_header b (8 + len chunk)) in *. set (f := hd ++ tail) in *.
  assert (He : length e = 6%nat) by apply frag_emit_length.
  assert (Htl : length tail = (8 + length chunk)%nat) by (unfold tail; rewrite !length_app, He; simpl; lia).
  assert (Hfl : length f = (48 + length chunk)%nat) by (unfold f; rewrite length_app; lia).
  assert (Hck : ip6_checked f = true).
  { rewrite ip6_checked_spec, Hpl, Hfl. apply andb_true_iff. rewrite !Z.leb_le. lia. }
  assert (Hget : forall i j, (40 <= i <= j)%nat -> (j <= length f)%nat -> get_range f i j = Some (take (j - i) (drop (i - 40) tail))).
  { intros i j Hij Hj. unfold get_range. rewrite (proj2 (Nat.leb_le i j)), (proj2 (Nat.leb_le j _)) by lia. simpl.
    unfold f. rewrite drop_app_ge by lia. by rewrite Hh. }
  assert (Hwhole : get_range f 0 (40 + Z.to_nat (ip6_payload_len f)) = Some f).
  { unfold get_range. rewrite Hpl, (proj2 (Nat.leb_le 0 _)), (proj2 (Nat.leb_le _ (length f))) by lia. simpl andb. cbv iota.
    rewrite drop_0, take_ge by lia. done. }
  assert (H40 : nth 40 f 0 = ip6_next_header b) by (unfold f; rewrite app_nth2 by lia; by rewrite Hh).
  assert (Hpre : take 40 f = hd) by (unfold f; rewrite take_app_le by lia; by rewrite take_ge by lia).
  unfold parse_packet. destruct f as [|b0 f'] eqn:Ef; [done|]. rewrite <- Ef in *. rewrite Hv, Hck, Hwhole, Hnx. cbn [negb Z.eqb Pos.eqb ext_chain orb HopByHop Ipv6Opts Ipv6Route Ipv6Frag].
  rewrite !Hget by lia. replace (drop (40 + 2 - 40) tail) with (e ++ chunk) by done. replace (40 + 8 - (40 + 2))%nat with 6%nat by lia.
  rewrite take_app_exact by done. replace (drop (40 + 8 - 40) tail) with chunk by (unfold tail; cbn [drop app Nat.add Nat.sub]; by rewrite drop_app_exact by done).
  rewrite (take_ge chunk) by lia. rewrite frag_checked_spec, He, H40. change (6 <=? Z.of_nat 6) with true. cbn [negb].
  rewrite (proj2 (Z.eqb_neq (ip6_next_header b) _)) by (destruct (pk_next _ Hb) as [->|[->| ->]]; done).
  unfold frag_at. rewrite Hsrc, Hdst, Hpre. unfold e.
  rewrite frag_emit_ident, frag_emit_offset, frag_emit_more by lia. f_equal. f_equal. lia.
Qed.

(** The headers of the frames are those of the packet but for what [rebuild]
    restores. *)
Lemma rebuild_header b n : packet b -> 0 <= n < 2 ^ 16 -> rebuild (frame_header b n) 6 (ip6_next_header b) (drop 40 b) = Ok b.
Proof.
  intros Hb Hn. destruct (frame_header_fields b n [] Hb Hn) as (Hh & _). destruct Hb as [Hby _ Hl Hpl _]. unfold MAX_PACKET in Hl.
  unfold rebuild. rewrite Hh. change (6 <? 40)%nat with true. cbv iota zeta. set (r := <[6%nat := _]> _ ++ _).
  assert (Hr : length r = length b) by (unfold r; rewrite length_app, length_insert, length_drop; lia).
  rewrite Hr, (proj2 (Nat.leb_le 40 _)) by lia. f_equal. rewrite ip6_set_payload_len_spec by lia.
  rewrite Z.mod_small, <- Hpl by lia. unfold r. rewrite ip6_next_header_spec, ip6_payload_len_spec by lia. clear Hr Hh r.
  unfold frame_header. destruct Hl as [Hl _]. split_header b. change (be_encode 2 n) with [(n / 256) mod 256; n mod 256].
  unfold mem_write. cbn [nth take drop app length Nat.add]. rewrite be_encode_decode'; [done | done |].
  repeat (apply bytes_cons_inv in Hby as [? Hby]). repeat (apply bytes_cons; [done|]). apply bytes_nil.
Qed.

(** ** Traffic *)

(** The fragment of key [k] that a packet carries. *)
Definition carried (k : key) (x : list Z) : option fragment_of :=
  match parse_packet x with Fragment f => if decide (f_key f = k) then Some f else None | _ => None end.
Definition carries (k : key) (x : list Z) : bool := bool_decide (is_Some (carried k x)).

(** The queue after packets read at times. *)
Fixpoint feed (p : gmap key Assembly) (evs : list (list Z * Z)) : gmap key Assembly :=
  match evs with [] => p | (x, now) :: evs => feed (accept p x now).2 evs end.

Lemma carries_Some k x : carries k x = true <-> exists f, parse_packet x = Fragment f /\ f_key f = k.
Proof.
  unfold carries. rewrite bool_decide_eq_true. unfold carried. destruct (parse_packet x) as [| |f].
  1,2: split; [by intros [] | by intros (? & ? & _)]. destruct (decide _) as [E|E].
  - split; [intros _; by exists f | by eexists].
  - split; [by intros [] | by intros (? & [= <-] & ?)].
Qed.

Lemma expire_lookup now p k v : p !! k = Some v -> alive now v = true -> expire now p !! k = Some v.
Proof. intros. by apply map_lookup_filter_Some. Qed.

Lemma expire_None now p k : p !! k = None -> expire now p !! k = None.
Proof. intros. apply map_lookup_filter_None. by left. Qed.

Lemma expire_size now p : (base.size (expire now p) <= base.size p)%nat.
Proof. apply map_subseteq_size, map_filter_subseteq. Qed.

Lemma put_keys p v f : (forall k, k <> f_key f -> (put p v f).2 !! k = p !! k) /\ (base.size (put p v f).2 <= S (base.size p))%nat.
Proof.
  assert (Hi : forall w, (forall k, k <> f_key f -> <[f_key f := w]> p !! k = p !! k) /\ (base.size (<[f_key f := w]> p) <= S (base.size p))%nat).
  { intros w. split; [intros k Hk; by apply lookup_insert_ne|]. rewrite map_size_insert. destruct (p !! f_key f); simpl; lia. }
  unfold put. destruct (rejected v); [apply Hi|]. destruct (if invalid v f then None else _) as [a|]; [|apply Hi].
  destruct (fill_panics v f); [apply Hi|]. cbv zeta. destruct (total _) as [t|]; [|apply Hi]. destruct (_ =? _)%nat; [|apply Hi].
  split; [intros k Hk; by apply lookup_delete_ne|]. pose proof (map_subseteq_size (delete (f_key f) p) p (delete_subseteq _ _)). cbn [snd]. lia.
Qed.

(** A packet that carries no fragment of key [k] leaves its assembly alone. *)
Lemma accept_other p x now k : carries k x = false -> ((accept p x now).2 !! k = p !! k \/ (accept p x now).2 !! k = expire now p !! k) /\
  (base.size (accept p x now).2 <= S (base.size p))%nat.
Proof.
  intros Hc. unfold accept. destruct (parse_packet x) as [| |f] eqn:E; [split; [by left | simpl; lia]..|].
  assert (Hk : k <> f_key f) by (intros ->; apply not_true_iff_false in Hc; apply Hc, carries_Some; by exists f).
  unfold join. destruct (_ && _); [split; [by left | simpl; lia]|]. cbv zeta. pose proof (expire_size now p). destruct (entry _ _ _) as [v|].
  - destruct (put_keys (expire now p) v f) as [Hl Hs]. split; [right; by apply Hl | lia].
  - split; [by right | simpl; lia].
Qed.

(** ** The fragments of a packet *)

Section frames.
Variables (b : list Z) (ident : Z) (step : nat).
Hypotheses (Hb : packet b) (Hid : 0 <= ident < 2 ^ 32) (Hstep : (0 < step)%nat) (Hstep8 : (step mod 8 = 0)%nat).

Abbreviation whole := (length b - 40)%nat.
Abbreviation the_key := (ip6_src_addr b, ip6_dst_addr b, ident).

Fixpoint frag_list (i : nat) (cs : list (list Z)) : list fragment_of :=
  match cs with [] => [] | c :: cs => frag_at b ident step i c :: frag_list (S i) cs end.

Lemma parse_frames cs : forall i f, (forall j c, f j c = frame_of b ident step whole (i + j) c) -> (cs <> [] -> i * step + length (concat cs) <= whole)%nat ->
  chunked step cs -> parse_packet <$> imap f cs = Fragment <$> frag_list i cs.
Proof.
  induction cs as [|c cs IH]; intros i f Hf Hi Hc; [done|]. destruct (chunked_cons _ _ _ Hstep Hc) as (Hlc & Hfull & Hcs).
  specialize (Hi ltac:(done)). cbn [concat] in Hi. rewrite length_app in Hi. rewrite imap_cons. cbn [fmap list_fmap frag_list]. f_equal.
  - rewrite Hf, Nat.add_0_r. apply parse_frame; [done | done | lia | done].
  - apply IH; [intros j d; replace (S i + j)%nat with (i + S j)%nat by lia; apply Hf | | done].
    intros Hne. rewrite Hfull in Hi by done. lia.
Qed.

(** A fragment of the packet. *)
Record piece (f : fragment_of) : Prop := {
  pc_key : f_key f = the_key;
  pc_prefix : exists n, 0 <= n < 2 ^ 16 /\ f_prefix f = frame_header b n;
  pc_previous : f_previous f = 6%nat;
  pc_next : f_next f = ip6_next_header b;
  pc_payload : f_payload f <> [];
  pc_step : (length (f_payload f) <= step)%nat;
  pc_end : (f_end f <= whole)%nat;
  pc_more : f_more f = (f_end f <? whole)%nat;
  pc_aligned : f_more f = true -> (length (f_payload f) mod 8 = 0)%nat;
  pc_data : take (length (f_payload f)) (drop (f_start f) (drop 40 b)) = f_payload f
}.

Lemma pieces cs : forall i, (i * step + length (concat cs) = whole)%nat -> chunked step cs -> concat cs = drop (i * step) (drop 40 b) ->
  Forall (fun f => piece f /\ (i * step <= f_start f)%nat) (frag_list i cs) /\ StronglySorted (fun f g => f_end f <= f_start g)%nat (frag_list i cs) /\
  forall x, (i * step <= x < whole)%nat -> exists f, In f (frag_list i cs) /\ in_frag f x.
Proof.
  pose proof (pk_header _ Hb) as Hm. unfold MAX_PACKET in Hm.
  induction cs as [|c cs IH]; intros i Hi Hc Hd.
  { split; [constructor|]. split; [constructor|]. intros x Hx. simpl in Hi. lia. }
  destruct (chunked_cons _ _ _ Hstep Hc) as (Hlc & Hfull & Hcs).
  cbn [concat] in Hi, Hd. rewrite length_app in Hi. cbn [frag_list].
  assert (Hc0 : piece (frag_at b ident step i c)).
  { split; cbn [frag_at f_key f_prefix f_previous f_next f_payload f_more f_start]; unfold f_end; cbn [frag_at f_start f_payload]; try done; try lia.
    - eexists. split; [|done]. lia.
    - by destruct c; [simpl in Hlc; lia|].
    - intros Hl%Nat.ltb_lt. rewrite Hfull; [done|]. intros ->. simpl in Hi. lia.
    - rewrite <- Hd. by apply take_app_exact. }
  assert (Hin : forall x, (i * step <= x < i * step + length c)%nat -> in_frag (frag_at b ident step i c) x) by done.
  destruct cs as [|d cs].
  { split; [apply Forall_singleton; by split|]. split; [by constructor; constructor|]. intros x Hx. simpl in Hi. eexists. split; [by left|]. apply Hin. lia. }
  specialize (Hfull ltac:(done)). destruct (IH (S i)) as (Hall & Hs & Hcov); [lia | done | |].
  { rewrite Nat.mul_succ_l, <- drop_drop, <- Hd. by rewrite drop_app_exact. }
  split; [|split].
  - constructor; [done|]. eapply Forall_impl; [exact Hall|]. intros f [? ?]. split; [done | lia].
  - constructor; [done|]. eapply Forall_impl; [exact Hall|]. intros f [_ ?]. unfold f_end. cbn [frag_at f_start f_payload]. lia.
  - intros x Hx. destruct (decide (x < i * step + length c)%nat) as [Hl|Hl]; [eexists; split; [by left | apply Hin; lia]|].
    destruct (Hcov x) as (f & Hf & Hfx); [lia|]. exists f. by split; [right|].
Qed.

(** ** Receiving them *)

Section receive.
Variable gs : list fragment_of.
Hypotheses (Hpiece : forall f, In f gs -> piece f) (Hsorted : StronglySorted (fun f g => f_end f <= f_start g)%nat gs)
  (Hcover : forall x, (x < whole)%nat -> exists f, In f gs /\ in_frag f x) (Hmax : (length gs <= asm_max)%nat) (Hlong : (step < whole)%nat).

Lemma sorted_pairs {A} (R : A -> A -> Prop) l : StronglySorted R l -> forall x y, In x l -> In y l -> x = y \/ R x y \/ R y x.
Proof.
  induction 1 as [|a l Hl IH Ha]; [done|]. rewrite List.Forall_forall in Ha. intros x y [<-|Hx] [<-|Hy]; auto.
Qed.

Lemma gs_apart f g : In f gs -> In g gs -> f = g \/ apart f g.
Proof. intros Hf Hg. destruct (sorted_pairs _ _ Hsorted f g Hf Hg) as [->|[|]]; [by left | right; by left | right; by right]. Qed.

Lemma gs_nodup : List.NoDup gs.
Proof.
  clear Hcover Hmax Hlong. induction Hsorted as [|a l Hl IH Ha]; constructor; [|apply IH; [intros f Hf; apply Hpiece; by right | done]].
  intros Hin. rewrite List.Forall_forall in Ha. specialize (Ha a Hin). pose proof (payload_pos a (pc_payload _ (Hpiece a (or_introl eq_refl)))). lia.
Qed.

(** An assembly that has received [fs] of them. *)
Record own (fs : list fragment_of) (v : Assembly) : Prop := {
  ow_holds : holds fs v;
  ow_live : rejected v = false;
  ow_prefix : length (prefix v) = 40%nat;
  ow_previous : previous v = 6%nat;
  ow_next : next v = ip6_next_header b
}.

Lemma piece_prefix f : piece f -> length (f_prefix f) = 40%nat.
Proof. intros Hf. destruct (pc_prefix _ Hf) as (n & Hn & ->). by apply (frame_header_fields b n [] Hb Hn). Qed.

Lemma own_total fs v t : own fs v -> (forall f, In f fs -> In f gs) -> total v = Some t -> t = whole.
Proof.
  intros Hv Hin Et. pose proof (ho_total _ _ (ow_holds _ _ Hv)) as Ht. rewrite Et in Ht. destruct Ht as [Hall (f & Hf & Hft)].
  destruct (Hall f Hf) as [_ Hm]. pose proof (Hpiece f (Hin f Hf)) as Hp. pose proof (pc_end _ Hp). pose proof (pc_more _ Hp) as Hmore.
  rewrite (proj2 Hm Hft) in Hmore. symmetry in Hmore. apply Nat.ltb_ge in Hmore. lia.
Qed.

Lemma own_valid fs v f : own fs v -> (forall g, In g (f :: fs) -> In g gs) -> ~ In f fs -> invalid v f = false.
Proof.
  intros Hv Hin Hnew. pose proof (Hpiece f (Hin f (or_introl eq_refl))) as Hf. pose proof (ow_holds _ _ Hv) as Hh.
  pose proof (payload_pos f (pc_payload _ Hf)) as Hpos. pose proof (pc_end _ Hf) as He. pose proof (pk_header _ Hb) as Hm.
  assert (Hcov : forall x r, In r (asm_data (received v)) -> (r.1 <= x < r.2)%nat -> exists g, In g fs /\ in_frag g x /\ apart f g /\ (f_end g <= whole)%nat).
  { intros x r Hr Hx. destruct (proj1 (ho_covers _ _ Hh x)) as (g & Hg & Hgx); [by exists r|]. exists g. split; [done|]. split; [done|].
    split; [|apply pc_end, Hpiece, Hin; by right]. destruct (gs_apart f g) as [->|]; [apply Hin; by left | apply Hin; by right | done | done]. }
  unfold invalid. rewrite bool_decide_false by apply (pc_payload _ Hf). rewrite (proj2 (Nat.ltb_ge _ _)) by (rewrite (ho_len _ _ Hh), (ow_prefix _ _ Hv); lia).
  rewrite (ow_prefix _ _ Hv), (piece_prefix f Hf), (ow_previous _ _ Hv), (pc_previous _ Hf), (ow_next _ _ Hv), (pc_next _ Hf), Z.eqb_refl. cbn [Nat.eqb negb orb].
  apply orb_false_iff. split; [apply orb_false_iff; split; [apply orb_false_iff; split|]|].
  - destruct (f_more f) eqn:Em; [|done]. by rewrite (pc_aligned _ Hf Em).
  - destruct (total v) as [t|] eqn:Et; [|done]. rewrite (own_total fs v t Hv) by (done || (intros g Hg; apply Hin; by right)).
    pose proof (pc_more _ Hf) as Hmore. rewrite (proj2 (Nat.ltb_ge _ _)) by lia. destruct (f_more f); simpl; symmetry in Hmore.
    + apply Nat.ltb_lt in Hmore. apply Nat.leb_gt. lia.
    + apply Nat.ltb_ge in Hmore. rewrite (proj2 (Nat.eqb_eq _ _)) by lia. done.
  - destruct (f_more f) eqn:Em; [done|]. pose proof (pc_more _ Hf) as Hmore. rewrite Em in Hmore. symmetry in Hmore. apply Nat.ltb_ge in Hmore.
    apply not_true_iff_false. intros (r & Hr & Hlt%Nat.ltb_lt)%existsb_exists. pose proof (asm_data_ranges _ _ Hr).
    destruct (Hcov (r.2 - 1)%nat r Hr) as (g & _ & Hgx & _ & Hge); [lia|]. unfold in_frag in Hgx. lia.
  - apply not_true_iff_false. intros (r & Hr & [Hl1%Nat.ltb_lt Hl2%Nat.ltb_lt]%andb_true_iff)%existsb_exists. pose proof (asm_data_ranges _ _ Hr).
    destruct (Hcov (Nat.max (f_start f) r.1) r Hr) as (g & _ & Hgx & Hap & _); [lia|]. unfold in_frag, apart in *. lia.
Qed.

(** It is complete when all have been received, and not before. *)
Lemma own_front fs v : own fs v -> incl fs gs -> (length fs < length gs)%nat -> asm_front (received v) <> whole.
Proof.
  intros Hv Hin Hlt Ef. enough (Hincl : incl gs fs) by (pose proof (NoDup_incl_length gs_nodup Hincl); lia). intros g Hg.
  pose proof (Hpiece g Hg) as Hp. pose proof (payload_pos g (pc_payload _ Hp)). pose proof (pc_end _ Hp).
  destruct (proj1 (ho_covers _ _ (ow_holds _ _ Hv) (f_start g))) as (h & Hh & Hx); [apply asm_front_covered; lia|].
  unfold in_frag in Hx. destruct (gs_apart g h Hg (Hin h Hh)) as [->|[|]]; [done | lia | lia].
Qed.

Lemma own_complete fs v : own fs v -> incl fs gs -> incl gs fs -> total v = Some whole /\ asm_front (received v) = whole.
Proof.
  intros Hv Hin Hall. pose proof (ow_holds _ _ Hv) as Hh. split.
  - destruct (Hcover (whole - 1)) as (g & Hg & Hx); [lia|]. unfold in_frag in Hx. pose proof (Hpiece g Hg) as Hp.
    pose proof (pc_end _ Hp). assert (Hm : f_more g = false) by (rewrite (pc_more _ Hp); apply Nat.ltb_ge; lia).
    pose proof (ho_total _ _ Hh) as Ht. destruct (total v) as [t|] eqn:Et; [by rewrite (own_total fs v t Hv Hin Et)|].
    by rewrite (Ht g (Hall g Hg)) in Hm.
  - destruct (Nat.lt_trichotomy (asm_front (received v)) whole) as [Hl|[|Hl]]; [|done|].
    + destruct (asm_front_end (received v)). apply (ho_covers _ _ Hh). destruct (Hcover _ Hl) as (f & Hf & Hx). exists f. by split; [apply Hall|].
    + destruct (proj1 (ho_covers _ _ Hh whole)) as (g & Hg & Hx); [by apply asm_front_covered|].
      pose proof (pc_end _ (Hpiece g (Hin g Hg))). unfold in_frag in Hx. lia.
Qed.

Lemma own_data fs v : own fs v -> incl gs fs -> take whole (asm_bytes v) = drop 40 b.
Proof.
  intros Hv Hall. pose proof (ow_holds _ _ Hv) as Hh. pose proof (pk_header _ Hb) as Hl. apply list_eq. intros x.
  destruct (decide (x < whole)%nat) as [Hx|Hx].
  2:{ rewrite lookup_take_ge by lia. symmetry. apply lookup_ge_None. rewrite length_drop. lia. }
  rewrite lookup_take_lt by done. destruct (Hcover x Hx) as (f & Hf & Hin). unfold in_frag in Hin.
  destruct (ho_data _ _ Hh f (Hall f Hf)) as [_ Hd]. rewrite <- (pc_data _ (Hpiece f Hf)) in Hd at 2.
  apply (f_equal (lookup (x - f_start f)%nat)) in Hd. unfold f_end in Hin. rewrite !lookup_take_lt, !lookup_drop in Hd by lia.
  rewrite lookup_drop. replace (f_start f + (x - f_start f))%nat with x in Hd by lia. by replace (40 + (f_start f + (x - f_start f)))%nat with (40 + x)%nat in Hd by lia.
Qed.

Lemma own_rebuild fs v : own fs v -> incl gs fs -> rebuild (prefix v) (previous v) (next v) (take whole (asm_bytes v)) = Ok b.
Proof.
  intros Hv Hall. destruct (Hcover 0) as (f & Hf & Hin); [lia|]. unfold in_frag in Hin. assert (E0 : f_start f = 0%nat) by lia.
  rewrite (ho_first _ _ (ow_holds _ _ Hv) f (Hall f Hf) E0), (ow_previous _ _ Hv), (ow_next _ _ Hv), (own_data fs v Hv Hall).
  destruct (pc_prefix _ (Hpiece f Hf)) as (n & Hn & ->). by apply rebuild_header.
Qed.

Lemma put_piece p v fs f : own fs v -> incl (f :: fs) gs -> List.NoDup (f :: fs) ->
  if (S (length fs) =? length gs)%nat then (put p v f).1 = Ok (Some b)
  else exists v', put p v f = (Ok None, <[the_key := v']> p) /\ own (f :: fs) v' /\ created v' = created v.
Proof.
  intros Hv Hin Hnd. assert (Hnew : ~ In f fs) by (by inversion Hnd). pose proof (NoDup_incl_length Hnd Hin) as Hlen. simpl in Hlen.
  pose proof (own_valid fs v f Hv Hin Hnew) as Einv. pose proof (ow_holds _ _ Hv) as Hh. unfold put. rewrite (ow_live _ _ Hv), Einv.
  destruct (asm_add_ok (received v) (f_start f) (length (f_payload f))) as [a Ea]; [pose proof (ho_ranges _ _ Hh); lia|]. rewrite Ea.
  pose proof (valid_of _ _ _ Hh Einv) as Hva. rewrite (valid_no_panic _ _ _ Hva). cbv zeta.
  assert (Hown : own (f :: fs) (fill v f a)).
  { destruct Hv as [? ? Hp ? ?]. split; cbn [fill rejected prefix previous next]; try done; [by apply fill_holds|]. destruct (_ =? _)%nat; [|done].
    by rewrite (va_prefix _ _ _ Hva). }
  rewrite (pc_key _ (Hpiece f (Hin f (or_introl eq_refl)))). destruct (Nat.eqb_spec (S (length fs)) (length gs)) as [Hc|Hc].
  - assert (Hall : incl gs (f :: fs)) by (apply NoDup_length_incl; [done | simpl; lia | done]).
    destruct (own_complete _ _ Hown Hin Hall) as [-> Hfront]. cbn [fill received] in Hfront. rewrite Hfront, Nat.eqb_refl.
    rewrite (proj2 (Nat.ltb_ge _ _)); [by rewrite (own_rebuild _ _ Hown Hall)|].
    rewrite (ho_len _ _ (ow_holds _ _ Hown)), (ow_prefix _ _ Hown). pose proof (pk_header _ Hb). lia.
  - exists (fill v f a). destruct (total (fill v f a)) as [t|] eqn:Et; [|done]. rewrite (own_total _ _ t Hown Hin Et).
    pose proof (own_front _ _ Hown Hin) as Hf. cbn [fill received length] in Hf. by rewrite (proj2 (Nat.eqb_neq _ _)) by (apply Hf; lia).
Qed.

(** The queue when [fs] have been received, none before [t0]. *)
Definition progress (t0 : Z) (fs : list fragment_of) (p : gmap key Assembly) : Prop :=
  match fs with
  | [] => p !! the_key = None
  | _ => exists v, p !! the_key = Some v /\ own fs v /\ t0 <= created v
  end.

Lemma progress_expire t0 fs p now : progress t0 fs p -> now < t0 + LIFETIME -> progress t0 fs (expire now p).
Proof.
  intros Hp Hn. destruct fs as [|f fs]; [by apply expire_None|]. destruct Hp as (v & Hv & Ho & Ht). exists v. split; [|done].
  apply expire_lookup; [done|]. apply Z.ltb_lt. unfold LIFETIME in *. lia.
Qed.

Lemma progress_other t0 fs p x now : progress t0 fs p -> now < t0 + LIFETIME -> carries the_key x = false -> progress t0 fs (accept p x now).2.
Proof.
  intros Hp Hn Hc. pose proof (progress_expire t0 fs p now Hp Hn) as He.
  destruct (accept_other p x now the_key Hc) as [Hl _]. destruct fs as [|f fs]; [cbn [progress] in *; by destruct Hl as [-> | ->]|].
  destruct Hl as [Hl|Hl]; [destruct Hp as (v & Hv & Ho) | destruct He as (v & Hv & Ho)]; exists v; by rewrite Hl.
Qed.

(** Receiving one more. *)
Lemma accept_piece t0 fs p x now f : progress t0 fs p -> t0 <= now < t0 + LIFETIME -> parse_packet x = Fragment f ->
  (fs = [] -> (base.size p < MAX_PACKETS)%nat) -> incl (f :: fs) gs -> List.NoDup (f :: fs) ->
  if (S (length fs) =? length gs)%nat then (accept p x now).1 = Ok (Some b)
  else (accept p x now).1 = Ok None /\ progress t0 (f :: fs) (accept p x now).2.
Proof.
  intros Hp Hn Hx Hs Hin Hnd. unfold accept. rewrite Hx. pose proof (Hpiece f (Hin f (or_introl eq_refl))) as Hf. unfold join.
  assert (Ha : negb (f_more f) && (f_start f =? 0)%nat = false).
  { rewrite (pc_more _ Hf). destruct (Nat.eqb_spec (f_start f) 0) as [E|]; [|by rewrite andb_false_r].
    pose proof (pc_step _ Hf). rewrite (proj2 (Nat.ltb_lt _ _)); [done|]. unfold f_end. lia. }
  rewrite Ha. cbv zeta. apply (progress_expire t0 fs p now) in Hp; [|lia]. set (e := expire now p) in *.
  assert (He : exists v, entry e f now = Some v /\ own fs v /\ t0 <= created v).
  { unfold entry. rewrite (pc_key _ Hf). destruct fs as [|g fs].
    - rewrite Hp. rewrite (proj2 (Nat.ltb_lt _ _)) by (pose proof (expire_size now p); unfold e; specialize (Hs eq_refl); lia).
      rewrite (piece_prefix f Hf), (proj2 (Nat.ltb_lt _ _)) by (unfold MAX_PACKET; lia). eexists. split; [done|].
      split; [|simpl; lia]. split; cbn [assembly_new rejected prefix previous next]; try done; [|by apply piece_prefix | apply (pc_previous _ Hf) | apply (pc_next _ Hf)].
      apply assembly_new_holds; [split|]; rewrite (piece_prefix f Hf), ?(pc_previous _ Hf); unfold MAX_PACKET; lia.
    - destruct Hp as (v & -> & Ho & Ht). by exists v. }
  destruct He as (v & -> & Ho & Ht). pose proof (put_piece e v fs f Ho Hin Hnd) as Hput. destruct (Nat.eqb_spec (S (length fs)) (length gs)); [done|].
  destruct Hput as (v' & -> & Ho' & Hc). split; [done|]. exists v'. cbn [snd]. split; [apply lookup_insert_eq | by rewrite Hc].
Qed.

Lemma feed_pieces t0 evs : forall p fs, progress t0 fs p -> Forall (fun e => t0 <= e.2 < t0 + LIFETIME) evs ->
  (fs = [] -> (base.size p + length (filter (fun x => carries the_key x = false) evs.*1) < MAX_PACKETS)%nat) ->
  incl (omap (carried the_key) evs.*1 ++ fs) gs -> List.NoDup (omap (carried the_key) evs.*1 ++ fs) ->
  (length (omap (carried the_key) evs.*1 ++ fs) < length gs)%nat ->
  exists fs', progress t0 fs' (feed p evs) /\ fs' ≡ₚ omap (carried the_key) evs.*1 ++ fs /\ (fs' = [] -> (base.size (feed p evs) < MAX_PACKETS)%nat).
Proof.
  induction evs as [|[x now] evs IH]; intros p fs Hp Ht Hs Hin Hnd Hlen; [exists fs; split; [done|]; split; [done|]; intros ->; specialize (Hs eq_refl); cbn [feed]; lia|].
  apply Forall_cons in Ht as [Hn Ht]. cbn [snd] in Hn. cbn [fmap list_fmap feed fst omap list_omap] in *. destruct (carries the_key x) eqn:Ec.
  - apply carries_Some in Ec as (f & Hf & Hk). assert (Ecd : carried the_key x = Some f) by (unfold carried; rewrite Hf; by rewrite decide_True).
    rewrite Ecd in *. assert (Hperm : (f :: omap (carried the_key) evs.*1) ++ fs ≡ₚ omap (carried the_key) evs.*1 ++ f :: fs) by apply Permutation_middle.
    assert (Hc : incl (f :: fs) gs) by (intros g Hg; apply Hin; destruct Hg as [->|Hg]; [by left | apply in_or_app; by right]).
    assert (Hnd' : List.NoDup (omap (carried the_key) evs.*1 ++ f :: fs)) by (by eapply Permutation_NoDup).
    pose proof (accept_piece t0 fs p x now f Hp Hn Hf) as Ha. rewrite (proj2 (Nat.eqb_neq _ _)) in Ha.
    2:{ cbn [length app] in Hlen. rewrite length_app in Hlen. lia. }
    destruct Ha as [_ Hp']; [intros ->; specialize (Hs eq_refl); lia | done | by apply NoDup_app_remove_l in Hnd' |].
    destruct (IH _ (f :: fs) Hp' Ht) as (fs' & Hfs' & Hpe & Hse); [done | | done | by rewrite <- Hperm |].
    { intros g Hg. apply Hin. by apply (Permutation_in g (symmetry Hperm)). }
    exists fs'. split; [done|]. split; [by rewrite Hpe, <- Hperm | done].
  - assert (Ecd : carried the_key x = None).
    { apply eq_None_not_Some. intros Hsome. apply not_true_iff_false in Ec. apply Ec. by apply bool_decide_eq_true. }
    rewrite Ecd in *. rewrite (filter_cons_True _ x) in Hs by done. cbn [length] in Hs.
    destruct (IH (accept p x now).2 fs) as (fs' & Hfs' & Hpe & Hse); try done; [by apply progress_other; [|lia|] | | by exists fs'].
    intros E. specialize (Hs E). destruct (accept_other p x now the_key Ec) as [_ Hsz]. lia.
Qed.

End receive.
End frames.

(** ** The frames of [fragment] *)

Lemma carried_filter k (l : list (list Z)) : omap (carried k) (filter (fun y => carries k y = true) l) = omap (carried k) l.
Proof.
  induction l as [|y l IH]; [done|]. rewrite filter_cons. destruct (decide (carries k y = true)) as [E|E]; cbn [omap list_omap]; rewrite IH; [done|].
  destruct (carried k y) eqn:Ec; [|done]. destruct E. apply bool_decide_eq_true. by rewrite Ec.
Qed.

Lemma carried_frames k (frames : list (list Z)) gs : parse_packet <$> frames = Fragment <$> gs -> (forall f, In f gs -> f_key f = k) -> omap (carried k) frames = gs.
Proof.
  revert gs. induction frames as [|x frames IH]; intros [|g gs] E Hk; try done. cbn [fmap list_fmap] in E. injection E as Ex E.
  cbn [omap list_omap]. unfold carried at 1. rewrite Ex, decide_True by (apply Hk; by left). f_equal. apply IH; [done|]. intros f Hf. apply Hk. by right.
Qed.

Lemma frame_length b ident step whole index chunk : (40 <= length b)%nat -> len chunk < 2 ^ 16 - 8 ->
  length (frame_of b ident step whole index chunk) = (48 + length chunk)%nat.
Proof.
  intros Hb Hc. rewrite frame_of_eq by done. rewrite !length_app, frag_emit_length. unfold frame_header.
  assert (L : length (take 40 b) = 40%nat) by (rewrite length_take; lia).
  rewrite !length_mem_write; rewrite ?length_mem_write; rewrite ?length_be_encode, ?L; simpl length; lia.
Qed.

Lemma chunks_small n fuel : forall l c, In c (chunks fuel n l) -> (length c <= n)%nat.
Proof.
  induction fuel as [|fuel IH]; intros l c; [by destruct l|]. destruct l as [|y l]; [done|]. cbn [chunks].
  intros [<-|Hc]; [rewrite length_take; lia | by eapply IH].
Qed.

Lemma fragment_ok b mtu ident : packet b -> (1280 <= mtu < length b)%nat -> 0 <= ident < 2 ^ 32 -> let step := ((mtu - 48) / 8 * 8)%nat in
  let cs := chunks (length (drop 40 b)) step (drop 40 b) in
  fragment b mtu ident = Ok (imap (frame_of b ident step (length b - 40)) cs) /\
  (0 < step)%nat /\ (step mod 8 = 0)%nat /\ (step < length b - 40)%nat /\ (48 + step <= mtu)%nat /\ chunked step cs /\ concat cs = drop 40 b.
Proof.
  intros Hb Hm Hid step cs. pose proof (pk_header _ Hb) as Hl.
  assert (Hs : (1232 <= step)%nat /\ (48 + step <= mtu)%nat /\ (step mod 8 = 0)%nat).
  { unfold step. split; [|split]; [change 1232%nat with (154 * 8)%nat; apply Nat.mul_le_mono_r, (Nat.div_le_lower_bound _ _ 154); lia | |].
    - pose proof (Nat.Div0.mul_div_le (mtu - 48) 8). lia.
    - apply Nat.Div0.mod_mul. }
  assert (Hck : ip6_checked b = true).
  { rewrite ip6_checked_spec, (pk_length _ Hb). apply andb_true_iff. rewrite !Z.leb_le. lia. }
  assert (Hpl : ip6_payload b = drop 40 b).
  { rewrite ip6_payload_spec, (pk_length _ Hb) by done. apply take_ge. rewrite length_drop. lia. }
  assert (Hnx : (ip6_next_header b =? Udp) || (ip6_next_header b =? Tcp) || (ip6_next_header b =? Icmpv6) = true).
  { by destruct (pk_next _ Hb) as [->|[->| ->]]. }
  split.
  - unfold fragment. rewrite (proj2 (Nat.leb_gt _ _)) by lia. pose proof (pk_version _ Hb) as Hv. destruct b as [|b0 b'] eqn:Eb; [done|]. rewrite <- Eb in *.
    rewrite Hv, Hck, Hnx, Hpl, (proj2 (Nat.leb_le 1280 _)), (proj2 (Nat.leb_le _ MAX_PACKET)) by lia. cbn [negb orb andb Z.eqb Pos.eqb ensure obind].
    unfold cs. rewrite <- Eb. by rewrite length_drop.
  - split; [lia|]. split; [apply Hs|]. split; [lia|]. split; [apply Hs|]. apply chunks_chunked; lia.
Qed.

(** C29: fragmentation and reassembly are inverse.  A packet longer than the MTU is
    cut into frames that fit it; received in any order, among any other packets and
    within 30 seconds, while the queue has room, the last of them to arrive makes
    the queue return exactly the packet.  The number of frames is limited by the
    ranges the assembler can track. *)
Theorem fragments_reassembled b mtu ident : packet b -> (1280 <= mtu < length b)%nat -> 0 <= ident < 2 ^ 32 ->
  let k := (ip6_src_addr b, ip6_dst_addr b, ident) in
  exists frames, fragment b mtu ident = Ok frames /\ Forall (fun x => length x <= mtu)%nat frames /\
  forall p t0 evs x now, (length frames <= asm_max)%nat -> p !! k = None -> carries k x = true ->
    filter (fun y => carries k y = true) (evs.*1 ++ [x]) ≡ₚ frames ->
    Forall (fun e => t0 <= e.2 < t0 + LIFETIME) (evs ++ [(x, now)]) ->
    (base.size p + length (filter (fun y => carries k y = false) evs.*1) < MAX_PACKETS)%nat ->
    (accept (feed p evs) x now).1 = Ok (Some b).
Proof.
  intros Hb Hm Hid k. destruct (fragment_ok b mtu ident Hb Hm Hid) as (Hok & Hs0 & Hs8 & Hsl & Hsm & Hch & Hcat).
  set (step := ((mtu - 48) / 8 * 8)%nat) in *. set (cs := chunks _ step _) in *. pose proof (pk_header _ Hb) as Hl. eexists. split; [exact Hok|]. split.
  { apply List.Forall_forall. intros y (i & c & -> & Hc)%list_elem_of_In%elem_of_lookup_imap. apply list_elem_of_lookup_2, list_elem_of_In, chunks_small in Hc.
    unfold MAX_PACKET in Hl. rewrite frame_length by lia. lia. }
  intros p t0 evs x now Hmax Hk Hx Hperm Ht Hroom. set (gs := frag_list b ident step 0 cs).
  assert (Hlc : length (concat cs) = (length b - 40)%nat) by (rewrite Hcat, length_drop; lia).
  assert (Hparse : parse_packet <$> imap (frame_of b ident step (length b - 40)) cs = Fragment <$> gs).
  { apply (parse_frames b ident step); try done. intros _. lia. }
  destruct (pieces b ident step Hb Hs0 Hs8 cs 0) as (Hall & Hsort & Hcov); [lia | done | done |]. fold gs in Hall, Hsort, Hcov.
  assert (Hpiece : forall f, In f gs -> piece b ident step f) by (intros f Hf; by apply (proj1 (List.Forall_forall _ _) Hall f)).
  assert (Hgs : omap (carried k) (evs.*1 ++ [x]) ≡ₚ gs).
  { rewrite <- carried_filter, Hperm. by rewrite (carried_frames k _ gs) by (try done; intros f Hf; apply (pc_key _ _ _ _ (Hpiece f Hf))). }
  assert (Hgl : length gs = length (imap (frame_of b ident step (length b - 40)) cs)).
  { rewrite <- (length_fmap Fragment gs), <- Hparse. by rewrite length_fmap. }
  apply carries_Some in Hx as (f & Hf & Hfk). assert (Ef : carried k x = Some f) by (unfold carried; rewrite Hf; by rewrite decide_True).
  rewrite omap_app in Hgs. cbn [omap list_omap] in Hgs. rewrite Ef in Hgs. rewrite Forall_app, Forall_singleton in Ht. destruct Ht as [Ht Hnow].
  assert (Hnd : List.NoDup gs) by (by apply (gs_nodup b ident step Hs0 Hs8)).
  assert (Hlast : f :: omap (carried k) evs.*1 ≡ₚ gs) by (rewrite <- Hgs; apply Permutation_cons_append).
  assert (Hlen : length gs = S (length (omap (carried k) evs.*1))) by (by rewrite <- Hlast).
  assert (Hnd2 : List.NoDup (f :: omap (carried k) evs.*1)) by (by rewrite Hlast).
  destruct (feed_pieces b ident step Hb Hs0 Hs8 gs Hpiece Hsort (fun y Hy => Hcov y ltac:(lia)) ltac:(lia) Hsl t0 evs p []) as (fs & Hfs & Hpe & Hsz);
    rewrite ?app_nil_r; try done; try lia.
  { intros g Hg. rewrite <- Hlast. by right. }
  { by inversion Hnd2. }
  { fold k. lia. }
  rewrite app_nil_r in Hpe. pose proof (accept_piece b ident step Hb Hs0 Hs8 gs Hpiece Hsort (fun y Hy => Hcov y ltac:(lia)) ltac:(lia) Hsl t0 fs (feed p evs) x now f Hfs Hnow Hf Hsz) as Ha.
  fold k in Hpe. assert (Efl : length fs = length (omap (carried k) evs.*1)) by (by apply Permutation_length).
  rewrite Efl, Hlen, Nat.eqb_refl in Ha. assert (Hall' : f :: fs ≡ₚ gs) by (by rewrite Hpe). apply Ha.
  - intros g Hg. by apply (Permutation_in g Hall').
  - by apply (Permutation_NoDup (symmetry Hall')).
Qed.

End roundtrip.

(** ** Fragments: an instance and examples

    Header fields and an assembler that satisfy [SmoltcpLaws], and the theorems
    about fragments at a packet of 1440 bytes. *)

(** The first byte from [x] on that no range contains. *)
Fixpoint first_gap (fuel : nat) (rs : list (nat * nat)) (x : nat) : nat :=
  match fuel with
  | O => x
  | S fuel => if existsb (fun r => (r.1 <=? x)%nat && (x <? r.2)%nat) rs then first_gap fuel rs (S x) else x
  end.

Definition ranges_end (rs : list (nat * nat)) : nat := foldr (fun r n => Nat.max r.2 n) 0%nat rs.
Definition real_ranges (rs : list (nat * nat)) : list (nat * nat) := List.filter (fun r => r.1 <? r.2)%nat rs.

#[global] Instance example_smoltcp : Smoltcp := {
  ip6_checked b := (40 <=? len b) && (40 + be_decode (take 2 (drop 4 b)) <=? len b);
  ip6_payload_len b := be_decode (take 2 (drop 4 b));
  ip6_next_header b := nth 6 b 0;
  ip6_src_addr b := take 16 (drop 8 b);
  ip6_dst_addr b := take 16 (drop 24 b);
  ip6_payload b := take (Z.to_nat (be_decode (take 2 (drop 4 b)))) (drop 40 b);
  ip6_set_payload_len n b := mem_write b 4 (be_encode 2 n);
  ip6_set_next_header n b := mem_write b 6 [n];
  ext_checked h := (2 <=? len h) && (8 * (nth 1 h 0 + 1) <=? len h);
  ext_next_header h := nth 0 h 0;
  ext_header_len h := nth 1 h 0 mod 256;
  frag_checked h := 6 <=? len h;
  frag_offset h := be_decode (take 2 h) / 8;
  frag_more h := Z.odd (be_decode (take 2 h));
  frag_ident h := be_decode (take 4 (drop 2 h));
  frag_emit o m i := be_encode 2 (8 * o + Z.b2z m) ++ be_encode 4 i;
  Assembler := list (nat * nat);
  asm_new := [];
  asm_add a s n := if (length (real_ranges a) <? 4)%nat then Some ((s, s + n)%nat :: a) else None;
  asm_data := real_ranges;
  asm_front a := first_gap (S (ranges_end (real_ranges a))) (real_ranges a) 0
}.

Lemma in_ranges rs x : existsb (fun r => (r.1 <=? x)%nat && (x <? r.2)%nat) rs = true <-> exists r, In r rs /\ (r.1 <= x < r.2)%nat.
Proof.
  rewrite existsb_exists. split; intros (r & Hr & Hx); exists r; (split; [done|]).
  - by apply andb_true_iff in Hx as [?%Nat.leb_le ?%Nat.ltb_lt].
  - apply andb_true_iff. by rewrite Nat.leb_le, Nat.ltb_lt.
Qed.

Lemma ranges_end_bound rs x : (exists r, In r rs /\ (r.1 <= x < r.2)%nat) -> (x < ranges_end rs)%nat.
Proof.
  intros (r & Hr & Hx). induction rs as [|r' rs IH]; [done|]. cbn [ranges_end foldr]. fold (ranges_end rs). destruct Hr as [->|Hr]; [lia|].
  specialize (IH Hr). lia.
Qed.

Lemma first_gap_spec rs : forall fuel x, (ranges_end rs < x + fuel)%nat ->
  (forall y, (x <= y < first_gap fuel rs x)%nat -> exists r, In r rs /\ (r.1 <= y < r.2)%nat) /\
  ~ exists r, In r rs /\ (r.1 <= first_gap fuel rs x < r.2)%nat.
Proof.
  induction fuel as [|fuel IH]; intros x Hf; cbn [first_gap].
  - split; [lia|]. intros Hr%ranges_end_bound. lia.
  - destruct (existsb _ rs) eqn:E.
    + destruct (IH (S x)) as [Hc Hn]; [lia|]. split; [|done]. intros y Hy. destruct (decide (y = x)) as [->|]; [by apply in_ranges | apply Hc; lia].
    + split; [lia|]. intros Hr%in_ranges. congruence.
Qed.

#[global] Instance example_laws : SmoltcpLaws.
Proof.
  assert (Hoff : forall o m, 0 <= o < 2 ^ 13 -> be_decode (be_encode 2 (8 * o + Z.b2z m)) = 8 * o + Z.b2z m).
  { intros o m Ho. rewrite be_decode_encode. change (256 ^ Z.of_nat 2) with 65536. apply Z.mod_small. destruct m; simpl; lia. }
  refine {| asm_max := 4 |}; cbn [example_smoltcp ip6_checked ip6_payload_len ip6_next_header ip6_src_addr ip6_dst_addr ip6_payload ip6_set_payload_len
    ip6_set_next_header ext_header_len frag_checked frag_offset frag_more frag_ident frag_emit Assembler asm_new asm_add asm_data asm_front]; try done.
  - intros o m i Ho. rewrite (take_app_exact 2) by (by rewrite length_be_encode). rewrite Hoff by done. destruct m; simpl Z.b2z; div_lia.
  - intros o m i Ho. rewrite (take_app_exact 2) by (by rewrite length_be_encode). rewrite Hoff by done.
    rewrite Z.odd_add, Z.odd_mul. by destruct m.
  - intros o m i Ho Hi. rewrite (drop_app_exact 2) by (by rewrite length_be_encode). rewrite (take_ge (be_encode 4 i)) by (by rewrite length_be_encode).
    rewrite be_decode_encode. apply Z.mod_small. done.
  - intros h. apply Z.mod_pos_bound. lia.
  - intros a r [_ Hr]%filter_In. by apply Nat.ltb_lt.
  - intros a s n a' Ha Hn x. destruct (_ <? _)%nat; [|done]. injection Ha as <-. unfold covers. cbn [asm_data example_smoltcp].
    assert (E : real_ranges ((s, s + n)%nat :: a) = (s, s + n)%nat :: real_ranges a) by (cbn [real_ranges List.filter fst snd]; by rewrite (proj2 (Nat.ltb_lt s (s + n))) by lia).
    rewrite E. split.
    + intros (r & [<-|Hr] & Hx); [by right | left; by exists r].
    + intros [(r & Hr & Hx)|Hx]; [exists r; by split; [right|] | eexists; split; [by left | done]].
  - intros a s n a' Ha. destruct (_ <? _)%nat; [|done]. injection Ha as <-. cbn [real_ranges List.filter]. destruct (_ <? _)%nat; simpl; unfold real_ranges; lia.
  - intros a s n Ha. rewrite (proj2 (Nat.ltb_lt _ _) Ha). by eexists.
  - intros a x Hx. destruct (first_gap_spec (real_ranges a) (S (ranges_end (real_ranges a))) 0) as [Hc _]; [lia|]. apply Hc. lia.
  - intros a. apply (first_gap_spec (real_ranges a) (S (ranges_end (real_ranges a))) 0). lia.
Defined.

(** *** A packet of 1440 bytes *)

Definition example_packet : list Z :=
  [96; 0; 0; 0; 5; 120; 17; 64] ++ replicate 15 0 ++ [1] ++ replicate 15 0 ++ [2] ++ replicate 1400 7.
Definition example_frames : list (list Z) := match fragment example_packet 1280 7 with Ok l => l | _ => [] end.
Definition first_frame : list Z := nth 0 example_frames [].
Definition second_frame : list Z := nth 1 example_frames [].

Lemma example_packet_ok : packet example_packet.
Proof.
  assert (El : length example_packet = 1440%nat) by (by vm_compute).
  split; [|by vm_compute | rewrite El; unfold MAX_PACKET; lia | by vm_compute | left; by vm_compute]. unfold example_packet.
  repeat apply bytes_app_2; try (apply bytes_replicate; by vm_compute); byte_list.
Qed.

Example frame_sizes : length first_frame = 1280%nat /\ length second_frame = 216%nat /\ length example_frames = 2%nat /\
  take 8 (drop 40 first_frame) = [17; 0; 0; 1; 0; 0; 0; 7] /\ take 8 (drop 40 second_frame) = [17; 0; 4; 208; 0; 0; 0; 7].
Proof. by vm_compute. Qed.

Lemma reassembly_sound_witness : exists p, reach [(second_frame, 5)] p /\ (accept p first_frame 9).1 = Ok (Some example_packet) /\
  exists fs, joined fs example_packet.
Proof.
  exists (accept ∅ second_frame 5).2. assert (Hr : reach [(second_frame, 5)] (accept ∅ second_frame 5).2).
  { apply (reach_accept [] ∅ second_frame 5); [constructor | done]. }
  assert (Ha : (accept (accept ∅ second_frame 5).2 first_frame 9).1 = Ok (Some example_packet)) by (by vm_compute).
  split; [done|]. split; [done|].
  destruct (reassembly_sound [(second_frame, 5)] _ first_frame 9 Hr) as (o & Ho & Hq); [repeat constructor; simpl; lia|].
  rewrite Ha in Ho. injection Ho as <-. destruct (Hq _ eq_refl) as [Hw|(fs & Hfs & _)]; [by vm_compute in Hw | by exists fs].
Defined.

Lemma queue_bounded_witness : reach [(second_frame, 5)] (accept ∅ second_frame 5).2 /\ (base.size (accept ∅ second_frame 5).2 <= 64)%nat.
Proof.
  assert (Hr : reach [(second_frame, 5)] (accept ∅ second_frame 5).2) by (apply (reach_accept [] ∅ second_frame 5); [constructor | done]).
  split; [done|]. apply (queue_bounded _ _ Hr).
Defined.

(** The frames in the other order, with a packet in between. *)
Lemma fragments_reassembled_witness : (accept (feed ∅ [(second_frame, 5); ([69; 0], 6)]) first_frame 9).1 = Ok (Some example_packet).
Proof.
  destruct (fragments_reassembled example_packet 1280 7 example_packet_ok) as (frames & Hf & _ & H); [change (length example_packet) with 1440%nat; lia | lia |].
  assert (E : fragment example_packet 1280 7 = Ok [first_frame; second_frame]) by (by vm_compute). rewrite E in Hf. injection Hf as <-.
  apply (H ∅ 0); [by vm_compute; lia | done | by vm_compute | | repeat constructor; unfold LIFETIME; simpl; lia | by vm_compute; lia].
  match goal with |- ?l ≡ₚ _ => assert (El : l = [second_frame; first_frame]) by (by vm_compute) end. rewrite El. apply Permutation_swap.
Defined.
