(* ===== verification/DnsCache.v ===== *)
(** * The cache of the resolver

    [cached_exchange] and [clear_cache] of crates/core/src/dns.rs.  Messages are
    those of the crate hickory: the fields the cache reads and changes, and the
    rest ([Hickory]).  An exchange waits between the look-up and the update of the
    cache, so these are two operations; each of them holds the lock.  Behind the operations, what the cache promises:
    its bounds, the freshness of what it returns, and that it returns what it was
    given. *)

From S2P Require Import Prelude FfiAbi.
Local Open Scope Z_scope.

(** What the code uses of hickory: the rest of a record and of a message, the
    minimum of an SOA record; below, [Message::to_vec]. *)
Class Hickory := {
  RecordRest : Type;
  MessageRest : Type;
  soa_minimum : RecordRest -> option Z
}.

Section messages.
Context `{Hickory}.

Record DnsRecord := mk_record { ttl : Z; rdata : RecordRest }.
Record Message := mk_message {
  msg_id : Z; response_code : Z; truncated : bool;
  answers : list DnsRecord; name_servers : list DnsRecord; additionals : list DnsRecord; msg_rest : MessageRest
}.

Definition set_id (n : Z) (m : Message) : Message :=
  mk_message n (response_code m) (truncated m) (answers m) (name_servers m) (additionals m) (msg_rest m).

Definition NoError : Z := 0.
Definition NXDomain : Z := 3.

(** [record.set_ttl(record.ttl().saturating_sub(elapsed))]. *)
Definition age_record (elapsed : Z) (r : DnsRecord) : DnsRecord := mk_record (Z.max 0 (ttl r - elapsed)) (rdata r).
Definition age (elapsed : Z) (m : Message) : Message :=
  mk_message (msg_id m) (response_code m) (truncated m) (age_record elapsed <$> answers m) (age_record elapsed <$> name_servers m)
    (age_record elapsed <$> additionals m) (msg_rest m).

(** [Iterator::min]. *)
Definition minimum (l : list Z) : option Z :=
  match l with [] => None | x :: l => Some (foldl Z.min x l) end.

Definition negative (m : Message) : bool := (response_code m =? NXDomain) || bool_decide (length (answers m) = 0%nat).

(** How long a response may be kept, in seconds. *)
Definition response_ttl (m : Message) : Z :=
  Z.min (default 0 (if negative m then minimum (omap (fun r => Z.min (ttl r) <$> soa_minimum (rdata r)) (name_servers m))
                    else minimum (ttl <$> answers m ++ name_servers m ++ additionals m))) 3600.

End messages.

Section cache.
Context `{Hickory}.

(** [Message::to_vec]. *)
Class Wire := { to_vec : Message -> outcome (list Z) }.
Context `{Wire}.

Record CacheEntry := mk_entry { response : Message; inserted : Z; expires : Z; entry_size : Z }.
Record Cache := mk_cache { entries : gmap (list Z) CacheEntry; cache_size : Z }.

Definition Cache_default : Cache := mk_cache ∅ 0.

(** The order in which a HashMap is walked. *)
Class HashOrder := {
  walk : gmap (list Z) CacheEntry -> list (list Z * CacheEntry);
  walk_perm : forall m, walk m ≡ₚ map_to_list m
}.
Context `{HashOrder}.

Definition MAX_ENTRIES : Z := 4096.
Definition MAX_BYTES : Z := 8 * 1024 * 1024.
(** Instants are in nanoseconds. *)
Definition second : Z := 10 ^ 9.

Definition request_key (request : Message) : outcome (list Z) := to_vec (set_id 0 request).

(** The look-up: the clock is read twice. *)
Definition cached (c : Cache) (request : Message) (key : list Z) (now now' : Z) : option Message :=
  match entries c !! key with
  | Some e =>
      if now <? expires e then
        let elapsed := Z.min (Z.max 0 (now' - inserted e) / second) (2 ^ 32 - 1) in
        Some (age elapsed (set_id (msg_id request) (response e)))
      else None
  | None => None
  end.

(** [min_by_key] returns the first of the least elements. *)
Definition older (a b : list Z * CacheEntry) : list Z * CacheEntry := if inserted b.2 <? inserted a.2 then b else a.
Definition oldest (m : gmap (list Z) CacheEntry) : option (list Z) :=
  match walk m with [] => None | x :: l => Some (foldl older x l).1 end.

Definition total_size (m : gmap (list Z) CacheEntry) : Z := map_fold (fun _ e n => entry_size e + n) 0 m.

(** The loop that makes room; every round removes an entry. *)
Fixpoint evict (fuel : nat) (c : Cache) (size : Z) : Cache :=
  match fuel with
  | O => c
  | S fuel =>
      if (MAX_ENTRIES <=? Z.of_nat (base.size (entries c))) || (MAX_BYTES <? cache_size c + size) then
        match oldest (entries c) with
        | None => c
        | Some k =>
            match entries c !! k with
            | Some e => evict fuel (mk_cache (delete k (entries c)) (cache_size c - entry_size e)) size
            | None => c
            end
        end
      else c
  end.

(** The update.  [retained] is the clock as it is read for an entry. *)
Definition insert_response (c : Cache) (key : list Z) (m : Message) (size : Z) (retained : list Z -> Z) (now now' : Z) : Cache :=
  let kept := filter (fun ke => retained ke.1 < expires ke.2) (entries c) in
  let kept := delete key kept in
  let c := evict (S (base.size kept)) (mk_cache kept (total_size kept)) size in
  if size <=? MAX_BYTES then
    mk_cache (<[key := mk_entry m now (now' + response_ttl m * second) size]> (entries c)) (cache_size c + size)
  else c.

(** What is done with the answer of an exchange. *)
Definition cache_response (c : Cache) (key : list Z) (m : Message) (retained : list Z -> Z) (now now' : Z) : outcome Message * Cache :=
  if (0 <? response_ttl m) && negb (truncated m) && ((response_code m =? NoError) || (response_code m =? NXDomain)) then
    match to_vec m with
    | Ok bytes => (Ok m, insert_response c key m (len key + len bytes) retained now now')
    | Err e => (Err e, c)
    | Panicked => (Panicked, c)
    end
  else (Ok m, c).

(** [clear_cache]. *)
Definition clear_cache (c : Cache) : Cache := Cache_default.

End cache.
Arguments Wire {_}.
Arguments HashOrder {_}.

(** ** What the cache of the resolver promises

    Its bounds, the freshness of what it returns, and that it returns what it was
    given. *)

(** *** The least of a list *)

Lemma foldl_min_le l : forall x y, In y (x :: l) -> foldl Z.min x l <= y.
Proof.
  induction l as [|z l IH]; intros x y Hy; [destruct Hy as [->|[]]; simpl; lia|]. cbn [foldl].
  destruct Hy as [->|[->|Hy]]; [| |by apply IH; right].
  all: etrans; [apply IH; by left | lia].
Qed.

Lemma minimum_le l x y : minimum l = Some x -> In y l -> x <= y.
Proof. destruct l as [|z l]; [done|]. intros [= <-]. apply foldl_min_le. Qed.

Section facts.
Context {HK : Hickory} {WI : Wire} {HO : HashOrder}.

Lemma foldl_older l : forall x, In (foldl older x l) (x :: l) /\ forall y, In y (x :: l) -> inserted (foldl older x l).2 <= inserted y.2.
Proof.
  induction l as [|z l IH]; intros x; [split; [by left|]; intros y [->|[]]; simpl; lia|]. cbn [foldl].
  destruct (IH (older x z)) as [Hin Hle]. assert (Ho : inserted (older x z).2 <= inserted x.2 /\ inserted (older x z).2 <= inserted z.2).
  { unfold older. destruct (Z.ltb_spec (inserted z.2) (inserted x.2)); lia. }
  split.
  - destruct Hin as [E|Hin]; [|right; by right]. rewrite <- E. unfold older. destruct (_ <? _); [right; by left | by left].
  - specialize (Hle (older x z) (or_introl eq_refl)) as H'. intros y [->|[->|Hy]]; [lia | lia | apply Hle; by right].
Qed.

Lemma oldest_spec m : match oldest m with
  | Some k => exists e, m !! k = Some e /\ forall k' e', m !! k' = Some e' -> inserted e <= inserted e'
  | None => m = ∅
  end.
Proof.
  pose proof (walk_perm m) as Hp. unfold oldest. destruct (walk m) as [|x l].
  - apply map_to_list_empty_iff. by apply Permutation_nil.
  - assert (Hin : forall k e, In (k, e) (x :: l) <-> m !! k = Some e).
    { intros k e. rewrite <- elem_of_map_to_list, list_elem_of_In. split; intros Hi; [by apply (Permutation_in _ Hp) | by apply (Permutation_in _ (symmetry Hp))]. }
    destruct (foldl_older l x) as [Hx Hle]. destruct (foldl older x l) as [k e]. exists e. split; [by apply Hin|].
    intros k' e' Hk. by apply (Hle (k', e')), Hin.
Qed.

(** *** Sizes *)

Definition sizes_ok (m : gmap (list Z) CacheEntry) : Prop := forall k e, m !! k = Some e -> 0 <= entry_size e.

Lemma total_size_insert m k e : m !! k = None -> total_size (<[k := e]> m) = entry_size e + total_size m.
Proof. intros Hk. unfold total_size. apply (map_fold_insert_L (fun (_ : list Z) e n => entry_size e + n)); [intros; lia | done]. Qed.

Lemma total_size_delete m k e : m !! k = Some e -> total_size m = entry_size e + total_size (delete k m).
Proof. intros Hk. rewrite <- (total_size_insert _ k) by apply lookup_delete_eq. by rewrite insert_delete_id. Qed.

Lemma total_size_nonneg m : sizes_ok m -> 0 <= total_size m.
Proof.
  induction m as [|k e m Hk IH] using map_ind; intros Hs; [done|]. rewrite total_size_insert by done.
  pose proof (Hs k e (lookup_insert_eq _ _ _)). enough (0 <= total_size m) by lia. apply IH. intros k' e' Hk'. apply (Hs k'). rewrite lookup_insert_ne; [done | congruence].
Qed.

Lemma sizes_ok_sub m m' : sizes_ok m -> m' ⊆ m -> sizes_ok m'.
Proof. intros Hs Hm k e Hk. apply (Hs k). by apply (lookup_weaken _ _ _ _ Hk). Qed.

(** An entry that was pushed out by [size] bytes: of some entries that left no room, to
    which all that stay belong, it was the oldest. *)
Definition pushed_out (before after : gmap (list Z) CacheEntry) (size : Z) (k : list Z) (e : CacheEntry) : Prop :=
  exists full, after ⊆ full /\ full ⊆ before /\ full !! k = Some e /\ (forall k' e', full !! k' = Some e' -> inserted e <= inserted e') /\
  (4096 <= Z.of_nat (base.size full) \/ 8 * 1024 * 1024 < total_size full + size).

(** What making room for [size] bytes does: it ends with room, and removes only
    entries that are pushed out. *)
Lemma evict_spec fuel : forall c size, (base.size (entries c) < fuel)%nat -> sizes_ok (entries c) -> cache_size c = total_size (entries c) ->
  let c' := evict fuel c size in
  entries c' ⊆ entries c /\ cache_size c' = total_size (entries c') /\
  (size <= MAX_BYTES -> Z.of_nat (base.size (entries c')) < MAX_ENTRIES /\ cache_size c' + size <= MAX_BYTES) /\
  (forall k e, entries c !! k = Some e -> entries c' !! k = None -> pushed_out (entries c) (entries c') size k e).
Proof.
  induction fuel as [|fuel IH]; intros c size Hf Hs Ht; [lia|]. cbn [evict].
  destruct (_ || _) eqn:Eg; cbv zeta.
  2:{ apply orb_false_iff in Eg as [E1%Z.leb_gt E2%Z.ltb_ge]. split; [done|]. split; [done|]. split; [done|]. intros. congruence. }
  apply orb_true_iff in Eg. rewrite Z.leb_le, Z.ltb_lt in Eg.
  pose proof (oldest_spec (entries c)) as Ho. destruct (oldest (entries c)) as [k|].
  - destruct Ho as (e & Hk & Hold). rewrite Hk. set (c1 := mk_cache _ _).
    assert (Hsz : base.size (entries c) = S (base.size (entries c1))).
    { unfold c1. cbn [entries]. rewrite map_size_delete, Hk. pose proof (map_size_non_empty_iff (entries c)) as Hn.
      assert (base.size (entries c) <> 0%nat) by (apply Hn; intros E; by rewrite E in Hk). lia. }
    destruct (IH c1 size) as (Hsub & Hc & Hroom & Horder); [lia | | |].
    { eapply sizes_ok_sub; [exact Hs | apply delete_subseteq]. }
    { unfold c1. cbn [entries cache_size]. rewrite Ht, (total_size_delete _ _ _ Hk). lia. }
    split; [etrans; [exact Hsub | apply delete_subseteq]|]. split; [done|]. split; [done|]. intros k1 e1 H1 H1'.
    assert (Hdel : entries c1 ⊆ entries c) by apply delete_subseteq.
    destruct (decide (k1 = k)) as [->|Hne].
    + rewrite Hk in H1. injection H1 as <-. exists (entries c). rewrite <- Ht. split; [by etrans|]. by repeat (split; [done|]).
    + destruct (Horder k1 e1) as (full & ? & ? & ?); [unfold c1; cbn [entries]; by rewrite lookup_delete_ne | done|].
      exists full. split; [done|]. split; [by etrans | done].
  - rewrite Ho in *. split; [done|]. split; [done|]. split; [|intros; by rewrite lookup_empty in *].
    intros Hsize. rewrite Ht. vm_compute (total_size ∅). unfold MAX_ENTRIES, MAX_BYTES in *. rewrite map_size_empty. lia.
Qed.

(** *** Runs *)

(** A response that was put into the cache under a key: [inserted] and [expires]
    are computed from two readings of the clock. *)
Record stored := mk_stored { st_key : list Z; st_message : Message; st_now : Z; st_now' : Z }.

(** Any updates and clearings of a cache, in any order: the exchanges of all tasks
    interleave at these.  The clock never goes back. *)
Inductive run_cache : list stored -> Z -> Cache -> Prop :=
  | run_new t : run_cache [] t Cache_default
  | run_response h t c key m retained now now' :
      run_cache h t c -> t <= now <= now' -> (forall k, t <= retained k <= now) -> run_cache (h ++ [mk_stored key m now now']) now' (cache_response c key m retained now now').2
  | run_clear h t c : run_cache h t c -> run_cache h t (clear_cache c).

Definition cacheable (m : Message) : Prop := 0 < response_ttl m /\ truncated m = false /\ (response_code m = NoError \/ response_code m = NXDomain).

Record cache_inv (h : list stored) (t : Z) (c : Cache) : Prop := {
  ci_entries : Z.of_nat (base.size (entries c)) <= MAX_ENTRIES;
  ci_size : cache_size c = total_size (entries c);
  ci_bytes : cache_size c <= MAX_BYTES;
  ci_sizes : forall k e, entries c !! k = Some e -> exists bytes, to_vec (response e) = Ok bytes /\ entry_size e = len k + len bytes;
  ci_stored : forall k e, entries c !! k = Some e -> exists s, In s h /\ st_key s = k /\ response e = st_message s /\ inserted e = st_now s /\
    expires e = st_now' s + response_ttl (st_message s) * second /\ cacheable (st_message s) /\ st_now s <= st_now' s <= t
}.

Lemma ci_sizes_ok h t c : cache_inv h t c -> sizes_ok (entries c).
Proof. intros Hc k e Hk. destruct (ci_sizes _ _ _ Hc k e Hk) as (b & _ & ->). lia. Qed.

(** The entries an update starts from. *)
Definition kept (c : Cache) (key : list Z) (retained : list Z -> Z) : gmap (list Z) CacheEntry :=
  delete key (filter (fun ke => retained ke.1 < expires ke.2) (entries c)).

Lemma kept_sub c key retained : kept c key retained ⊆ entries c.
Proof. etrans; [apply delete_subseteq | apply map_filter_subseteq]. Qed.

Lemma insert_response_spec c key m size retained now now' : sizes_ok (entries c) -> 0 <= size -> let c' := insert_response c key m size retained now now' in
  exists rest, rest ⊆ kept c key retained /\
  entries c' = (if size <=? MAX_BYTES then <[key := mk_entry m now (now' + response_ttl m * second) size]> rest else rest) /\
  cache_size c' = total_size (entries c') /\ sizes_ok (entries c') /\
  (size <= MAX_BYTES -> Z.of_nat (base.size (entries c')) <= MAX_ENTRIES /\ cache_size c' <= MAX_BYTES) /\
  (forall k e, kept c key retained !! k = Some e -> rest !! k = None -> pushed_out (kept c key retained) rest size k e).
Proof.
  intros Hs Hsize. unfold insert_response. fold (kept c key retained). set (k0 := kept c key retained). set (ev := evict _ _ _).
  assert (Hk0 : sizes_ok k0) by (eapply sizes_ok_sub; [exact Hs | apply kept_sub]).
  destruct (evict_spec (S (base.size k0)) (mk_cache k0 (total_size k0)) size) as (Hsub & Hc & Hroom & Hord); [simpl; lia | done | done |].
  fold ev in Hsub, Hc, Hroom, Hord. cbn [entries] in *. exists (entries ev). split; [done|].
  assert (Hnone : entries ev !! key = None).
  { apply eq_None_not_Some. intros [e He]. pose proof (lookup_weaken _ _ _ _ He Hsub) as Hl. unfold k0, kept in Hl. by rewrite lookup_delete_eq in Hl. }
  destruct (Z.leb_spec size MAX_BYTES) as [Hm|Hm].
  - destruct (Hroom Hm) as [Hn Hb]. cbn [entries cache_size]. split; [done|]. split; [rewrite total_size_insert by done; simpl; lia|]. split; [|split].
    + intros k e [[<- <-]|[_ He]]%lookup_insert_Some; [done|]. apply (sizes_ok_sub _ _ Hk0 Hsub k e He).
    + intros _. rewrite map_size_insert, Hnone. lia.
    + done.
  - split; [done|]. split; [done|]. split; [by eapply sizes_ok_sub|]. split; [lia | done].
Qed.

Lemma cacheable_spec m : (0 <? response_ttl m) && negb (truncated m) && ((response_code m =? NoError) || (response_code m =? NXDomain)) = true <-> cacheable m.
Proof.
  unfold cacheable. rewrite !andb_true_iff, orb_true_iff, Z.ltb_lt, negb_true_iff, !Z.eqb_eq. tauto.
Qed.

Lemma cache_inv_more h s t t' c : t <= t' -> cache_inv h t c -> cache_inv (h ++ [s]) t' c.
Proof.
  intros Ht [? ? ? ? Hst]. split; try done. intros k e Hk. destruct (Hst k e Hk) as (s' & Hin & Hrest). exists s'.
  split; [apply in_or_app; by left|]. destruct Hrest as (? & ? & ? & ? & ? & ?). repeat (split; [done|]). lia.
Qed.

Lemma total_size_sub m m' : sizes_ok m -> m' ⊆ m -> total_size m' <= total_size m.
Proof.
  revert m. induction m' as [|k e m' Hk IH] using map_ind; intros m Hs Hsub; [by apply total_size_nonneg|].
  assert (Hm : m !! k = Some e) by (apply (lookup_weaken _ _ _ _ (lookup_insert_eq _ _ _) Hsub)).
  rewrite total_size_insert by done. rewrite (total_size_delete _ _ _ Hm). enough (total_size m' <= total_size (delete k m)) by lia.
  apply IH; [eapply sizes_ok_sub; [exact Hs | apply delete_subseteq]|].
  apply map_subseteq_spec. intros k' e' Hk'. rewrite lookup_delete_ne by congruence. apply (lookup_weaken (<[k := e]> m')); [|done].
  rewrite lookup_insert_ne; [done | congruence].
Qed.

Lemma response_inv h t c key m retained now now' : cache_inv h t c -> t <= now <= now' ->
  cache_inv (h ++ [mk_stored key m now now']) now' (cache_response c key m retained now now').2.
Proof.
  intros Hc Ht. pose proof (cache_inv_more h (mk_stored key m now now') t now' c ltac:(lia) Hc) as Hmore. unfold cache_response.
  destruct (_ && _) eqn:Ec; [|done]. apply cacheable_spec in Ec. destruct (to_vec m) as [b|e|] eqn:Eb; [|done|done]. cbn [snd].
  destruct (insert_response_spec c key m (len key + len b) retained now now' (ci_sizes_ok _ _ _ Hc) ltac:(lia)) as (rest & Hsub & He & Hsz & Hok & Hroom & _).
  assert (Hrest : rest ⊆ entries c) by (etrans; [exact Hsub | apply kept_sub]).
  destruct (Z.leb_spec (len key + len b) MAX_BYTES) as [Hm|Hm].
  - destruct (Hroom Hm) as [Hn Hb]. split; try done; rewrite He; intros k e [[<- <-]|[_ Hk]]%lookup_insert_Some.
    + by exists b.
    + by apply (ci_sizes _ _ _ Hc), (lookup_weaken _ _ _ _ Hk).
    + eexists. split; [apply in_or_app; right; by left|]. cbn [st_key st_message st_now st_now' response inserted expires]. repeat (split; [done|]). lia.
    + by apply (ci_stored _ _ _ Hmore), (lookup_weaken _ _ _ _ Hk).
  - split; try done; rewrite ?Hsz, ?He.
    + etrans; [|exact (ci_entries _ _ _ Hc)]. apply inj_le. by apply map_subseteq_size.
    + etrans; [apply (total_size_sub (entries c)); [apply (ci_sizes_ok _ _ _ Hc) | done]|]. rewrite <- (ci_size _ _ _ Hc). apply (ci_bytes _ _ _ Hc).
    + intros k e Hk. by apply (ci_sizes _ _ _ Hc), (lookup_weaken _ _ _ _ Hk).
    + intros k e Hk. by apply (ci_stored _ _ _ Hmore), (lookup_weaken _ _ _ _ Hk).
Qed.

Lemma run_inv h t c : run_cache h t c -> cache_inv h t c.
Proof.
  assert (Hd : forall h t, cache_inv h t Cache_default).
  { intros h' t'. by split. }
  induction 1 as [t|h t c key m retained now now' Hr IH Ht|h t c Hr IH]; [apply Hd | by apply (response_inv h t) | apply Hd].
Qed.

(** An update removes an entry of another key only if it has expired or is pushed
    out. *)
Lemma response_keeps h t c key m retained now now' k e : cache_inv h t c -> k <> key -> entries c !! k = Some e ->
  let c' := (cache_response c key m retained now now').2 in
  entries c' !! k = Some e \/ expires e <= retained k \/
  exists bytes, to_vec m = Ok bytes /\ pushed_out (delete key (entries c)) (delete key (entries c')) (len key + len bytes) k e.
Proof.
  intros Hc Hne Hk. unfold cache_response. destruct (_ && _); [|by left]. destruct (to_vec m) as [b|x|]; [|by left|by left]. cbv zeta. cbn [snd].
  destruct (insert_response_spec c key m (len key + len b) retained now now' (ci_sizes_ok _ _ _ Hc) ltac:(lia)) as (rest & Hsub & He & _ & _ & _ & Hord).
  destruct (Z.le_gt_cases (expires e) (retained k)) as [|Hret]; [by right; left|].
  assert (Hkept : kept c key retained !! k = Some e) by (unfold kept; rewrite lookup_delete_ne by done; by apply map_lookup_filter_Some).
  assert (Hrk : entries (insert_response c key m (len key + len b) retained now now') !! k = rest !! k)
    by (rewrite He; destruct (_ <=? _); [by rewrite lookup_insert_ne | done]).
  rewrite Hrk. destruct (rest !! k) as [e'|] eqn:Er.
  - left. rewrite <- Hkept. symmetry. by apply (lookup_weaken _ _ _ _ Er).
  - right; right. exists b. split; [done|]. destruct (Hord k e Hkept Er) as (full & H1 & H2 & Hrest). exists full.
    split; [|split; [|done]].
    + etrans; [|exact H1]. rewrite He. destruct (_ <=? _); [rewrite delete_insert_eq|]; apply delete_subseteq.
    + etrans; [exact H2|]. apply delete_mono, map_filter_subseteq.
Qed.

(** C35: the cache of the resolver is bounded whatever is asked and answered: at most
    4096 entries and 8 MiB.  An entry counts the bytes of its key and those of its
    response, and the account of the bytes is their sum. *)
Theorem dns_cache_bounded h t c : run_cache h t c -> Z.of_nat (base.size (entries c)) <= 4096 /\
  (forall k e, entries c !! k = Some e -> exists bytes, to_vec (response e) = Ok bytes /\ entry_size e = len k + len bytes) /\
  cache_size c = total_size (entries c) /\ 0 <= cache_size c <= 8 * 1024 * 1024.
Proof.
  intros Hc%run_inv. split; [apply (ci_entries _ _ _ Hc)|]. split; [apply (ci_sizes _ _ _ Hc)|]. split; [apply (ci_size _ _ _ Hc)|].
  split; [rewrite (ci_size _ _ _ Hc); by apply total_size_nonneg, (ci_sizes_ok _ _ _ Hc) | apply (ci_bytes _ _ _ Hc)].
Qed.

(** A response that is not negative lives no longer than any of its records. *)
Lemma response_ttl_le m r : negative m = false -> In r (answers m ++ name_servers m ++ additionals m) -> response_ttl m <= ttl r.
Proof.
  intros Hn Hr. unfold response_ttl. rewrite Hn. cbv iota. destruct (minimum _) as [x|] eqn:E.
  - change (default 0 (Some x)) with x. enough (x <= ttl r) by lia. apply (minimum_le _ _ _ E). by apply (in_map ttl) in Hr.
  - destruct (answers m ++ name_servers m ++ additionals m) as [|? ?]; [done | by cbn in E].
Qed.

(** A negative one lives no longer than any of its SOA records and their minimum. *)
Lemma response_ttl_soa m r x : negative m = true -> In r (name_servers m) -> soa_minimum (rdata r) = Some x -> response_ttl m <= Z.min (ttl r) x.
Proof.
  intros Hn Hr Hx. unfold response_ttl. rewrite Hn. cbv iota.
  assert (Hin : In (Z.min (ttl r) x) (omap (fun r => Z.min (ttl r) <$> soa_minimum (rdata r)) (name_servers m))).
  { apply list_elem_of_In, list_elem_of_omap. exists r. split; [by apply list_elem_of_In | by rewrite Hx]. }
  destruct (minimum _) as [y|] eqn:E.
  - change (default 0 (Some y)) with y. pose proof (minimum_le _ _ _ E Hin). lia.
  - destruct (omap _ (name_servers m)); [done | by cbn in E].
Qed.

(** C33: what the cache returns is fresh: it is a response that is not truncated and
    whose code is NoError or NXDOMAIN, which was stored under the same key, less
    than its time to live and an hour ago, with the identifier of the request and
    the times to live of its records reduced by its age.  Of a response with code
    NoError and answers, none of the records has expired; of another one, which is
    kept by its SOA records only, none of these has, nor is it older than their
    minimum. *)
Theorem dns_cache_fresh h t c request key now now' m : run_cache h t c -> t <= now <= now' -> cached c request key now now' = Some m ->
  exists s, In s h /\ st_key s = key /\ cacheable (st_message s) /\
  now - st_now' s < response_ttl (st_message s) * second /\ now - st_now' s < 3600 * second /\
  m = age (Z.min ((now' - st_now s) / second) (2 ^ 32 - 1)) (set_id (msg_id request) (st_message s)) /\
  (negative (st_message s) = false -> forall r, In r (answers (st_message s) ++ name_servers (st_message s) ++ additionals (st_message s)) ->
     now - st_now' s < ttl r * second) /\
  (negative (st_message s) = true -> forall r x, In r (name_servers (st_message s)) -> soa_minimum (rdata r) = Some x ->
     now - st_now' s < Z.min (ttl r) x * second).
Proof.
  intros Hr%run_inv Ht. unfold cached. destruct (entries c !! key) as [e|] eqn:Ee; [|done].
  destruct (ci_stored _ _ _ Hr key e Ee) as (s & Hs & Hk & Hm & Hi & Hx & Hca & Hn). destruct (Z.ltb_spec now (expires e)) as [Hlt|]; [|done].
  intros [= <-]. exists s. split; [done|]. split; [done|]. split; [done|]. rewrite Hx in Hlt. split; [lia|].
  assert (Hsec : 0 < second) by done. assert (H3600 : response_ttl (st_message s) <= 3600) by (unfold response_ttl; lia).
  split; [nia|]. split; [rewrite Hm, Hi; by rewrite Z.max_r by lia|]. split.
  - intros Hneg r Hin. pose proof (response_ttl_le _ r Hneg Hin). nia.
  - intros Hneg r x Hin Hsoa. pose proof (response_ttl_soa _ r x Hneg Hin Hsoa). nia.
Qed.

(** *** What stays *)

(** Later updates, none of them under [key], made before the instant [x] and each of
    them finding room. *)
Inductive later (key : list Z) (x : Z) (t : Z) (c : Cache) : Z -> Cache -> Prop :=
  | later_none : later key x t c t c
  | later_response t' c' k m retained now now' :
      later key x t c t' c' -> k <> key -> t' <= now <= now' -> (forall k, t' <= retained k <= now) -> retained key < x ->
      (forall bytes, to_vec m = Ok bytes ->
         Z.of_nat (base.size (entries c')) < 4096 /\ cache_size c' + (len k + len bytes) <= 8 * 1024 * 1024) ->
      later key x t c now' (cache_response c' k m retained now now').2.

Lemma later_keeps h t c t' c' key e : run_cache h t c -> entries c !! key = Some e -> later key (expires e) t c t' c' ->
  (exists h', run_cache h' t' c') /\ entries c' !! key = Some e.
Proof.
  intros Hr He. induction 1 as [|t' c' k m retained now now' Hl [[h' IHr] IHe] Hne Ht Hret Hx Hroom]; [by eauto|].
  split; [eexists; by eapply (run_response _ t')|]. pose proof (run_inv _ _ _ IHr) as Hinv.
  destruct (response_keeps h' t' c' k m retained now now' key e Hinv (not_eq_sym Hne) IHe) as [H|[H|(b & Hb & full & _ & Hfull & _ & _ & H)]]; [done | lia|].
  destruct (Hroom b Hb) as [Hn Hz]. rewrite (ci_size _ _ _ Hinv) in Hz.
  assert (Hsub : full ⊆ entries c') by (etrans; [exact Hfull | apply delete_subseteq]).
  pose proof (total_size_sub _ _ (ci_sizes_ok _ _ _ Hinv) Hsub). pose proof (map_subseteq_size _ _ Hsub). lia.
Qed.

(** C34: the cache answers.  A response that may be kept and that fits is returned for
    the same key, aged by the seconds since it was stored, until its time to live is
    over: right after it was stored and after any later updates under other keys
    that find fewer than 4096 entries and room in the 8 MiB.  An update removes the
    entry of another key only if it has expired, or to make room: it is then the
    oldest of a set of 4096 entries or of entries that with the new one exceed
    8 MiB, to which every entry that stays belongs. *)
Theorem dns_cache_hit h t c key m bytes retained now now' : run_cache h t c -> t <= now <= now' -> (forall k, t <= retained k <= now) ->
  cacheable m -> to_vec m = Ok bytes -> len key + len bytes <= 8 * 1024 * 1024 ->
  let c1 := (cache_response c key m retained now now').2 in let x := now' + response_ttl m * second in
  (forall t' c' request t1 t2, later key x now' c1 t' c' -> t' <= t1 <= t2 -> t1 < x ->
     cached c' request key t1 t2 = Some (age (Z.min ((t2 - now) / second) (2 ^ 32 - 1)) (set_id (msg_id request) m))) /\
  (forall k e, k <> key -> entries c !! k = Some e ->
     entries c1 !! k = Some e \/ expires e <= retained k \/
     pushed_out (delete key (entries c)) (delete key (entries c1)) (len key + len bytes) k e).
Proof.
  intros Hrun Ht Hret Hca Hv Hfit c1 x. pose proof (run_inv _ _ _ Hrun) as Hr.
  assert (He : entries c1 !! key = Some (mk_entry m now x (len key + len bytes))).
  { unfold c1, cache_response. rewrite (proj2 (cacheable_spec m) Hca), Hv. cbn [snd].
    destruct (insert_response_spec c key m (len key + len bytes) retained now now' (ci_sizes_ok _ _ _ Hr) ltac:(lia)) as (rest & _ & -> & _).
    rewrite (proj2 (Z.leb_le _ MAX_BYTES)) by done. apply lookup_insert_eq. }
  split.
  - intros t' c' request t1 t2 Hl Ht1 Hlt.
    assert (Ht' : now' <= t') by (clear -Hl; induction Hl; lia).
    destruct (later_keeps _ _ _ t' c' key _ (run_response _ _ _ key m retained now now' Hrun Ht Hret) He Hl) as [_ He'].
    unfold cached. rewrite He'. cbn [expires inserted response]. rewrite (proj2 (Z.ltb_lt _ _)) by done. by rewrite Z.max_r by lia.
  - intros k e Hk Hl. destruct (response_keeps h t c key m retained now now' k e Hr Hk Hl) as [H|[H|(b & Hb & H)]]; [by left | by right; left|].
    right; right. rewrite Hv in Hb. by injection Hb as <-.
Qed.

End facts.

(** ** The cache of the resolver: examples

    The theorems about the cache at a response with two records. *)

(** A record is its SOA minimum, if it has one; the rest of a message its bytes. *)
#[local] Instance example_hickory : Hickory := { RecordRest := option Z; MessageRest := list Z; soa_minimum := id }.
#[local] Instance example_wire : Wire := { to_vec m := Ok (be_encode 2 (msg_id m) ++ msg_rest m) }.
#[local] Instance example_order : HashOrder := { walk := map_to_list; walk_perm _ := Permutation_refl _ }.

Definition example_request (i : Z) : Message := mk_message i 0 false [] [] [] [1; 2; 3].
Definition example_response : Message := mk_message 77 0 false [mk_record 60 None; mk_record 90 None] [] [] [1; 2; 3; 4].
Definition example_key : list Z := [0; 0; 1; 2; 3].
Definition example_missing : Message := mk_message 5 3 false [] [mk_record 900 (Some 300)] [] [].
Definition example_cache : Cache := (cache_response Cache_default example_key example_response (fun _ => 0) 10 12).2.

Example example_key_eq : request_key (example_request 4) = Ok example_key.
Proof. by vm_compute. Qed.

Example response_ttls : response_ttl example_response = 60 /\ response_ttl example_missing = 300.
Proof. by vm_compute. Qed.

Lemma example_run : run_cache ([] ++ [mk_stored example_key example_response 10 12]) 12 example_cache.
Proof. apply (run_response [] 0 Cache_default); [constructor | lia | lia]. Qed.

(** Twenty seconds later. *)
Example example_hit : cached example_cache (example_request 4) example_key (20 * second) (20 * second + 10) =
  Some (mk_message 4 0 false [mk_record 40 None; mk_record 70 None] [] [] [1; 2; 3; 4]).
Proof. by vm_compute. Qed.

Lemma dns_cache_bounded_witness : run_cache ([] ++ [mk_stored example_key example_response 10 12]) 12 example_cache /\ cache_size example_cache <= 8 * 1024 * 1024.
Proof. split; [apply example_run|]. by apply (dns_cache_bounded _ _ _ example_run). Defined.

Lemma dns_cache_fresh_witness : exists s, In s ([] ++ [mk_stored example_key example_response 10 12]) /\ 20 * second - st_now' s < 3600 * second.
Proof.
  destruct (dns_cache_fresh _ _ _ (example_request 4) example_key (20 * second) (20 * second + 10) _ example_run ltac:(unfold second; lia) example_hit)
    as (s & Hs & _ & _ & _ & Ht & _). by exists s.
Defined.

(** Another response is stored ten seconds later; the first one is still returned. *)
Definition example_later : Cache := (cache_response example_cache [7] example_missing (fun _ => 10 * second) (10 * second) (10 * second + 5)).2.

Example example_sizes : cache_size example_cache = 11 /\ cache_size example_later = 14 /\ base.size (entries example_later) = 2%nat.
Proof. by vm_compute. Qed.

Lemma dns_cache_hit_witness : cached example_later (example_request 9) example_key (20 * second) (20 * second + 10) =
  Some (age 20 (set_id 9 example_response)).
Proof.
  assert (Hr : run_cache [] 0 Cache_default) by constructor.
  destruct (dns_cache_hit [] 0 Cache_default example_key example_response [0; 77; 1; 2; 3; 4] (fun _ => 0) 10 12 Hr) as [Hh _];
    [lia | lia | vm_compute; auto | done | simpl; lia |].
  apply (Hh (10 * second + 5) example_later (example_request 9) (20 * second) (20 * second + 10)); [|unfold second; lia | by vm_compute].
  apply later_response with (t' := 12) (c' := example_cache); [constructor | done | unfold second; lia | intros; unfold second; lia | by vm_compute|].
  intros bytes [= <-]. by vm_compute.
Defined.
