(* ===== verification/Sniff.v ===== *)
(** * Sniffing

    crates/core/src/sniff.rs: the name in a TLS ClientHello or in an HTTP request,
    found in the first bytes of a connection, and what is done with it.  The parser
    of HTTP requests of the crate httparse is a parameter. *)

From S2P Require Import Prelude FfiAbi RustStr IpText IpTextFacts Target Rules FakeIp.
Local Open Scope Z_scope.

(** ** Taking bytes *)

(** [take] and [length] advance the input and may fail. *)
Definition take_n (n : nat) : fallible (list Z) (list Z) := fun s => if (length s <? n)%nat then (None, s) else (Some (take n s), drop n s).
Definition take_byte : fallible (list Z) Z := let* b := take_n 1 in pret (nth 0 b 0).
Definition length16 : fallible (list Z) nat := let* b := take_n 2 in pret (Z.to_nat (be_decode b)).

(** ** Names *)

Definition is_ascii_alphanumeric (c : Z) : bool := ((48 <=? c) && (c <=? 57)) || ((65 <=? c) && (c <=? 90)) || ((97 <=? c) && (c <=? 122)).

Definition valid_host (host : str) : bool :=
  negb (bool_decide (host = [])) && (str_len host <=? 253) &&
  forallb (fun c => is_ascii_alphanumeric c || (c =? 45) || (c =? 46)) (utf8 host) && negb (contains host [46; 46]).

(** [valid_host(&host).then_some(host)] of bytes in lower case. *)
Definition checked_host (host : str) : option str := if valid_host host then Some host else None.
Definition sni (b : list Z) : option str :=
  match from_utf8 b with Ok b => checked_host (to_ascii_lowercase (chars b)) | _ => None end.

(** ** TLS *)

(** The loop over the records: the handshake bytes, up to a complete message.  A
    round takes five bytes or more. *)
Definition message_size (hello : list Z) : nat := Z.to_nat (be_decode (take 3 (drop 1 hello))).

Fixpoint records_loop (fuel : nat) (records hello : list Z) : option (list Z) :=
  match fuel with
  | O => Some hello
  | S fuel =>
      match records with
      | [] => Some hello
      | _ =>
          match (let* header := take_n 5 in
                 check (nth 0 header 0 =? 22) in
                 take_n (Z.to_nat (be_decode (drop 3 header)))) records with
          | (None, _) => None
          | (Some piece, records) =>
              let hello := hello ++ piece in
              if 32768 <? len hello then None
              else if (4 <=? length hello)%nat && (message_size hello + 4 <=? length hello)%nat then Some hello
              else records_loop fuel records hello
          end
      end
  end.

(** The ClientHello up to its extensions. *)
Definition hello_extensions : fallible (list Z) (list Z) :=
  let* _ := take_n 34 in
  let* n := take_byte in let* _ := take_n (Z.to_nat n) in
  let* n := length16 in let* _ := take_n n in
  let* n := take_byte in let* _ := take_n (Z.to_nat n) in
  let* n := length16 in take_n n.

(** The loops return when a [return] or a failure in them does, and are [None] when
    they come to their end. *)
Fixpoint names_loop (fuel : nat) (names : list Z) : option (option str) :=
  match fuel, names with
  | S fuel, _ :: _ =>
      match (let* kind := take_byte in let* n := length16 in let* host := take_n n in pret (kind, host)) names with
      | (None, _) => Some None
      | (Some (kind, host), names) => if kind =? 0 then Some (sni host) else names_loop fuel names
      end
  | _, _ => None
  end.

Fixpoint extensions_loop (fuel : nat) (extensions : list Z) : option str :=
  match fuel, extensions with
  | S fuel, _ :: _ =>
      match (let* kind := length16 in let* n := length16 in let* value := take_n n in pret (kind, value)) extensions with
      | (None, _) => None
      | (Some (kind, value), extensions) =>
          if negb (kind =? 0)%nat then extensions_loop fuel extensions
          else match (let* n := length16 in take_n n) value with
               | (None, _) => None
               | (Some names, _) =>
                   match names_loop (length names) names with
                   | Some r => r
                   | None => extensions_loop fuel extensions
                   end
               end
      end
  | _, _ => None
  end.

Definition sniff_tls (data : list Z) : option str :=
  match records_loop (length data) data [] with
  | None => None
  | Some hello =>
      match (let* kind := take_byte in
             check (kind =? 1) in
             let* n := take_n 3 in take_n (Z.to_nat (be_decode n))) hello with
      | (None, _) => None
      | (Some input, _) =>
          match hello_extensions input with
          | (None, _) => None
          | (Some extensions, _) => extensions_loop (length extensions) extensions
          end
      end
  end.

(** ** HTTP *)

(** The headers that httparse finds, with their values. *)
Class HttpParser := { parse_headers : list Z -> option (list (str * list Z)) }.

Definition sniff_http `{HttpParser} (data : list Z) : option str :=
  match parse_headers data with
  | None => None
  | Some headers =>
      match find (fun h => eq_ignore_ascii_case h.1 (lit "host")) headers with
      | None => None
      | Some (_, value) =>
          match from_utf8 value with
          | Ok value => match split 58 (chars value) with host :: _ => checked_host (to_ascii_lowercase (trim host)) | [] => None end
          | _ => None
          end
      end
  end.

(** ** The target of a connection *)

(** [PortRange] and [Sniffer] of the configuration; the map is in the order of its
    keys. *)
Inductive PortRange := Number (n : Z) | Range (s : str).

Definition port_bounds (r : PortRange) : outcome (Z * Z) :=
  match r with
  | Number n => let! _ := ensure ((0 <? n) && (n <=? n)) "invalid port range" in Ok (n, n)
  | Range s => bounds s
  end.
Definition port_contains (r : PortRange) (n : Z) : bool := match port_bounds r with Ok (a, b) => (a <=? n) && (n <=? b) | _ => false end.

Record SniffProtocol := mk_protocol { ports : list PortRange; override_destination : bool }.
Record Sniffer := mk_sniffer { enable : bool; protocols : list (str * SniffProtocol); force_domain : list str; skip_domain : list str }.

(** A read of the connection: bytes, its end, an error; and the time-out of the
    whole loop. *)
Inductive read_event := Got (b : list Z) | Eof | Failed | TimedOut.

Section targets.
Context `{RuleLibs} `{HttpParser}.
Variables (escape : str -> str) (s : Sniffer).

Definition domain (pattern host : str) : bool :=
  match domain_pattern escape pattern with
  | Ok m => bool_decide (evaluate m (to_ascii_lowercase host) None 0 [] false = Some true)
  | _ => false
  end.

Definition should_sniff (t : Target) : bool :=
  if negb (enable s) then false
  else if existsb (fun p => domain p (host t)) (skip_domain s) then false
  else (bool_decide (is_Some (Target_ip t)) || existsb (fun p => domain p (host t)) (force_domain s)) &&
       existsb (fun kp => existsb (fun r => port_contains r (port t)) (ports kp.2)) (protocols s).

(** The loop over the protocols: the name found, and whether the destination is to
    be replaced. *)
Fixpoint try_protocols (n : Z) (prefix : list Z) (l : list (str * SniffProtocol)) : option (str * bool) :=
  match l with
  | [] => None
  | (kind, settings) :: l =>
      if negb (existsb (fun r => port_contains r n) (ports settings)) then try_protocols n prefix l
      else
        match (if bool_decide (kind = lit "TLS") then sniff_tls prefix else if bool_decide (kind = lit "HTTP") then sniff_http prefix else None) with
        | Some host => Some (host, override_destination settings)
        | None => try_protocols n prefix l
        end
  end.

(** What a name found does. *)
Definition found (route destination : Target) (name : str) (override : bool) : Target * Target :=
  if existsb (fun p => domain p name) (skip_domain s) then (route, destination)
  else (mk_target name (port route), if override then mk_target name (port route) else destination).

(** The loop of reads, which a time-out may end at any of them. *)
Fixpoint sniff_loop (n : Z) (route destination : Target) (prefix : list Z) (reads : list read_event) : Target * Target * list Z * list read_event :=
  match reads with
  | Got ((_ :: _) as b) :: reads =>
      let prefix := prefix ++ b in
      match try_protocols n prefix (protocols s) with
      | Some (name, override) => (found route destination name override, prefix, reads)
      | None => if 32768 <=? len prefix then (route, destination, prefix, reads) else sniff_loop n route destination prefix reads
      end
  | [] => (route, destination, prefix, [])
  | _ :: reads => (route, destination, prefix, reads)
  end.

Definition sniff_target (m : FakeMap) (t : Target) (reads : list read_event) : Target * Target * list Z * list read_event :=
  let route := restore_target m t in
  if should_sniff route then sniff_loop (port t) route route [] reads else (route, route, [], reads).

End targets.
