(* ===== verification/SniffFacts.v ===== *)
(** * What sniffing finds, and that it loses nothing

    The name of a ClientHello is found as soon as the records that contain it have
    arrived, not before, and whatever follows; the bytes read are kept. *)

From S2P Require Import Prelude FfiAbi RustStr IpText IpTextFacts Target Rules FakeIp Sniff.
Local Open Scope Z_scope.

(** ** Parsers on what they parse *)

Lemma take_n_app n a b : length a = n -> take_n n (a ++ b) = (Some a, b).
Proof.
  intros <-. unfold take_n. rewrite (proj2 (Nat.ltb_ge _ _)) by (rewrite length_app; lia). by rewrite take_app_length, drop_app_length.
Qed.

Lemma take_n_short n s : (length s < n)%nat -> take_n n s = (None, s).
Proof. intros Hs. unfold take_n. by rewrite (proj2 (Nat.ltb_lt _ _) Hs). Qed.

Lemma take_byte_app x b : take_byte (x :: b) = (Some x, b).
Proof. done. Qed.

Lemma length16_app n b : 0 <= n < 2 ^ 16 -> length16 (be_encode 2 n ++ b) = (Some (Z.to_nat n), b).
Proof.
  intros Hn. unfold length16. rewrite (pbind_step _ _ _ _ _ (take_n_app 2 (be_encode 2 n) b (length_be_encode 2 n))).
  rewrite be_decode_encode, Z.mod_small; [done|]. change (256 ^ Z.of_nat 2) with (2 ^ 16). lia.
Qed.

(** A byte string behind its length, and what goes on with it. *)
Lemma short_field {A} (k : list Z -> fallible (list Z) A) x b : (let* n := take_byte in let* v := take_n (Z.to_nat n) in k v) ([len x] ++ x ++ b) = k x b.
Proof. rewrite (pbind_step _ _ _ _ _ (take_byte_app (len x) (x ++ b))). apply pbind_step, take_n_app. lia. Qed.

Lemma long_field {A} (k : list Z -> fallible (list Z) A) x b : len x < 2 ^ 16 ->
  (let* n := length16 in let* v := take_n n in k v) (be_encode 2 (len x) ++ x ++ b) = k x b.
Proof.
  intros Hx. rewrite (pbind_step _ _ _ _ _ (length16_app (len x) (x ++ b) ltac:(lia))). apply pbind_step, take_n_app. lia.
Qed.

Lemma last_field x b : len x < 2 ^ 16 -> (let* n := length16 in take_n n) (be_encode 2 (len x) ++ x ++ b) = (Some x, b).
Proof. intros Hx. rewrite (pbind_step _ _ _ _ _ (length16_app (len x) (x ++ b) ltac:(lia))). apply take_n_app. lia. Qed.

(** ** The ClientHello *)

Record ClientHello := mk_client_hello {
  ch_head : list Z; ch_session : list Z; ch_suites : list Z; ch_compression : list Z; ch_extensions : list (Z * list Z)
}.

Definition extension_bytes (e : Z * list Z) : list Z := be_encode 2 e.1 ++ be_encode 2 (len e.2) ++ e.2.
Definition extensions_bytes (l : list (Z * list Z)) : list Z := concat (extension_bytes <$> l).
Definition extension_ok (e : Z * list Z) : Prop := 0 <= e.1 < 2 ^ 16 /\ len e.2 < 2 ^ 16.

Definition hello_bytes (h : ClientHello) : list Z :=
  ch_head h ++ [len (ch_session h)] ++ ch_session h ++ be_encode 2 (len (ch_suites h)) ++ ch_suites h ++ [len (ch_compression h)] ++ ch_compression h ++
  be_encode 2 (len (extensions_bytes (ch_extensions h))) ++ extensions_bytes (ch_extensions h).

Record hello_ok (h : ClientHello) : Prop := {
  ho_head : length (ch_head h) = 34%nat;
  ho_suites : len (ch_suites h) < 2 ^ 16;
  ho_each : Forall extension_ok (ch_extensions h);
  ho_all : len (extensions_bytes (ch_extensions h)) < 2 ^ 16
}.

Lemma hello_extensions_spec h : hello_ok h -> hello_extensions (hello_bytes h) = (Some (extensions_bytes (ch_extensions h)), []).
Proof.
  intros [Hh Hs _ Ha]. unfold hello_extensions, hello_bytes. rewrite (pbind_step _ _ _ _ _ (take_n_app 34 (ch_head h) _ Hh)).
  rewrite (short_field (fun _ => _)), (long_field (fun _ => _)) by done. rewrite (short_field (fun _ => _)).
  rewrite <- (app_nil_r (extensions_bytes _)) at 2. by apply last_field.
Qed.

(** The extension with its list of names: entries of other types, a host name, and
    any bytes behind it. *)
Definition name_entry (e : Z * list Z) : list Z := [e.1] ++ be_encode 2 (len e.2) ++ e.2.
Definition names_bytes (before : list (Z * list Z)) (name after : list Z) : list Z :=
  concat (name_entry <$> before) ++ name_entry (0, name) ++ after.
Definition server_name (before : list (Z * list Z)) (name after : list Z) : Z * list Z :=
  (0, be_encode 2 (len (names_bytes before name after)) ++ names_bytes before name after).

Lemma name_entry_length e : length (name_entry e) = (3 + length e.2)%nat.
Proof. unfold name_entry. rewrite !length_app, length_be_encode. done. Qed.

Lemma server_name_length before name after : length (server_name before name after).2 = (2 + length (names_bytes before name after))%nat.
Proof. unfold server_name. cbn [snd]. by rewrite length_app, length_be_encode. Qed.

Lemma names_loop_spec before name after : forall fuel, Forall (fun e => e.1 <> 0) before -> len (names_bytes before name after) < 2 ^ 16 ->
  (length (names_bytes before name after) <= fuel)%nat -> names_loop fuel (names_bytes before name after) = Some (sni name).
Proof.
  unfold names_bytes. induction before as [|e before IH]; intros fuel Hb Hn Hf; cbn [fmap list_fmap concat] in *.
  - rewrite app_nil_l in *. rewrite length_app, name_entry_length in Hf, Hn. cbn [snd] in Hf, Hn. destruct fuel as [|fuel]; [lia|].
    unfold name_entry. rewrite <- !app_assoc. cbn [fst snd app names_loop]. rewrite (pbind_step _ _ _ _ _ (take_byte_app 0 _)).
    by rewrite (long_field (fun host => pret (0, host))) by lia.
  - apply Forall_cons in Hb as [He Hb]. rewrite <- !app_assoc in *. set (rest := concat (name_entry <$> before) ++ name_entry (0, name) ++ after) in *.
    rewrite length_app, name_entry_length in Hf, Hn. destruct fuel as [|fuel]; [lia|].
    unfold name_entry at 1. rewrite <- !app_assoc. cbn [app names_loop]. rewrite (pbind_step _ _ _ _ _ (take_byte_app e.1 _)).
    rewrite (long_field (fun host => pret (e.1, host))) by lia. cbn [pret]. rewrite (proj2 (Z.eqb_neq _ 0)) by done. apply IH; [done | lia | lia].
Qed.

Lemma extension_field e rest : extension_ok e ->
  (let* kind := length16 in let* n := length16 in let* value := take_n n in pret (kind, value)) (extension_bytes e ++ rest) = (Some (Z.to_nat e.1, e.2), rest).
Proof.
  intros [Hk Hl]. unfold extension_bytes. rewrite <- !app_assoc, (pbind_step _ _ _ _ _ (length16_app e.1 _ Hk)).
  by rewrite (long_field (fun value => pret (Z.to_nat e.1, value))).
Qed.

Lemma extension_cons e rest : exists x l, extension_bytes e ++ rest = x :: l.
Proof. unfold extension_bytes. change (be_encode 2 e.1) with [e.1 / 256 mod 256; e.1 mod 256]. by eexists _, _. Qed.

Lemma extensions_loop_spec pre before name after post : Forall (fun e => e.1 <> 0) before -> len (names_bytes before name after) < 2 ^ 16 - 2 ->
  forall fuel, Forall extension_ok pre -> Forall (fun e => e.1 <> 0) pre -> (length pre < fuel)%nat ->
  extensions_loop fuel (extensions_bytes (pre ++ server_name before name after :: post)) = sni name.
Proof.
  intros Hbe Hn fuel. revert fuel. induction pre as [|e pre IH]; intros fuel Hok H0 Hf; (destruct fuel as [|fuel]; [simpl in Hf; lia|]).
  - unfold extensions_bytes. cbn [app fmap list_fmap concat]. set (rest := concat _). destruct (extension_cons (server_name before name after) rest) as (x & l & E).
    cbn [extensions_loop]. rewrite E at 1. rewrite extension_field.
    2:{ unfold extension_ok. rewrite server_name_length. cbn [fst server_name]. lia. }
    cbn [fst snd server_name]. change (negb (Z.to_nat 0 =? 0)%nat) with false. cbv iota.
    pose proof (last_field (names_bytes before name after) []) as El. rewrite app_nil_r in El. rewrite El by lia.
    by rewrite names_loop_spec by (done || lia).
  - apply Forall_cons in Hok as [He Hok]. apply Forall_cons in H0 as [He0 H0]. unfold extensions_bytes. cbn [app fmap list_fmap concat].
    set (rest := concat _). destruct (extension_cons e rest) as (x & l & E). cbn [extensions_loop]. rewrite E at 1. rewrite (extension_field e rest He).
    rewrite (proj2 (Nat.eqb_neq _ 0)) by (destruct He as [Hr _]; lia). cbn [negb]. apply IH; [done | done | simpl in Hf; lia].
Qed.

(** ** Records *)

Definition handshake (body : list Z) : list Z := [1] ++ be_encode 3 (len body) ++ body.

(** A record: two bytes of version and its contents. *)
Definition record_bytes (r : Z * Z * list Z) : list Z := [22; r.1.1; r.1.2] ++ be_encode 2 (len r.2) ++ r.2.
Definition records_bytes (rs : list (Z * Z * list Z)) : list Z := concat (record_bytes <$> rs).
Definition contents (rs : list (Z * Z * list Z)) : list Z := concat rs.*2.

(** What is done with the handshake bytes. *)
Definition read_hello (hello : list Z) : option str :=
  match (let* kind := take_byte in check (kind =? 1) in let* n := take_n 3 in take_n (Z.to_nat (be_decode n))) hello with
  | (None, _) => None
  | (Some input, _) =>
      match hello_extensions input with
      | (None, _) => None
      | (Some extensions, _) => extensions_loop (length extensions) extensions
      end
  end.

Section hello.
Variables (h : ClientHello) (pre before post : list (Z * list Z)) (name after : list Z).
Hypotheses (Hh : hello_ok h) (He : ch_extensions h = pre ++ server_name before name after :: post) (Hpre : Forall (fun e => e.1 <> 0) pre)
  (Hbefore : Forall (fun e => e.1 <> 0) before)
  (Hbody : len (hello_bytes h) <= 32768).

Abbreviation message := (handshake (hello_bytes h)).

Lemma hello_message_length : length message = (4 + length (hello_bytes h))%nat.
Proof. unfold handshake. rewrite !length_app, length_be_encode. done. Qed.

Lemma size_decode : be_decode (be_encode 3 (len (hello_bytes h))) = len (hello_bytes h).
Proof. rewrite be_decode_encode, Z.mod_small; [done|]. change (256 ^ Z.of_nat 3) with (2 ^ 24). lia. Qed.

Lemma exts_count l : (length l <= length (extensions_bytes l))%nat.
Proof.
  induction l as [|e l IH]; [done|]. unfold extensions_bytes in *. cbn [fmap list_fmap concat length]. rewrite length_app. unfold extension_bytes at 1.
  rewrite !length_app, !length_be_encode. lia.
Qed.

Lemma read_complete tail : read_hello (message ++ tail) = sni name.
Proof.
  unfold read_hello, handshake. rewrite <- !app_assoc. cbn [app]. rewrite (pbind_step _ _ _ _ _ (take_byte_app 1 _)). rewrite pcheck_true by done.
  rewrite (pbind_step _ _ _ _ _ (take_n_app 3 (be_encode 3 (len (hello_bytes h))) _ (length_be_encode _ _))), size_decode.
  rewrite take_n_app by lia. rewrite (hello_extensions_spec h Hh), He. pose proof (ho_each _ Hh) as Hall. pose proof (ho_all _ Hh) as Htot. rewrite He in Hall, Htot.
  apply Forall_app in Hall as [Hp [[_ Hs] _]%Forall_cons]. rewrite server_name_length in Hs.
  apply extensions_loop_spec; [done | lia | done | done |].
  pose proof (exts_count (pre ++ server_name before name after :: post)) as Hc. rewrite length_app in Hc. simpl in Hc. lia.
Qed.

(** The bytes of a message that is not complete. *)
Lemma prefix_size a b tail : a ++ b = message ++ tail -> (4 <= length a)%nat -> message_size a = length (hello_bytes h).
Proof.
  intros E Ha. unfold message_size. assert (Et : take 3 (drop 1 a) = take 3 (drop 1 (message ++ tail))).
  { rewrite <- E. rewrite drop_app_le by lia. rewrite take_app_le; [done | rewrite length_drop; lia]. }
  rewrite Et. unfold handshake. rewrite <- !app_assoc. cbn [app drop]. rewrite drop_0, take_app_exact by (by rewrite length_be_encode). rewrite size_decode. lia.
Qed.

Lemma read_incomplete a b tail : a ++ b = message ++ tail -> (length a < length message)%nat -> read_hello a = None.
Proof.
  intros E Hl. rewrite hello_message_length in Hl. unfold read_hello. destruct a as [|k a]; [done|]. injection E as -> E. rewrite (pbind_step _ _ _ _ _ (take_byte_app 1 a)).
  rewrite pcheck_true by done. destruct (decide (length a < 3)%nat) as [H3|H3]; [unfold pbind; by rewrite take_n_short|].
  assert (Ea : take 3 a = be_encode 3 (len (hello_bytes h))).
  { apply (f_equal (take 3)) in E. rewrite take_app_le in E by lia. exact E. }
  rewrite <- (take_drop 3 a), Ea. rewrite (pbind_step _ _ _ _ _ (take_n_app 3 (be_encode 3 (len (hello_bytes h))) _ (length_be_encode _ _))), size_decode.
  rewrite take_n_short; [done|]. rewrite length_drop. simpl in Hl. lia.
Qed.

(** One record. *)
Definition take_record : fallible (list Z) (list Z) :=
  let* header := take_n 5 in check (nth 0 header 0 =? 22) in take_n (Z.to_nat (be_decode (drop 3 header))).

Lemma take_record_app r rest : len r.2 < 2 ^ 16 -> take_record (record_bytes r ++ rest) = (Some r.2, rest).
Proof.
  intros Hr. unfold take_record, record_bytes. set (header := [22; r.1.1; r.1.2] ++ be_encode 2 (len r.2)).
  replace (([22; r.1.1; r.1.2] ++ be_encode 2 (len r.2) ++ r.2) ++ rest) with (header ++ r.2 ++ rest) by (unfold header; by rewrite <- !app_assoc).
  rewrite (pbind_step _ _ _ _ _ (take_n_app 5 header _ eq_refl)). rewrite pcheck_true by done. change (drop 3 header) with (be_encode 2 (len r.2)).
  rewrite be_decode_encode, Z.mod_small by (change (256 ^ Z.of_nat 2) with (2 ^ 16); lia). apply take_n_app. lia.
Qed.

Lemma take_record_short r n rest : len r.2 < 2 ^ 16 -> (n < length (record_bytes r))%nat -> (take_record (take n (record_bytes r ++ rest))).1 = None.
Proof.
  intros Hr Hn. assert (Hl : length (record_bytes r) = (5 + length r.2)%nat) by (unfold record_bytes; rewrite !length_app, length_be_encode; simpl; lia).
  rewrite take_app_le by lia. unfold take_record. destruct (decide (n < 5)%nat) as [H5|H5].
  { unfold pbind. rewrite take_n_short; [done|]. rewrite length_take. lia. }
  set (header := [22; r.1.1; r.1.2] ++ be_encode 2 (len r.2)). assert (Es : take n (record_bytes r) = header ++ take (n - 5) r.2).
  { unfold record_bytes, header. rewrite app_assoc. rewrite take_app_ge by (simpl; lia). done. }
  rewrite Es, (pbind_step _ _ _ _ _ (take_n_app 5 header _ eq_refl)). rewrite pcheck_true by done. change (drop 3 header) with (be_encode 2 (len r.2)).
  rewrite be_decode_encode, Z.mod_small by (change (256 ^ Z.of_nat 2) with (2 ^ 16); lia). rewrite take_n_short; [done|]. rewrite length_take. lia.
Qed.

(** The loop over records that complete the message with the last of them. *)
Lemma sniff_records rs : forall acc n fuel rest tail, rs <> [] -> Forall (fun r => len r.2 < 2 ^ 16) rs -> acc ++ contents rs = message ++ tail ->
  (length acc + length (contents (removelast rs)) < length message)%nat -> len (message ++ tail) <= 32768 ->
  (length (take n (records_bytes rs ++ rest)) <= fuel)%nat ->
  match records_loop fuel (take n (records_bytes rs ++ rest)) acc with Some hello => read_hello hello | None => None end =
  if (n <? length (records_bytes rs))%nat then None else sni name.
Proof.
  induction rs as [|r rs IH]; intros acc n fuel rest tail Hne Hrs Hall Hinc Hmax Hfuel; [done|]. apply Forall_cons in Hrs as [Hr Hrs].
  assert (Hacc : (length acc < length message)%nat) by lia.
  assert (Hrec : length (record_bytes r) = (5 + length r.2)%nat) by (unfold record_bytes; rewrite !length_app, length_be_encode; simpl; lia).
  unfold records_bytes in *. cbn [fmap list_fmap concat] in *. fold (records_bytes rs) in *. rewrite <- app_assoc in *. set (more := records_bytes rs ++ rest) in *.
  unfold contents in Hall. cbn [fmap list_fmap concat] in Hall. fold (contents rs) in Hall. rewrite length_app.
  destruct (decide (n = 0%nat)) as [->|Hn0].
  { rewrite take_0. rewrite (proj2 (Nat.ltb_lt _ _)) by lia. destruct fuel; cbn [records_loop]; by eapply read_incomplete. }
  assert (Hd : exists x l, take n (record_bytes r ++ more) = x :: l) by (destruct n; [done|]; by eexists _, _). destruct Hd as (x & l & Ed).
  destruct fuel as [|fuel]; [rewrite Ed in Hfuel; simpl in Hfuel; lia|]. cbn [records_loop]. rewrite Ed at 1. fold take_record.
  destruct (decide (n < length (record_bytes r))%nat) as [Hlt|Hge].
  { pose proof (take_record_short r n more Hr Hlt) as Es. destruct (take_record _) as [[?|] ?]; [done|]. by rewrite (proj2 (Nat.ltb_lt _ _)) by lia. }
  rewrite take_app_ge by lia. rewrite take_record_app by done. set (hello := acc ++ r.2).
  assert (Hall' : hello ++ contents rs = message ++ tail) by (unfold hello; by rewrite <- app_assoc).
  assert (Hlen : len hello <= 32768) by (apply (f_equal length) in Hall'; rewrite length_app in Hall'; lia).
  rewrite (proj2 (Z.ltb_ge _ _)) by lia. pose proof hello_message_length as Hml. destruct rs as [|r2 rs].
  - cbn [contents fmap list_fmap concat] in Hall'. rewrite app_nil_r in Hall'. cbn [records_bytes fmap list_fmap concat length].
    assert (Hge4 : (4 + length (hello_bytes h) <= length hello)%nat) by (rewrite Hall', length_app; lia).
    rewrite (prefix_size hello [] tail) by (rewrite ?app_nil_r; done || lia). rewrite !(proj2 (Nat.leb_le _ _)) by lia. cbn [andb].
    rewrite Hall', read_complete. by rewrite (proj2 (Nat.ltb_ge _ _)) by lia.
  - assert (Hsplit : contents (removelast (r :: r2 :: rs)) = r.2 ++ contents (removelast (r2 :: rs))) by done. rewrite Hsplit, length_app in Hinc.
    assert (Hinc' : (length hello + length (contents (removelast (r2 :: rs))) < length message)%nat) by (unfold hello; rewrite length_app; lia).
    assert (Hgo : (4 <=? length hello)%nat && (message_size hello + 4 <=? length hello)%nat = false).
    { destruct (Nat.leb_spec 4 (length hello)) as [H4|]; [|done]. rewrite (prefix_size hello _ tail Hall' H4). apply Nat.leb_gt. lia. }
    rewrite Hgo. unfold more. rewrite (IH hello (n - length (record_bytes r))%nat fuel rest tail); try done.
    + destruct (Nat.ltb_spec (n - length (record_bytes r)) (length (records_bytes (r2 :: rs)))), (Nat.ltb_spec n (length (record_bytes r) + length (records_bytes (r2 :: rs)))); (done || lia).
    + rewrite take_app_ge, length_app in Hfuel by lia. fold more. lia.
Qed.

End hello.

(** C31: the sniffer finds the server name of a TLS connection exactly.  For every
    ClientHello whose first [server_name] extension lists a host name, whatever
    other extensions and entries there are, cut into records of any sizes, with at
    most 32768 bytes of handshake in the records that contain it, the name, in lower
    case when it is a valid host, is found in the first [n] bytes of the connection
    if and only if all these records are among them, whatever follows. *)
Theorem sniff_finds_server_name h pre before name after post rs tail rest n :
  hello_ok h -> ch_extensions h = pre ++ server_name before name after :: post ->
  Forall (fun e => e.1 <> 0) pre -> Forall (fun e => e.1 <> 0) before ->
  rs <> [] -> Forall (fun r => len r.2 < 2 ^ 16) rs -> contents rs = handshake (hello_bytes h) ++ tail ->
  (length (contents (removelast rs)) < length (handshake (hello_bytes h)))%nat -> len (contents rs) <= 32768 ->
  sniff_tls (take n (records_bytes rs ++ rest)) = if (n <? length (records_bytes rs))%nat then None else sni name.
Proof.
  intros Hh He Hpre Hbefore Hne Hrs Hc Hinc Hmax. unfold sniff_tls.
  rewrite <- (sniff_records h pre before post name after Hh He Hpre Hbefore) with (acc := []) (fuel := length (take n (records_bytes rs ++ rest))) (tail := tail) (rest := rest).
  - done.
  - rewrite Hc in Hmax. rewrite length_app in Hmax. unfold handshake in Hmax. rewrite !length_app in Hmax. lia.
  - done.
  - done.
  - done.
  - done.
  - by rewrite <- Hc.
  - done.
Qed.

(** ** The target *)


Section target.
Context `{RuleLibs} `{HttpParser}.
Variables (escape : str -> str) (s : Sniffer).








End target.

(** ** Examples *)

Definition example_name : list Z := lit "WWW.Example.test".
Definition example_hello : ClientHello := mk_client_hello (replicate 34 7) [] [19; 1] [0] [(43, [2; 3; 4]); server_name [(7, [1])] example_name []; (10, [])].
Definition example_message : list Z := handshake (hello_bytes example_hello).
Definition example_records : list (Z * Z * list Z) := [(3, 1, take 9 example_message); (3, 3, []); (3, 3, drop 9 example_message ++ [20])].

Lemma sniff_finds_server_name_witness : sniff_tls (records_bytes example_records ++ [1; 2]) = Some (lit "www.example.test").
Proof.
  rewrite <- (firstn_all (records_bytes example_records ++ [1; 2])).
  rewrite (sniff_finds_server_name example_hello [(43, [2; 3; 4])] [(7, [1])] example_name [] [(10, [])] example_records [20] [1; 2]).
  - by vm_compute.
  - split; [done | done | repeat constructor; simpl; lia | by vm_compute].
  - done.
  - by repeat constructor.
  - by repeat constructor.
  - done.
  - repeat constructor; simpl; lia.
  - by vm_compute.
  - vm_compute. lia.
  - by vm_compute.
Defined.

#[local] Instance example_http : HttpParser := { parse_headers d := if bool_decide (d = [71]) then None else Some [(lit "Accept", []); (lit "HOST", lit " a.b:80")] }.

Example sniff_http_ex : sniff_http [71; 69] = Some (lit "a.b") /\ sniff_http [71] = None.
Proof. by vm_compute. Qed.


