(* ===== verification/Grpc.v ===== *)
(** * gRPC streams

    The Gun framing of crates/protocol/src/grpc.rs: messages with a varint length,
    and [GrpcStream] over the halves of an HTTP/2 stream of the crate h2, which are
    given by what their polls answer.  Sizes are 64-bit. *)

From S2P Require Import Prelude FfiAbi RustStr IpText IpTextFacts Target Vless VisionTls Vision VisionRead.
Local Open Scope Z_scope.

(** ** Messages *)

(** Ten groups of seven bits hold every [usize]. *)
Fixpoint varint (fuel : nat) (value : Z) : list Z :=
  match fuel with
  | O => []
  | S fuel =>
      let byte := Z.land value 127 in
      let value := Z.shiftr value 7 in
      if value =? 0 then [byte] else Z.lor byte 128 :: varint fuel value
  end.

Fixpoint decode_groups (rounds i : nat) (value : Z) (bytes : list Z) : option (Z * nat) :=
  match rounds, bytes with
  | S rounds, byte :: bytes =>
      let value := Z.lor value (Z.shiftl (Z.land byte 127) (Z.of_nat (i * 7)) mod 2 ^ 64) in
      if Z.land byte 128 =? 0 then Some (value, S i) else decode_groups rounds (S i) value bytes
  | _, _ => None
  end.
Definition decode_varint (bytes : list Z) : option (Z * nat) := decode_groups 10 0 0 bytes.

Definition gun_frame (payload : list Z) : list Z :=
  let proto := [10] ++ varint 10 (len payload) ++ payload in
  [0] ++ be_encode 4 (len proto mod 2 ^ 32) ++ proto.

Inductive grpc_parsed := GrpcMore | GrpcError (e : list Z) | GrpcMessage (payload rest : list Z).

(** The parsing of [GrpcStream::parse]. *)
Definition grpc_parse (s : list Z) : grpc_parsed :=
  if (length s <? 5)%nat then GrpcMore
  else if negb (nth 0 s 0 =? 0) then GrpcError (text "compressed gRPC messages are unsupported")
  else
    let length_ := be_decode (take 4 (drop 1 s)) in
    if 16 * 1024 * 1024 <? length_ then GrpcError (text "oversized gRPC message")
    else if len s <? 5 + length_ then GrpcMore
    else
      let proto := take (Z.to_nat length_) (drop 5 s) in
      match proto with
      | 10 :: tail =>
          match decode_varint tail with
          | None => GrpcError (text "invalid Gun protobuf length")
          | Some (payload_len, prefix) =>
              if negb ((1 + Z.of_nat prefix + payload_len) mod 2 ^ 64 =? len proto) then GrpcError (text "invalid Gun protobuf payload")
              else GrpcMessage (drop (1 + prefix) proto) (drop (5 + Z.to_nat length_) s)
          end
      | _ => GrpcError (text "invalid Gun protobuf message")
      end.

(** ** The stream *)

(** What the polls of the response and of its body answer, in order; at the end of
    the list the body is over. *)
Inductive body_event := BodyWait | BodyData (b : list Z) | BodyFail (e : list Z).
Inductive response_event := ResponseWait | ResponseFail (e : list Z) | ResponseStatus (code : Z) (display : list Z).

(** What the polls for the capacity to send answer. *)
Inductive capacity_event := CapacityWait | CapacityNow (n : nat) | CapacityFail (e : list Z) | CapacityGone.

(** [g_response] is [Some] until the response has arrived ([recv] is [None]). *)
Record GrpcStream := mk_grpc {
  g_response : option (list response_event); g_body : list body_event;
  g_incoming : list Z; g_payload : list Z; g_payload_at : nat; g_closed : bool;
  g_capacity : nat; g_caps : list capacity_event; g_sent : list Z; g_end : bool
}.

Definition Grpc_new (response : list response_event) (body : list body_event) (caps : list capacity_event) : GrpcStream :=
  mk_grpc (Some response) body [] [] 0 false 0 caps [] false.

Definition g_read (s : GrpcStream) (r : option (list response_event)) (b : list body_event) (inc pay : list Z) (at_ : nat) (c : bool) : GrpcStream :=
  mk_grpc r b inc pay at_ c (g_capacity s) (g_caps s) (g_sent s) (g_end s).
Definition g_write (s : GrpcStream) (cap : nat) (caps : list capacity_event) (sent : list Z) (e : bool) : GrpcStream :=
  mk_grpc (g_response s) (g_body s) (g_incoming s) (g_payload s) (g_payload_at s) (g_closed s) cap caps sent e.

(** [StatusCode::is_success]. *)
Definition is_success (code : Z) : bool := (200 <=? code) && (code <? 300).
Definition rejected_status (display : list Z) : list Z := text "gRPC transport rejected: " ++ display.

(** Waiting for the response; [None] when it is there.  A response whose answers
    are used up never comes. *)
Definition await_response (s : GrpcStream) : option (poll (list Z)) * GrpcStream :=
  match g_response s with
  | None => (None, s)
  | Some [] => (Some Pending, s)
  | Some (ResponseWait :: l) => (Some Pending, g_read s (Some l) (g_body s) (g_incoming s) (g_payload s) (g_payload_at s) (g_closed s))
  | Some (ResponseFail e :: _) => (Some (Ready (Err e)), s)
  | Some (ResponseStatus code display :: _) =>
      if is_success code then (None, g_read s None (g_body s) (g_incoming s) (g_payload s) (g_payload_at s) (g_closed s))
      else (Some (Ready (Err (rejected_status display))), s)
  end.

Definition g_give (room : nat) (s : GrpcStream) : poll (list Z) * GrpcStream :=
  let n := Nat.min room (length (g_payload s) - g_payload_at s) in
  (Ready (Ok (take n (drop (g_payload_at s) (g_payload s)))),
   g_read s (g_response s) (g_body s) (g_incoming s) (g_payload s) (g_payload_at s + n) (g_closed s)).

(** The loop of [poll_read] with its recursive calls: a message without contents
    starts it again.  A round takes a message off the bytes at hand or an answer
    off the body, or notes that the body is over. *)
Fixpoint grpc_loop (fuel : nat) (room : nat) (s : GrpcStream) : poll (list Z) * GrpcStream :=
  match fuel with
  | O => (Pending, s)
  | S fuel =>
      match grpc_parse (g_incoming s) with
      | GrpcError e => (Ready (Err e), s)
      | GrpcMessage p rest =>
          let s := g_read s (g_response s) (g_body s) rest p 0 (g_closed s) in
          if (0 <? length p)%nat then g_give room s else grpc_loop fuel room s
      | GrpcMore =>
          if g_closed s then (Ready (Ok []), s)
          else match await_response s with
               | (Some o, s) => (o, s)
               | (None, s) =>
                   let step b inc c := g_read s (g_response s) b inc (g_payload s) (g_payload_at s) c in
                   match g_body s with
                   | BodyWait :: l => (Pending, step l (g_incoming s) false)
                   | BodyData b :: l => grpc_loop fuel room (step l (g_incoming s ++ b) false)
                   | BodyFail e :: l => (Ready (Err e), step l (g_incoming s) false)
                   | [] => grpc_loop fuel room (step [] (g_incoming s) true)
                   end
               end
      end
  end.

Definition body_work (l : list body_event) : nat := foldr (fun e n => match e with BodyData b => S (length b) | _ => 1 end + n)%nat 0%nat l.

Definition grpc_poll_read (room : nat) (s : GrpcStream) : poll (list Z) * GrpcStream :=
  if (g_payload_at s <? length (g_payload s))%nat then g_give room s
  else grpc_loop (3 + body_work (g_body s) + length (g_incoming s)) room s.

(** The loop of [poll_write] that waits until [n] bytes may be sent; when the
    answers are used up they are granted. *)
Fixpoint reserve (fuel : nat) (s : GrpcStream) (n : nat) : option (poll nat) * GrpcStream :=
  if (n <=? g_capacity s)%nat then (None, s)
  else match fuel with
       | O => (Some Pending, s)
       | S fuel =>
           match g_caps s with
           | [] => (None, g_write s n [] (g_sent s) (g_end s))
           | CapacityWait :: l => (Some Pending, g_write s (g_capacity s) l (g_sent s) (g_end s))
           | CapacityNow m :: l => reserve fuel (g_write s m l (g_sent s) (g_end s)) n
           | CapacityFail e :: l => (Some (Ready (Err e)), g_write s (g_capacity s) l (g_sent s) (g_end s))
           | CapacityGone :: l => (Some (Ready (Err (text "broken pipe"))), g_write s (g_capacity s) l (g_sent s) (g_end s))
           end
       end.

(** [send_data] fails when the stream has been ended. *)
Definition grpc_poll_write (s : GrpcStream) (bytes : list Z) : poll nat * GrpcStream :=
  if bool_decide (bytes = []) then (Ready (Ok 0%nat), s)
  else
    let b := take (Z.to_nat (16 * 1024)) bytes in
    let frame := gun_frame b in
    match reserve (S (length (g_caps s))) s (length frame) with
    | (Some o, s) => (o, s)
    | (None, s) =>
        if g_end s then (Ready (Err (text "inactive stream")), s)
        else (Ready (Ok (length b)), g_write s (g_capacity s - length frame) (g_caps s) (g_sent s ++ frame) false)
    end.

Definition grpc_poll_shutdown (s : GrpcStream) : poll unit * GrpcStream :=
  if g_end s then (Ready (Err (text "inactive stream")), s)
  else (Ready (Ok tt), g_write s (g_capacity s) (g_caps s) (g_sent s) true).
