(* ===== verification/GrpcFacts.v ===== *)
(** * Data survives a gRPC stream

    The varint coder and the framing, [GrpcStream] as an instance of [Reader], and
    the round trip from one stream to another. *)

From S2P Require Import Prelude FfiAbi RustStr IpText IpTextFacts Target Vless VisionTls Vision VisionRead Grpc.
Local Open Scope Z_scope.

(** ** Varints *)

Lemma group_low v : 0 <= v -> Z.land (Z.land v 127) 127 = v mod 128 /\ Z.land (Z.land v 127) 128 = 0 /\
  Z.land (Z.lor (Z.land v 127) 128) 127 = v mod 128 /\ Z.land (Z.lor (Z.land v 127) 128) 128 = 128.
Proof.
  intros Hv. change 127 with (2 ^ 7 - 1). rewrite !land_ones_mod by lia. change (2 ^ 7 - 1) with 127. change (2 ^ 7) with 128.
  set (b := v mod 128). assert (Hb : 0 <= b < 128) by (apply Z.mod_pos_bound; lia).
  assert (Hall : all_from 128 0 (fun b => (b mod 128 =? b) && (Z.land b 128 =? 0) && (Z.lor b 128 mod 128 =? b) && (Z.land (Z.lor b 128) 128 =? 128)) = true)
    by (by vm_compute).
  pose proof (all_from_spec 128 0 _ b Hall ltac:(lia)) as E. cbn beta in E. rewrite !andb_true_iff, !Z.eqb_eq in E. destruct E as [[[E1 E2] E3] E4]. done.
Qed.

Lemma decode_varint_groups fuel : forall rounds i v value rest, (fuel <= rounds)%nat -> 0 <= v < 2 ^ Z.of_nat (i * 7) -> 0 <= value < 2 ^ Z.of_nat (fuel * 7) ->
  (0 < fuel)%nat -> value * 2 ^ Z.of_nat (i * 7) < 2 ^ 64 ->
  decode_groups rounds i v (varint fuel value ++ rest) = Some (v + value * 2 ^ Z.of_nat (i * 7), (i + length (varint fuel value))%nat).
Proof.
  induction fuel as [|fuel IH]; intros rounds i v value rest Hr Hv Hval Hf H64; [lia|]. destruct rounds as [|rounds]; [lia|]. cbn [varint].
  destruct (group_low value ltac:(lia)) as (E1 & E2 & E3 & E4). rewrite Z.shiftr_div_pow2 by lia. change (2 ^ 7) with 128.
  set (w := 2 ^ Z.of_nat (i * 7)) in *. assert (Hw : 0 < w) by (unfold w; lia). pose proof (Z.div_mod value 128 ltac:(lia)) as Hdm.
  pose proof (Z.mod_pos_bound value 128 ltac:(lia)) as Hmb. assert (Hq : 0 <= value / 128) by (apply Z.div_pos; lia).
  assert (Hor : Z.lor v (Z.shiftl (value mod 128) (Z.of_nat (i * 7)) mod 2 ^ 64) = v + (value mod 128) * w).
  { rewrite Z.shiftl_mul_pow2 by lia. fold w. rewrite Z.mod_small by nia. rewrite Z.lor_comm. unfold w. rewrite <- Z.shiftl_mul_pow2 by lia.
    rewrite lor_shiftl_add by (unfold w in *; lia). rewrite Z.shiftl_mul_pow2 by lia. lia. }
  destruct (Z.eqb_spec (value / 128) 0) as [E|E].
  - cbn [app decode_groups length]. rewrite E1, E2, Hor. cbn [Z.eqb]. f_equal. f_equal; [nia | lia].
  - cbn [app decode_groups length]. rewrite E3, E4, Hor. cbn [Z.eqb Pos.eqb].
    assert (Ew : 2 ^ Z.of_nat (S i * 7) = w * 128) by (unfold w; rewrite Nat.mul_succ_l, Nat2Z.inj_add, Z.pow_add_r by lia; done).
    assert (Hfp : (0 < fuel)%nat) by (destruct fuel; [|lia]; change (2 ^ Z.of_nat (1 * 7)) with 128 in Hval; lia).
    assert (Hsub : value / 128 < 2 ^ Z.of_nat (fuel * 7)).
    { apply Z.div_lt_upper_bound; [lia|]. replace (Z.of_nat (S fuel * 7)) with (7 + Z.of_nat (fuel * 7)) in Hval by lia. rewrite Z.pow_add_r in Hval by lia. lia. }
    rewrite IH; [|lia|rewrite Ew; nia|lia|done|rewrite Ew; nia]. rewrite Ew. f_equal. f_equal; [nia | lia].
Qed.

Lemma varint_length fuel : forall value, (0 < fuel)%nat -> (1 <= length (varint fuel value) <= fuel)%nat.
Proof.
  induction fuel as [|fuel IH]; intros value Hf; [lia|]. cbn [varint]. destruct (_ =? 0); [simpl; lia|]. destruct fuel as [|fuel]; [simpl; lia|].
  specialize (IH (Z.shiftr value 7) ltac:(lia)). cbn [length]. lia.
Qed.

(** Every size survives, whatever follows it. *)
Lemma varint_roundtrip n rest : 0 <= n < 2 ^ 64 -> decode_varint (varint 10 n ++ rest) = Some (n, length (varint 10 n)).
Proof.
  intros Hn. unfold decode_varint. rewrite decode_varint_groups; [|lia|simpl; lia|split; [lia|]; change (2 ^ Z.of_nat (10 * 7)) with (2 ^ 70); lia|lia|simpl; lia].
  f_equal. f_equal. simpl. lia.
Qed.

(** ** Messages *)

Lemma grpc_parse_frame p rest : len p <= 2 ^ 20 -> grpc_parse (gun_frame p ++ rest) = GrpcMessage p rest.
Proof.
  intros Hp. unfold gun_frame. set (vi := varint 10 (len p)). pose proof (varint_length 10 (len p) ltac:(lia)) as Hv. fold vi in Hv.
  set (proto := [10] ++ vi ++ p). assert (Hl : length proto = (1 + length vi + length p)%nat) by (unfold proto; rewrite !length_app; simpl; lia).
  rewrite Z.mod_small by lia. set (h := be_encode 4 (len proto)). assert (Hh : length h = 4%nat) by apply length_be_encode.
  assert (Eh : be_decode h = len proto) by (unfold h; rewrite be_decode_encode, Z.mod_small; [done|]; change (256 ^ Z.of_nat 4) with (2 ^ 32); lia).
  set (s := ([0] ++ h ++ proto) ++ rest). assert (Es : s = [0] ++ h ++ proto ++ rest) by (unfold s; by rewrite <- !app_assoc).
  assert (Hs : length s = (5 + length proto + length rest)%nat) by (rewrite Es, !length_app, Hh; simpl; lia).
  assert (E4 : take 4 (drop 1 s) = h) by (rewrite Es; cbn [drop app]; rewrite drop_0; by apply take_app_exact).
  assert (E5 : drop 5 s = proto ++ rest) by (rewrite Es; cbn [drop app]; by apply drop_app_exact).
  unfold grpc_parse. rewrite (proj2 (Nat.ltb_ge _ _)), E4, E5, Eh by lia. replace (nth 0 s 0) with 0 by (by rewrite Es). cbn [Z.eqb negb].
  rewrite (proj2 (Z.ltb_ge (16 * 1024 * 1024) _)), (proj2 (Z.ltb_ge (len s) _)) by lia. rewrite Nat2Z.id, take_app_exact by done.
  assert (Ed : drop (5 + length proto) s = rest) by (rewrite <- drop_drop, E5; by apply drop_app_exact). rewrite Ed.
  assert (Ev : decode_varint (vi ++ p) = Some (len p, length vi)) by (apply varint_roundtrip; lia).
  change proto with (10 :: vi ++ p) at 1. cbv iota. rewrite Ev. rewrite Z.mod_small by lia. rewrite (proj2 (Z.eqb_eq _ _)) by lia. cbn [negb].
  f_equal. unfold proto. cbn [app Nat.add drop]. by apply drop_app_exact.
Qed.

(** More bytes do not change what has been parsed. *)
Lemma grpc_parse_mono s b :
  match grpc_parse s with
  | GrpcMore => True
  | GrpcError e => grpc_parse (s ++ b) = GrpcError e
  | GrpcMessage p r => grpc_parse (s ++ b) = GrpcMessage p (r ++ b) /\ (length p + length r < length s)%nat
  end.
Proof.
  unfold grpc_parse at 1. destruct (Nat.ltb_spec (length s) 5) as [H5|H5]; [done|].
  assert (Hn : nth 0 (s ++ b) 0 = nth 0 s 0) by (apply app_nth1; lia).
  assert (H4 : take 4 (drop 1 (s ++ b)) = take 4 (drop 1 s)) by (rewrite drop_app_le by lia; rewrite take_app_le; [done | rewrite length_drop; lia]).
  assert (H5' : (length (s ++ b) <? 5)%nat = false) by (apply Nat.ltb_ge; rewrite length_app; lia).
  unfold grpc_parse. rewrite H5', Hn, H4. destruct (negb (nth 0 s 0 =? 0)); [done|]. set (n := be_decode _). destruct (16 * 1024 * 1024 <? n); [done|].
  destruct (Z.ltb_spec (len s) (5 + n)) as [Hl|Hl]; [done|]. rewrite (proj2 (Z.ltb_ge (len (s ++ b)) _)) by (rewrite length_app; lia).
  rewrite (drop_app_le s b 5) by lia. rewrite (take_app_le (drop 5 s)) by (rewrite length_drop; lia). set (proto := take (Z.to_nat n) (drop 5 s)).
  assert (Hpl : (length proto <= length s - 5)%nat) by (unfold proto; rewrite length_take, length_drop; lia).
  destruct proto as [|x tail] eqn:Ep; [done|]. destruct (Z.eq_dec x 10) as [->|Hx].
  2:{ destruct x as [|q|q]; [done| |done]. destruct q as [q|q|]; try done. destruct q as [q|q|]; try done. destruct q as [q|q|]; try done. by destruct q. }
  destruct (decode_varint tail) as [[m k]|]; [|done]. destruct (negb _); [done|]. split.
  - f_equal. rewrite drop_app_le by lia. done.
  - rewrite !length_drop. assert (Ht : (length proto <= Z.to_nat n)%nat) by (unfold proto; rewrite length_take; lia). rewrite Ep in Ht.
    simpl length in *. lia.
Qed.

(** ** Reading *)

(** The contents of the messages, as a function of all the bytes and of how they
    end; a message that is incomplete at the end is dropped. *)
Fixpoint grpc_messages (fuel : nat) (s : list Z) (e : ending) : stream :=
  match fuel with
  | O => ([], e)
  | S fuel =>
      match grpc_parse s with
      | GrpcMore => ([], e)
      | GrpcError _ => ([], Breaks)
      | GrpcMessage p r => prepend p (grpc_messages fuel r e)
      end
  end.
Definition grpc_decode (s : list Z) (e : ending) : stream := grpc_messages (S (length s)) s e.

Lemma grpc_messages_fuel n : forall n' s e, (length s < n)%nat -> (n <= n')%nat -> grpc_messages n s e = grpc_messages n' s e.
Proof.
  induction n as [|n IH]; intros n' s e Hs Hn; [lia|]. destruct n' as [|n']; [lia|]. cbn [grpc_messages].
  pose proof (grpc_parse_mono s []) as Hm. destruct (grpc_parse s) as [| |p r]; [done..|]. destruct Hm as [_ Hl]. f_equal. apply IH; lia.
Qed.

Lemma grpc_decode_step s e : grpc_decode s e =
  match grpc_parse s with GrpcMore => ([], e) | GrpcError _ => ([], Breaks) | GrpcMessage p r => prepend p (grpc_decode r e) end.
Proof.
  unfold grpc_decode at 1. cbn [grpc_messages]. pose proof (grpc_parse_mono s []) as Hm. destruct (grpc_parse s) as [| |p r]; [done..|].
  destruct Hm as [_ Hl]. f_equal. symmetry. apply grpc_messages_fuel; lia.
Qed.

(** The bytes of a body. *)
Fixpoint body_stream (l : list body_event) : stream :=
  match l with
  | [] => ([], Ends)
  | BodyWait :: l => body_stream l
  | BodyData b :: l => prepend b (body_stream l)
  | BodyFail _ :: _ => ([], Breaks)
  end.

(** Whether a response arrives, and with success. *)
Fixpoint arrives (l : list response_event) : option bool :=
  match l with
  | [] => None
  | ResponseWait :: l => arrives l
  | ResponseFail _ :: _ => Some false
  | ResponseStatus code _ :: _ => Some (is_success code)
  end.

Definition g_rest (s : GrpcStream) : stream := grpc_decode (g_incoming s ++ (body_stream (g_body s)).1) (body_stream (g_body s)).2.
Definition g_left (s : GrpcStream) : stream := prepend (drop (g_payload_at s) (g_payload s))
  match g_response s with
  | Some l => match arrives l with Some true => g_rest s | _ => ([], Breaks) end
  | None => g_rest s
  end.
Definition g_work (s : GrpcStream) : nat :=
  (3 * body_work (g_body s) + 2 * length (g_incoming s) + length (drop (g_payload_at s) (g_payload s)) + length (default [] (g_response s)))%nat.
Definition g_ok (s : GrpcStream) : Prop :=
  (g_closed s = true -> g_body s = []) /\
  match g_response s with Some l => is_Some (arrives l) /\ g_closed s = false /\ g_incoming s = [] | None => True end.

#[global] Instance grpc_reader : Reader GrpcStream := { rd := grpc_poll_read; left := g_left; work := g_work; rd_ok := g_ok }.

Lemma delivers_less {S} `{Reader S} n before w w' r : (w <= w')%nat -> delivers n before w r -> delivers n before w' r.
Proof.
  intros Hw. destruct r as [[|[[|x b]|e|]] s]; cbn [delivers]; try done.
  - intros (? & ? & ?). split; [done|]. split; [done | lia].
  - intros (? & ? & ? & ?). split; [done|]. split; [done|]. split; [done | lia].
Qed.

Lemma g_give_delivers room s : g_ok s -> (0 < room)%nat -> (g_payload_at s < length (g_payload s))%nat -> delivers room (g_left s) (g_work s) (g_give room s).
Proof.
  intros Hs Hr Hp. unfold g_give. set (n := Nat.min room (length (g_payload s) - g_payload_at s)). assert (Hn : (0 < n)%nat) by (unfold n; lia).
  set (rest := drop (g_payload_at s) (g_payload s)). assert (Hlr : length rest = (length (g_payload s) - g_payload_at s)%nat) by apply length_drop.
  destruct (take n rest) as [|x b] eqn:E; [apply (f_equal length) in E; rewrite length_take in E; simpl in E; lia|].
  pose proof (f_equal length E) as El. rewrite length_take in El. cbn [delivers]. split; [done|]. cbn [left work grpc_reader].
  unfold g_left, g_work, g_rest. cbn [g_read g_response g_body g_incoming g_payload g_payload_at]. rewrite <- drop_drop. fold rest. rewrite <- E.
  split; [by rewrite <- prepend_app, take_drop|]. split; [rewrite E; unfold n in *; lia|]. rewrite length_drop, length_take. lia.
Qed.

(** What waiting for the response comes to: an answer of the whole read, or a
    stream with as much left whose response is there. *)
Lemma await_delivers s n : g_ok s -> g_closed s = false -> drop (g_payload_at s) (g_payload s) = [] ->
  match await_response s with
  | (Some o, s') => delivers n (g_left s) (g_work s) (o, s') /\ (forall b, o <> Ready (Ok b))
  | (None, s') => s' = g_read s None (g_body s) (g_incoming s) (g_payload s) (g_payload_at s) (g_closed s) /\ g_left s' = g_left s /\ (g_work s' <= g_work s)%nat
  end.
Proof.
  intros Hok Hc Hp. unfold await_response, g_left, g_work. destruct Hok as [_ Hok]. destruct (g_response s) as [[|[|e|code d] l]|] eqn:Er.
  - by destruct Hok as [[? ?] _].
  - destruct Hok as (Ha & _ & Hi). split; [|done]. cbn [arrives] in *. split; [split; [cbn [g_read g_closed]; by rewrite Hc | done]|].
    cbn [left work grpc_reader]. unfold g_left, g_work. cbn [g_read g_response g_body g_incoming g_payload g_payload_at default from_option id length].
    split; [done | simpl; lia].
  - split; [|done]. cbn [delivers arrives]. rewrite Hp. done.
  - cbn [arrives]. destruct (is_success code) eqn:Es; [|split; [|done]; cbn [delivers]; by rewrite Hp].
    split; [done|]. split; [done|]. cbn [g_read g_response g_body g_incoming g_payload g_payload_at default from_option id length]. simpl. lia.
  - rewrite <- Er. split; [by destruct s; cbn in *; subst|]. by rewrite Er.
Qed.

(** The same for the streams that a round of the loop goes on with. *)
Section drained.
Variable s : GrpcStream.
Hypotheses (Hp : drop (g_payload_at s) (g_payload s) = []).

Lemma g_read_left b inc c : g_left (g_read s None b inc (g_payload s) (g_payload_at s) c) = grpc_decode (inc ++ (body_stream b).1) (body_stream b).2.
Proof. unfold g_left. cbn [g_read g_response g_payload g_payload_at]. rewrite Hp. apply prepend_nil. Qed.

Lemma g_read_work b inc c : g_work (g_read s None b inc (g_payload s) (g_payload_at s) c) = (3 * body_work b + 2 * length inc)%nat.
Proof. unfold g_work. cbn [g_read g_response g_body g_incoming g_payload g_payload_at]. rewrite Hp. simpl. lia. Qed.

End drained.

(** A round that has found a message. *)
Lemma message_round s p r : g_ok s -> drop (g_payload_at s) (g_payload s) = [] -> grpc_parse (g_incoming s) = GrpcMessage p r ->
  let s1 := g_read s (g_response s) (g_body s) r p 0 (g_closed s) in
  g_ok s1 /\ g_left s1 = g_left s /\ (g_work s1 <= g_work s)%nat /\ (length r < length (g_incoming s))%nat.
Proof.
  intros Hs Hp Epar s1. pose proof (grpc_parse_mono (g_incoming s) (body_stream (g_body s)).1) as Hm. rewrite Epar in Hm. destruct Hm as [Hm Hl].
  assert (Hnone : g_response s = None).
  { destruct Hs as [_ Hresp]. destruct (g_response s) as [l|]; [|done]. destruct Hresp as (_ & _ & Hi). rewrite Hi in Epar. done. }
  split; [destruct Hs as [Hb _]; split; [done|]; unfold s1; cbn [g_read g_response]; by rewrite Hnone|]. split; [|split; [|lia]].
  - unfold g_left, g_rest, s1. cbn [g_read g_response g_body g_incoming g_payload g_payload_at]. rewrite Hnone, Hp, drop_0, prepend_nil.
    by rewrite (grpc_decode_step (g_incoming s ++ _)), Hm.
  - unfold g_work, s1. cbn [g_read g_response g_body g_incoming g_payload g_payload_at]. rewrite Hp, drop_0. simpl. lia.
Qed.

Lemma grpc_loop_delivers room fuel : forall s, g_ok s -> (0 < room)%nat -> drop (g_payload_at s) (g_payload s) = [] ->
  (body_work (g_body s) + length (g_incoming s) + (if g_closed s then 0 else 1) < fuel)%nat -> delivers room (g_left s) (g_work s) (grpc_loop fuel room s).
Proof.
  induction fuel as [|fuel IH]; intros s Hs Hr Hp Hf; [lia|]. cbn [grpc_loop].
  pose proof (grpc_parse_mono (g_incoming s) (body_stream (g_body s)).1) as Hm. destruct (grpc_parse (g_incoming s)) as [|e|p r] eqn:Epar.
  - destruct (g_closed s) eqn:Ec.
    + split; [done|]. cbn [left grpc_reader]. destruct Hs as [Hb Hresp]. unfold g_left, g_rest. rewrite (Hb Ec), Hp. cbn [body_stream fst snd].
      rewrite app_nil_r, grpc_decode_step, Epar. destruct (g_response s); [destruct Hresp as (_ & Hf0 & _); congruence|]. done.
    + pose proof (await_delivers s room Hs Ec Hp) as Ha. destruct (await_response s) as [[o|] s1]; [by destruct Ha|].
      destruct Ha as (E1 & El & Hw). rewrite <- El. apply (delivers_less _ _ (g_work s1)); [done|].
      assert (Hp1 : drop (g_payload_at s1) (g_payload s1) = []) by (by rewrite E1). assert (Eb : g_body s1 = g_body s) by (by rewrite E1).
      assert (Er : g_response s1 = None) by (by rewrite E1). assert (Ei : g_incoming s1 = g_incoming s) by (by rewrite E1). clear E1 El Hw.
      rewrite Er. assert (Hstep : forall b inc c, (c = true -> b = []) -> g_ok (g_read s1 None b inc (g_payload s1) (g_payload_at s1) c)) by (by split).
      pose proof (g_read_left s1 Hp1) as Hgl. pose proof (g_read_work s1 Hp1) as Hgw.
      assert (Hl1 : g_left s1 = g_rest s1) by (unfold g_left; rewrite Er, Hp1; apply prepend_nil).
      assert (Hw1 : g_work s1 = (3 * body_work (g_body s1) + 2 * length (g_incoming s1))%nat) by (unfold g_work; rewrite Er, Hp1; simpl; lia).
      rewrite Hl1, Hw1. unfold g_rest. rewrite <- Eb, <- Ei in *. destruct (g_body s1) as [|[|b|e] l].
      * rewrite <- (Hgl [] (g_incoming s1) true), <- (Hgw [] (g_incoming s1) true). apply IH; [by apply Hstep | done | done |]. simpl in *. lia.
      * split; [by apply Hstep|]. cbn [left work grpc_reader]. rewrite Hgl, Hgw. split; [done | simpl; lia].
      * assert (Es : g_incoming s1 ++ (body_stream (BodyData b :: l)).1 = (g_incoming s1 ++ b) ++ (body_stream l).1) by apply app_assoc.
        rewrite Es. change (body_stream (BodyData b :: l)).2 with (body_stream l).2. rewrite <- (Hgl l (g_incoming s1 ++ b) false).
        change (body_work (BodyData b :: l)) with (S (length b) + body_work l)%nat in *.
        eapply delivers_less; [|apply IH; [by apply Hstep | done | done |]]; [rewrite Hgw, length_app; lia|].
        cbn [g_read g_body g_incoming g_closed]. rewrite length_app. lia.
      * cbn [delivers body_stream fst snd]. rewrite app_nil_r, grpc_decode_step, Epar. done.
  - cbn [delivers]. unfold g_left, g_rest. rewrite Hp, grpc_decode_step, Hm. destruct (g_response s) as [l|]; [by destruct (arrives l) as [[]|]|]. done.
  - cbv zeta. destruct (message_round s p r Hs Hp Epar) as (Hs1 & El & Hw & Hlt). rewrite <- El. eapply delivers_less; [exact Hw|].
    destruct (Nat.ltb_spec 0 (length p)) as [Hpos|Hpos].
    + apply g_give_delivers; [done | done |]. cbn [g_read g_payload g_payload_at]. lia.
    + apply IH; [done | done | destruct p; [done | simpl in Hpos; lia] |]. cbn [g_read g_body g_incoming g_closed]. lia.
Qed.

#[global] Instance grpc_laws : ReaderLaws GrpcStream.
Proof.
  split. intros n s Hn Hs. cbn [rd left work grpc_reader]. unfold grpc_poll_read.
  destruct (Nat.ltb_spec (g_payload_at s) (length (g_payload s))) as [Hp|Hp]; [by apply g_give_delivers|].
  apply grpc_loop_delivers; [done | done | by apply drop_ge | destruct (g_closed s); lia].
Qed.

(** ** Writing *)

(** Bytes that are the messages of these data, one behind the other. *)
Inductive gun_framed : list Z -> list Z -> Prop :=
  | gf_nil : gun_framed [] []
  | gf_snoc bytes data d : gun_framed bytes data -> len d <= 2 ^ 20 -> gun_framed (bytes ++ gun_frame d) (data ++ d).

Lemma gun_framed_decode bytes data : gun_framed bytes data -> forall rest e, grpc_decode (bytes ++ rest) e = prepend data (grpc_decode rest e).
Proof.
  induction 1 as [|bytes data d _ IH Hd]; intros rest e; [cbn [app]; by rewrite prepend_nil|].
  rewrite <- app_assoc, IH, grpc_decode_step, grpc_parse_frame by done. by rewrite prepend_app.
Qed.

Lemma reserve_sent fuel n : forall s, g_sent (reserve fuel s n).2 = g_sent s /\ forall m, (reserve fuel s n).1 <> Some (Ready (Ok m)).
Proof.
  induction fuel as [|fuel IH]; intros s; cbn [reserve]; destruct (_ <=? _)%nat; try done.
  destruct (g_caps s) as [|[|m|e|] l]; try done. apply (IH (g_write s m l (g_sent s) (g_end s))).
Qed.

(** What a call adds to the stream is the frame of what it says it has taken. *)
Lemma grpc_write_sent s bytes data : gun_framed (g_sent s) data ->
  gun_framed (g_sent (grpc_poll_write s bytes).2) (data ++ match (grpc_poll_write s bytes).1 with Ready (Ok n) => take n bytes | _ => [] end).
Proof.
  intros Hs. unfold grpc_poll_write. destruct (bool_decide_reflect (bytes = [])) as [->|Hne]; [by rewrite app_nil_r|].
  set (b := take (Z.to_nat (16 * 1024)) bytes). destruct (reserve_sent (S (length (g_caps s))) (length (gun_frame b)) s) as [Es Ho].
  destruct (reserve _ _ _) as [[o|] s1]; cbn [fst snd] in *.
  - rewrite Es. destruct o as [|[m|e|]]; try (by rewrite app_nil_r). by destruct (Ho m).
  - destruct (g_end s1); cbn [fst snd]; [by rewrite Es, app_nil_r|]. cbn [g_write g_sent].
    assert (Hbl : (length b <= Z.to_nat (16 * 1024))%nat) by (unfold b; rewrite length_take; lia).
    assert (Htake : take (length b) bytes = b).
    { unfold b. rewrite length_take. destruct (decide (Z.to_nat (16 * 1024) <= length bytes)%nat);
        [by rewrite Nat.min_l | rewrite Nat.min_r by lia; by rewrite !take_ge by lia]. }
    rewrite Es, Htake. apply gf_snoc; [done | lia].
Qed.

(** A user that writes and shuts down, and the data it was told is written. *)
Inductive grpc_run (s : GrpcStream) : list Z -> GrpcStream -> Prop :=
  | gr_start : grpc_run s [] s
  | gr_write data s1 bytes : grpc_run s data s1 ->
      grpc_run s (data ++ match (grpc_poll_write s1 bytes).1 with Ready (Ok n) => take n bytes | _ => [] end) (grpc_poll_write s1 bytes).2
  | gr_shutdown data s1 : grpc_run s data s1 -> grpc_run s data (grpc_poll_shutdown s1).2.

Lemma grpc_run_sent s data s' : g_sent s = [] -> grpc_run s data s' -> gun_framed (g_sent s') data.
Proof.
  intros Hs Hr. induction Hr as [|data s1 bytes _ IH|data s1 _ IH]; [rewrite Hs; constructor | by apply grpc_write_sent|].
  unfold grpc_poll_shutdown. by destruct (g_end s1).
Qed.

(** C27: data survives a gRPC stream: what writes of any sizes have accepted, however
    the capacity of the connection arrives, is exactly what a stream at the other
    end reads before the end, with the bytes in any pieces, empty ones included,
    and buffers of any sizes. *)
Theorem grpc_roundtrip response body caps data s response' body' caps' sizes :
  grpc_run (Grpc_new response body caps) data s -> arrives response' = Some true -> body_stream body' = (g_sent s, Ends) ->
  Forall (lt 0) sizes -> (3 * body_work body' + length response' < length sizes)%nat ->
  read_to_end sizes (Grpc_new response' body' caps') = Some (data, Ends).
Proof.
  intros Hrun Ha Hb Hsz Hw. apply grpc_run_sent in Hrun; [|done].
  rewrite read_to_end_left; [|split; [done|]; cbn [Grpc_new g_response]; by rewrite Ha | done | cbn [work grpc_reader]; unfold g_work; simpl; lia].
  cbn [left grpc_reader]. unfold g_left, g_rest. cbn [Grpc_new g_response g_payload g_payload_at g_incoming g_body]. rewrite Ha, Hb, drop_nil, prepend_nil.
  cbn [app fst snd]. rewrite <- (app_nil_r (g_sent s)), (gun_framed_decode _ _ Hrun). unfold prepend. simpl. by rewrite app_nil_r.
Qed.

Lemma grpc_roundtrip_witness :
  let s := (grpc_poll_write (Grpc_new [] [] [CapacityNow 3; CapacityNow 9]) [97; 98]).2 in
  read_to_end (replicate 60 1%nat) (Grpc_new [ResponseWait; ResponseStatus 200 []] [BodyData [0; 0; 0]; BodyWait; BodyData []; BodyData [0; 4; 10; 2; 97; 98]] []) =
    Some ([97; 98], Ends).
Proof.
  intros s. refine (grpc_roundtrip [] [] [CapacityNow 3; CapacityNow 9] [97; 98] s _ _ [] (replicate 60 1%nat) _ _ _ _ _).
  - apply (gr_write _ [] (Grpc_new [] [] [CapacityNow 3; CapacityNow 9]) [97; 98]). apply gr_start.
  - reflexivity.
  - reflexivity.
  - apply Forall_replicate. lia.
  - vm_compute. lia.
Defined.
