(* ===== verification/GrpcPool.v ===== *)
(** * The pool of gRPC connections

    The HTTP/2 connections that crates/protocol/src/grpc.rs keeps and shares: the
    tasks that call [connect], with the lock that serializes them, the leases they
    take on a connection, and the streams they end in.  Every await of [connect] is
    a point where the tasks interleave and where a task may be dropped.  The limits of
    the configuration are shown as an invariant of all interleavings. *)

From S2P Require Import Prelude FfiAbi RustStr.
Local Open Scope Z_scope.

(** ** Choosing a connection *)

Record GrpcOptions := mk_options { max_connections : Z; min_streams : Z; max_streams : Z }.

Definition reuse_least_loaded (load connections : Z) (o : GrpcOptions) : bool :=
  if load =? 0 then true
  else if 0 <? max_connections o then (max_connections o <=? connections) || (load <? min_streams o)
  else (max_streams o =? 0) || (load <? max_streams o).

(** [min_by_key] returns the first of the least elements. *)
Definition least (load : Z -> Z) (l : list Z) : option Z :=
  match l with [] => None | x :: l => Some (foldl (fun a b => if load b <? load a then b else a) x l) end.

(** [pooled]: the counters are read once in the search and once more after it. *)
Definition pooled (scan load : Z -> Z) (o : GrpcOptions) (l : list Z) : option Z :=
  match least scan l with
  | Some id => if reuse_least_loaded (load id) (Z.of_nat (length l)) o then Some id else None
  | None => None
  end.

(** ** The state *)

(** Where a task is in [connect]: waiting for the lock; at the head of the loop;
    with a connection of the pool, before and after the lease on it; opening a
    connection; with the lease on the new one; past the lock; with its stream. *)
Inductive phase :=
  Locking | Choosing | Chosen (id : Z) | Readying (id : Z) | Dialing | Opened (id : Z) | Requesting (id : Z) | Streaming (id : Z).

Record task := mk_task { t_key : list Z; t_opts : GrpcOptions; t_phase : phase }.

(** [POOL] holds the identifiers of the connections, [active] their counters, which
    streams keep after a connection has left the pool. *)
Record pool_state := mk_pool {
  pool : gmap (list Z) (list Z); active : gmap Z Z; next_id : Z; locks : gmap Z nat; tasks : gmap nat task
}.
Definition pool_new : pool_state := mk_pool ∅ ∅ 1 ∅ ∅.

Definition load (s : pool_state) (id : Z) : Z := default 0 (active s !! id).
Definition connections (s : pool_state) (k : list Z) : list Z := default [] (pool s !! k).

Definition set_task (t : nat) (x : task) (s : pool_state) : pool_state :=
  mk_pool (pool s) (active s) (next_id s) (locks s) (<[t := x]> (tasks s)).
Definition end_task (t : nat) (s : pool_state) : pool_state := mk_pool (pool s) (active s) (next_id s) (locks s) (delete t (tasks s)).

(** [fetch_add] and [fetch_sub] on a counter. *)
Definition bump (d : Z) (id : Z) (s : pool_state) : pool_state :=
  mk_pool (pool s) (<[id := load s id + d]> (active s)) (next_id s) (locks s) (tasks s).

Definition remove_physical (k : list Z) (id : Z) (s : pool_state) : pool_state :=
  match pool s !! k with
  | None => s
  | Some l =>
      let l := filter (fun x => x <> id) l in
      mk_pool (if bool_decide (l = []) then delete k (pool s) else <[k := l]> (pool s)) (active s) (next_id s) (locks s) (tasks s)
  end.

(** A new connection: its identifier, its counter, its place in the pool. *)
Definition add_physical (k : list Z) (s : pool_state) : pool_state :=
  mk_pool (<[k := connections s k ++ [next_id s]]> (pool s)) (<[next_id s := 0]> (active s)) (next_id s + 1) (locks s) (tasks s).

(** The connection a task has a lease on. *)
Definition leased (p : phase) : option Z :=
  match p with Readying id | Opened id | Requesting id | Streaming id => Some id | _ => None end.

Definition drop_lease (p : phase) (s : pool_state) : pool_state :=
  match leased p with Some id => bump (-1) id s | None => s end.

(** The phases in which a task holds the lock. *)
Definition creating (p : phase) : bool := match p with Choosing | Chosen _ | Readying _ | Dialing | Opened _ => true | _ => false end.

(** The awaits. *)
Definition awaits (p : phase) : bool := match p with Locking | Readying _ | Dialing | Opened _ => true | _ => false end.

Section steps.
(** The options with which [connect] is called for a pool: the key of a pool does
    not contain the limits, so that there may be several.  The lock of a key: its
    hash modulo the number of locks. *)
Variables (allowed : list Z -> GrpcOptions -> Prop) (bucket : list Z -> Z).

Definition lock (t : nat) (k : list Z) (s : pool_state) : pool_state :=
  mk_pool (pool s) (active s) (next_id s) (<[bucket k := t]> (locks s)) (tasks s).
Definition unlock (k : list Z) (s : pool_state) : pool_state := mk_pool (pool s) (active s) (next_id s) (delete (bucket k) (locks s)) (tasks s).

(** Dropping what a task holds: its lease and its lock. *)
Definition release (x : task) (s : pool_state) : pool_state :=
  drop_lease (t_phase x) (if creating (t_phase x) then unlock (t_key x) s else s).

Inductive pool_step (s : pool_state) : pool_state -> Prop :=
  | st_connect t k o : tasks s !! t = None -> allowed k o -> pool_step s (set_task t (mk_task k o Locking) s)
  | st_lock t k o : tasks s !! t = Some (mk_task k o Locking) -> locks s !! bucket k = None ->
      pool_step s (set_task t (mk_task k o Choosing) (lock t k s))
  | st_pooled t k o scan id : tasks s !! t = Some (mk_task k o Choosing) -> pooled scan (load s) o (connections s k) = Some id ->
      pool_step s (set_task t (mk_task k o (Chosen id)) s)
  | st_lease t k o id : tasks s !! t = Some (mk_task k o (Chosen id)) -> pool_step s (set_task t (mk_task k o (Readying id)) (bump 1 id s))
  | st_ready t k o id : tasks s !! t = Some (mk_task k o (Readying id)) -> pool_step s (set_task t (mk_task k o (Requesting id)) (unlock k s))
  | st_dead t k o id : tasks s !! t = Some (mk_task k o (Readying id)) ->
      pool_step s (set_task t (mk_task k o Choosing) (bump (-1) id (remove_physical k id s)))
  | st_dial t k o scan : tasks s !! t = Some (mk_task k o Choosing) -> pooled scan (load s) o (connections s k) = None ->
      pool_step s (set_task t (mk_task k o Dialing) s)
  | st_opened t k o : tasks s !! t = Some (mk_task k o Dialing) -> next_id s < 2 ^ 64 - 1 ->
      pool_step s (set_task t (mk_task k o (Opened (next_id s))) (bump 1 (next_id s) (add_physical k s)))
  | st_new_ready t k o id : tasks s !! t = Some (mk_task k o (Opened id)) -> pool_step s (set_task t (mk_task k o (Requesting id)) (unlock k s))
  | st_request t k o id : tasks s !! t = Some (mk_task k o (Requesting id)) -> pool_step s (set_task t (mk_task k o (Streaming id)) s)
  | st_fail t x : tasks s !! t = Some x -> awaits (t_phase x) = true \/ leased (t_phase x) <> None -> pool_step s (end_task t (release x s))
  | st_closed k id : pool_step s (remove_physical k id s).

Inductive pool_reach : pool_state -> Prop :=
  | pr_new : pool_reach pool_new
  | pr_step s s' : pool_reach s -> pool_step s s' -> pool_reach s'.

End steps.

(** ** The bounds of the pool of gRPC connections

    An invariant of all interleavings: counters count leases, connections of a pool
    are opened one at a time, and the limits of the configuration hold. *)

(** *** Counting leases *)

Definition weight (id : Z) (x : option task) : Z :=
  match x with Some x => if decide (leased (t_phase x) = Some id) then 1 else 0 | None => 0 end.
Definition leases (id : Z) (m : gmap nat task) : Z := map_fold (fun _ x n => weight id (Some x) + n) 0 m.

Lemma leases_insert id m t x : m !! t = None -> leases id (<[t := x]> m) = weight id (Some x) + leases id m.
Proof. intros Ht. unfold leases. apply (map_fold_insert_L (fun (_ : nat) x n => weight id (Some x) + n)); [intros; lia | done]. Qed.

Lemma leases_delete id m t : leases id (delete t m) = leases id m - weight id (m !! t).
Proof.
  destruct (m !! t) as [x|] eqn:E; [|rewrite delete_id by done; cbn [weight]; lia].
  rewrite <- (insert_delete_id m t x E) at 2. rewrite leases_insert by apply lookup_delete_eq. lia.
Qed.

Lemma leases_set id m t x : leases id (<[t := x]> m) = leases id m - weight id (m !! t) + weight id (Some x).
Proof. rewrite <- insert_delete_eq, leases_insert by apply lookup_delete_eq. rewrite leases_delete. lia. Qed.

Lemma leases_none id m : (forall t x, m !! t = Some x -> leased (t_phase x) <> Some id) -> leases id m = 0.
Proof.
  induction m as [|t x m Ht IH] using map_ind; intros Hm; [done|]. rewrite leases_insert by done. cbn [weight].
  rewrite decide_False by (apply (Hm t), lookup_insert_eq). rewrite IH; [done|]. intros t' x' Ht'. apply (Hm t'). rewrite lookup_insert_ne; [done | congruence].
Qed.

Lemma leases_nonneg id m : 0 <= leases id m.
Proof.
  induction m as [|t x m Ht IH] using map_ind; [done|]. rewrite leases_insert by done. cbn [weight]. destruct (decide _); lia.
Qed.

Lemma load_bump d id s i : load (bump d id s) i = load s i + (if decide (id = i) then d else 0).
Proof.
  unfold load at 1. unfold bump. cbn [active]. destruct (decide (id = i)) as [->|Hne]; [by rewrite lookup_insert_eq|].
  rewrite lookup_insert_ne by done. fold (load s i). lia.
Qed.

Lemma least_in f l id : least f l = Some id -> In id l.
Proof.
  destruct l as [|x l]; [done|]. intros [= <-]. revert x. induction l as [|y l IH]; intros x; [by left|]. cbn [foldl].
  destruct (f y <? f x); [right; apply IH | destruct (IH x) as [E|]; [by left | right; by right]].
Qed.

Section facts.
Variables (allowed : list Z -> GrpcOptions -> Prop) (bucket : list Z -> Z).

(** Every call for a pool limits its connections, to at most [m]. *)
Definition connection_limit (k : list Z) (m : Z) : Prop := 0 <= m /\ forall o, allowed k o -> 0 < max_connections o <= m.
(** Every call for a pool limits only the streams of a connection, to at most [m]. *)
Definition stream_limit (k : list Z) (m : Z) : Prop := 1 <= m /\ forall o, allowed k o -> max_connections o = 0 /\ 0 < max_streams o <= m.

(** *** The invariant *)

(** The connection a task has chosen or has a lease on. *)
Definition uses (p : phase) : option Z := match p with Chosen id => Some id | _ => leased p end.

Record pool_inv (s : pool_state) : Prop := {
  pi_active : forall id, load s id = leases id (tasks s);
  pi_lock : forall t x, tasks s !! t = Some x -> creating (t_phase x) = true -> locks s !! bucket (t_key x) = Some t;
  pi_fresh : forall k id, In id (connections s k) -> id < next_id s;
  pi_used : forall t x id, tasks s !! t = Some x -> uses (t_phase x) = Some id -> id < next_id s;
  pi_pool : forall k k' id, In id (connections s k) -> In id (connections s k') -> k = k';
  pi_owner : forall t x k id, tasks s !! t = Some x -> uses (t_phase x) = Some id -> In id (connections s k) -> t_key x = k;
  pi_opts : forall t x, tasks s !! t = Some x -> allowed (t_key x) (t_opts x);
  pi_number : forall k m, connection_limit k m -> Z.of_nat (length (connections s k)) <= m;
  pi_dialing : forall t x m, tasks s !! t = Some x -> t_phase x = Dialing -> connection_limit (t_key x) m ->
    Z.of_nat (length (connections s (t_key x))) < m;
  pi_streams : forall k id m, stream_limit k m -> In id (connections s k) -> load s id <= m;
  pi_chosen : forall t x id m, tasks s !! t = Some x -> t_phase x = Chosen id -> stream_limit (t_key x) m ->
    In id (connections s (t_key x)) -> load s id < m
}.

(** Two tasks that hold the lock of a pool are one. *)
Lemma creating_one s t x t' x' : pool_inv s -> tasks s !! t = Some x -> tasks s !! t' = Some x' -> creating (t_phase x) = true -> creating (t_phase x') = true ->
  t_key x = t_key x' -> t = t'.
Proof.
  intros Hs Ht Ht' Hc Hc' Hk. pose proof (pi_lock _ Hs t x Ht Hc) as E. pose proof (pi_lock _ Hs t' x' Ht' Hc') as E'. rewrite Hk, E' in E. congruence.
Qed.

(** A step that changes one task, no connection and no counter but by the leases
    of the task. *)
Lemma inv_tasks s s' t old new : pool_inv s -> tasks s !! t = old -> tasks s' = (match new with Some x => <[t := x]> (tasks s) | None => delete t (tasks s) end) ->
  pool s' = pool s -> next_id s' = next_id s -> (forall id, load s' id = load s id - weight id old + weight id new) ->
  (forall t' x, t' <> t -> tasks s !! t' = Some x -> creating (t_phase x) = true -> locks s' !! bucket (t_key x) = Some t') ->
  (forall x, new = Some x -> (creating (t_phase x) = true -> locks s' !! bucket (t_key x) = Some t) /\
     (forall id, uses (t_phase x) = Some id -> id < next_id s /\ forall k, In id (connections s k) -> t_key x = k) /\
     allowed (t_key x) (t_opts x) /\
     (forall m, t_phase x = Dialing -> connection_limit (t_key x) m -> Z.of_nat (length (connections s (t_key x))) < m) /\
     (forall id m, t_phase x = Chosen id -> stream_limit (t_key x) m -> In id (connections s (t_key x)) -> load s' id < m)) ->
  (forall id, weight id old < weight id new -> exists x, old = Some x /\ t_phase x = Chosen id) ->
  pool_inv s'.
Proof.
  intros Hs Hold Ht Hpool Hnext Hload Hlocks Hnew Hup.
  assert (Hconn : forall k, connections s' k = connections s k) by (intros; unfold connections; by rewrite Hpool).
  assert (Hcase : forall t' x, tasks s' !! t' = Some x -> (t' = t /\ new = Some x) \/ (t' <> t /\ tasks s !! t' = Some x)).
  { intros t' x. rewrite Ht. destruct new as [y|]; [intros [[<- <-]|[? ?]]%lookup_insert_Some; auto | intros [? ?]%lookup_delete_Some; auto]. }
  (* a counter grows by the task that has chosen the connection, which holds the lock *)
  assert (Hgrow : forall id k, load s id < load s' id -> In id (connections s k) -> exists x, old = Some x /\ t_phase x = Chosen id /\ t_key x = k /\ load s' id = load s id + 1).
  { intros id k Hlt Hin. rewrite Hload in Hlt |- *. destruct (Hup id ltac:(lia)) as (x & -> & Hx). exists x. split; [done|]. split; [done|].
    split; [eapply (pi_owner _ Hs t x k id); [done | by rewrite Hx | done]|]. cbn [weight] in *. rewrite Hx in *. cbn [leased] in *.
    rewrite decide_False in * by done. destruct new as [y|]; cbn [weight] in *; [destruct (decide _); lia | lia]. }
  split.
  - intros id. rewrite Hload, (pi_active _ Hs), Ht. destruct new as [y|]; [rewrite leases_set | rewrite leases_delete]; rewrite Hold; simpl; lia.
  - intros t' x [[-> E]|[Hne E]]%Hcase Hc; [by apply Hnew | by apply Hlocks].
  - intros k id. rewrite Hconn, Hnext. apply (pi_fresh _ Hs).
  - intros t' x id [[-> E]|[Hne E]]%Hcase Hu; rewrite Hnext; [by apply (Hnew x E) | by eapply (pi_used _ Hs)].
  - intros k k' id. rewrite !Hconn. apply (pi_pool _ Hs).
  - intros t' x k id [[-> E]|[Hne E]]%Hcase Hu; rewrite Hconn; [by apply (Hnew x E) | by eapply (pi_owner _ Hs)].
  - intros t' x [[-> E]|[Hne E]]%Hcase; [by apply (Hnew x E) | by eapply (pi_opts _ Hs)].
  - intros k m. rewrite Hconn. apply (pi_number _ Hs).
  - intros t' x m [[-> E]|[Hne E]]%Hcase Hx; rewrite Hconn; [by apply (Hnew x E) | by eapply (pi_dialing _ Hs)].
  - intros k id m Hm. rewrite Hconn. intros Hin. pose proof (pi_streams _ Hs k id m Hm Hin) as Hle.
    destruct (decide (load s id < load s' id)) as [Hlt|]; [|lia]. destruct (Hgrow id k Hlt Hin) as (x & -> & Hx & <- & El).
    pose proof (pi_chosen _ Hs t x id m Hold Hx Hm Hin). lia.
  - intros t' x id m [[-> E]|[Hne E]]%Hcase Hx; rewrite Hconn; [by apply (Hnew x E)|]. intros Hm Hin.
    pose proof (pi_chosen _ Hs t' x id m E Hx Hm Hin) as Hlt0. destruct (decide (load s id < load s' id)) as [Hlt|]; [|lia].
    destruct (Hgrow id (t_key x) Hlt Hin) as (y & -> & Hy & Hk & _). destruct Hne.
    eapply (creating_one s t' x t y); [done | done | done | by rewrite Hx | by rewrite Hy | by rewrite Hk].
Qed.

(** A connection leaves the pool. *)
Lemma connections_remove k id s k' : connections (remove_physical k id s) k' = (if decide (k' = k) then filter (fun x => x <> id) (connections s k) else connections s k').
Proof.
  unfold remove_physical, connections. destruct (pool s !! k) as [l|] eqn:E; [|destruct (decide (k' = k)) as [->|]; [by rewrite E|done]]. cbn [pool].
  destruct (decide (k' = k)) as [->|Hne]; [simpl|].
  - destruct (bool_decide_reflect (filter (fun x => x <> id) l = [])) as [El|El]; [rewrite lookup_delete_eq; cbn; by rewrite El | by rewrite lookup_insert_eq].
  - destruct (bool_decide _); [by rewrite lookup_delete_ne | by rewrite lookup_insert_ne].
Qed.

Lemma remove_same k id s : tasks (remove_physical k id s) = tasks s /\ active (remove_physical k id s) = active s /\
  next_id (remove_physical k id s) = next_id s /\ locks (remove_physical k id s) = locks s.
Proof. unfold remove_physical. by destruct (pool s !! k). Qed.

Lemma inv_remove k id s : pool_inv s -> pool_inv (remove_physical k id s).
Proof.
  intros Hs. destruct (remove_same k id s) as (Et & Ea & En & El). set (s' := remove_physical k id s) in *.
  assert (Hload : forall i, load s' i = load s i) by (intros; unfold load; by rewrite Ea).
  assert (Hsub : forall k' i, In i (connections s' k') -> In i (connections s k')).
  { intros k' i. unfold s'. rewrite connections_remove. destruct (decide (k' = k)) as [->|]; [|done].
    rewrite <- !list_elem_of_In. intros [_ Hi]%list_elem_of_filter. done. }
  assert (Hlen : forall k', (length (connections s' k') <= length (connections s k'))%nat).
  { intros k'. unfold s'. rewrite connections_remove. destruct (decide (k' = k)) as [->|]; [|done]. apply length_filter. }
  split; intros *; rewrite ?Et, ?El, ?En, ?Hload.
  - apply (pi_active _ Hs).
  - apply (pi_lock _ Hs).
  - intros Hi%Hsub. by apply (pi_fresh _ Hs k0).
  - apply (pi_used _ Hs).
  - intros Hi%Hsub Hi'%Hsub. by eapply (pi_pool _ Hs).
  - intros Ht Hu Hi%Hsub. by eapply (pi_owner _ Hs).
  - apply (pi_opts _ Hs).
  - intros Hm. pose proof (pi_number _ Hs k0 m Hm). specialize (Hlen k0). lia.
  - intros Ht Hp Hm. pose proof (pi_dialing _ Hs _ _ m Ht Hp Hm). specialize (Hlen (t_key x)). lia.
  - intros Hm Hi%Hsub. by eapply (pi_streams _ Hs).
  - intros Ht Hp Hm Hi%Hsub. by eapply (pi_chosen _ Hs).
Qed.

(** A connection is opened. *)
Lemma inv_opened s t k o : pool_inv s -> tasks s !! t = Some (mk_task k o Dialing) ->
  pool_inv (set_task t (mk_task k o (Opened (next_id s))) (bump 1 (next_id s) (add_physical k s))).
Proof.
  intros Hs Ht. set (n := next_id s). set (s' := set_task _ _ _).
  assert (Hconn : forall k', connections s' k' = if decide (k' = k) then connections s k ++ [n] else connections s k').
  { intros k'. unfold s', connections. cbn [set_task bump add_physical pool]. destruct (decide (k' = k)) as [->|]; [by rewrite lookup_insert_eq | by rewrite lookup_insert_ne]. }
  assert (Hin : forall k' i, In i (connections s' k') -> (k' = k /\ i = n) \/ In i (connections s k')).
  { intros k' i. rewrite Hconn. destruct (decide (k' = k)) as [->|]; [|by right]. intros [?|[?|[]]]%in_app_or; auto. }
  assert (H0 : leases n (tasks s) = 0).
  { apply leases_none. intros t' x Hx Hl. assert (n < next_id s); [|unfold n in *; lia].
    apply (pi_used _ Hs t' x n Hx). unfold uses. by destruct (t_phase x). }
  assert (Hload : forall i, load s' i = if decide (n = i) then 1 else load s i).
  { intros i. unfold s', load. cbn [set_task bump active add_physical]. destruct (decide (n = i)) as [<-|Hne].
    - rewrite lookup_insert_eq. unfold load, add_physical. cbn [active]. fold n. by rewrite lookup_insert_eq.
    - by rewrite !lookup_insert_ne. }
  assert (Hcase : forall t' x, tasks s' !! t' = Some x -> (t' = t /\ x = mk_task k o (Opened n)) \/ (t' <> t /\ tasks s !! t' = Some x)).
  { intros t' x. unfold s'. cbn [set_task bump add_physical tasks]. intros [[<- <-]|[? ?]]%lookup_insert_Some; auto. }
  assert (Hother : forall t' x, t' <> t -> tasks s !! t' = Some x -> creating (t_phase x) = true -> t_key x <> k).
  { intros t' x Hne Hx Hc Hk. apply Hne. by eapply (creating_one s t' x t (mk_task k o Dialing)). }
  assert (Hlocks : locks s' = locks s) by done. assert (Hnext : next_id s' = n + 1) by done. split.
  - intros i. rewrite Hload. unfold s'. cbn [set_task bump add_physical tasks]. rewrite leases_set, Ht. cbn [weight t_phase leased].
    rewrite (pi_active _ Hs). repeat case_decide; simplify_eq; lia.
  - intros t' x [[-> ->]|[Hne Hx]]%Hcase Hc; rewrite Hlocks; [by apply (pi_lock _ Hs t (mk_task k o Dialing)) | by apply (pi_lock _ Hs)].
  - intros k' i [[-> ->]|Hi]%Hin; rewrite Hnext; [lia|]. apply (pi_fresh _ Hs) in Hi. unfold n. lia.
  - intros t' x i [[-> ->]|[Hne Hx]]%Hcase Hu; rewrite Hnext; [injection Hu as <-; lia|]. pose proof (pi_used _ Hs _ _ _ Hx Hu). unfold n. lia.
  - intros k1 k2 i [[-> ->]|Hi]%Hin [[-> Ei]|Hi']%Hin; [done | | | by eapply (pi_pool _ Hs)].
    + apply (pi_fresh _ Hs) in Hi'. unfold n in *. lia.
    + apply (pi_fresh _ Hs) in Hi. unfold n in *. lia.
  - intros t' x k' i [[-> ->]|[Hne Hx]]%Hcase Hu [[-> Ei]|Hi]%Hin.
    + done.
    + injection Hu as <-. apply (pi_fresh _ Hs) in Hi. unfold n in *. lia.
    + pose proof (pi_used _ Hs _ _ _ Hx Hu). unfold n in *. lia.
    + by eapply (pi_owner _ Hs).
  - intros t' x [[-> ->]|[Hne Hx]]%Hcase; [exact (pi_opts _ Hs _ _ Ht) | by eapply (pi_opts _ Hs)].
  - intros k' m Hm. rewrite Hconn. destruct (decide (k' = k)) as [->|]; [|by apply (pi_number _ Hs)].
    pose proof (pi_dialing _ Hs t _ m Ht eq_refl Hm) as Hd. cbn [t_key] in Hd. rewrite length_app. cbn [length]. lia.
  - intros t' x m [[-> ->]|[Hne Hx]]%Hcase Hp; [done|]. rewrite Hconn, decide_False by (apply (Hother t' x); [done | done | by rewrite Hp]).
    by eapply (pi_dialing _ Hs).
  - intros k' i m Hm Hi. rewrite Hload. destruct (decide (n = i)); [apply Hm|]. destruct (Hin k' i Hi) as [[_ ->]|Hi']; [done|]. by eapply (pi_streams _ Hs).
  - intros t' x i m [[-> ->]|[Hne Hx]]%Hcase Hp Hm Hi; [done|].
    assert (Hk : t_key x <> k) by (apply (Hother t' x); [done | done | by rewrite Hp]). destruct (Hin _ _ Hi) as [[? _]|Hi']; [done|].
    rewrite Hload, decide_False; [by eapply (pi_chosen _ Hs)|]. intros <-. apply (pi_fresh _ Hs) in Hi'. unfold n in *. lia.
Qed.

(** *** Steps *)

Lemma pooled_Some scan f o l id : pooled scan f o l = Some id -> In id l /\ (max_connections o = 0 -> 0 < max_streams o -> f id < max_streams o).
Proof.
  unfold pooled. destruct (least scan l) as [i|] eqn:E; [|done]. destruct (reuse_least_loaded _ _ _) eqn:Er; [|done]. intros [= <-].
  split; [by eapply least_in|]. intros Hm Hs. unfold reuse_least_loaded in Er. destruct (Z.eqb_spec (f i) 0); [lia|]. rewrite Hm in Er. cbn [Z.ltb Z.compare] in Er.
  apply orb_true_iff in Er as [?%Z.eqb_eq|?%Z.ltb_lt]; lia.
Qed.

Lemma pooled_None scan f o l : pooled scan f o l = None -> 0 < max_connections o -> Z.of_nat (length l) < max_connections o.
Proof.
  unfold pooled. destruct l as [|x l]; [simpl; lia|]. cbn [least]. set (i := foldl _ x l). destruct (reuse_least_loaded _ _ _) eqn:Er; [done|]. intros _ Hm.
  unfold reuse_least_loaded in Er. destruct (_ =? 0); [done|]. rewrite (proj2 (Z.ltb_lt _ _) Hm) in Er. apply orb_false_iff in Er as [?%Z.leb_gt _]. done.
Qed.

(** Giving the lock of a task away does not concern the others. *)
Lemma unlock_others s t x : pool_inv s -> tasks s !! t = Some x -> creating (t_phase x) = true -> forall t' x', t' <> t -> tasks s !! t' = Some x' ->
  creating (t_phase x') = true -> locks (unlock bucket (t_key x) s) !! bucket (t_key x') = Some t'.
Proof.
  intros Hs Ht Hc t' x' Hne Ht' Hc'. pose proof (pi_lock _ Hs _ _ Ht Hc) as E. pose proof (pi_lock _ Hs _ _ Ht' Hc') as E'. cbn [unlock locks].
  rewrite lookup_delete_ne; [done|]. congruence.
Qed.

(** A step of a task that moves on with the same lease, or with one it drops, and
    whose new phase is none that the invariant speaks of. *)
Lemma inv_move s s' t x new : pool_inv s -> tasks s !! t = Some x ->
  tasks s' = (match new with Some p => <[t := mk_task (t_key x) (t_opts x) p]> (tasks s) | None => delete t (tasks s) end) ->
  pool s' = pool s -> next_id s' = next_id s ->
  (forall id, load s' id = load s id - weight id (Some x) + weight id (mk_task (t_key x) (t_opts x) <$> new)) ->
  (forall t' x', t' <> t -> tasks s !! t' = Some x' -> creating (t_phase x') = true -> locks s' !! bucket (t_key x') = Some t') ->
  (forall p, new = Some p -> (creating p = true -> locks s' !! bucket (t_key x) = Some t) /\ p <> Dialing /\ (forall id, p <> Chosen id) /\
     (leased p = None \/ leased p = leased (t_phase x))) ->
  pool_inv s'.
Proof.
  intros Hs Ht Htasks Hpool Hnext Hload Hlocks Hnew.
  apply (inv_tasks s s' t (Some x) (mk_task (t_key x) (t_opts x) <$> new)); try done; [by destruct new | |].
  - intros y Hy. destruct new as [p|]; [|done]. injection Hy as <-. destruct (Hnew p eq_refl) as (Hl & Hd & Hc & Hle). cbn [t_phase t_key].
    split; [done|]. split; [|split; [exact (pi_opts _ Hs _ _ Ht)|]; split; [done | intros id m E; by destruct (Hc id)]]. intros id Hu.
    assert (Hlp : leased p = Some id) by (destruct p; try done; by destruct (Hc id0)). destruct Hle as [E|E]; [congruence|].
    assert (Hux : uses (t_phase x) = Some id) by (rewrite E in Hlp; unfold uses; by destruct (t_phase x)).
    split; [by eapply (pi_used _ Hs) | intros k; by eapply (pi_owner _ Hs)].
  - intros id Hlt. exfalso. destruct new as [p|]; [|cbn [fmap option_fmap option_map weight] in Hlt; destruct (decide _); lia].
    destruct (Hnew p eq_refl) as (_ & _ & _ & Hle). cbn [fmap option_fmap option_map weight t_phase] in Hlt. destruct Hle as [E|E]; rewrite E in Hlt; repeat case_decide; (done || lia).
Qed.

Lemma weight_bump s x id : load (drop_lease (t_phase x) s) id = load s id - weight id (Some x).
Proof.
  unfold drop_lease. cbn [weight]. destruct (leased (t_phase x)) as [i|]; [rewrite load_bump; repeat case_decide; simplify_eq; lia | rewrite decide_False by done; lia].
Qed.

Lemma release_inv s t x : pool_inv s -> tasks s !! t = Some x -> pool_inv (end_task t (release bucket x s)).
Proof.
  intros Hs Ht. assert (Hrel : tasks (release bucket x s) = tasks s /\ pool (release bucket x s) = pool s /\ next_id (release bucket x s) = next_id s /\
    locks (release bucket x s) = (if creating (t_phase x) then delete (bucket (t_key x)) (locks s) else locks s)).
  { unfold release, drop_lease. by destruct (leased (t_phase x)), (creating (t_phase x)). }
  destruct Hrel as (Et & Ep & En & El). apply (inv_move s _ t x None); try done.
  - cbn [end_task tasks]. by rewrite Et.
  - intros id. cbn [fmap option_fmap option_map weight]. rewrite Z.add_0_r. unfold end_task, load. cbn [active]. fold (load (release bucket x s) id).
    unfold release. rewrite weight_bump. by destruct (creating _).
  - intros t' x' Hne Ht' Hc'. cbn [end_task locks]. rewrite El. destruct (creating (t_phase x)) eqn:Ec; [by apply (unlock_others s t x) | by apply (pi_lock _ Hs)].
Qed.

Lemma step_inv s s' : pool_inv s -> pool_step allowed bucket s s' -> pool_inv s'.
Proof.
  intros Hs Hstep. pose proof (fun t x => pi_lock _ Hs t x) as Hlk.
  assert (Hsame : forall k o p q s1, load s1 = load s -> leased p = leased q -> forall id, load s1 id = load s id - weight id (Some (mk_task k o p)) + weight id (Some (mk_task k o q))).
  { intros k o p q s1 El Epq id. cbn [weight t_phase]. rewrite El, Epq. lia. }
  destruct Hstep as [t k o Ht Ho|t k o Ht Hl|t k o scan id Ht Hp|t k o id Ht|t k o id Ht|t k o id Ht|t k o scan Ht Hp|t k o Ht Hn|t k o id Ht|t k o id Ht|t x Ht Hx|k id].
  - apply (inv_tasks s _ t None (Some (mk_task k o Locking))); try done; [|by intros t' x Hne; apply Hlk | by intros x [= <-]].
    intros id. cbn [weight t_phase leased]. rewrite decide_False by done. unfold load, set_task. cbn [active]. lia.
  - apply (inv_move s _ t (mk_task k o Locking) (Some Choosing)); try done; [by apply Hsame | |].
    + intros t' x Hne Hx Hc. cbn [set_task lock locks]. rewrite lookup_insert_ne; [by apply Hlk|]. intros E. rewrite E, (Hlk _ _ Hx Hc) in Hl. done.
    + intros p [= <-]. split; [intros _; apply lookup_insert_eq | split; [done|]; split; [done | by left]].
  - destruct (pooled_Some _ _ _ _ _ Hp) as [Hin Hb].
    apply (inv_tasks s _ t (Some (mk_task k o Choosing)) (Some (mk_task k o (Chosen id)))); try done; [by apply Hsame | by intros t' x Hne; apply Hlk |].
    intros x [= <-]. split; [intros _; by apply (Hlk t _ Ht)|]. pose proof (pi_opts _ Hs _ _ Ht) as Ho. split; [|split; [done|]; split; [done|]].
    + intros i [= <-]. split; [by eapply (pi_fresh _ Hs) | intros k'; by eapply (pi_pool _ Hs)].
    + intros i m [= <-] [_ Hm] _. destruct (Hm o Ho) as [E1 E2]. specialize (Hb E1 ltac:(lia)). change (load s id < m). lia.
  - apply (inv_tasks s _ t (Some (mk_task k o (Chosen id))) (Some (mk_task k o (Readying id)))); try done; [| by intros t' x Hne; apply Hlk | |].
    + intros i. change (load (set_task t (mk_task k o (Readying id)) (bump 1 id s)) i) with (load (bump 1 id s) i). rewrite load_bump.
      cbn [weight t_phase leased]. repeat case_decide; simplify_eq; lia.
    + intros x [= <-]. split; [intros _; by apply (Hlk t _ Ht)|]. split; [|split; [exact (pi_opts _ Hs _ _ Ht) | done]]. intros i [= <-].
      split; [by eapply (pi_used _ Hs t) | intros k'; by eapply (pi_owner _ Hs t (mk_task k o (Chosen id)))].
    + intros i. cbn [weight t_phase leased]. rewrite (decide_False (P := None = Some i)) by done. case_decide; [|lia]. simplify_eq. by exists (mk_task k o (Chosen i)).
  - apply (inv_move s _ t (mk_task k o (Readying id)) (Some (Requesting id))); try done; [by apply Hsame | by apply (unlock_others s t _ Hs Ht) |].
    intros p [= <-]. split; [done|]. split; [done|]. split; [done | by right].
  - destruct (remove_same k id s) as (Et & Ea & En & El). apply (inv_remove k id) in Hs. set (s1 := remove_physical k id s) in *.
    apply (inv_move s1 _ t (mk_task k o (Readying id)) (Some Choosing)); try done; [by rewrite Et | | |].
    + intros i. change (load (set_task t (mk_task k o Choosing) (bump (-1) id s1)) i) with (load (bump (-1) id s1) i). rewrite load_bump.
      cbn [fmap option_fmap option_map weight t_phase leased]. repeat case_decide; simplify_eq; lia.
    + intros t' x Hne. by apply (pi_lock _ Hs).
    + intros p [= <-]. split; [intros _; apply (pi_lock _ Hs t (mk_task k o (Readying id))); [by rewrite Et | done] | split; [done|]; split; [done | by left]].
  - apply (inv_tasks s _ t (Some (mk_task k o Choosing)) (Some (mk_task k o Dialing))); try done; [by apply Hsame | by intros t' x Hne; apply Hlk |].
    intros x [= <-]. split; [intros _; by apply (Hlk t _ Ht)|]. pose proof (pi_opts _ Hs _ _ Ht) as Ho. split; [done|]. split; [done|]. split; [|done].
    intros m _ [_ Hm]. destruct (Hm o Ho) as [E1 E2]. pose proof (pooled_None _ _ _ _ Hp E1). cbn [t_key]. lia.
  - by apply inv_opened.
  - apply (inv_move s _ t (mk_task k o (Opened id)) (Some (Requesting id))); try done; [by apply Hsame | by apply (unlock_others s t _ Hs Ht) |].
    intros p [= <-]. split; [done|]. split; [done|]. split; [done | by right].
  - apply (inv_move s _ t (mk_task k o (Requesting id)) (Some (Streaming id))); try done; [by apply Hsame | by intros t' x Hne; apply Hlk |].
    intros p [= <-]. split; [done|]. split; [done|]. split; [done | by right].
  - by apply release_inv.
  - by apply inv_remove.
Qed.

Lemma pool_reach_inv s : pool_reach allowed bucket s -> pool_inv s.
Proof. induction 1 as [|s s' _ IH Hstep]; [|by eapply step_inv]. split; try done. intros k m Hm. apply Hm. Qed.

(** C28: the limits of the configuration hold in every interleaving of connecting,
    failing, cancelled and ending tasks.  The options of a call are not a function
    of the pool, whose key leaves the limits out.  If all calls for a pool limit
    its connections, it never has more than the greatest of the limits
    [max_connections]; if they limit the streams instead, no connection of the pool
    carries more than the greatest of the limits [max_streams]; at most one task at
    a time opens a connection of a pool; and the counter of a connection is the
    number of tasks that use it. *)
Theorem grpc_pool_bounded s : pool_reach allowed bucket s ->
  (forall k m, 0 <= m -> (forall o, allowed k o -> 0 < max_connections o <= m) -> Z.of_nat (length (connections s k)) <= m) /\
  (forall k id m, 1 <= m -> (forall o, allowed k o -> max_connections o = 0 /\ 0 < max_streams o <= m) -> In id (connections s k) -> load s id <= m) /\
  (forall t t' x x', tasks s !! t = Some x -> tasks s !! t' = Some x' -> creating (t_phase x) = true -> creating (t_phase x') = true ->
     t_key x = t_key x' -> t = t') /\
  (forall id, load s id = leases id (tasks s) /\ 0 <= load s id).
Proof.
  intros Hs%pool_reach_inv. split; [intros; by apply (pi_number _ Hs)|]. split; [intros; by eapply (pi_streams _ Hs)|]. split.
  - intros t t' x x' Ht Ht' Hc Hc' Hk. by eapply creating_one.
  - intros id. rewrite (pi_active _ Hs). split; [done | apply leases_nonneg].
Qed.

End facts.

(** *** Examples *)

(** Two configurations of one pool. *)
Definition options_a : GrpcOptions := mk_options 2 1 0.
Definition options_b : GrpcOptions := mk_options 3 2 0.
Definition example_allowed (k : list Z) (o : GrpcOptions) : Prop := o = options_a \/ o = options_b.
Definition example_task (o : GrpcOptions) (p : phase) : task := mk_task [97] o p.

(** A task connects with a new connection, which a second one would share, but a third
    one finds loaded. *)
Definition example_pool : pool_state :=
  let s := set_task 1 (example_task options_a Locking) pool_new in
  let s := set_task 1 (example_task options_a Choosing) (lock (fun _ => 0) 1 [97] s) in
  let s := set_task 1 (example_task options_a Dialing) s in
  let s := set_task 1 (example_task options_a (Opened (next_id s))) (bump 1 (next_id s) (add_physical [97] s)) in
  let s := set_task 1 (example_task options_a (Requesting 1)) (unlock (fun _ => 0) [97] s) in
  let s := set_task 2 (example_task options_b Locking) s in
  let s := set_task 2 (example_task options_b Choosing) (lock (fun _ => 0) 2 [97] s) in
  let s := set_task 2 (example_task options_b (Chosen 1)) s in
  let s := set_task 2 (example_task options_b (Readying 1)) (bump 1 1 s) in
  let s := set_task 2 (example_task options_b (Requesting 1)) (unlock (fun _ => 0) [97] s) in
  let s := set_task 3 (example_task options_a Locking) s in
  let s := set_task 3 (example_task options_a Choosing) (lock (fun _ => 0) 3 [97] s) in
  set_task 3 (example_task options_a Dialing) s.

Lemma example_pool_reach : pool_reach example_allowed (fun _ => 0) example_pool.
Proof.
  unfold example_pool.
  eapply pr_step; [|by apply (st_dial _ _ _ 3 [97] options_a (fun _ => 0))]. eapply pr_step; [|by apply (st_lock _ _ _ 3 [97])].
  eapply pr_step; [|apply (st_connect _ _ _ 3 [97] options_a); [done | by left]]. eapply pr_step; [|by apply (st_ready _ _ _ 2 [97] options_b 1)].
  eapply pr_step; [|by apply (st_lease _ _ _ 2 [97] options_b 1)]. eapply pr_step; [|by apply (st_pooled _ _ _ 2 [97] options_b (fun _ => 0) 1)].
  eapply pr_step; [|by apply (st_lock _ _ _ 2 [97])]. eapply pr_step; [|apply (st_connect _ _ _ 2 [97] options_b); [done | by right]].
  eapply pr_step; [|by apply (st_new_ready _ _ _ 1 [97] options_a 1)].
  eapply pr_step; [|by apply (st_opened _ _ _ 1 [97])]. eapply pr_step; [|by apply (st_dial _ _ _ 1 [97] options_a (fun _ => 0))].
  eapply pr_step; [|by apply (st_lock _ _ _ 1 [97])]. eapply pr_step; [|apply (st_connect _ _ _ 1 [97] options_a); [done | by left]]. apply pr_new.
Qed.

Lemma grpc_pool_bounded_witness : Z.of_nat (length (connections example_pool [97])) <= 3 /\ load example_pool 1 = 2.
Proof.
  destruct (grpc_pool_bounded example_allowed (fun _ => 0) example_pool example_pool_reach) as (Hn & _ & _ & Hl).
  split; [apply (Hn [97]); [lia | by intros o [-> | ->]]|]. rewrite (proj1 (Hl 1)). by vm_compute.
Defined.
